(* ===== verification/_CoqProject ===== *)
-Q . S2P
Prelude.v
RustStr.v
Fmt.v
F64.v
Keys.v
Status.v
Fs.v
Config.v
Store.v
Results.v
Stats.v
Git.v
Jobs.v
Branch.v
Api.v
Daemon.v
Sched.v
Gc.v
System.v
Rm.v
Lcov.v
CgiAssets.v
Cgi.v
CiStatus.v
Dashboard.v
Syzbot.v
