(* ===== verification/Prelude.v ===== *)
(** * The ktest CI: a verification development

    ktest's CI runs kernel tests on a pool of machines and publishes the
    results. The programs under src/src share one library (src/src/lib.rs) and
    one directory of results: a daemon schedules the jobs, runs them over ssh and
    records their verdicts; tools regenerate, average, collect and delete
    results; a CGI dashboard and a command line client show them. This library
    models those programs as executable definitions and proves what makes them
    correct.

    ** Parts

    What the programs share:
    - RustStr, Fmt, F64: the operations of [str], [std::fmt] and [f64] in use.
    - Fs: the file system as [std::fs] shows it, a finite map from paths to
      files, directories and links. [OsEnv] says which paths the system refuses,
      which writes are cut short and in which order a directory is listed.
    - Keys (lib.rs): the names of results and the encoding of environments.
    - Status (lib.rs, testresult.capnp): [TestStatus], [TestResult].
    - Config (lib.rs, users.rs): ktest-ci.json5, the users' configurations, the
      resolution of [extends] chains.
    - Store (lib.rs): the result file of a commit, and [TestResultsStore], the
      daemon's map of results with [load], [lookup], [update] and [delete].
    - Results (lib.rs): status files read, result files regenerated, in-progress
      results cleaned up, and the client's HTTP cache.
    - Stats (lib.rs, gen-avg-duration.rs, durations.capnp): average durations and
      their binary search.
    - Git (lib.rs): what is asked of the git2 crate.
    - Jobs (jobs.rs): the matrix of wanted jobs, their weights and their order.
    - Branch (lib.rs, branchlog.capnp): the results along a branch, roll-ups,
      the last good commit, the branch log file.
    - Api (api.rs): the JSON contract of dashboard and client.
    The programs:
    - Daemon (ci-daemon.rs, [run_ktest_job] and what it calls): one batch on one
      worker. Sched: job specs, [refill], the status file. System: [main]'s start
      and loop beside the executors and the other programs, and the fetcher.
    - Gc (gc-results.rs), Rm (rm-results.rs), Lcov (update-lcov.rs and
      [update_lcov]), Cgi and CgiAssets (cgi.rs), CiStatus (ci-status.rs), Syzbot
      (syzbot-get.rs).
    - Dashboard composes the client with the dashboard.

    ** Interaction

    All programs meet in the output directory: [<commit>/<test>/status] written
    by the workers and the daemon, [<commit>.capnp] written from them. The daemon
    alone keeps a map of the results in memory (Store), which Jobs consults to
    decide what to run and Daemon updates as verdicts arrive. gc-results and
    rm-results change the directory under it. Branch joins a git history with the
    result files; Cgi, CiStatus and Gc are its clients.

    ** What the theorems show

    - Store: the file of every commit holds what the memory holds, after any
      sequence of loads, updates and deletions ([store_mirrored_on_disk]);
      a result file is replaced atomically; the order of disjoint updates does
      not matter; deletion, load and update do what they say in memory, and the
      file reads back as what they say too.
    - Daemon, Sched: a batch terminates; when it returns none of its subtests is
      left in progress, and each has a status (Unknown, which is not a verdict,
      when the file that came back was garbled); it touches no other result,
      and recording a failure overwrites no verdict of the store and writes
      only the status files of subtests in progress; the window holds each
      wanted job once. (A verdict that a failed pull brought to disk, and that
      the store never saw, is overwritten: [pulled_verdict_overwritten].)
    - System: in every state that the daemon reaches no two jobs are for the same
      key; and the file of each commit in memory reads back as memory, unless
      another program changed it after the daemon last wrote it. The daemon
      runs gc-results itself, which removes files of commits it still has in
      memory, so more does not hold ([daemon_sound] and its witness, in which a
      collection takes such a file). A round of the fetcher sets each branch to
      what its own fetch found.
    - Jobs: the specs are the configured ones, one for one; the job list is
      sound, complete and the lightest first; the listing cache answers
      nothing older than the mtime of the test's file.
    - Stats, Config: averages are those of the results and are found by the
      search, which ends on any file; extends chains are resolved or their
      error is named.
    - Branch, Results: views, roll-ups and the branch log.
    - Gc, Rm, Lcov: what is removed is what should be, and nothing that a view
      shows or that was not given to lcov and merged.
    - Api, Cgi, CiStatus, Dashboard: pages and tables show the results
      themselves; every request is answered, or panics in one of three ways
      ([answer_panics_iff]); the client prints of the dashboard's JSON what it
      would print of the results, for names that a URL carries as they are
      (letters, digits, [-._~/:@]): the client escapes nothing.
    - Syzbot: each new file holds what its own crash's URL gave.

    ** Conventions

    A fallible operation gives an [outcome]: [Ok], [Err] or [Panic], the last for
    [unwrap], indexing and slicing gone wrong; a [Result] and a panic are thus
    kept apart. Arithmetic is that of a release build: it wraps at its width. A
    string is its bytes, and lengths and offsets count bytes; a file name need
    not be text. A BTreeMap or HashMap is a [gmap]; [bt_iter] lists it in key
    order, [bt_extend] inserts a sequence, later bindings winning. SystemTime is a
    number of seconds. Operations on the machine take and return the tree ([fs]) or
    the [world], which adds the clock, constant during one operation, and the
    counter of temporary names. The daemon's code runs in a state monad over
    the store and the world, where each command sent to a worker is an oracle
    step in which the other threads and programs run too: they may do
    anything that the hypothesis of a theorem ([owned], for instance) does not
    exclude. Code that is not in the repository, such as capnp, serde, git2, reqwest,
    regex, glob, brotli or jobkit, is a class of operations, with its documented
    laws where a theorem needs them; each theorem with a hypothesis has a witness,
    in which these classes are concrete programs.

    ** Bounds and fuel

    - [resolve_group] takes [S (size raw)] steps at most: the stack of a chain
      holds distinct groups. [resolve_userrc_correct] shows that it ends.
    - the binary search takes [S (length d)]: the range shrinks at every step.
    - the resume loop of a batch takes [length batch + 2] passes: each pass but
      the one after the clean drops a subtest. [run_ktest_job_terminates] shows
      that it returns.
    - a chain of symbolic links is followed 40 times, as Linux does. Links are
      resolved in the last component of a path only, and [..] lexically.

    ** Not modelled

    - time: sleeps are not steps. A refill reads the store and the disk as of
      one moment, and each run of gc-results or gen-avg-duration that the daemon
      starts is one step of System: the modelled program run to its end, cut
      short at some entry, or not started.
    - distro-kernel-fetch.rs calls another crate; build.rs generates code.
    - the texts of the errors of third-party crates and the exact text of most
      messages printed to stderr; argument parsing by clap.
    - the shell scripts, tests and web scripts of the repository, which are not
      Rust. The scripts that cgi.rs embeds are kept as texts, not interpreted. *)

From Stdlib Require Export ZArith Lia Ascii.
From stdpp Require Export base tactics gmap sets strings pretty numbers.
From stdpp Require Export list sorting.

(** ** Automation

    [computed] and [decided] settle closed goals by evaluation; [cases] splits
    on every match in sight and substitutes; the rewrite database [str], filled
    in RustStr, brings appended texts to their right-nested form. *)
Ltac computed := vm_compute; reflexivity.
Ltac decided := apply (bool_decide_eq_true_1 _); computed.
Ltac cases := repeat case_match; intros; simplify_eq; try done.
Create HintDb str.

(** ** Results of fallible Rust code

    [Ok]/[Err] are the two constructors of [Result]; [Panic] is the
    unwinding outcome of [unwrap], of an out-of-range index and of a slice
    off a character boundary. *)
Inductive outcome (E A : Type) : Type :=
  | Ok (a : A)
  | Err (e : E)
  | Panic.
Arguments Ok {E A} a.
Arguments Err {E A} e.
Arguments Panic {E A}.

#[export] Instance outcome_eq_dec {E A} `{EqDecision E, EqDecision A} : EqDecision (outcome E A).
Proof. solve_decision. Defined.
#[export] Instance outcome_ret {E} : MRet (outcome E) := λ A a, Ok a.
#[export] Instance outcome_bind {E} : MBind (outcome E) := λ A B f m,
  match m with Ok a => f a | Err e => Err e | Panic => Panic end.
#[export] Instance outcome_fmap {E} : FMap (outcome E) := λ A B f m,
  match m with Ok a => Ok (f a) | Err e => Err e | Panic => Panic end.

(** [Result::ok]: forget the error. A panic is not caught. *)
Definition is_ok {E A} (m : outcome E A) : bool :=
  match m with Ok _ => true | _ => false end.
Definition outcome_ok {E A} (m : outcome E A) : option A :=
  match m with Ok a => Some a | _ => None end.
Definition map_err {E F A} (f : E → F) (m : outcome E A) : outcome F A :=
  match m with Ok a => Ok a | Err e => Err (f e) | Panic => Panic end.

Lemma outcome_bind_Ok {E A B} (f : A → outcome E B) (m : outcome E A) b :
  m ≫= f = Ok b ↔ ∃ a, m = Ok a ∧ f a = Ok b.
Proof. split; [destruct m; cbn; intros; simplify_eq; eauto|by intros (a & -> & ?)]. Qed.

(** ** Machine integers

    The release build the CI runs (Cargo.toml sets no profile) wraps on
    overflow, so [+] and [sum] are taken modulo the width. *)
Definition wrap64 (z : Z) : Z := (z `mod` 2 ^ 64)%Z.
Definition wrap32 (z : Z) : Z := (z `mod` 2 ^ 32)%Z.
(** [x as i64], and the wrap of an i64 result. *)
Definition as_i64 (z : Z) : Z :=
  let m := (z `mod` 2 ^ 64)%Z in
  if (m <? 2 ^ 63)%Z then m else (m - 2 ^ 64)%Z.
Definition add64 (a b : Z) : Z := wrap64 (a + b)%Z.
(** [a + b] on u64 *)
Declare Scope rust_scope.
Delimit Scope rust_scope with rust.
Infix "⊕" := add64 (at level 50, left associativity) : rust_scope.
Definition addi64 (a b : Z) : Z := as_i64 (a + b)%Z.
Definition is_u64 (z : Z) : Prop := (0 ≤ z < 2 ^ 64)%Z.
Definition is_u32 (z : Z) : Prop := (0 ≤ z < 2 ^ 32)%Z.
Definition is_i64 (z : Z) : Prop := (- 2 ^ 63 ≤ z < 2 ^ 63)%Z.
(** [Iterator::sum] on u64. *)
Definition sum64 (l : list Z) : Z := foldl add64 0%Z l.
Definition Zsum (l : list Z) : Z := foldr Z.add 0%Z l.

Lemma wrap64_id z : is_u64 z → wrap64 z = z.
Proof. intros ?. by apply Z.mod_small. Qed.
Lemma wrap64_range z : is_u64 (wrap64 z).
Proof. unfold is_u64, wrap64. apply Z.mod_pos_bound. lia. Qed.
Lemma wrap64_add a b : add64 (wrap64 a) b = wrap64 (a + b).
Proof. unfold add64, wrap64. by rewrite Zplus_mod_idemp_l. Qed.
Lemma wrap64_add_l a b : wrap64 (wrap64 a + b) = wrap64 (a + b).
Proof. apply Zplus_mod_idemp_l. Qed.
Lemma as_i64_id z : is_i64 z → as_i64 z = z.
Proof.
  unfold is_i64, as_i64. intros Hz.
  assert (z `mod` 2 ^ 64 = if 0 <=? z then z else z + 2 ^ 64)%Z as ->.
  { case_match; [apply Z.mod_small; lia|].
    rewrite <-(Z.mod_add z 1) by lia. rewrite Z.mul_1_l. apply Z.mod_small. lia. }
  repeat case_match; lia.
Qed.
Lemma as_i64_range z : is_i64 (as_i64 z).
Proof.
  unfold is_i64, as_i64. pose proof (Z.mod_pos_bound z (2 ^ 64) ltac:(lia)).
  case_match; lia.
Qed.
Lemma sum64_foldl a l : foldl add64 a l = wrap64 (a + Zsum l)%Z ∨ l = [].
Proof.
  revert a. induction l as [|x l IH]; intros a; [by right|left]. cbn.
  destruct (IH (add64 a x)) as [-> | ->].
  - unfold add64, wrap64. rewrite Zplus_mod_idemp_l. f_equal. unfold Zsum. lia.
  - cbn. unfold add64. f_equal. lia.
Qed.
(** The wrapping sum is the true sum reduced once. *)
Lemma sum64_Zsum l : sum64 l = wrap64 (Zsum l).
Proof.
  unfold sum64. destruct (sum64_foldl 0 l) as [-> | ->]; [f_equal; lia|done].
Qed.

(** ** Orderings: [std::cmp::Ordering], [then], [Ord::cmp] on a key

    A comparator is lawful when it is a total preorder. *)
Class CmpLaws {A} (cmp : A → A → comparison) : Prop := {
  cmp_opp x y : cmp y x = CompOpp (cmp x y);
  cmp_eq_l x y z : cmp x y = Eq → cmp x z = cmp y z;
  cmp_lt_trans x y z : cmp x y = Lt → cmp y z = Lt → cmp x z = Lt
}.

(** [Ordering::then]. *)
Definition cmp_then (c1 c2 : comparison) : comparison :=
  match c1 with Eq => c2 | _ => c1 end.
Definition cmp_on {A B} (f : A → B) (cmp : B → B → comparison) (x y : A) : comparison :=
  cmp (f x) (f y).
Definition cmp_lex {A} (c1 c2 : A → A → comparison) (x y : A) : comparison :=
  cmp_then (c1 x y) (c2 x y).

Section cmp_laws.
Context {A : Type} (cmp : A → A → comparison) `{!CmpLaws cmp}.

Lemma cmp_refl x : cmp x x = Eq.
Proof. pose proof (cmp_opp (cmp := cmp) x x) as H. by destruct (cmp x x). Qed.
Lemma cmp_eq_r x y z : cmp x y = Eq → cmp z x = cmp z y.
Proof. intros H. by rewrite (cmp_opp (cmp := cmp) x z), (cmp_opp (cmp := cmp) y z), (cmp_eq_l (cmp := cmp) _ _ z H). Qed.
Lemma cmp_le_trans x y z : cmp x y ≠ Gt → cmp y z ≠ Gt → cmp x z ≠ Gt.
Proof.
  intros Hxy Hyz. destruct (cmp x y) eqn:E1; [|destruct (cmp y z) eqn:E2|done].
  - by rewrite (cmp_eq_l (cmp := cmp) _ _ z E1).
  - rewrite <-(cmp_eq_r _ _ x E2), E1. done.
  - by rewrite (cmp_lt_trans (cmp := cmp) _ _ _ E1 E2).
  - done.
Qed.
Lemma cmp_gt_le x y : cmp x y = Gt → cmp y x ≠ Gt.
Proof. rewrite (cmp_opp (cmp := cmp) x y). by intros ->. Qed.
End cmp_laws.

#[export] Instance Zcompare_laws : CmpLaws Z.compare.
Proof.
  split.
  - intros x y. apply Z.compare_antisym.
  - intros x y z ->%Z.compare_eq_iff. done.
  - intros x y z. rewrite !Z.compare_lt_iff. lia.
Qed.
#[export] Instance String_compare_laws : CmpLaws String.compare.
Proof.
  assert (Hle : ∀ x y, String.compare x y = Lt → (x ≤ y)%string).
  { intros x y H. unfold String.le, String.leb. by rewrite H. }
  split.
  - intros x y. apply String.compare_antisym.
  - intros x y z ->%String.compare_eq_iff. done.
  - intros x y z Hxy Hyz.
    assert (x ≤ z)%string as Hxz by (transitivity y; by apply Hle).
    unfold String.le, String.leb in Hxz. destruct (String.compare x z) eqn:E; [|done|done].
    apply String.compare_eq_iff in E as ->.
    by rewrite String.compare_antisym, Hxy in Hyz.
Qed.
#[export] Instance cmp_on_laws {A B} (f : A → B) cmp : CmpLaws cmp → CmpLaws (cmp_on f cmp).
Proof.
  intros H. split; unfold cmp_on; intros; [apply H|by apply H|by eapply H].
Qed.
#[export] Instance cmp_lex_laws {A} (c1 c2 : A → A → comparison) :
  CmpLaws c1 → CmpLaws c2 → CmpLaws (cmp_lex c1 c2).
Proof.
  intros H1 H2. split; unfold cmp_lex, cmp_then.
  - intros x y. rewrite (cmp_opp (cmp := c1) x y), (cmp_opp (cmp := c2) x y).
    by destruct (c1 x y).
  - intros x y z H. destruct (c1 x y) eqn:E; [|done..].
    by rewrite (cmp_eq_l _ _ z E), (cmp_eq_l _ _ z H).
  - intros x y z Hxy Hyz.
    destruct (c1 x y) eqn:E1; [| |done].
    + rewrite (cmp_eq_l _ _ z E1). destruct (c1 y z); [|done..].
      by eapply (cmp_lt_trans (cmp := c2)).
    + destruct (c1 y z) eqn:E2; [| |done].
      * rewrite <-(cmp_eq_r c1 _ _ x E2). by rewrite E1.
      * by rewrite (cmp_lt_trans _ _ _ E1 E2).
Qed.

(** ** [slice::sort_by]: the stable sort

    Any stable sort computes the same list, so insertion is as good as the
    merge sort of the Rust library. *)
Section sort_by.
Context {A : Type} (cmp : A → A → comparison).

Fixpoint insert_by (x : A) (l : list A) : list A :=
  match l with
  | [] => [x]
  | y :: l' => match cmp x y with Gt => y :: insert_by x l' | _ => x :: l end
  end.
Definition sort_by (l : list A) : list A := foldr insert_by [] l.

Lemma insert_by_perm x l : insert_by x l ≡ₚ x :: l.
Proof. induction l as [|y l IH]; cbn; [done|]. case_match; [done..|]. rewrite IH. constructor. Qed.
Lemma sort_by_perm l : sort_by l ≡ₚ l.
Proof. induction l as [|x l IH]; cbn; [done|]. by rewrite insert_by_perm, IH. Qed.
Lemma elem_of_sort_by x l : x ∈ sort_by l ↔ x ∈ l.
Proof. by rewrite sort_by_perm. Qed.

Context `{!CmpLaws cmp}.
Definition cmp_le (x y : A) : Prop := cmp x y ≠ Gt.

Lemma insert_by_sorted x l :
  StronglySorted cmp_le l → StronglySorted cmp_le (insert_by x l).
Proof.
  unfold cmp_le. induction 1 as [|y l Hl IH Hy]; cbn; [repeat constructor|].
  rewrite Forall_forall in Hy.
  destruct (cmp x y) eqn:E.
  1,2: constructor; [by constructor; [|rewrite Forall_forall]|].
  1,2: constructor; [congruence|]; rewrite Forall_forall; intros z Hz.
  1,2: eapply (cmp_le_trans cmp); [|by apply Hy]; congruence.
  constructor; [done|]. rewrite Forall_forall. intros z.
  rewrite insert_by_perm, elem_of_cons. intros [->|?]; [by apply (cmp_gt_le cmp)|auto].
Qed.
Lemma sort_by_sorted l : StronglySorted cmp_le (sort_by l).
Proof. induction l; cbn; [constructor|by apply insert_by_sorted]. Qed.

(** Stability: elements that compare equal to [a] keep their order. *)
Lemma insert_by_stable a x l :
  filter (λ y, cmp a y = Eq) (insert_by x l) = filter (λ y, cmp a y = Eq) (x :: l).
Proof.
  induction l as [|y l IH]; cbn [insert_by]; [done|].
  destruct (cmp x y) eqn:E; [done..|].
  rewrite filter_cons, IH, !filter_cons. repeat case_decide; try done.
  exfalso. pose proof (cmp_eq_l (cmp := cmp) a x y). intuition congruence.
Qed.
Lemma sort_by_stable a l :
  filter (λ y, cmp a y = Eq) (sort_by l) = filter (λ y, cmp a y = Eq) l.
Proof.
  induction l as [|x l IH]; cbn [sort_by foldr]; [done|].
  change (foldr insert_by [] l) with (sort_by l).
  by rewrite insert_by_stable, !filter_cons, IH.
Qed.
Lemma sort_by_id l : StronglySorted cmp_le l → sort_by l = l.
Proof.
  induction 1 as [|x l Hl IH Hx]; cbn; [done|].
  change (foldr insert_by [] l) with (sort_by l). rewrite IH.
  destruct Hx as [|y l Hy]; cbn; [done|]. unfold cmp_le in Hy. by destruct (cmp x y).
Qed.
End sort_by.

(** Sorting by [c1] a list that is in the order of [c2] breaks its ties by
    [c2]. *)
Lemma insert_by_lex {A} (c1 c2 : A → A → comparison) x l :
  (∀ y, y ∈ l → c2 x y ≠ Gt) → insert_by c1 x l = insert_by (cmp_lex c1 c2) x l.
Proof.
  induction l as [|y l IH]; intros Hl; [done|]. cbn. unfold cmp_lex, cmp_then.
  pose proof (Hl y ltac:(by left)). rewrite IH by (intros z Hz; apply Hl; by right).
  destruct (c1 x y); [|done..]. by destruct (c2 x y).
Qed.
Lemma sort_by_lex {A} (c1 c2 : A → A → comparison) l :
  StronglySorted (cmp_le c2) l → sort_by c1 l = sort_by (cmp_lex c1 c2) l.
Proof.
  induction 1 as [|x l Hl IH Hx]; [done|]. cbn [sort_by foldr]. fold (sort_by c1 l).
  fold (sort_by (cmp_lex c1 c2) l). rewrite IH. apply insert_by_lex. intros y Hy.
  rewrite Forall_forall in Hx. apply Hx. by rewrite elem_of_sort_by in Hy.
Qed.
(** Sorting the images is sorting by the image. *)
Lemma sort_by_fmap {A B} (g : A → B) (c : B → B → comparison) l :
  sort_by c (g <$> l) = g <$> sort_by (cmp_on g c) l.
Proof.
  induction l as [|x l IH]; [done|]. cbn [sort_by foldr fmap list_fmap].
  fold (sort_by c (g <$> l)) (sort_by (cmp_on g c) l). rewrite IH. clear IH.
  induction (sort_by (cmp_on g c) l) as [|y k IH]; [done|]. cbn. unfold cmp_on at 1.
  destruct (c (g x) (g y)); [done..|]. by rewrite IH.
Qed.

(** ** [BTreeMap<String, V>]

    The map is a [gmap], so two maps with the same bindings are equal;
    iteration is in ascending (byte) order of the keys. *)
Definition bt_lt {V} (p q : string * V) : Prop := String.compare p.1 q.1 = Lt.
Definition bt_iter {V} (m : gmap string V) : list (string * V) :=
  sort_by (cmp_on fst String.compare) (map_to_list m).
Definition bt_keys {V} (m : gmap string V) : list string := (bt_iter m).*1.
Definition bt_values {V} (m : gmap string V) : list V := (bt_iter m).*2.
(** An insertion loop, [collect] or [extend]: a later binding of a key wins. *)
Definition bt_extend {V} (m : gmap string V) (l : list (string * V)) : gmap string V :=
  foldl (λ m p, <[p.1 := p.2]> m) m l.
#[global] Arguments bt_extend : simpl never.
Definition bt_collect {V} (l : list (string * V)) : gmap string V := bt_extend ∅ l.

Section btreemap.
Context {V : Type}.
Implicit Types (m : gmap string V) (l : list (string * V)).

Lemma elem_of_bt_iter m k v : (k, v) ∈ bt_iter m ↔ m !! k = Some v.
Proof. unfold bt_iter. by rewrite elem_of_sort_by, elem_of_map_to_list. Qed.
Lemma bt_iter_NoDup m : NoDup (bt_iter m).*1.
Proof.
  unfold bt_iter. rewrite (fmap_Permutation _ _ _ (sort_by_perm _ _)).
  apply NoDup_fst_map_to_list.
Qed.
Lemma elem_of_bt_keys m k : k ∈ bt_keys m ↔ is_Some (m !! k).
Proof.
  unfold bt_keys. rewrite list_elem_of_fmap. split.
  - intros ([k' v] & -> & H%elem_of_bt_iter). eauto.
  - intros [v H%elem_of_bt_iter]. by exists (k, v).
Qed.
Lemma bt_sorted_strict l :
  StronglySorted (cmp_le (cmp_on fst String.compare)) l → NoDup l.*1 →
  StronglySorted bt_lt l.
Proof.
  induction 1 as [|[k v] l Hl IH Hx]; cbn; [constructor|].
  rewrite NoDup_cons. intros [Hk Hnd]. constructor; [auto|].
  rewrite Forall_forall in *. intros [k' v'] Hin. specialize (Hx _ Hin).
  unfold cmp_le, cmp_on, bt_lt in *. cbn in *.
  destruct (String.compare k k') eqn:E; [|done..].
  apply String.compare_eq_iff in E as ->.
  destruct Hk. apply list_elem_of_fmap. by exists (k', v').
Qed.
Lemma bt_iter_sorted m : StronglySorted bt_lt (bt_iter m).
Proof. apply bt_sorted_strict; [apply sort_by_sorted, _|apply bt_iter_NoDup]. Qed.

Lemma bt_lt_irrefl (p : string * V) : ¬ bt_lt p p.
Proof. unfold bt_lt. by rewrite (cmp_refl String.compare). Qed.
Lemma bt_lt_asym (p q : string * V) : bt_lt p q → bt_lt q p → False.
Proof.
  unfold bt_lt. intros H1 H2. rewrite (cmp_opp (cmp := String.compare) p.1 q.1), H1 in H2. done.
Qed.
Lemma bt_sorted_NoDup l : StronglySorted bt_lt l → NoDup l.
Proof.
  induction 1 as [|p l Hl IH Hp]; constructor; [|done].
  intros Hin. rewrite Forall_forall in Hp. by eapply bt_lt_irrefl, Hp.
Qed.
(** The iteration order is determined by the bindings. *)
Lemma bt_iter_unique m l :
  StronglySorted bt_lt l → (∀ k v, (k, v) ∈ l ↔ m !! k = Some v) → bt_iter m = l.
Proof.
  intros Hs Hl. eapply StronglySorted_unique_strong; [|apply bt_iter_sorted|done|].
  - intros p q _ _ Hpq Hqp. destruct (bt_lt_asym _ _ Hpq Hqp).
  - apply NoDup_Permutation.
    + eapply NoDup_fmap_1, bt_iter_NoDup.
    + by apply bt_sorted_NoDup.
    + intros [k v]. by rewrite elem_of_bt_iter, Hl.
Qed.
Lemma bt_iter_empty : bt_iter (∅ : gmap string V) = [].
Proof. unfold bt_iter. by rewrite map_to_list_empty. Qed.
Lemma bt_iter_length m : length (bt_iter m) = size m.
Proof. unfold bt_iter. rewrite (sort_by_perm _ _). apply length_map_to_list. Qed.

Lemma bt_extend_cons m p l : bt_extend m (p :: l) = bt_extend (<[p.1 := p.2]> m) l.
Proof. done. Qed.
Lemma bt_extend_snoc m l p : bt_extend m (l ++ [p]) = <[p.1 := p.2]> (bt_extend m l).
Proof. unfold bt_extend. by rewrite foldl_app. Qed.
Lemma bt_extend_lookup_notin m l k : k ∉ l.*1 → bt_extend m l !! k = m !! k.
Proof.
  revert m. induction l as [|[k' v] l IH]; intros m; [done|].
  cbn. rewrite not_elem_of_cons. intros [Hne Hk]. rewrite bt_extend_cons, IH by done.
  by rewrite lookup_insert_ne by done.
Qed.
Lemma bt_extend_lookup_in m l k v :
  NoDup l.*1 → (k, v) ∈ l → bt_extend m l !! k = Some v.
Proof.
  revert m. induction l as [|[k' v'] l IH]; intros m; cbn; [by rewrite elem_of_nil|].
  rewrite NoDup_cons, elem_of_cons, bt_extend_cons. intros [Hk Hnd] [?|Hin]; simplify_eq/=.
  - rewrite bt_extend_lookup_notin by done. by rewrite lookup_insert_eq.
  - by apply IH.
Qed.
(** Every binding of an extended map comes from the list or from the map. *)
Lemma bt_extend_Some m l k v :
  bt_extend m l !! k = Some v → (k, v) ∈ l ∨ ((k ∉ l.*1) ∧ m !! k = Some v).
Proof.
  induction l as [|[k' v'] l IH] using rev_ind.
  { intros ?. right. split; [apply not_elem_of_nil|done]. }
  rewrite bt_extend_snoc, fmap_app, !elem_of_app, lookup_insert. cbn.
  case_decide; intros Hk; simplify_eq.
  - left. right. by apply list_elem_of_singleton.
  - destruct (IH Hk) as [?|[??]]; [auto|right]. split; [|done].
    rewrite list_elem_of_singleton. intros [?|?]; congruence.
Qed.
Lemma bt_extend_in m l k : k ∈ l.*1 → ∃ v, (k, v) ∈ l ∧ bt_extend m l !! k = Some v.
Proof.
  induction l as [|[k' v'] l IH] using rev_ind; [by rewrite elem_of_nil|].
  rewrite bt_extend_snoc, fmap_app, elem_of_app, lookup_insert. cbn.
  rewrite list_elem_of_singleton. intros Hk. case_decide; subst.
  - exists v'. rewrite elem_of_app, list_elem_of_singleton. auto.
  - destruct Hk as [Hk|?]; [|naive_solver]. destruct (IH Hk) as (v & ? & ?).
    exists v. rewrite elem_of_app. auto.
Qed.
Lemma bt_collect_iter m : bt_collect (bt_iter m) = m.
Proof.
  apply map_eq. intros k. destruct (m !! k) as [v|] eqn:E.
  - apply bt_extend_lookup_in; [apply bt_iter_NoDup|]. by apply elem_of_bt_iter.
  - unfold bt_collect. rewrite bt_extend_lookup_notin; [done|].
    intros Hk%(elem_of_bt_keys m k). rewrite E in Hk. by destruct Hk.
Qed.
Lemma bt_sorted_fst l : StronglySorted bt_lt l → NoDup l.*1.
Proof.
  induction 1 as [|p l Hl IH Hp]; cbn; constructor; [|done].
  rewrite list_elem_of_fmap. intros (q & Hq & Hin). rewrite Forall_forall in Hp.
  specialize (Hp _ Hin). unfold bt_lt in Hp. by rewrite Hq, (cmp_refl String.compare) in Hp.
Qed.
(** Inserting the bindings of [u] one by one overrides with [u]. *)
Lemma bt_extend_iter m (u : gmap string V) : bt_extend m (bt_iter u) = u ∪ m.
Proof.
  apply map_eq. intros k. rewrite lookup_union. destruct (u !! k) as [v|] eqn:E.
  - rewrite union_Some_l.
    apply bt_extend_lookup_in; [apply bt_iter_NoDup|by apply elem_of_bt_iter].
  - rewrite bt_extend_lookup_notin; [by rewrite (left_id_L None _)|].
    intros Hk%(elem_of_bt_keys u k). rewrite E in Hk. by destruct Hk.
Qed.
(** Collecting a list in key order and iterating gives the list back. *)
Lemma bt_iter_collect l : StronglySorted bt_lt l → bt_iter (bt_collect l) = l.
Proof.
  intros Hs. apply bt_iter_unique; [done|]. intros k v. split.
  - apply bt_extend_lookup_in. by apply bt_sorted_fst.
  - intros H. by destruct (bt_extend_Some _ _ _ _ H) as [?|[_ ?]].
Qed.
End btreemap.

(** ** [retain(|x| seen.insert(f(x)))]: keep the first element of each key *)
Section dedup.
Context {A K : Type} `{Countable K} (f : A → K).

Fixpoint dedup_on (seen : gset K) (l : list A) : list A :=
  match l with
  | [] => []
  | x :: l => if decide (f x ∈ seen) then dedup_on seen l
              else x :: dedup_on ({[f x]} ∪ seen) l
  end.

Lemma dedup_on_sublist seen l : dedup_on seen l `sublist_of` l.
Proof.
  revert seen. induction l as [|x l IH]; intros seen; cbn; [done|].
  case_decide; by constructor.
Qed.
Lemma dedup_on_fresh seen l x : x ∈ dedup_on seen l → f x ∉ seen.
Proof.
  revert seen. induction l as [|y l IH]; intros seen; cbn; [by rewrite elem_of_nil|].
  case_decide; [by apply IH|]. rewrite elem_of_cons.
  intros [->|Hin]; [done|]. apply IH in Hin. set_solver.
Qed.
Lemma dedup_on_NoDup seen l : NoDup (f <$> dedup_on seen l).
Proof.
  revert seen. induction l as [|x l IH]; intros seen; cbn; [constructor|].
  case_decide; [done|]. cbn. constructor; [|done].
  rewrite list_elem_of_fmap. intros (y & Hy & Hin%dedup_on_fresh). set_solver.
Qed.
(** On a sorted list the survivor of a key is a least element with it. *)
Lemma dedup_on_least (R : relation A) `{!Reflexive R} seen l x :
  StronglySorted R l → x ∈ l → f x ∉ seen →
  ∃ y, y ∈ dedup_on seen l ∧ f y = f x ∧ R y x.
Proof.
  intros Hs. revert seen. induction Hs as [|z l Hl IH Hz]; intros seen.
  { by rewrite elem_of_nil. }
  rewrite elem_of_cons. intros Hx Hseen. cbn. case_decide as Hd.
  { destruct Hx as [->|Hx]; [done|]. by apply IH. }
  rewrite Forall_forall in Hz.
  destruct (decide (f x = f z)) as [Heq|Hne].
  - exists z. rewrite elem_of_cons. destruct Hx as [->|Hx]; eauto.
  - destruct Hx as [->|Hx]; [done|].
    destruct (IH ({[f z]} ∪ seen)) as (y & ? & ? & ?); [done|set_solver|].
    exists y. rewrite elem_of_cons. eauto.
Qed.
End dedup.

Lemma list_filter_all {A} (P : A → Prop) `{∀ x, Decision (P x)} (l : list A) :
  (∀ x, x ∈ l → P x) → filter P l = l.
Proof.
  induction l as [|x l IH]; intros Hl; [done|].
  rewrite filter_cons, decide_True by (apply Hl; constructor).
  f_equal. apply IH. intros y Hy. apply Hl. by constructor.
Qed.

Lemma foldl_reverse {A B} (f : A → B → B) (b : B) (l : list A) :
  foldl (flip f) b l = foldr f b (reverse l).
Proof.
  induction l as [|x l IH] using rev_ind; [done|].
  by rewrite foldl_app, reverse_app, reverse_singleton; cbn; rewrite IH.
Qed.

Lemma sublist_StronglySorted {A} (R : relation A) l k :
  l `sublist_of` k → StronglySorted R k → StronglySorted R l.
Proof.
  induction 1 as [|x l k Hsub IH|x l k Hsub IH]; intros Hs; [done| |]; inv Hs; [|auto].
  constructor; [auto|]. rewrite Forall_forall in *. intros y Hy.
  match goal with H : ∀ _, _ ∈ k → _ |- _ => apply H end.
  by eapply elem_of_sublist.
Qed.
