(* ===== verification/RustStr.v ===== *)
(** * The operations of [str] and [String] the CI uses

    A Rust string is its UTF-8 bytes: a [string] of 8-bit characters. Lengths
    and offsets count bytes and [Ord] is byte order ([String.compare]), as in
    Rust. *)

From S2P Require Import Prelude.

Module Str.

Definition is_empty (s : string) : bool := match s with EmptyString => true | _ => false end.
(** [s.starts_with(p)], [s.contains(p)], [s.ends_with(p)]. *)
Definition starts_with (s p : string) : bool := String.prefix p s.
Fixpoint contains (s p : string) : bool :=
  starts_with s p || match s with EmptyString => false | String _ s' => contains s' p end.
Fixpoint ends_with (s p : string) : bool :=
  bool_decide (s = p) || match s with EmptyString => false | String _ s' => ends_with s' p end.
Fixpoint contains_char (s : string) (c : ascii) : bool :=
  match s with EmptyString => false | String d s' => bool_decide (d = c) || contains_char s' c end.

(** [s.replace(c, to)] for a character pattern. *)
Fixpoint replace_char (c : ascii) (to s : string) : string :=
  match s with
  | EmptyString => EmptyString
  | String d s' => (if decide (d = c) then to else String d EmptyString) +:+ replace_char c to s'
  end.
(** [s.replace(p, to)] for a non-empty [&str] pattern: non-overlapping
    matches from the left; [skip] counts the bytes of a match still to drop. *)
Fixpoint replace_go (p to : string) (skip : nat) (s : string) : string :=
  match s with
  | EmptyString => EmptyString
  | String d s' =>
      match skip with
      | S k => replace_go p to k s'
      | O => if starts_with s p
             then to +:+ replace_go p to (String.length p - 1) s'
             else String d (replace_go p to 0 s')
      end
  end.
Definition replace (p to s : string) : string := replace_go p to 0 s.

(** [s.split(c)]: [""] splits into one empty piece. *)
Fixpoint split (c : ascii) (s : string) : list string :=
  match s with
  | EmptyString => [""]
  | String d s' =>
      if decide (d = c) then "" :: split c s'
      else match split c s' with
           | [] => [String d ""]
           | w :: ws => String d w :: ws
           end
  end.
(** [v.join(sep)]. *)
Definition join (sep : string) (l : list string) : string := String.concat sep l.
(** [s.split_whitespace()]. [ws_len] is the length in bytes of the white-space
    character [s] starts with, 0 if there is none. *)
Definition ws_len (s : string) : nat :=
  match s with
  | EmptyString => 0
  | String c s' =>
      if bool_decide (c ∈ Stdlib.Strings.String.list_ascii_of_string (String "009" (String "010" (String "011" (String "012" (String "013" " "))))))
      then 1
      else match N_of_ascii c, Stdlib.Strings.String.list_ascii_of_string s' with
           | 194%N, d :: _ => if bool_decide (N_of_ascii d ∈ [133; 160]%N) then 2 else 0
           | 225%N, d :: e :: _ => if bool_decide ((N_of_ascii d, N_of_ascii e) = (154, 128)%N) then 3 else 0
           | 226%N, d :: e :: _ =>
               let '(d, e) := (N_of_ascii d, N_of_ascii e) in
               if ((d =? 128) && ((128 <=? e) && (e <=? 138) || bool_decide (e ∈ [168; 169; 175]))
                   || (d =? 129) && (e =? 159))%N then 3 else 0
           | 227%N, d :: e :: _ => if bool_decide ((N_of_ascii d, N_of_ascii e) = (128, 128)%N) then 3 else 0
           | _, _ => 0
           end
  end.
Fixpoint split_ws_go (skip : nat) (word s : string) : list string :=
  let flush := if is_empty word then [] else [word] in
  match s with
  | EmptyString => flush
  | String c s' =>
      match skip with
      | S k => split_ws_go k word s'
      | O => match ws_len s with
             | O => split_ws_go 0 (word +:+ String c "") s'
             | S k => flush ++ split_ws_go k "" s'
             end
      end
  end.
Definition split_whitespace (s : string) : list string := split_ws_go 0 "" s.
Example split_whitespace_lines :
  split_whitespace (" a  bc" +:+ String "010" "d" +:+ String "194" (String "160" "e")) = ["a"; "bc"; "d"; "e"].
Proof. reflexivity. Qed.
(** [s.trim_end_matches(c)]. *)
Fixpoint trim_end_matches (c : ascii) (s : string) : string :=
  match s with
  | EmptyString => EmptyString
  | String d s' =>
      match trim_end_matches c s' with
      | EmptyString => if decide (d = c) then EmptyString else String d EmptyString
      | t => String d t
      end
  end.

(** A byte that continues a UTF-8 sequence: 0x80..0xBF. An offset is a
    character boundary unless such a byte sits there. *)
Definition is_continuation (c : ascii) : bool :=
  let n := N_of_ascii c in ((128 <=? n) && (n <? 192))%N.
Definition is_char_boundary (s : string) (n : nat) : bool :=
  match n with
  | O => true
  | _ => if decide (n = String.length s) then true
         else match String.get n s with Some c => negb (is_continuation c) | None => false end
  end.
Fixpoint take (n : nat) (s : string) : string :=
  match n, s with S n', String c s' => String c (take n' s') | _, _ => EmptyString end.
(** [&s[..n]]: panics past the end and off a boundary. *)
Definition slice_to {E} (s : string) (n : nat) : outcome E string :=
  if is_char_boundary s n then Ok (take n s) else Panic.

Definition is_ascii_hexdigit (c : ascii) : bool :=
  let n := N_of_ascii c in
  ((48 <=? n) && (n <=? 57) || (65 <=? n) && (n <=? 70) || (97 <=? n) && (n <=? 102))%N.
Fixpoint all_bytes (f : ascii → bool) (s : string) : bool :=
  match s with EmptyString => true | String c s' => f c && all_bytes f s' end.

(** [format!("{}", n)] for an unsigned integer. *)
Definition of_u64 (n : Z) : string := pretty (Z.to_N n).

(** [s.parse::<u64>()]: an optional [+], then one or more digits whose value
    fits in 64 bits. *)
Definition digit (c : ascii) : option Z :=
  let n := N_of_ascii c in
  if ((48 <=? n) && (n <=? 57))%N then Some (Z.of_N n - 48)%Z else None.
Fixpoint parse_digits (acc : Z) (s : string) : option Z :=
  match s with
  | EmptyString => Some acc
  | String c s' =>
      match digit c with
      | None => None
      | Some d => let a := (acc * 10 + d)%Z in
                  if (a <? 2 ^ 64)%Z then parse_digits a s' else None
      end
  end.
Definition parse_u64 (s : string) : option Z :=
  let s' := match s with String "+" s' => s' | _ => s end in
  if is_empty s' then None else parse_digits 0 s'.

(** What a leading byte calls for: the ranges its continuation bytes must lie
    in, or [None] for a byte that starts no character. *)
Definition utf8_lead (c : ascii) : option (list (N * N)) :=
  let n := N_of_ascii c in
  let any := (128, 191)%N in
  if (n <? 128)%N then Some []
  else if ((194 <=? n) && (n <=? 223))%N then Some [any]
  else if (n =? 224)%N then Some [(160, 191)%N; any]
  else if (n =? 237)%N then Some [(128, 159)%N; any]
  else if ((225 <=? n) && (n <=? 239))%N then Some [any; any]
  else if (n =? 240)%N then Some [(144, 191)%N; any; any]
  else if (n =? 244)%N then Some [(128, 143)%N; any; any]
  else if ((241 <=? n) && (n <=? 243))%N then Some [any; any; any]
  else None.
Definition in_range (r : N * N) (c : ascii) : bool :=
  ((r.1 <=? N_of_ascii c) && (N_of_ascii c <=? r.2))%N.
(** [str::from_utf8]: well-formedness of a byte string; [pend] lists the
    ranges of the continuation bytes still to come. *)
Fixpoint utf8_go (pend : list (N * N)) (s : string) : bool :=
  match s, pend with
  | EmptyString, [] => true
  | EmptyString, _ => false
  | String c s', r :: pend' => in_range r c && utf8_go pend' s'
  | String c s', [] => match utf8_lead c with Some p => utf8_go p s' | None => false end
  end.
Definition valid_utf8 (s : string) : bool := utf8_go [] s.
#[global] Arguments valid_utf8 : simpl never.
(** [OsString::into_string], [String::from_utf8]: the text, if it is text. *)
Definition to_text (s : string) : option string := if valid_utf8 s then Some s else None.
(** [String::from_utf8_lossy], [Path::to_string_lossy]: every maximal part
    that is no character becomes U+FFFD. [acc] is the part read so far. *)
Definition fffd : string := String "239" (String "191" (String "189" "")).
Fixpoint lossy_go (pend : list (N * N)) (acc : string) (s : string) : string :=
  match s with
  | EmptyString => match pend with [] => "" | _ => fffd end
  | String c s' =>
      let start :=
        match utf8_lead c with
        | None => fffd +:+ lossy_go [] "" s'
        | Some [] => String c (lossy_go [] "" s')
        | Some p => lossy_go p (String c "") s'
        end in
      match pend with
      | [] => start
      | [r] => if in_range r c then (acc +:+ String c "") +:+ lossy_go [] "" s' else fffd +:+ start
      | r :: p => if in_range r c then lossy_go p (acc +:+ String c "") s' else fffd +:+ start
      end
  end.
Definition lossy (s : string) : string := lossy_go [] "" s.
#[global] Arguments lossy : simpl never.
(** The newline. *)
Definition nl : string := String "010" "".

End Str.

(** ** Lemmas *)
Section str_lemmas.
Import Str.
Implicit Types (s t p to : string) (c d : ascii).

Lemma str_app_nil_l s : "" +:+ s = s.
Proof. done. Qed.
Lemma str_app_cons c s t : String c s +:+ t = String c (s +:+ t).
Proof. done. Qed.
Lemma str_app_nil_r s : s +:+ "" = s.
Proof. induction s; [done|]. by rewrite str_app_cons, IHs. Qed.
Lemma str_app_assoc s t p : (s +:+ t) +:+ p = s +:+ (t +:+ p).
Proof. induction s; [done|]. by rewrite !str_app_cons, IHs. Qed.
Lemma str_length_app s t : String.length (s +:+ t) = String.length s + String.length t.
Proof. induction s as [|c s IH]; [done|]. rewrite str_app_cons. cbn. by rewrite IH. Qed.
Lemma str_app_inv_tail p s t : s +:+ p = t +:+ p → s = t.
Proof.
  revert t. induction s as [|c s IH]; intros [|d t] H; [done| | |].
  - apply (f_equal String.length) in H. rewrite !str_length_app in H. cbn in H. lia.
  - apply (f_equal String.length) in H. rewrite !str_length_app in H. cbn in H. lia.
  - rewrite !str_app_cons in H. injection H as -> H. f_equal. by apply IH.
Qed.

Lemma contains_char_app s t c : contains_char (s +:+ t) c = contains_char s c || contains_char t c.
Proof.
  induction s as [|d s IH]; [done|]. rewrite str_app_cons. cbn. by rewrite IH, orb_assoc.
Qed.
Lemma replace_char_app c to s t :
  replace_char c to (s +:+ t) = replace_char c to s +:+ replace_char c to t.
Proof.
  induction s as [|d s IH]; [done|]. rewrite str_app_cons. cbn.
  by rewrite IH, str_app_assoc.
Qed.
Lemma replace_char_removes c to s :
  contains_char to c = false → contains_char (replace_char c to s) c = false.
Proof.
  intros Hto. induction s as [|d s IH]; [done|]. cbn.
  rewrite contains_char_app, IH, orb_false_r. case_decide; [done|].
  cbn. by rewrite bool_decide_eq_false_2.
Qed.
Lemma replace_char_keeps c d to s :
  contains_char to d = false → contains_char s d = false →
  contains_char (replace_char c to s) d = false.
Proof.
  intros Hto. induction s as [|e s IH]; [done|]. cbn.
  rewrite orb_false_iff. intros [He Hs].
  rewrite contains_char_app, IH, orb_false_r by done.
  destruct (decide (e = c)); [done|]. cbn. by rewrite He.
Qed.
Lemma replace_char_id c to s : contains_char s c = false → replace_char c to s = s.
Proof.
  induction s as [|d s IH]; [done|]. cbn. rewrite orb_false_iff, bool_decide_eq_false.
  intros [Hd Hs]. rewrite decide_False by done. by rewrite IH, str_app_cons.
Qed.
Lemma replace_char_nonempty c to s :
  to ≠ "" → is_empty (replace_char c to s) = is_empty s.
Proof.
  intros Hto. destruct s as [|d s]; [done|]. cbn.
  case_decide; [|done]. by destruct to.
Qed.
(** A one-character [&str] pattern replaces as the character does. *)
Lemma replace_single c to s : replace (String c "") to s = replace_char c to s.
Proof.
  unfold replace. induction s as [|d s IH]; [done|]. cbn.
  unfold starts_with. cbn. destruct (ascii_dec c d) as [->|Hne].
  - rewrite decide_True by done. assert (String.prefix "" s = true) as -> by by destruct s.
    cbn. by rewrite IH.
  - rewrite decide_False by done. rewrite str_app_cons, str_app_nil_l. by rewrite IH.
Qed.

Lemma split_nonempty c s : split c s ≠ [].
Proof. destruct s; cbn; [done|]. case_decide; [done|]. by case_match. Qed.
Lemma split_no_char c s : contains_char s c = false → split c s = [s].
Proof.
  induction s as [|d s IH]; [done|]. cbn. rewrite orb_false_iff, bool_decide_eq_false.
  intros [Hd Hs]. by rewrite decide_False, IH.
Qed.
Lemma split_app c s t :
  contains_char s c = false → split c (s +:+ String c t) = s :: split c t.
Proof.
  induction s as [|d s IH].
  - intros _. rewrite str_app_nil_l. cbn. by rewrite decide_True.
  - cbn. rewrite orb_false_iff, bool_decide_eq_false. intros [Hd Hs].
    rewrite str_app_cons. cbn. by rewrite decide_False, IH.
Qed.
(** Splitting undoes joining when no piece holds the separator. *)
Lemma split_join c (l : list string) :
  l ≠ [] → Forall (λ s, contains_char s c = false) l →
  split c (join (String c "") l) = l.
Proof.
  intros Hne H. induction H as [|s l Hs Hl IH]; [done|]. destruct l as [|t l].
  - by apply split_no_char.
  - assert (join (String c "") (s :: t :: l) = s +:+ String c (join (String c "") (t :: l)))
      as -> by done.
    rewrite split_app by done. by rewrite IH.
Qed.

Lemma join_split c s : join (String c "") (split c s) = s.
Proof.
  assert (∀ d w ws, join (String c "") (String d w :: ws) = String d (join (String c "") (w :: ws))) as Hj
    by (intros d w [|w' ws]; done).
  induction s as [|d s IH]; [done|]. cbn [split].
  pose proof (split_nonempty c s) as Hne. destruct (split c s) as [|w ws]; [done|].
  destruct (decide (d = c)) as [->|Hd].
  - change (join (String c "") ("" :: w :: ws)) with (String c (join (String c "") (w :: ws))). by rewrite IH.
  - by rewrite Hj, IH.
Qed.

Lemma prefix_app p q s : String.prefix (p +:+ q) s = true → String.prefix p s = true.
Proof.
  revert s. induction p as [|c p IH]; intros s; [by destruct s|].
  rewrite str_app_cons. destruct s as [|d s]; [done|]. cbn.
  destruct (ascii_dec c d); [apply IH|done].
Qed.
(** What contains a pattern contains its prefixes. *)
Lemma contains_app p q s : contains s (p +:+ q) = true → contains s p = true.
Proof.
  unfold starts_with. induction s as [|d s IH]; cbn [contains]; unfold starts_with;
    rewrite !orb_true_iff; intros [H|H]; [left; by eapply prefix_app|done|left|right; auto].
  by eapply prefix_app.
Qed.

Fixpoint last_char (s : string) : option ascii :=
  match s with
  | EmptyString => None
  | String c s' => match s' with EmptyString => Some c | _ => last_char s' end
  end.
Lemma last_char_app s c t : last_char (s +:+ String c t) = last_char (String c t).
Proof.
  induction s as [|d s IH]; [done|]. rewrite str_app_cons. cbn [last_char]. rewrite IH.
  destruct s; by rewrite ?str_app_cons, ?str_app_nil_l.
Qed.

(** A decimal number holds digits only. *)
Lemma pretty_N_go_no_char c (x : N) s :
  (∀ k : N, pretty_N_char k ≠ c) → contains_char s c = false →
  contains_char (pretty_N_go x s) c = false.
Proof.
  intros Hc. revert s. induction (N.lt_wf_0 x) as [x _ IH]; intros s Hs.
  destruct (decide (x = 0)%N) as [->|Hx]; [done|].
  rewrite pretty_N_go_step by lia. apply IH; [by apply N.div_lt; lia|].
  cbn. by rewrite bool_decide_eq_false_2, Hs.
Qed.
Lemma of_u64_no_char c n :
  (∀ k : N, pretty_N_char k ≠ c) → contains_char (of_u64 n) c = false.
Proof.
  intros Hc. unfold of_u64, pretty, pretty_N. case_decide.
  - cbn. rewrite orb_false_r. apply bool_decide_eq_false. apply (Hc 0%N).
  - by apply pretty_N_go_no_char.
Qed.
Lemma of_u64_no_slash n : contains_char (of_u64 n) "/" = false.
Proof. apply of_u64_no_char. intros k. unfold pretty_N_char. by repeat case_match. Qed.
Lemma lossy_go_valid pend acc s :
  utf8_go pend s = true → (pend = [] → acc = "") → lossy_go pend acc s = acc +:+ s.
Proof.
  revert pend acc. induction s as [|c s IH]; intros [|r p] acc Hv Hacc; [by rewrite Hacc| done| |].
  - rewrite Hacc by done. cbn in *. destruct (utf8_lead c) as [[|r p]|]; [|by rewrite IH|done].
    by rewrite IH.
  - cbn in Hv. apply andb_true_iff in Hv as [Hr Hv]. cbn [lossy_go]. rewrite Hr.
    destruct p as [|r' p]; rewrite IH by done; by rewrite str_app_assoc.
Qed.
(** Text passes through unchanged. *)
Lemma lossy_text s : valid_utf8 s = true → lossy s = s.
Proof. intros Hs. unfold lossy. by rewrite lossy_go_valid. Qed.

(** Text followed by text is text. *)
Lemma utf8_go_app pend s t : utf8_go pend s = true → utf8_go pend (s +:+ t) = utf8_go [] t.
Proof.
  revert pend. induction s as [|c s IH]; intros [|r p]; [done|done| |]; rewrite str_app_cons; cbn.
  - destruct (utf8_lead c); [apply IH|done].
  - intros [-> Hs]%andb_true_iff. by apply IH.
Qed.
Lemma valid_utf8_app s t : valid_utf8 s = true → valid_utf8 (s +:+ t) = valid_utf8 t.
Proof. apply utf8_go_app. Qed.
Lemma str_take_app s t : Str.take (String.length s) (s +:+ t) = s.
Proof. induction s as [|c s IH]; [by destruct t|]. rewrite str_app_cons. cbn. by rewrite IH. Qed.

End str_lemmas.
(** Appended texts, brought to their right-nested form. *)
#[export] Hint Rewrite str_app_nil_l str_app_nil_r str_app_assoc : str.
