(* ===== verification/Fmt.v ===== *)
(** * Text output: what [std::fmt] and [str::lines] do

    Padding to a width, counted in characters, and the first line of a text. *)

From S2P Require Import Prelude.
From S2P Require Import RustStr.

Module Fmt.
Import Str.

(** [s.chars().count()]: the bytes that start a character. *)
Fixpoint char_count (s : string) : nat :=
  match s with
  | EmptyString => 0
  | String c s => (if is_continuation c then 0 else 1) + char_count s
  end.
Fixpoint repeat (s : string) (n : nat) : string :=
  match n with O => "" | S n => s +:+ repeat s n end.
(** [{:<n}] and [{:>n}] *)
Definition pad_end (n : nat) (s : string) : string := s +:+ repeat " " (n - char_count s).
Definition pad_start (n : nat) (s : string) : string := repeat " " (n - char_count s) +:+ s.

(** [s.lines().next().unwrap_or("")]: up to the first newline; a carriage
    return goes with the newline it precedes. *)
Fixpoint strip_cr (s : string) : string :=
  match s with
  | EmptyString => ""
  | String c EmptyString => if decide (c = "013"%char) then "" else s
  | String c s' => String c (strip_cr s')
  end.
Fixpoint until_nl (s : string) : string * bool :=
  match s with
  | EmptyString => ("", false)
  | String c s =>
      if decide (c = "010"%char) then ("", true)
      else let '(l, b) := until_nl s in (String c l, b)
  end.
Definition first_line (s : string) : string :=
  let '(l, nl) := until_nl s in if nl then strip_cr l else l.

(** [s.find('\n').unwrap_or(s.len())], and the text before it. *)
Definition subject_of (s : string) : string := (until_nl s).1.

(** ** Lemmas *)
Lemma char_count_app s t : char_count (s +:+ t) = char_count s + char_count t.
Proof. induction s as [|c s IH]; [done|]. rewrite str_app_cons. cbn. rewrite IH. lia. Qed.
Lemma char_count_spaces n : char_count (repeat " " n) = n.
Proof. induction n as [|n IH]; [done|]. cbn [repeat]. rewrite char_count_app, IH. done. Qed.
(** A padded field is at least as wide as asked, and exactly so when its text
    fits. *)
Lemma pad_end_width n s : char_count (pad_end n s) = Nat.max n (char_count s).
Proof. unfold pad_end. rewrite char_count_app, char_count_spaces. lia. Qed.
Lemma pad_start_width n s : char_count (pad_start n s) = Nat.max n (char_count s).
Proof. unfold pad_start. rewrite char_count_app, char_count_spaces. lia. Qed.

Lemma until_nl_no_nl s : contains_char (until_nl s).1 "010" = false.
Proof.
  induction s as [|c s IH]; [done|]. cbn. destruct (decide (c = "010"%char)) as [->|Hc]; [done|].
  destruct (until_nl s) as [l b]. cbn in *. by rewrite IH, bool_decide_eq_false_2.
Qed.
(** The subject is what comes before the first newline. *)
Lemma until_nl_app l s : contains_char l "010" = false → until_nl (l +:+ nl +:+ s) = (l, true).
Proof.
  induction l as [|c l IH]; [done|]. cbn [contains_char]. intros [Hc%bool_decide_eq_false Hl]%orb_false_iff.
  rewrite str_app_cons. cbn [until_nl]. by rewrite decide_False, IH by done.
Qed.
Lemma until_nl_single l : contains_char l "010" = false → until_nl l = (l, false).
Proof.
  induction l as [|c l IH]; [done|]. cbn [contains_char]. intros [Hc%bool_decide_eq_false Hl]%orb_false_iff.
  cbn [until_nl]. by rewrite decide_False, IH by done.
Qed.
Example first_line_crlf : first_line ("fix" +:+ String "013" nl +:+ "body") = "fix".
Proof. reflexivity. Qed.
End Fmt.
