(* ===== verification/F64.v ===== *)
(** * f64, as far as the CI computes with it

    Values are those of the Standard Library's [spec_float] at binary64. *)

From Stdlib Require Import SpecFloat.
From S2P Require Import Prelude.
From S2P Require Import RustStr.

Module F64.
Import Str.

(** [n as f64] *)
Definition f64_of (n : Z) : spec_float := binary_normalize 53 1024 n 0 false.
Definition f64_add (a b : spec_float) : spec_float := SFadd 53 1024 a b.
Definition f64_div (a b : Z) : spec_float := SFdiv 53 1024 (f64_of a) (f64_of b).
(** [a.max(b)] of two numbers. *)
Definition f64_max (a b : spec_float) : spec_float := if SFltb a b then b else a.

(** [{:.1}] prints the exact value rounded to one decimal, ties to even. *)
Definition round_half_even (num den : Z) : Z :=
  let q := (num / den)%Z in
  match ((2 * (num mod den)) ?= den)%Z with
  | Lt => q
  | Gt => (q + 1)%Z
  | Eq => if Z.even q then q else (q + 1)%Z
  end.
(** Ten times the value, rounded; the quotients printed are positive. *)
Definition tenths (x : spec_float) : Z :=
  match x with
  | S754_finite _ m e =>
      if (0 <=? e)%Z then (10 * (Zpos m * 2 ^ e))%Z else round_half_even (10 * Zpos m) (2 ^ (- e))
  | _ => 0
  end.
Definition one_decimal (x : spec_float) : string :=
  of_u64 (tenths x / 10) +:+ "." +:+ of_u64 (tenths x mod 10).
End F64.
