(* ===== verification/Keys.v ===== *)
(** * Result keys and the encoded environment (src/src/lib.rs)

    The names under which results are stored: [subtest_full_name],
    [result_basename], [subtest_result_key], and [encode_env], whose output is
    embedded in them. *)

From S2P Require Import Prelude.
From S2P Require Import RustStr.

Module Keys.
Import Str.

(** The four [.replace] calls keep the patterns of the source. *)
Definition subtest_full_name (test subtest : string) : string :=
  let test := replace ".ktest" "" test in
  let test := test +:+ "." +:+ subtest in
  replace "/" "." test.

Definition sanitize_kernel (kernel : string) : string := replace_char "/" "_" kernel.

Definition test_name_with_kernel (test kernel : string) : string :=
  let test := replace ".ktest" "" test in
  let test := replace "/" "." test in
  if is_empty kernel then test
  else test +:+ "@" +:+ sanitize_kernel kernel.

Definition result_basename (test kernel env : string) : string :=
  let base := test_name_with_kernel test kernel in
  if is_empty env then base else base +:+ "@" +:+ env.

Definition subtest_result_key (test subtest kernel env : string) : string :=
  result_basename test kernel env +:+ "." +:+ replace_char "/" "." subtest.

(** The two messages [encode_env] fails with. *)
Inductive env_error : Type :=
  | BadKey (k : string)
  | BadValue (k : string).

Definition bad (s : string) : bool :=
  contains_char s " " || contains_char s "=" || contains_char s "," || contains_char s "/".

Fixpoint encode_parts (parts : list string) (kvs : list (string * string)) :
    outcome env_error (list string) :=
  match kvs with
  | [] => Ok parts
  | (k, v) :: kvs =>
      if is_empty k || bad k then Err (BadKey k)
      else if bad v then Err (BadValue k)
      else encode_parts (parts ++ [k +:+ "=" +:+ v]) kvs
  end.

Definition encode_env (env : gmap string string) : outcome env_error string :=
  parts ← encode_parts [] (bt_iter env);
  mret (join "," parts).

(** ** Specification-level names: rendering and reading back the pairs *)
Definition render_pair (kv : string * string) : string := kv.1 +:+ "=" +:+ kv.2.
Definition env_pairs (s : string) : list string := filter (λ p, p ≠ "") (split "," s).
Definition read_pair (p : string) : string * string :=
  match split "=" p with k :: v :: _ => (k, v) | _ => (p, "") end.
Definition decode_env (s : string) : gmap string string :=
  bt_collect (read_pair <$> env_pairs s).
Definition env_good (kv : string * string) : Prop :=
  kv.1 ≠ "" ∧ bad kv.1 = false ∧ bad kv.2 = false.

Lemma is_empty_spec s : is_empty s = false ↔ s ≠ "".
Proof. by destruct s. Qed.
Lemma bad_false s :
  bad s = false ↔ contains_char s " " = false ∧ contains_char s "=" = false ∧
                  contains_char s "," = false ∧ contains_char s "/" = false.
Proof. unfold bad. rewrite !orb_false_iff. tauto. Qed.

(** The loop stops at the first bad pair, or renders every pair. *)
Lemma encode_parts_spec parts kvs :
  match encode_parts parts kvs with
  | Ok r => Forall env_good kvs ∧ r = parts ++ (render_pair <$> kvs)
  | Err (BadKey k) => ∃ l v l', kvs = l ++ (k, v) :: l' ∧ Forall env_good l ∧
                                (k = "" ∨ bad k = true)
  | Err (BadValue k) => ∃ l v l', kvs = l ++ (k, v) :: l' ∧ Forall env_good l ∧
                                  k ≠ "" ∧ bad k = false ∧ bad v = true
  | Panic => False
  end.
Proof.
  revert parts. induction kvs as [|[k v] kvs IH]; intros parts; cbn.
  { split; [constructor|by rewrite app_nil_r]. }
  destruct (is_empty k) eqn:Hk; cbn.
  { exists [], v, kvs. destruct k; [naive_solver|done]. }
  apply is_empty_spec in Hk.
  destruct (bad k) eqn:Hbk; [exists [], v, kvs; naive_solver|].
  destruct (bad v) eqn:Hbv; [exists [], v, kvs; naive_solver|].
  assert (env_good (k, v)) as Hg by done.
  specialize (IH (parts ++ [render_pair (k, v)])).
  change (k +:+ "=" +:+ v) with (render_pair (k, v)).
  destruct (encode_parts _ _) as [r|[k'|k']|]; [| | |done].
  - destruct IH as [? ->]. split; [by constructor|by rewrite <-app_assoc].
  - destruct IH as (l & v' & l' & -> & ? & ?). exists ((k, v) :: l), v', l'. auto.
  - destruct IH as (l & v' & l' & -> & ? & ?). exists ((k, v) :: l), v', l'. auto.
Qed.

Lemma encode_env_Ok env s :
  encode_env env = Ok s ↔
  Forall env_good (bt_iter env) ∧ s = join "," (render_pair <$> bt_iter env).
Proof.
  unfold encode_env. pose proof (encode_parts_spec [] (bt_iter env)) as H. revert H.
  destruct (encode_parts [] (bt_iter env)) as [r|[k|k]|] eqn:E; cbn; [|intros H..|done].
  - intros [? ->]. split; [by intros [= <-]|by intros [_ ->]].
  - split; [done|]. intros [Hg _]. destruct H as (l & v & l' & Hl & _ & Hb).
    rewrite Hl, Forall_app, Forall_cons in Hg. destruct Hg as (_ & (? & Hk & _) & _).
    cbn in *. destruct Hb; congruence.
  - split; [done|]. intros [Hg _]. destruct H as (l & v & l' & Hl & _ & Hb).
    rewrite Hl, Forall_app, Forall_cons in Hg. destruct Hg as (_ & (? & Hk & Hv) & _).
    cbn in *. destruct Hb as (? & ? & ?). congruence.
Qed.

Lemma render_no_comma kv : env_good kv → contains_char (render_pair kv) "," = false.
Proof.
  destruct kv as [k v]. intros (_ & Hk%bad_false & Hv%bad_false). unfold render_pair. cbn in *.
  rewrite !contains_char_app. cbn. destruct Hk as (?&?&->&?), Hv as (?&?&->&?). done.
Qed.
Lemma read_render kv : env_good kv → read_pair (render_pair kv) = kv.
Proof.
  destruct kv as [k v]. intros (_ & Hk%bad_false & Hv%bad_false). unfold read_pair, render_pair.
  cbn in *. destruct Hk as (_&Hk&_), Hv as (_&Hv&_).
  change ("=" +:+ v) with (String "=" v). by rewrite split_app, split_no_char.
Qed.
Lemma render_nonempty kv : render_pair kv ≠ "".
Proof. destruct kv as [[|c k] v]; unfold render_pair; cbn; [done|]. by rewrite str_app_cons. Qed.

(** The consumers split the encoded string at the commas: they get the
    rendered pairs, in key order. *)
Lemma env_pairs_encode env s :
  encode_env env = Ok s → env_pairs s = render_pair <$> bt_iter env.
Proof.
  intros [Hg ->]%encode_env_Ok. unfold env_pairs.
  destruct (bt_iter env) as [|kv l]; [done|].
  rewrite split_join; [|done|].
  - apply list_filter_all. intros p (x & -> & _)%list_elem_of_fmap. apply render_nonempty.
  - rewrite Forall_fmap. eapply Forall_impl; [done|]. apply render_no_comma.
Qed.

Lemma bt_iter_split_least {V} (m : gmap string V) l k v l' :
  bt_iter m = l ++ (k, v) :: l' →
  m !! k = Some v ∧ ∀ k' v', m !! k' = Some v' → String.compare k' k = Lt → (k', v') ∈ l.
Proof.
  intros E. split; [apply elem_of_bt_iter; rewrite E; set_solver|].
  intros k' v' Hk' Hlt. apply elem_of_bt_iter in Hk'.
  pose proof (bt_iter_sorted m) as Hs. rewrite E in Hk', Hs.
  apply elem_of_app in Hk' as [?|Hk']; [done|]. exfalso.
  apply StronglySorted_app in Hs as (_ & _ & Hs). inv Hs as [|? ? ? Hf].
  apply elem_of_cons in Hk' as [?|Hk']; simplify_eq.
  - by rewrite (cmp_refl String.compare) in Hlt.
  - rewrite Forall_forall in Hf. by eapply (bt_lt_asym (k, v) (k', v')); [apply Hf|].
Qed.

(** What a failing [encode_env] says of its environment: key [k] holds value
    [v], it is the first offender in key order. *)
Definition first_offender (env : gmap string string) (k v : string) : Prop :=
  env !! k = Some v ∧
  ∀ k' v', env !! k' = Some v' → String.compare k' k = Lt → env_good (k', v').

(** C23: [encode_env] succeeds exactly on environments whose keys are
    non-empty and whose keys and values hold no space, [=], [,] or [/]; then it
    yields [K1=V1,K2=V2] in ascending key order. Otherwise the error names the
    least offending key, and says whether the key or its value is at fault. *)
Theorem encode_env_correct (env : gmap string string) :
  match encode_env env with
  | Ok s => (∀ k v, env !! k = Some v → env_good (k, v)) ∧
            s = join "," (render_pair <$> bt_iter env)
  | Err (BadKey k) => ∃ v, first_offender env k v ∧ (k = "" ∨ bad k = true)
  | Err (BadValue k) => ∃ v, first_offender env k v ∧ k ≠ "" ∧ bad k = false ∧ bad v = true
  | Panic => False
  end.
Proof.
  assert (Hoff : ∀ l k v l', bt_iter env = l ++ (k, v) :: l' → Forall env_good l →
            first_offender env k v).
  { intros l k v l' E Hl. destruct (bt_iter_split_least _ _ _ _ _ E) as [? Hlt].
    split; [done|]. intros k' v' Hk' ?. rewrite Forall_forall in Hl. eauto. }
  unfold encode_env. pose proof (encode_parts_spec [] (bt_iter env)) as H. revert H.
  destruct (encode_parts [] (bt_iter env)) as [r|[k|k]|]; cbn; [| | |done].
  - intros [Hg ->]. split; [|done]. intros k v Hk. rewrite Forall_forall in Hg.
    by apply Hg, elem_of_bt_iter.
  - intros (l & v & l' & E & Hl & ?). eauto.
  - intros (l & v & l' & E & Hl & ?). eauto.
Qed.

(** C22: the encoded environment loses nothing: splitting it at the commas and
    each piece at its [=] rebuilds the map, for every map [encode_env]
    accepts. *)
Theorem encode_env_roundtrip (env : gmap string string) (s : string) :
  encode_env env = Ok s → decode_env s = env.
Proof.
  intros H. unfold decode_env. rewrite (env_pairs_encode _ _ H).
  apply encode_env_Ok in H as [Hg _].
  transitivity (bt_collect (bt_iter env)); [f_equal|apply bt_collect_iter].
  induction Hg as [|kv l Hkv _ IH]; [done|]. cbn. by rewrite read_render, IH.
Qed.

(** With no kernel and no environment the result key is the legacy
    [subtest_full_name], byte for byte. *)
Theorem subtest_result_key_legacy (test subtest : string) :
  subtest_result_key test subtest "" "" = subtest_full_name test subtest.
Proof.
  unfold subtest_result_key, result_basename, test_name_with_kernel, subtest_full_name. cbn.
  by rewrite !(replace_single "/" "."), !replace_char_app.
Qed.

Lemma encode_env_chars env e c :
  encode_env env = Ok e → c ≠ "="%char → c ≠ ","%char →
  (∀ k v, env !! k = Some v → contains_char k c = false ∧ contains_char v c = false) →
  contains_char e c = false.
Proof.
  intros [Hg ->]%encode_env_Ok Hc1 Hc2 Henv.
  assert (Forall (λ p, contains_char p c = false) (render_pair <$> bt_iter env)) as H.
  { rewrite Forall_fmap, Forall_forall. intros [k v] Hkv%elem_of_bt_iter. cbn.
    unfold render_pair. cbn. rewrite !contains_char_app. cbn.
    destruct (Henv k v Hkv) as [-> ->]. by rewrite bool_decide_eq_false_2. }
  induction H as [|p l Hp Hl IH]; [done|]. destruct l as [|q l]; [done|].
  assert (join "," (p :: q :: l) = p +:+ "," +:+ join "," (q :: l)) as -> by done.
  rewrite !contains_char_app, Hp, IH. cbn. by rewrite bool_decide_eq_false_2.
Qed.

Lemma sanitize_kernel_no_slash k : contains_char (sanitize_kernel k) "/" = false.
Proof. by apply replace_char_removes. Qed.

Lemma test_name_no_slash t k : contains_char (test_name_with_kernel t k) "/" = false.
Proof.
  unfold test_name_with_kernel. rewrite (replace_single "/" ".").
  destruct (is_empty k); rewrite ?contains_char_app, replace_char_removes by done; [done|].
  by rewrite sanitize_kernel_no_slash.
Qed.

(** A result key is a single path component: whatever the test, the
    subtest and the kernel, it holds no [/], given an environment that
    [encode_env] produced. *)
Theorem subtest_result_key_safe (test subtest kernel : string) env e :
  encode_env env = Ok e → contains_char (subtest_result_key test subtest kernel e) "/" = false.
Proof.
  intros He. assert (contains_char e "/" = false) as Hs.
  { eapply encode_env_chars; [done..|]. intros k v Hkv.
    apply encode_env_Ok in He as [Hg _]. rewrite Forall_forall in Hg.
    apply elem_of_bt_iter in Hkv. destruct (Hg _ Hkv) as (_ & Hk & Hv).
    apply bad_false in Hk, Hv. cbn in *. tauto. }
  unfold subtest_result_key, result_basename.
  rewrite contains_char_app. destruct (is_empty e);
    rewrite ?contains_char_app, test_name_no_slash, ?Hs, ?replace_char_removes; done.
Qed.

Lemma encode_env_eq_sign env e : encode_env env = Ok e → e = "" ∨ contains_char e "=" = true.
Proof.
  intros [_ ->]%encode_env_Ok. destruct (bt_iter env) as [|kv l]; [by left|right]. rewrite fmap_cons.
  assert (∃ t, join "," (render_pair kv :: (render_pair <$> l)) = render_pair kv +:+ t) as [t Ht].
  { destruct (render_pair <$> l); [exists ""; by rewrite str_app_nil_r|].
    eexists. unfold join. cbn. reflexivity. }
  rewrite Ht. unfold render_pair. by rewrite !contains_char_app, orb_true_r.
Qed.

(** What the basename appends to the dotted test name. *)
Definition qualifier (k e : string) : string :=
  (if is_empty k then "" else "@" +:+ sanitize_kernel k) +:+
  (if is_empty e then "" else "@" +:+ e).
Lemma result_basename_split t k e :
  result_basename t k e = test_name_with_kernel t "" +:+ qualifier k e.
Proof.
  unfold result_basename, test_name_with_kernel, qualifier. cbn.
  destruct (is_empty k), (is_empty e); by autorewrite with str.
Qed.
(** The qualifier's fields, read back at the [@]s. *)
Lemma split_qualifier k e :
  contains_char k "@" = false → contains_char e "@" = false →
  split "@" (qualifier k e) =
  "" :: (if is_empty k then [] else [sanitize_kernel k]) ++ (if is_empty e then [] else [e]).
Proof.
  intros Hk He. unfold qualifier.
  assert (contains_char (sanitize_kernel k) "@" = false) as Hs by by apply replace_char_keeps.
  change ("@" +:+ sanitize_kernel k) with ("" +:+ String "@" (sanitize_kernel k)).
  change ("@" +:+ e) with ("" +:+ String "@" e).
  destruct (is_empty k), (is_empty e); rewrite ?str_app_nil_l, ?str_app_nil_r; [done| | |].
  - change (String "@" e) with ("" +:+ String "@" e). by rewrite split_app, split_no_char.
  - change (String "@" (sanitize_kernel k)) with ("" +:+ String "@" (sanitize_kernel k)).
    by rewrite split_app, split_no_char.
  - rewrite str_app_cons.
    change (String "@" (sanitize_kernel k +:+ String "@" e))
      with ("" +:+ String "@" (sanitize_kernel k +:+ String "@" e)).
    by rewrite split_app, split_app, split_no_char.
Qed.

(** A field of a qualifier: free of [@], a kernel also free of [=]. *)
Definition plain_kernel (k : string) : Prop :=
  contains_char k "@" = false ∧ contains_char k "=" = false.

(** For one test and subtest, runs that differ in kernel or environment
    get different result keys: equal keys mean equal sanitized kernels and equal
    encoded environments. The kernels hold no [@] or [=] and the environments no
    [@]; [encode_env] does not check the latter. *)
Theorem subtest_result_key_injective (test subtest k k' e e' : string) env env' :
  encode_env env = Ok e → encode_env env' = Ok e' →
  contains_char e "@" = false → contains_char e' "@" = false →
  plain_kernel k → plain_kernel k' →
  subtest_result_key test subtest k e = subtest_result_key test subtest k' e' →
  sanitize_kernel k = sanitize_kernel k' ∧ e = e'.
Proof.
  intros He He' Ha Ha' [Hk Hke] [Hk' Hke'] Heq.
  apply str_app_inv_tail in Heq. rewrite !result_basename_split in Heq.
  apply (inj _) in Heq. apply (f_equal (split "@")) in Heq.
  rewrite !split_qualifier in Heq by done.
  assert (∀ k, contains_char k "=" = false → contains_char (sanitize_kernel k) "=" = false)
    as Hsan by (intros; by apply replace_char_keeps).
  assert (∀ env e, encode_env env = Ok e → is_empty e = false → contains_char e "=" = true)
    as Hsign by (intros ?? [->|?]%encode_env_eq_sign; done).
  pose proof (Hsign _ _ He) as Hse. pose proof (Hsign _ _ He') as Hse'.
  assert (∀ s, is_empty s = true → s = "") as Hempty by by intros [].
  destruct (is_empty k) eqn:Ek, (is_empty k') eqn:Ek', (is_empty e) eqn:Ee, (is_empty e') eqn:Ee';
    cbn [app] in Heq; simplify_eq.
  all: repeat match goal with H : is_empty _ = true |- _ => apply Hempty in H as -> end.
  all: try done.
  all: exfalso; pose proof (Hsan _ Hke); pose proof (Hsan _ Hke'); intuition congruence.
Qed.

(** The distinct kernels [a/b] and [a_b] share their keys: the sanitized name
    is what is compared above. *)
Example sanitize_collision :
  subtest_result_key "t.ktest" "s" "a/b" "" = subtest_result_key "t.ktest" "s" "a_b" "".
Proof. reflexivity. Qed.

Definition env_example : gmap string string := {[ "FOO" := "1"; "BAR" := "x" ]}.
Example encode_env_example : encode_env env_example = Ok "BAR=x,FOO=1".
Proof. computed. Qed.

Lemma encode_env_roundtrip_witness :
  encode_env env_example = Ok "BAR=x,FOO=1" ∧ decode_env "BAR=x,FOO=1" = env_example.
Proof.
  split; [computed|].
  apply encode_env_roundtrip. computed.
Defined.

Lemma subtest_result_key_safe_witness :
  contains_char (subtest_result_key "fs/a.ktest" "generic/001" "debian/forky" "BAR=x,FOO=1") "/"
  = false.
Proof. apply (subtest_result_key_safe _ _ _ env_example). computed. Defined.

Lemma subtest_result_key_injective_witness :
  sanitize_kernel "debian/forky" = sanitize_kernel "debian/forky" ∧ "BAR=x,FOO=1" = "BAR=x,FOO=1".
Proof.
  eapply (subtest_result_key_injective "boot.ktest" "boot" "debian/forky" "debian/forky"
            "BAR=x,FOO=1" "BAR=x,FOO=1" env_example env_example);
    vm_compute; try reflexivity; split; reflexivity.
Defined.

End Keys.
