(* ===== verification/Status.v ===== *)
(** * Test statuses and results (src/src/lib.rs, src/src/testresult.capnp)

    [TestStatus] with its parser and printer, and the [TestResult] record of
    one subtest. *)

From S2P Require Import Prelude.
From S2P Require Import RustStr.

Module Status.
Import Str.

Inductive TestStatus : Type :=
  | Inprogress | Passed | Failed | Notrun | FailedToRun | Unknown.

#[export] Instance TestStatus_eq_dec : EqDecision TestStatus.
Proof. solve_decision. Defined.

(** The enum's wire value, a u16 of the schema, and its reading
    ([NotInSchema] is an error). *)
Definition to_raw (s : TestStatus) : Z :=
  match s with
  | Inprogress => 0 | Passed => 1 | Failed => 2 | Notrun => 3 | FailedToRun => 4 | Unknown => 5
  end.
Definition from_raw (z : Z) : option TestStatus :=
  match z with
  | 0 => Some Inprogress | 1 => Some Passed | 2 => Some Failed | 3 => Some Notrun
  | 4 => Some FailedToRun | 5 => Some Unknown | _ => None
  end%Z.

Definition from_str (status : string) : TestStatus :=
  if decide (status = "In progress") then Inprogress
  else if decide (status = "Passed") then Passed
  else if decide (status = "Failed") then Failed
  else if decide (status = "Not run") then Notrun
  else if decide (status = "Failed to run") then FailedToRun
  else if decide (status = "Unknown") then Unknown
  else if is_empty status then Inprogress
  else if contains status "IN PROGRESS" then Inprogress
  else if contains status "PASSED" then Passed
  else if contains status "FAILED" then Failed
  else if contains status "NOTRUN" then Notrun
  else if contains status "FAILED TO RUN" || contains status "NOT STARTED" then FailedToRun
  else Unknown.

Definition to_str (s : TestStatus) : string :=
  match s with
  | Inprogress => "In progress"
  | Passed => "Passed"
  | Failed => "Failed"
  | Notrun => "Not run"
  | FailedToRun => "Failed to run"
  | Unknown => "Unknown"
  end.

Definition table_class (s : TestStatus) : string :=
  match s with
  | Inprogress => "table-secondary"
  | Passed => "table-success"
  | Failed => "table-danger"
  | Notrun => "table-secondary"
  | FailedToRun => "table-secondary"
  | Unknown => "table-secondary"
  end.

(** [starttime] is in seconds since the epoch, [duration] is a u64. *)
Record TestResult : Type := mkResult {
  status : TestStatus;
  starttime : Z;
  duration : Z
}.
#[export] Instance TestResult_eq_dec : EqDecision TestResult.
Proof. solve_decision. Defined.

(** [TestResultsMap]: subtest key to result. *)
Abbreviation TestResultsMap := (gmap string TestResult).

Lemma from_to_raw s : from_raw (to_raw s) = Some s.
Proof. by destruct s. Qed.

(** [from_str] inverts [to_str] on every status, and no two statuses print
    alike: the JSON wire format round-trips. *)
Theorem from_str_to_str (s : TestStatus) :
  from_str (to_str s) = s ∧ ∀ s', to_str s' = to_str s → s' = s.
Proof. split; [by destruct s|]. by destruct s; intros []. Qed.

(** The exact wire names, and the parser's treatment of any other text. *)
Definition wire_name (t : string) : Prop := t ∈ (to_str <$> [Inprogress; Passed; Failed; Notrun; FailedToRun; Unknown]).
Definition from_str_loose (t : string) : TestStatus :=
  if is_empty t then Inprogress
  else if contains t "IN PROGRESS" then Inprogress
  else if contains t "PASSED" then Passed
  else if contains t "FAILED" then Failed
  else if contains t "NOTRUN" then Notrun
  else if contains t "FAILED TO RUN" || contains t "NOT STARTED" then FailedToRun
  else Unknown.
Lemma from_str_not_wire t : ¬ wire_name t → from_str t = from_str_loose t.
Proof.
  unfold wire_name. cbn. rewrite !not_elem_of_cons. intros (?&?&?&?&?&?&_).
  unfold from_str. by rewrite !decide_False.
Qed.
Lemma failed_to_run_failed t : contains t "FAILED TO RUN" = true → contains t "FAILED" = true.
Proof. change "FAILED TO RUN" with ("FAILED" +:+ " TO RUN"). apply contains_app. Qed.

(** Reading a status file as [FailedToRun]. The only texts so read are the
    exact wire name and those that say NOT STARTED and nothing else the parser
    looks for. In particular a text that says FAILED TO RUN, such as the line the
    daemon writes, is never read as [FailedToRun]: the test for FAILED takes it
    first, and it is [Failed] unless it also says IN PROGRESS or PASSED. *)
Theorem from_str_failed_to_run (t : string) :
  (from_str t = FailedToRun ↔
   t = "Failed to run" ∨
   (¬ wire_name t ∧ contains t "NOT STARTED" = true ∧ contains t "IN PROGRESS" = false ∧
    contains t "PASSED" = false ∧ contains t "FAILED" = false ∧ contains t "NOTRUN" = false)) ∧
  (contains t "FAILED TO RUN" = true → from_str t ≠ FailedToRun ∧
   (contains t "IN PROGRESS" = false → contains t "PASSED" = false → from_str t = Failed)).
Proof.
  destruct (decide (wire_name t)) as [Hw|Hw].
  - unfold wire_name in Hw. apply list_elem_of_fmap in Hw as (s & -> & _).
    split; [split|]; [destruct s; try done; by left| |by destruct s].
    intros [?|(Hw & _)]; [by destruct s|]. destruct Hw.
    unfold wire_name. apply list_elem_of_fmap_2. destruct s; set_solver.
  - rewrite from_str_not_wire by done. unfold from_str_loose.
    pose proof (failed_to_run_failed t) as Hf.
    assert (t ≠ "Failed to run") as Hne by (intros ->; apply Hw; vm_compute; set_solver).
    assert (t = "" → contains t "FAILED TO RUN" = false ∧ contains t "NOT STARTED" = false) as He
      by by intros ->.
    assert (is_empty t = true → t = "") as Hemp by by destruct t.
    destruct (is_empty t); [naive_solver|]. clear Hemp He.
    destruct (contains t "IN PROGRESS"), (contains t "PASSED"), (contains t "FAILED"),
      (contains t "NOTRUN"), (contains t "FAILED TO RUN"), (contains t "NOT STARTED");
      naive_solver.
Qed.

(** The daemon's own verdict line reads back as [Failed]. *)
Example daemon_verdict_reads_failed : from_str ("FAILED TO RUN" +:+ nl) = Failed.
Proof. reflexivity. Qed.

Lemma from_str_failed_to_run_witness :
  contains "FAILED TO RUN" "FAILED TO RUN" = true ∧ from_str "FAILED TO RUN" ≠ FailedToRun.
Proof. split; [reflexivity|]. by apply (from_str_failed_to_run "FAILED TO RUN"). Defined.

End Status.
