(* ===== verification/Fs.v ===== *)
(** * The file system, as [std::fs] shows it

    A tree of files, directories and symbolic links, keyed by path; the root
    is a directory. Operations return the new tree and whether they
    succeeded. They fail for the reasons the tree shows (a missing parent, a
    directory in the way, ...) and where the operating system refuses the path
    ([io_denied]: permissions, a full or failing disk). *)

From S2P Require Import Prelude.
From S2P Require Import RustStr.

Module Fs.
Import Str.

(** A path is the list of its components. *)
Abbreviation path := (list string).

Inductive node : Type :=
  | NFile (data : string) (mtime : Z)
  | NDir (mtime : Z)
  | NSymlink (target : string).
#[export] Instance node_eq_dec : EqDecision node.
Proof. solve_decision. Defined.

Abbreviation fs := (gmap path node).

(** What the operating system decides: which paths it refuses, where a write
    stops short (the disk is full), the process id, and the order in which a
    directory is listed. *)
Class OsEnv : Type := {
  io_denied : path → bool;
  io_short : path → option nat;
  os_pid : Z;
  dir_order : list string → list string;
  dir_order_perm l : dir_order l ≡ₚ l
}.

(** [Path::join] of a relative name, or of an absolute one, which replaces the
    path. [.] and empty components vanish, as in [Path::components]. *)
Definition components (s : string) : path := filter (λ c, c ≠ "" ∧ c ≠ ".") (split "/" s).
Definition path_join (p : path) (s : string) : path :=
  if starts_with s "/" then components s else p ++ components s.
Definition parent (p : path) : path := list.take (length p - 1) p.
Definition file_name (p : path) : option string := last p.

(** Resolving the target of a link from its directory; [..] goes up. *)
Definition normalize (base : path) (t : string) : path :=
  foldl (λ p c, if decide (c = "..") then parent p else p ++ [c])
        (if starts_with t "/" then [] else base) (components t).
Fixpoint resolve_fuel (n : nat) (f : fs) (p : path) : path :=
  match n with
  | O => p
  | S n => match f !! p with
           | Some (NSymlink t) => resolve_fuel n f (normalize (parent p) t)
           | _ => p
           end
  end.
(** Linux gives up after 40 links. *)
Definition resolve (f : fs) (p : path) : path := resolve_fuel 40 f p.

Definition dir_node (f : fs) (p : path) : bool :=
  match p with [] => true | _ => match f !! p with Some (NDir _) => true | _ => false end end.

Section ops.
Context {OS : OsEnv}.

(** [Path::is_dir], [Path::exists] *)
Definition is_dir (f : fs) (p : path) : bool := dir_node f (resolve f p).
Definition exists_ (f : fs) (p : path) : bool :=
  match f !! resolve f p with Some (NFile _ _) | Some (NDir _) => true | _ => false end.
Definition modified (f : fs) (p : path) : option Z :=
  match f !! resolve f p with Some (NFile _ t) | Some (NDir t) => Some t | _ => None end.

(** [fs::read] and [fs::read_to_string] *)
Definition read (f : fs) (p : path) : option string :=
  let q := resolve f p in
  if io_denied q then None
  else match f !! q with Some (NFile d _) => Some d | _ => None end.
Definition read_to_string (f : fs) (p : path) : option string := read f p ≫= to_text.

(** [File::create] makes the file or truncates it; [write_all] fills it, or
    leaves a prefix in it when the write fails. [fs::write] is both. *)
Definition create (f : fs) (now : Z) (p : path) : fs * bool :=
  let q := resolve f p in
  if io_denied q || negb (dir_node f (parent q)) then (f, false)
  else match f !! q with
       | Some (NDir _) | Some (NSymlink _) => (f, false)
       | _ => (<[q := NFile "" now]> f, true)
       end.
Definition write_all (f : fs) (now : Z) (p : path) (d : string) : fs * bool :=
  let q := resolve f p in
  match io_short q with
  | None => (<[q := NFile d now]> f, true)
  | Some n => (<[q := NFile (take n d) now]> f, false)
  end.
Definition write (f : fs) (now : Z) (p : path) (d : string) : fs * bool :=
  match create f now p with
  | (f, true) => write_all f now p d
  | (f, false) => (f, false)
  end.

Fixpoint create_dirs (f : fs) (now : Z) (base : path) (rest : path) : fs * bool :=
  match rest with
  | [] => (f, true)
  | c :: rest =>
      let p := base ++ [c] in
      match f !! p with
      | Some (NDir _) => create_dirs f now p rest
      | Some (NSymlink _) => if is_dir f p then create_dirs f now p rest else (f, false)
      | Some (NFile _ _) => (f, false)
      | None => if io_denied p then (f, false)
                else create_dirs (<[p := NDir now]> f) now p rest
      end
  end.
(** [fs::create_dir_all]: what it made before failing stays. *)
Definition create_dir_all (f : fs) (now : Z) (p : path) : fs * bool := create_dirs f now [] p.

(** [fs::remove_dir_all]: the directory and everything below it; of a link,
    the link. *)
Definition remove_dir_all (f : fs) (p : path) : fs * bool :=
  if io_denied p then (f, false)
  else match f !! p with
       | Some (NDir _) => (filter (λ kv, ¬ p `prefix_of` kv.1) f, true)
       | Some (NSymlink _) => (delete p f, true)
       | _ => (f, false)
       end.
Definition remove_file (f : fs) (p : path) : fs * bool :=
  if io_denied p then (f, false)
  else match f !! p with
       | Some (NFile _ _) | Some (NSymlink _) => (delete p f, true)
       | _ => (f, false)
       end.
(** [fs::rename] of a file: the target is replaced in one step. *)
Definition rename (f : fs) (p q : path) : fs * bool :=
  if io_denied p || io_denied q || negb (dir_node f (parent q)) then (f, false)
  else match f !! p, f !! q with
       | Some (NFile d t), Some (NDir _) => (f, false)
       | Some (NFile d t), _ => (<[q := NFile d t]> (delete p f), true)
       | _, _ => (f, false)
       end.
Definition symlink (f : fs) (target : string) (p : path) : fs * bool :=
  if io_denied p || negb (dir_node f (parent p)) then (f, false)
  else match f !! p with
       | Some _ => (f, false)
       | None => (<[p := NSymlink target]> f, true)
       end.

(** [File::open] and [set_modified]: a new modification time, where the file
    or directory can be opened. *)
Definition touched (now : Z) (v : node) : node :=
  match v with NFile d _ => NFile d now | NDir _ => NDir now | NSymlink t => NSymlink t end.
Definition set_modified (f : fs) (p : path) (now : Z) : fs :=
  let q := resolve f p in
  if io_denied q then f
  else match f !! q with
       | Some (NFile _ _ as v) | Some (NDir _ as v) => <[q := touched now v]> f
       | _ => f
       end.

(** [Path::read_dir]: the names in a directory, in the system's order. *)
Definition child_name (p q : path) : option string :=
  if decide (list.take (length p) q = p)
  then match drop (length p) q with [n] => Some n | _ => None end
  else None.
Definition children (f : fs) (p : path) : list string :=
  omap (child_name p) (map_to_list f).*1.
Definition read_dir (f : fs) (p : path) : option (list string) :=
  if io_denied p then None
  else if is_dir f p then Some (dir_order (children f (resolve f p))) else None.

(** ** Lemmas *)
Lemma child_name_Some p q n : child_name p q = Some n ↔ q = p ++ [n].
Proof.
  unfold child_name. split.
  - case_decide as Hp; [|done]. intros Hd. rewrite <-(take_drop (length p) q), Hp.
    destruct (drop (length p) q) as [|? [|]]; naive_solver.
  - intros ->. rewrite take_app_length, decide_True by done. by rewrite drop_app_length.
Qed.
Lemma elem_of_children f p n : n ∈ children f p ↔ is_Some (f !! (p ++ [n])).
Proof.
  unfold children. rewrite list_elem_of_omap. split.
  - intros (q & Hq & ->%child_name_Some). apply list_elem_of_fmap in Hq as ([? v] & -> & Hv).
    apply elem_of_map_to_list in Hv. eauto.
  - intros [v Hv]. exists (p ++ [n]). rewrite child_name_Some. split; [|done].
    apply list_elem_of_fmap. exists (p ++ [n], v). by rewrite elem_of_map_to_list.
Qed.
Lemma children_NoDup f p : NoDup (children f p).
Proof.
  unfold children. pose proof (NoDup_fst_map_to_list f) as Hnd.
  induction Hnd as [|q l Hq Hnd IH]; cbn; [constructor|].
  destruct (child_name p q) as [n|] eqn:E; [|done]. constructor; [|done].
  rewrite list_elem_of_omap. intros (q' & Hq' & E').
  apply child_name_Some in E, E'. congruence.
Qed.
Lemma read_dir_Some f p l :
  read_dir f p = Some l → NoDup l ∧ ∀ n, n ∈ l ↔ is_Some (f !! (resolve f p ++ [n])).
Proof.
  unfold read_dir. repeat case_match; [done| |done]. intros [= <-].
  split; [by rewrite dir_order_perm; apply children_NoDup|].
  intros n. by rewrite dir_order_perm, elem_of_children.
Qed.

Lemma parent_snoc (p : path) n : parent (p ++ [n]) = p.
Proof. unfold parent. rewrite length_app. cbn. by rewrite Nat.add_sub, take_app_length. Qed.
(** A name that is one component. *)
Definition plain_name (s : string) : Prop := s ≠ "" ∧ s ≠ "." ∧ contains_char s "/" = false.
Lemma components_plain s : plain_name s → components s = [s].
Proof.
  intros (? & ? & ?). unfold components. rewrite split_no_char by done.
  by rewrite filter_cons, decide_True.
Qed.
Lemma path_join_plain p s : plain_name s → path_join p s = p ++ [s].
Proof.
  intros Hs. unfold path_join. rewrite (components_plain s Hs).
  destruct Hs as (Hne & _ & Hs). destruct s as [|c s]; [done|].
  cbn [contains_char] in Hs. apply orb_false_iff in Hs as [Hc%bool_decide_eq_false _].
  assert (starts_with (String c s) "/" = false) as ->; [|done].
  unfold starts_with. cbn [String.prefix]. by destruct (ascii_dec "/" c).
Qed.

Lemma resolve_not_link f p : (∀ t, f !! p ≠ Some (NSymlink t)) → resolve f p = p.
Proof. intros Hp. unfold resolve. cbn. destruct (f !! p) as [[]|]; naive_solver. Qed.

Lemma resolve_insert_file n f p d t :
  (∀ t', f !! resolve_fuel n f p ≠ Some (NSymlink t')) →
  resolve_fuel n (<[resolve_fuel n f p := NFile d t]> f) p = resolve_fuel n f p.
Proof.
  revert p. induction n as [|n IH]; intros p; [done|]. cbn [resolve_fuel].
  intros Hl. destruct (f !! p) as [[?? | ? | t']|] eqn:E.
  1,2,4: by rewrite lookup_insert_eq.
  set (q := resolve_fuel n f (normalize (parent p) t')) in *.
  destruct (decide (p = q)) as [Hpq|Hpq].
  - rewrite <-Hpq in Hl. by destruct (Hl t').
  - rewrite lookup_insert_ne, E by done. by apply IH.
Qed.

Lemma read_file f p d t : f !! p = Some (NFile d t) → io_denied p = false → read f p = Some d.
Proof. intros Hf Hd. unfold read. rewrite resolve_not_link by congruence. by rewrite Hd, Hf. Qed.
Lemma read_frame f f' p :
  (∀ t, f !! p ≠ Some (NSymlink t)) → f' !! p = f !! p → read f' p = read f p.
Proof.
  intros Hl Hf. unfold read. rewrite !resolve_not_link by (rewrite ?Hf; done). by rewrite Hf.
Qed.
Lemma remove_dir_all_Some f p f' ok q v :
  remove_dir_all f p = (f', ok) → f' !! q = Some v → f !! q = Some v.
Proof.
  unfold remove_dir_all. intros Hr Hq. repeat case_match; simplify_eq; try done.
  - by apply map_lookup_filter_Some in Hq as [? _].
  - by apply lookup_delete_Some in Hq as [_ ?].
Qed.
Lemma create_true f now p f' :
  create f now p = (f', true) → f' = <[resolve f p := NFile "" now]> f ∧ resolve f' p = resolve f p.
Proof.
  unfold create. intros Hc. assert (∀ t, f !! resolve f p ≠ Some (NSymlink t)) as Hl.
  { intros t Ht. rewrite Ht in Hc. by case_match. }
  pose proof (resolve_insert_file 40 f p "" now Hl).
  by cases.
Qed.
Lemma create_false f now p f' : create f now p = (f', false) → f' = f.
Proof. unfold create. intros. by cases. Qed.
Lemma write_frame f now p d f' ok q :
  write f now p d = (f', ok) → q ≠ resolve f p → f' !! q = f !! q.
Proof.
  unfold write, write_all. intros Hw Hq. destruct (create f now p) as [f1 [|]] eqn:Hc.
  - apply create_true in Hc as [-> Hr]. rewrite Hr in Hw.
    repeat case_match; simplify_eq; by rewrite !lookup_insert_ne.
  - apply create_false in Hc as ->. by simplify_eq.
Qed.
Lemma write_true f now p d f' :
  write f now p d = (f', true) → f' = <[resolve f p := NFile d now]> f.
Proof.
  unfold write, write_all. destruct (create f now p) as [f1 [|]] eqn:Hc; [|done].
  apply create_true in Hc as [-> ->]. repeat case_match; intros; simplify_eq.
  by rewrite insert_insert_eq.
Qed.
Lemma rename_true f p q f' :
  rename f p q = (f', true) → ∃ d t, f !! p = Some (NFile d t) ∧ f' = <[q := NFile d t]> (delete p f).
Proof. unfold rename. intros. cases; eauto. Qed.
Lemma rename_false f p q f' : rename f p q = (f', false) → f' = f.
Proof. unfold rename. intros. by cases. Qed.
Lemma remove_dir_all_lookup f p f' ok q :
  remove_dir_all f p = (f', ok) → ¬ p `prefix_of` q → f' !! q = f !! q.
Proof.
  unfold remove_dir_all. intros Hr Hq. repeat case_match; simplify_eq; try done.
  - destruct (f !! q) as [v|] eqn:E.
    + by apply map_lookup_filter_Some.
    + apply map_lookup_filter_None. by left.
  - rewrite lookup_delete_ne; [done|]. by intros ->.
Qed.
Lemma remove_dir_all_gone f p f' q :
  remove_dir_all f p = (f', true) → (∃ t, f !! p = Some (NDir t)) → p `prefix_of` q → f' !! q = None.
Proof.
  unfold remove_dir_all. intros Hr [t Ht] Hq. rewrite Ht in Hr. repeat case_match; simplify_eq.
  apply map_lookup_filter_None. right. intros v _ Hv. by apply Hv.
Qed.
End ops.

(** A check over a concrete tree. *)
Lemma fs_forallb (f : fs) (P : path → node → bool) :
  forallb (λ kv, P kv.1 kv.2) (map_to_list f) = true → ∀ q v, f !! q = Some v → P q v = true.
Proof.
  intros Hf q v Hq. rewrite forallb_forall in Hf. apply (Hf (q, v)).
  by apply list_elem_of_In, elem_of_map_to_list.
Qed.

(** The part of the machine the result code reads and changes: the tree, the
    clock, and [TMP_SEQ], the process-wide counter of temporary names. *)
Record world : Type := mkWorld { w_fs : fs; w_now : Z; w_seq : Z }.
Definition set_fs (w : world) (f : fs) : world := mkWorld f (w_now w) (w_seq w).

(** An operating system that refuses nothing, never runs full and lists in map order. *)
Definition plain_os : OsEnv.
Proof. refine {| io_denied := λ _, false; io_short := λ _, None; os_pid := 1; dir_order := λ l, l |}. done. Defined.

End Fs.
