(* ===== verification/Config.v ===== *)
(** * The configuration (src/src/lib.rs, src/src/users.rs)

    [ktest-ci.json5], the per-user [<user>.json5] files, and the resolution of
    a user's test groups along their [extends] chains. *)

From S2P Require Import Prelude.
From S2P Require Import RustStr.
From S2P Require Import Fs.

Module Config.
Import Str Fs.

Record ExecutorHost : Type := mkExecutorHost { slots : Z }.
Record RepoConfig : Type := mkRepo { rpath : path; url : string; path_url : string }.
Record Ktestrc : Type := mkKtestrc {
  linux_repo : path;
  output_dir : path;
  ktest_dir : path;
  ktest_url : option string;
  repos : gmap string RepoConfig;
  ci_url : option string;
  ci_remote : option string;
  ci_host : option string;
  users_dir : option path;
  subtest_duration_max : option Z;
  subtest_duration_def : option Z;
  keep_results_commits : option Z;
  verbose : bool;
  user_nice : gmap string Z;
  executors : gmap string ExecutorHost
}.

Definition repo_path (rc : Ktestrc) (name : string) : option path :=
  match repos rc !! name with
  | Some r => Some (rpath r)
  | None => if decide (name = "linux") then Some (linux_repo rc) else None
  end.
Definition repo_url (rc : Ktestrc) (name : string) : option string := url <$> repos rc !! name.
Definition repo_path_url (rc : Ktestrc) (name : string) : option string :=
  (λ r, if is_empty (path_url r) then url r else path_url r) <$> repos rc !! name.

(** ** users.rs *)
Record RawTestGroup : Type := mkRawGroup {
  extends : option string;
  r_max_commits : option Z;
  r_nice : option Z;
  r_test_duration_nice : option Z;
  r_test_always_passes_nice : option Z;
  r_tests : option (list string);
  r_kernels : option (list string);
  r_env : option (gmap string string)
}.
(** What the derived parser puts for an absent [repo]. *)
Definition default_repo : string := "linux".
Record RawBranch : Type := mkRawBranch {
  r_fetch : string; r_repo : string; r_test_groups : list string
}.
Record RawUserrc : Type := mkRawUserrc {
  raw_groups : gmap string RawTestGroup; raw_branches : gmap string RawBranch
}.
Record RcTestGroup : Type := mkGroup {
  max_commits : Z;
  nice : Z;
  test_duration_nice : Z;
  test_always_passes_nice : Z;
  tests : list string;
  kernels : list string;
  env : gmap string string
}.
Record RcBranch : Type := mkBranch { fetch : string; repo : string; test_groups : list string }.
Record Userrc : Type := mkUserrc {
  groups : gmap string RcTestGroup; branches : gmap string RcBranch
}.

Inductive config_error : Type :=
  | Cycle (stack : list string) (name : string)
  | NotDefined (name : string)
  | BranchRef (branch group : string)
  | Syntax
  | Reading (p : path)
  | NotFound.

(** [a.or(b)] *)
Definition or_ {A} (a b : option A) : option A := match a with Some _ => a | None => b end.

(** [resolved_group] of [resolve_group]. *)
Definition inherit (g : RawTestGroup) (parent : option RcTestGroup) : RcTestGroup :=
  mkGroup
    (default 50%Z (or_ (r_max_commits g) (max_commits <$> parent)))
    (default 0%Z (or_ (r_nice g) (nice <$> parent)))
    (default 180%Z (or_ (r_test_duration_nice g) (test_duration_nice <$> parent)))
    (default 10%Z (or_ (r_test_always_passes_nice g) (test_always_passes_nice <$> parent)))
    (default [] (or_ (r_tests g) (tests <$> parent)))
    (default [] (or_ (r_kernels g) (kernels <$> parent)))
    (let e := default ∅ (env <$> parent) in
     match r_env g with Some e' => bt_extend e (bt_iter e') | None => e end).

(** [resolve_group]: [resolved] and the [stack] of the groups being resolved
    are threaded through; [None] is a recursion deeper than [fuel]. *)
Fixpoint resolve_group (fuel : nat) (name : string) (raw : gmap string RawTestGroup)
    (resolved : gmap string RcTestGroup) (stack : list string) :
    option (outcome config_error (gmap string RcTestGroup * list string)) :=
  match fuel with
  | O => None
  | S fuel =>
      if decide (is_Some (resolved !! name)) then Some (Ok (resolved, stack))
      else if existsb (λ s, bool_decide (s = name)) stack then Some (Err (Cycle stack name))
      else
        match raw !! name with
        | None => Some (Err (NotDefined name))
        | Some g =>
            let stack := stack ++ [name] in
            let res :=
              match extends g with
              | Some p => resolve_group fuel p raw resolved stack
              | None => Some (Ok (resolved, stack))
              end in
            match res with
            | Some (Ok (resolved, stack)) =>
                let parent := p ← extends g; resolved !! p in
                Some (Ok (<[name := inherit g parent]> resolved,
                          list.take (length stack - 1) stack))
            | r => r
            end
        end
  end.

Fixpoint resolve_all (fuel : nat) (raw : gmap string RawTestGroup)
    (resolved : gmap string RcTestGroup) (stack : list string) (names : list string) :
    option (outcome config_error (gmap string RcTestGroup)) :=
  match names with
  | [] => Some (Ok resolved)
  | n :: names =>
      match resolve_group fuel n raw resolved stack with
      | Some (Ok (resolved, stack)) => resolve_all fuel raw resolved stack names
      | Some (Err e) => Some (Err e)
      | Some Panic => Some Panic
      | None => None
      end
  end.

(** The first undefined group a branch names. *)
Definition check_branch (resolved : gmap string RcTestGroup) (b : string * RawBranch) :
    option config_error :=
  tg ← list_find (λ tg, resolved !! tg = None) (r_test_groups b.2);
  Some (BranchRef b.1 tg.2).
Definition to_branch (b : RawBranch) : RcBranch :=
  mkBranch (r_fetch b) (r_repo b) (r_test_groups b).

(** [userrc_read_str] after the parse; the fuel bounds the depth of the
    recursion by the number of groups. *)
Definition resolve_userrc (raw : RawUserrc) : option (outcome config_error Userrc) :=
  match resolve_all (S (size (raw_groups raw))) (raw_groups raw) ∅ [] (bt_keys (raw_groups raw)) with
  | Some (Ok resolved) =>
      Some (match head (omap (check_branch resolved) (bt_iter (raw_branches raw))) with
            | Some e => Err e
            | None => Ok (mkUserrc resolved (to_branch <$> raw_branches raw))
            end)
  | Some (Err e) => Some (Err e)
  | Some Panic => Some Panic
  | None => None
  end.

(** ** Resolution, specified

    The chain of a group: its own definition, then its parent's, and so on up
    to one that extends nothing. *)
Section resolution.
Context (raw : gmap string RawTestGroup).

Inductive chain : string → list RawTestGroup → Prop :=
  | chain_root n g : raw !! n = Some g → extends g = None → chain n [g]
  | chain_ext n g p l : raw !! n = Some g → extends g = Some p → chain p l → chain n (g :: l).
Definition nearest {A} (f : RawTestGroup → option A) (l : list RawTestGroup) : option A :=
  head (omap f l).
(** Each value is that of the nearest group of the chain that sets it. *)
Definition flatten (l : list RawTestGroup) : RcTestGroup :=
  mkGroup (default 50%Z (nearest r_max_commits l)) (default 0%Z (nearest r_nice l))
    (default 180%Z (nearest r_test_duration_nice l))
    (default 10%Z (nearest r_test_always_passes_nice l))
    (default [] (nearest r_tests l)) (default [] (nearest r_kernels l))
    (foldr (λ g e, default ∅ (r_env g) ∪ e) ∅ l).

Lemma nearest_cons {A} (d : A) f g l :
  default d (or_ (f g) (Some (default d (nearest f l)))) = default d (nearest f (g :: l)).
Proof. unfold nearest. cbn. by destruct (f g). Qed.
Lemma nearest_one {A} (d : A) f g : default d (or_ (f g) None) = default d (nearest f [g]).
Proof. unfold nearest. cbn. by destruct (f g). Qed.
Lemma inherit_flatten g l : inherit g (Some (flatten l)) = flatten (g :: l).
Proof.
  unfold inherit, flatten. cbn [fmap option_fmap option_map]. f_equal; try apply nearest_cons.
  cbn. destruct (r_env g); cbn; [by rewrite bt_extend_iter|by rewrite (left_id_L ∅ _)].
Qed.
Lemma inherit_root g : inherit g None = flatten [g].
Proof.
  unfold inherit, flatten. cbn [fmap option_fmap option_map]. f_equal; try apply nearest_one.
  cbn. destruct (r_env g); cbn; [by rewrite bt_extend_iter|done].
Qed.

Lemma chain_det n l l' : chain n l → chain n l' → l = l'.
Proof.
  intros H. revert l'. induction H as [n g Hg He|n g p l Hg He H IH]; intros l' H'.
  - by inversion H'; simplify_eq.
  - inversion H'; simplify_eq. f_equal. auto.
Qed.
(** [a] extends [b], directly or not. *)
Inductive above : string → string → Prop :=
  | above_one a g b : raw !! a = Some g → extends g = Some b → above a b
  | above_more a b c : above a b → above b c → above a c.
Lemma above_chain a b l : above a b → chain a l → ∃ l', chain b l' ∧ length l' < length l.
Proof.
  intros H. revert l. induction H as [a g b Hg He|a b c _ IH1 _ IH2]; intros l Hl.
  - inversion Hl; simplify_eq. eexists. split; [done|cbn; lia].
  - destruct (IH1 _ Hl) as (l1 & Hl1 & ?). destruct (IH2 _ Hl1) as (l2 & ? & ?).
    exists l2. split; [done|lia].
Qed.
Lemma above_acyclic a l : above a a → ¬ chain a l.
Proof.
  intros Ha Hl. destruct (above_chain _ _ _ Ha Hl) as (l' & Hl' & Hlen).
  rewrite (chain_det _ _ _ Hl Hl') in Hlen. lia.
Qed.

(** What the resolver maintains. *)
Definition sound (resolved : gmap string RcTestGroup) : Prop :=
  ∀ n g, resolved !! n = Some g → ∃ l, chain n l ∧ g = flatten l.
Record resolving (resolved : gmap string RcTestGroup) (stack : list string) (name : string) : Prop := {
  rv_sound : sound resolved;
  rv_nodup : NoDup stack;
  rv_dom s : s ∈ stack → is_Some (raw !! s);
  rv_above s : s ∈ stack → above s name
}.
(** An error names a group that extends itself, or one that is not there. *)
Definition error_sound (e : config_error) : Prop :=
  match e with
  | Cycle _ n => above n n
  | NotDefined n => raw !! n = None
  | _ => False
  end.
Definition resolved_to (resolved : gmap string RcTestGroup) (stack : list string) (name : string)
    (r : outcome config_error (gmap string RcTestGroup * list string)) : Prop :=
  match r with
  | Ok (resolved', stack') =>
      stack' = stack ∧ sound resolved' ∧ resolved ⊆ resolved' ∧ is_Some (resolved' !! name)
  | Err e => (∀ l, ¬ chain name l) ∧ error_sound e
  | Panic => False
  end.

Lemma stack_bound stack :
  NoDup stack → (∀ s, s ∈ stack → is_Some (raw !! s)) → length stack ≤ size raw.
Proof.
  intros Hnd Hdom. rewrite <-(size_list_to_set (C := gset string)) by done.
  rewrite <-size_dom. apply subseteq_size. intros s Hs%elem_of_list_to_set.
  by apply elem_of_dom, Hdom.
Qed.

Lemma resolve_group_spec fuel name resolved stack :
  size raw < fuel + length stack → resolving resolved stack name →
  ∃ r, resolve_group fuel name raw resolved stack = Some r ∧ resolved_to resolved stack name r.
Proof.
  revert name resolved stack. induction fuel as [|fuel IH]; intros name resolved stack Hfuel Hrv.
  { pose proof (stack_bound stack (rv_nodup _ _ _ Hrv) (rv_dom _ _ _ Hrv)). lia. }
  cbn [resolve_group]. destruct Hrv as [Hsound Hnd Hdom Habove].
  case_decide as Hin; [eexists; by split|].
  destruct (existsb _ stack) eqn:Hex.
  { eexists. split; [done|]. apply existsb_exists in Hex as (s & Hs & ->%bool_decide_eq_true).
    apply list_elem_of_In, Habove in Hs. split; [|done]. intros l. by apply above_acyclic. }
  assert (name ∉ stack) as Hname.
  { intros Hs%list_elem_of_In. assert (existsb (λ s, bool_decide (s = name)) stack = true);
      [|congruence]. apply existsb_exists. exists name. by rewrite bool_decide_eq_true. }
  destruct (raw !! name) as [g|] eqn:Hg.
  2: { eexists. split; [done|]. split; [|done]. intros l Hl. inversion Hl; congruence. }
  destruct (extends g) as [p|] eqn:He.
  - destruct (IH p resolved (stack ++ [name])) as (r & -> & Hr).
    + rewrite length_app. cbn. lia.
    + assert (above name p) by by econstructor.
      split; [done| | |].
      * apply NoDup_app. split_and!; [done| |apply NoDup_singleton].
        intros s Hs ->%list_elem_of_singleton. done.
      * intros s [?| ->%list_elem_of_singleton]%elem_of_app; eauto.
      * intros s [?| ->%list_elem_of_singleton]%elem_of_app; [|done].
        eapply above_more; eauto.
    + destruct r as [[resolved' stack']|e|]; [|eexists; split; [done|]|done].
      * destruct Hr as (-> & Hsound' & Hsub & [pg Hp]). cbn [mbind option_bind].
        eexists. split; [done|]. destruct (Hsound' _ _ Hp) as (l & Hl & ->).
        rewrite Hp, inherit_flatten. split_and!.
        -- by rewrite length_app, Nat.add_sub, take_app_length.
        -- intros n g' [[<- <-]|[_ Hn]]%lookup_insert_Some; [|by apply Hsound'].
           eexists. split; [by econstructor|done].
        -- apply insert_subseteq_r; [by apply eq_None_not_Some|done].
        -- rewrite lookup_insert_eq. eauto.
      * destruct Hr as [Hr ?]. split; [|done].
        intros l Hl. inversion Hl; simplify_eq. by eapply Hr.
  - eexists. split; [done|]. cbn [mbind option_bind]. rewrite inherit_root. split_and!.
    + by rewrite length_app, Nat.add_sub, take_app_length.
    + intros n g' [[<- <-]|[_ Hn]]%lookup_insert_Some; [|by apply Hsound].
      eexists. split; [by constructor|done].
    + apply insert_subseteq. by apply eq_None_not_Some.
    + rewrite lookup_insert_eq. eauto.
Qed.

Lemma resolve_all_spec names resolved :
  sound resolved →
  ∃ r, resolve_all (S (size raw)) raw resolved [] names = Some r ∧
    match r with
    | Ok res => sound res ∧ resolved ⊆ res ∧ ∀ n, n ∈ names → is_Some (res !! n)
    | Err e => (∃ n, n ∈ names ∧ ∀ l, ¬ chain n l) ∧ error_sound e
    | Panic => False
    end.
Proof.
  revert resolved. induction names as [|n names IH]; intros resolved Hs.
  { eexists. split; [done|]. split_and!; [done..|]. by intros ? ?%elem_of_nil. }
  cbn [resolve_all].
  destruct (resolve_group_spec (S (size raw)) n resolved []) as (r & -> & Hr).
  { cbn. lia. }
  { split; [done|constructor| |]; by intros ? ?%elem_of_nil. }
  destruct r as [[res stack]|e|]; [|eexists; split; [done|]|done].
  - destruct Hr as (-> & Hs' & Hsub & Hn). destruct (IH res Hs') as (r & -> & Hr).
    eexists. split; [done|]. destruct r as [res'|e|]; [| |done].
    + destruct Hr as (? & Hsub' & Hnames). split_and!; [done|by etrans|].
      intros n' [->|?]%elem_of_cons; [|auto]. destruct Hn as [g Hg].
      exists g. by eapply lookup_weaken.
    + destruct Hr as [(n' & ? & ?) ?]. split; [|done]. exists n'. split; [by constructor|done].
  - destruct Hr as [Hr ?]. split; [|done]. exists n. split; [constructor|done].
Qed.
Lemma chain_raw n l : chain n l → is_Some (raw !! n).
Proof. inversion 1; eauto. Qed.
End resolution.

Lemma check_branch_None resolved b :
  check_branch resolved b = None ↔ ∀ tg, tg ∈ r_test_groups b.2 → is_Some (resolved !! tg).
Proof.
  unfold check_branch. destruct (list_find _ _) as [[i tg]|] eqn:E; cbn.
  - split; [done|]. intros H. apply list_find_Some in E as (Hi & Hn & _).
    apply list_elem_of_lookup_2, H in Hi. rewrite Hn in Hi. by destruct Hi.
  - split; [|done]. intros _ tg Htg. apply list_find_None in E.
    rewrite Forall_forall in E. apply E in Htg. by apply not_eq_None_Some.
Qed.
Lemma head_omap_None {A B} (f : A → option B) l :
  head (omap f l) = None ↔ ∀ x, x ∈ l → f x = None.
Proof.
  induction l as [|x l IH]; cbn; [split; [by intros _ ? ?%elem_of_nil|done]|].
  destruct (f x) eqn:E; cbn.
  - split; [done|]. intros H. rewrite H in E by constructor. done.
  - rewrite IH. split; intros H y; [intros [->|?]%elem_of_cons; auto|].
    intros ?. apply H. by constructor.
Qed.

(** C15: resolving a user's config always ends, and never panics. It succeeds
    exactly when every group's [extends] chain is finite and defined and every
    group a branch names exists; then each group has, for every setting, the
    value of the nearest group of its chain that sets it, the default
    otherwise, with the environments merged and the nearest binding winning.
    An error names a group on a cycle, an undefined group, or the branch and
    the missing group it refers to. *)
Theorem resolve_userrc_correct raw :
  ∃ r, resolve_userrc raw = Some r ∧
    match r with
    | Ok u =>
        (∀ n g, groups u !! n = Some g ↔ ∃ l, chain (raw_groups raw) n l ∧ g = flatten l) ∧
        (∀ n, is_Some (raw_groups raw !! n) → is_Some (groups u !! n)) ∧
        branches u = to_branch <$> raw_branches raw ∧
        (∀ b rb tg, branches u !! b = Some rb → tg ∈ test_groups rb → is_Some (groups u !! tg))
    | Err (BranchRef b tg) =>
        raw_groups raw !! tg = None ∧ ∃ rb, raw_branches raw !! b = Some rb ∧ tg ∈ r_test_groups rb
    | Err e => (∃ n, is_Some (raw_groups raw !! n) ∧ ∀ l, ¬ chain (raw_groups raw) n l) ∧
               error_sound (raw_groups raw) e
    | Panic => False
    end.
Proof.
  unfold resolve_userrc.
  destruct (resolve_all_spec (raw_groups raw) (bt_keys (raw_groups raw)) ∅) as (r & -> & Hr).
  { intros ? ?. by rewrite lookup_empty. }
  destruct r as [res|e|]; eexists; (split; [done|]); [| |done].
  2: { destruct Hr as [(n & Hn%elem_of_bt_keys & Hc) He]. destruct e; [by eauto..| | | |]; by destruct He. }
  destruct Hr as (Hs & _ & Hall).
  assert (∀ n, is_Some (raw_groups raw !! n) ↔ is_Some (res !! n)) as Hdom.
  { intros n. split; [intros; by apply Hall, elem_of_bt_keys|].
    intros [g (l & Hl & _)%Hs]. by eapply chain_raw. }
  destruct (head _) as [e|] eqn:Hb.
  - apply head_Some_elem_of, list_elem_of_omap in Hb as ([b rb] & Hin%elem_of_bt_iter & Hc).
    unfold check_branch in Hc. destruct (list_find _ _) as [[i tg]|] eqn:E; [|done].
    cbn in Hc. simplify_eq. apply list_find_Some in E as (Hi & Hn & _). split.
    + apply eq_None_not_Some. rewrite Hdom. cbn in Hn. rewrite Hn. by intros [].
    + exists rb. split; [done|]. by eapply list_elem_of_lookup_2.
  - rewrite head_omap_None in Hb. split_and!; [|intros n; apply Hdom|done|].
    + intros n g. split; [apply Hs|]. intros (l & Hl & ->). cbn.
      destruct (proj1 (Hdom n) (chain_raw _ _ _ Hl)) as [g Hg]. rewrite Hg. f_equal.
      destruct (Hs _ _ Hg) as (l' & Hl' & ->). by rewrite (chain_det _ _ _ _ Hl Hl').
    + cbn. intros b rb tg. rewrite lookup_fmap.
      destruct (raw_branches raw !! b) as [r|] eqn:Er; [|done]. intros [= <-] Htg.
      apply (check_branch_None res (b, r)); [|done]. by apply Hb, elem_of_bt_iter.
Qed.

(** json_five and the parsers serde derives: a parameter. *)
Class Json5 : Type := {
  parse_userrc : string → option RawUserrc;
  parse_ktestrc : string → option Ktestrc
}.

Section files.
Context {OS : OsEnv} {J : Json5}.

Definition userrc_read_str (s : string) : option (outcome config_error Userrc) :=
  match parse_userrc s with
  | None => Some (Err Syntax)
  | Some raw => resolve_userrc raw
  end.
Definition userrc_read (f : fs) (p : path) : option (outcome config_error Userrc) :=
  match read_to_string f p with
  | None => Some (Err (Reading p))
  | Some config => userrc_read_str config
  end.

(** [exe.ancestors()]: the path, then its parents up to the root. *)
Fixpoint ancestors_fuel (n : nat) (p : path) : list path :=
  p :: match n with O => [] | S n => ancestors_fuel n (parent p) end.
Definition ancestors (p : path) : list path := ancestors_fuel (length p) p.

Definition ktestrc_read (f : fs) (exe : path) : outcome config_error Ktestrc :=
  match list_find (λ p, exists_ f p = true)
          ((λ dir, path_join dir "public_html/ktest-ci.json5") <$> ancestors exe) with
  | None => Err NotFound
  | Some (_, p) =>
      match read_to_string f p with
      | None => Err (Reading p)
      | Some config => match parse_ktestrc config with None => Err Syntax | Some rc => Ok rc end
      end
  end.

Record CiConfig : Type := mkCiConfig {
  ktest : Ktestrc; users : gmap string (outcome config_error Userrc)
}.

(** The name up to its last dot and what follows it; a leading dot starts no
    extension, and [..] has none. *)
Fixpoint rsplit_dot (s : string) : option (string * string) :=
  match s with
  | EmptyString => None
  | String c s' =>
      match rsplit_dot s' with
      | Some (a, b) => Some (String c a, b)
      | None => if bool_decide (c = "."%char) then Some ("", s') else None
      end
  end.
Definition split_extension (name : string) : string * option string :=
  if decide (name = "..") then (name, None)
  else match rsplit_dot name with
       | Some (a, b) => if is_empty a then (name, None) else (a, Some b)
       | None => (name, None)
       end.
Definition file_stem (name : string) : string := (split_extension name).1.
Definition extension (name : string) : option string := (split_extension name).2.

Fixpoint read_users (f : fs) (dir : path) (acc : gmap string (outcome config_error Userrc))
    (names : list string) : option (gmap string (outcome config_error Userrc)) :=
  match names with
  | [] => Some acc
  | n :: names =>
      u ← userrc_read f (dir ++ [n]);
      read_users f dir (<[lossy (file_stem n) := u]> acc) names
  end.
Definition ciconfig_read (f : fs) (exe : path) : option (outcome config_error CiConfig) :=
  match ktestrc_read f exe with
  | Ok rc =>
      match users_dir rc with
      | None => Some (Ok (mkCiConfig rc ∅))
      | Some dir =>
          match read_dir f dir with
          | None => Some (Err (Reading dir))
          | Some names =>
              users ← read_users f dir ∅ (filter (λ n, extension n = Some "json5") names);
              Some (Ok (mkCiConfig rc users))
          end
      end
  | Err e => Some (Err e)
  | Panic => Some Panic
  end.

(** ** Which users there are *)
Lemma rsplit_dot_None s : rsplit_dot s = None ↔ contains_char s "." = false.
Proof.
  induction s as [|c s IH]; [done|]. cbn. rewrite orb_false_iff, bool_decide_eq_false, <-IH.
  destruct (rsplit_dot s) as [[]|]; [naive_solver|]. case_bool_decide; naive_solver.
Qed.
Lemma contains_dot a b : contains_char (a +:+ "." +:+ b) "." = true.
Proof. rewrite contains_char_app. apply orb_true_r. Qed.
Lemma rsplit_dot_Some s a b :
  rsplit_dot s = Some (a, b) ↔ s = a +:+ "." +:+ b ∧ contains_char b "." = false.
Proof.
  revert a b. induction s as [|c s IH]; intros a b; cbn.
  { split; [done|]. by destruct a; intros [? _]. }
  destruct (rsplit_dot s) as [[a' b']|] eqn:E.
  - destruct (proj1 (IH a' b') eq_refl) as [Hs' Hb']. split.
    + intros [= <- <-]. by rewrite Hs'.
    + intros [Hs Hb]. destruct a as [|c' a]; [|rewrite !str_app_cons in Hs; injection Hs as -> Hs].
      * injection Hs as -> Hs. exfalso. change (s = b) in Hs. by rewrite <-Hs, Hs', contains_dot in Hb.
      * assert (Some (a', b') = Some (a, b)) as [= -> ->]; [|done].
        apply IH. by split.
  - apply rsplit_dot_None in E as E'. case_bool_decide as Hc.
    + subst c. split; [intros [= <- <-]; done|]. intros [Hs Hb].
      destruct a as [|c' a]; [by injection Hs as ->|]. rewrite str_app_cons in Hs.
      injection Hs as <- Hs. change (s = a +:+ "." +:+ b) in Hs. by rewrite Hs, contains_dot in E'.
    + split; [done|]. intros [Hs Hb]. destruct a as [|c' a]; [injection Hs as -> _; done|].
      rewrite str_app_cons in Hs. injection Hs as -> Hs.
      change (s = a +:+ "." +:+ b) in Hs. by rewrite Hs, contains_dot in E'.
Qed.
(** The files that count are [<user>.json5]. *)
Lemma split_json5 u : u ≠ "" → split_extension (u +:+ ".json5") = (u, Some "json5").
Proof.
  intros Hu. unfold split_extension. rewrite decide_False.
  - assert (rsplit_dot (u +:+ ".json5") = Some (u, "json5")) as -> by by apply rsplit_dot_Some.
    by destruct u.
  - intros He. apply (f_equal String.length) in He. rewrite str_length_app in He. cbn in He. lia.
Qed.
Lemma extension_json5 n : extension n = Some "json5" ↔ ∃ u, u ≠ "" ∧ n = u +:+ ".json5".
Proof.
  unfold extension. split; [|intros (u & Hu & ->); by rewrite split_json5].
  unfold split_extension. case_decide; [done|].
  destruct (rsplit_dot n) as [[a b]|] eqn:E; [|done].
  apply rsplit_dot_Some in E as [-> Hb]. destruct a as [|c a]; [done|]. cbn.
  intros [= ->]. by exists (String c a).
Qed.
Lemma file_stem_json5 u : u ≠ "" → file_stem (u +:+ ".json5") = u.
Proof. intros Hu. unfold file_stem. by rewrite split_json5. Qed.
Lemma userrc_read_total f p : ∃ r, userrc_read f p = Some r.
Proof.
  unfold userrc_read, userrc_read_str, resolve_userrc. case_match; [|eauto]. case_match; [|eauto].
  destruct (resolve_all_spec (raw_groups r) (bt_keys (raw_groups r)) ∅) as (r' & -> & _).
  { intros ? ?. by rewrite lookup_empty. }
  destruct r'; eauto.
Qed.
Lemma read_users_spec f dir acc names :
  ∃ m, read_users f dir acc names = Some m ∧
    ∀ u, m !! u = match last (filter (λ n, lossy (file_stem n) = u) names) with
                  | Some n => userrc_read f (dir ++ [n])
                  | None => acc !! u
                  end.
Proof.
  revert acc. induction names as [|n names IH]; intros acc; [eexists; by split|].
  destruct (userrc_read_total f (dir ++ [n])) as [r Hr]. cbn [read_users]. rewrite Hr.
  cbn [mbind option_bind]. destruct (IH (<[lossy (file_stem n) := r]> acc)) as (m & -> & Hm).
  exists m. split; [done|]. intros u. rewrite Hm, filter_cons.
  destruct (decide (lossy (file_stem n) = u)) as [<-|Hne].
  - rewrite last_cons. destruct (last _); [done|]. by rewrite lookup_insert_eq.
  - destruct (last _); [done|]. by rewrite lookup_insert_ne.
Qed.
(** C36: reading the configuration ends without a panic, and a user is known
    by the name of its file: [users] maps [u] to what reading [u.json5] gives,
    a valid config or that file's own error, and nobody else is in it. *)
Theorem ciconfig_read_users f exe rc dir names :
  ktestrc_read f exe = Ok rc → users_dir rc = Some dir → read_dir f dir = Some names →
  Forall (λ n, valid_utf8 (file_stem n) = true) names →
  ∃ cfg, ciconfig_read f exe = Some (Ok cfg) ∧ ktest cfg = rc ∧
    ∀ u, users cfg !! u =
      if decide (u ≠ "" ∧ u +:+ ".json5" ∈ names)
      then userrc_read f (dir ++ [u +:+ ".json5"]) else None.
Proof.
  intros Hrc Hdir Hnames Htext. unfold ciconfig_read. rewrite Hrc, Hdir, Hnames.
  set (js := filter _ names). destruct (read_users_spec f dir ∅ js) as (m & -> & Hm).
  eexists. split; [done|]. split; [done|]. intros u. cbn [users]. rewrite Hm.
  assert (∀ n, n ∈ js → lossy (file_stem n) = u ↔ n = u +:+ ".json5" ∧ u ≠ "") as Hfind.
  { intros n [Hext Hn]%list_elem_of_filter.
    rewrite Forall_forall in Htext. rewrite lossy_text by by apply Htext.
    apply extension_json5 in Hext as (u' & Hu' & ->). rewrite file_stem_json5 by done. split.
    - by intros ->.
    - by intros [?%str_app_inv_tail _]. }
  destruct (last _) as [n|] eqn:E.
  - apply last_Some_elem_of, list_elem_of_filter in E as [Hn Hi].
    apply Hfind in Hn as [-> Hu]; [|done].
    apply list_elem_of_filter in Hi as [_ Hi]. by rewrite decide_True.
  - rewrite lookup_empty. case_decide as Hd; [|done]. destruct Hd as [Hu Hn]. exfalso.
    apply last_None in E. apply (not_elem_of_nil (u +:+ ".json5")). rewrite <-E.
    assert (u +:+ ".json5" ∈ js) as Hin.
    { apply list_elem_of_filter. split; [|done]. apply extension_json5. eauto. }
    apply list_elem_of_filter. split; [by apply Hfind|done].
Qed.
End files.

(** *** The configurations of the unit tests of users.rs *)
Definition raw_nil : RawTestGroup := mkRawGroup None None None None None None None None.
Definition raw_extends (p : string) : RawTestGroup :=
  mkRawGroup (Some p) None None None None None None None.
Example cycle_detected :
  resolve_userrc (mkRawUserrc {[ "a" := raw_extends "b"; "b" := raw_extends "a" ]} ∅) =
  Some (Err (Cycle ["a"; "b"] "a")).
Proof. computed. Qed.
Example unknown_test_group_ref_errors :
  resolve_userrc (mkRawUserrc {[ "base" := raw_nil ]}
                    {[ "br" := mkRawBranch "x" default_repo ["base"; "nope"] ]}) =
  Some (Err (BranchRef "br" "nope")).
Proof. computed. Qed.
Example env_merges_with_parent :
  (r ← resolve_userrc (mkRawUserrc
    {[ "base" := mkRawGroup None None None None None (Some ["a.ktest"]) (Some ["k"])
                   (Some {[ "FOO" := "1"; "BAR" := "base" ]});
       "ext" := mkRawGroup (Some "base") None None None None None None
                   (Some {[ "BAR" := "child"; "BAZ" := "2" ]}) ]} ∅);
   u ← outcome_ok r; g ← groups u !! "ext"; Some (bt_iter (env g), tests g)) =
  Some ([("BAR", "child"); ("BAZ", "2"); ("FOO", "1")], ["a.ktest"]).
Proof. computed. Qed.

(** A results host with one user. *)
Definition demo_json : Json5 := {|
  parse_userrc s := if decide (s = "{}") then Some (mkRawUserrc ∅ ∅) else None;
  parse_ktestrc s :=
    Some (mkKtestrc ["linux"] ["out"] ["ktest"] None ∅ None None None (Some ["users"])
            None None None false ∅ ∅)
|}.
Definition demo_fs : fs :=
  {[ ["public_html"] := NDir 0; ["public_html"; "ktest-ci.json5"] := NFile "conf" 0;
     ["users"] := NDir 0; ["users"; "kent.json5"] := NFile "{}" 0;
     ["users"; "README"] := NFile "" 0 ]}.
Lemma ciconfig_read_users_witness :
  ∃ cfg, @ciconfig_read plain_os demo_json demo_fs ["bin"; "ci-daemon"] = Some (Ok cfg) ∧
    users cfg !! "kent" = Some (Ok (mkUserrc ∅ ∅)) ∧ users cfg !! "README" = None.
Proof.
  destruct (@ciconfig_read_users plain_os demo_json demo_fs ["bin"; "ci-daemon"]
              (mkKtestrc ["linux"] ["out"] ["ktest"] None ∅ None None None (Some ["users"])
                 None None None false ∅ ∅) ["users"] ["README"; "kent.json5"])
    as (cfg & Hc & _ & Hu); [by vm_compute..|by repeat constructor|].
  exists cfg. rewrite !Hu. split_and!; [exact Hc|computed|computed].
Defined.

End Config.
