(* ===== verification/Store.v ===== *)
(** * The result files and the result store (src/src/lib.rs)

    The per-commit [<commit>.capnp] summaries, the per-subtest result
    directories they are derived from, and [TestResultsStore], the daemon's
    in-memory map over them. *)

From S2P Require Import Prelude.
From S2P Require Import RustStr.
From S2P Require Import Keys.
From S2P Require Import Status.
From S2P Require Import Fs.

Module Store.
Import Str Keys Status Fs.

(** ** The message of src/src/testresult.capnp

    [e_status] is the enum's u16, [e_starttime] an i64. *)
Record result_entry : Type := mkEntry {
  e_name : string; e_starttime : Z; e_duration : Z; e_status : Z
}.
Record test_results : Type := mkMsg {
  m_entries : list result_entry; m_message : string; m_commit_id : string
}.

(** The serializer: the capnp crate and the code capnpc generates. A message
    within the reader's limits reads back as it was written. *)
Class Codec (M : Type) : Type := {
  serialize : M → string;
  deserialize : string → option M;
  readable : M → Prop;
  deserialize_serialize m : readable m → deserialize (serialize m) = Some m
}.
(** The instants chrono represents, the epoch among them. *)
Class Chrono : Type := {
  timestamp_ok : Z → bool;
  timestamp_epoch : timestamp_ok 0 = true
}.

(** A serializer for concrete runs: any countable message, in binary digits. *)
Fixpoint bits (p : positive) : string :=
  match p with
  | xH => ""
  | xO p => String "0" (bits p)
  | xI p => String "1" (bits p)
  end.
Fixpoint unbits (s : string) : positive :=
  match s with
  | EmptyString => xH
  | String c s => if bool_decide (c = "0"%char) then xO (unbits s) else xI (unbits s)
  end.
Lemma unbits_bits p : unbits (bits p) = p.
Proof. induction p as [p IH|p IH|]; cbn; [by rewrite IH..|done]. Qed.
Definition countable_codec {M} `{Countable M} : Codec M.
Proof.
  refine {| serialize m := bits (encode m); deserialize s := decode (unbits s); readable m := True |}.
  intros m _. by rewrite unbits_bits, decode_encode.
Defined.
#[export] Instance result_entry_eq_dec : EqDecision result_entry.
Proof. solve_decision. Defined.
#[export] Instance test_results_eq_dec : EqDecision test_results.
Proof. solve_decision. Defined.
#[export] Instance result_entry_countable : Countable result_entry.
Proof.
  apply (inj_countable' (λ e, (e_name e, e_starttime e, e_duration e, e_status e))
           (λ '(n, s, d, t), mkEntry n s d t)). by intros [].
Defined.
#[export] Instance test_results_countable : Countable test_results.
Proof.
  apply (inj_countable' (λ m, (m_entries m, m_message m, m_commit_id m))
           (λ '(e, m, c), mkMsg e m c)). by intros [].
Defined.
Definition demo_codec : Codec test_results := countable_codec.
Definition demo_chrono : Chrono.
Proof. by refine {| timestamp_ok := λ _, true |}. Defined.

Inductive capnp_error : Type :=
  | Creating (p : path)
  | Writing (p : path)
  | Renaming (p q : path).
Inductive parse_error : Type :=
  | Malformed
  | NotInSchema (raw : Z)
  | NotText (name : string).

Record CommitResultsCapnp : Type := mkCommitResults {
  cr_message : string; cr_commit_id : string; cr_tests : TestResultsMap
}.

(** The store; [Mutex<HashMap<..>>] serialises its users, so an operation
    is one step on the map. *)
Record TestResultsStore : Type := mkStore {
  output_dir : path;
  by_commit : gmap string TestResultsMap
}.

Section store.
Context {OS : OsEnv} {CD : Codec test_results} {CH : Chrono}.

Definition build_entry (kv : string * TestResult) : result_entry :=
  mkEntry kv.1 0 (duration kv.2) (to_raw (status kv.2)).
Definition build_results (commit_id : string) (message : option string)
    (results : TestResultsMap) : test_results :=
  mkMsg (build_entry <$> bt_iter results) (default "" message) commit_id.

Definition capnp_path (out : path) (commit_id : string) : path :=
  path_join out (commit_id +:+ ".capnp").
Definition capnp_tmp_path (out : path) (commit_id : string) (seq : Z) : path :=
  path_join out (commit_id +:+ ".capnp." +:+ of_u64 os_pid +:+ "." +:+ of_u64 seq +:+ ".new").

(** [results_in.len().try_into().unwrap()] wants a u32. *)
Definition results_to_capnp (out : path) (commit_id : string) (message : option string)
    (results : TestResultsMap) (w : world) : outcome capnp_error unit * world :=
  if (2 ^ 32 <=? Z.of_nat (size results))%Z then (Panic, w)
  else
    let fname := capnp_path out commit_id in
    let fname_new := capnp_tmp_path out commit_id (w_seq w) in
    let w := mkWorld (w_fs w) (w_now w) (add64 (w_seq w) 1) in
    let '(f, created) := create (w_fs w) (w_now w) fname_new in
    if negb created then (Err (Creating fname_new), set_fs w f)
    else
      let '(f, written) := write_all f (w_now w) fname_new
                             (serialize (build_results commit_id message results)) in
      if negb written then (Err (Writing fname_new), set_fs w f)
      else
        let '(f, renamed) := rename f fname_new fname in
        if renamed then (Ok tt, set_fs w f) else (Err (Renaming fname_new fname), set_fs w f).

Definition parse_entry (e : result_entry) : outcome parse_error (string * TestResult) :=
  match from_raw (e_status e) with
  | None => Err (NotInSchema (e_status e))
  | Some s =>
      if timestamp_ok (e_starttime e) then
        match to_text (e_name e) with
        | None => Err (NotText (e_name e))
        | Some name => Ok (name, mkResult s (e_starttime e) (e_duration e))
        end
      else Panic
  end.
Fixpoint parse_entries (acc : TestResultsMap) (es : list result_entry) :
    outcome parse_error TestResultsMap :=
  match es with
  | [] => Ok acc
  | e :: es => kv ← parse_entry e; parse_entries (<[kv.1 := kv.2]> acc) es
  end.
Definition parse_test_results (buf : string) : outcome parse_error CommitResultsCapnp :=
  match deserialize buf with
  | None => Err Malformed
  | Some msg =>
      tests ← parse_entries ∅ (m_entries msg);
      mret (mkCommitResults (default "" (to_text (m_message msg)))
                            (default "" (to_text (m_commit_id msg))) tests)
  end.

(** ** The store's operations *)
Definition lookup_status (st : TestResultsStore) (commit key : string) : option TestStatus :=
  m ← by_commit st !! commit; status <$> m !! key.
Definition commit_results (st : TestResultsStore) (commit : string) : option TestResultsMap :=
  by_commit st !! commit.

(** A failed write of the capnp is logged; only its panic escapes. *)
Definition render (out : path) (commit : string) (m : TestResultsMap) (w : world) :
    outcome Empty_set world :=
  match results_to_capnp out commit None m w with
  | (Panic, _) => Panic
  | (_, w) => Ok w
  end.

Definition update (st : TestResultsStore) (commit : string) (updates : TestResultsMap)
    (w : world) : outcome Empty_set (TestResultsStore * world) :=
  if decide (updates = ∅) then Ok (st, w)
  else
    let entry := bt_extend (default ∅ (by_commit st !! commit)) (bt_iter updates) in
    let st := mkStore (output_dir st) (<[commit := entry]> (by_commit st)) in
    w ← render (output_dir st) commit entry w;
    mret (st, w).

Definition update_one (st : TestResultsStore) (commit key : string) (result : TestResult)
    (w : world) : outcome Empty_set (TestResultsStore * world) :=
  update st commit (<[key := result]> ∅) w.

(** The loop over the keys to delete, with its [changed] flag. *)
Definition delete_step (acc : TestResultsMap * bool) (k : string) : TestResultsMap * bool :=
  let '(entry, changed) := acc in
  match entry !! k with Some _ => (delete k entry, true) | None => (entry, changed) end.
Definition delete_keys (st : TestResultsStore) (commit : string) (keys : list string)
    (w : world) : outcome Empty_set (TestResultsStore * world) :=
  if decide (keys = []) then Ok (st, w)
  else
    match by_commit st !! commit with
    | None => Ok (st, w)
    | Some entry =>
        let '(entry, changed) := foldl delete_step (entry, false) keys in
        let st := mkStore (output_dir st) (<[commit := entry]> (by_commit st)) in
        if changed
        then w ← render (output_dir st) commit entry w; mret (st, w)
        else Ok (st, w)
    end.

(** ** Loading *)
Definition drop_status (clear_failed_to_run : bool) (s : TestStatus) : bool :=
  bool_decide (s = Inprogress) || (clear_failed_to_run && bool_decide (s = FailedToRun)).

(** A result directory is named by a 40-digit commit id. *)
Definition is_commit_dir (f : fs) (out : path) (name : string) : bool :=
  let commit_id := default "" (to_text name) in
  bool_decide (String.length commit_id = 40) && all_bytes is_ascii_hexdigit commit_id &&
  is_dir f (out ++ [name]).

Definition remove_stale (dir : path) (acc : TestResultsMap * fs) (k : string) :
    TestResultsMap * fs :=
  (delete k acc.1, (remove_dir_all acc.2 (path_join dir k)).1).

Definition load_step (clear : bool) (out : path)
    (acc : gmap string TestResultsMap * world) (name : string) :
    outcome Empty_set (gmap string TestResultsMap * world) :=
  let '(by_commit, w) := acc in
  if negb (is_commit_dir (w_fs w) out name) then Ok (by_commit, w)
  else
    let commit_id := default "" (to_text name) in
    match parse_test_results <$> read (w_fs w) (capnp_path out commit_id) with
    | None | Some (Err _) => Ok (by_commit, w)
    | Some Panic => Panic
    | Some (Ok c) =>
        let m := cr_tests c in
        let stale := (filter (λ kv, drop_status clear (status kv.2) = true) (bt_iter m)).*1 in
        '(m, w) ← (if decide (stale = []) then Ok (m, w)
                   else
                     let '(m, f) := foldl (remove_stale (path_join out commit_id))
                                      (m, w_fs w) stale in
                     w ← render out commit_id m (set_fs w f);
                     mret (m, w));
        Ok (if decide (m = ∅) then by_commit else <[commit_id := m]> by_commit, w)
    end.
Fixpoint load_loop (clear : bool) (out : path) (acc : gmap string TestResultsMap * world)
    (names : list string) : outcome Empty_set (gmap string TestResultsMap * world) :=
  match names with
  | [] => Ok acc
  | n :: names => acc ← load_step clear out acc n; load_loop clear out acc names
  end.
Definition load (out : path) (clear_failed_to_run : bool) (w : world) :
    outcome Empty_set (TestResultsStore * world) :=
  '(m, w) ← match read_dir (w_fs w) out with
            | Some names => load_loop clear_failed_to_run out (∅, w) names
            | None => Ok (∅, w)
            end;
  mret (mkStore out m, w).


(** ** Round trip of the result file *)
Definition reset_start (r : TestResult) : TestResult := mkResult (status r) 0 (duration r).
(** Rust strings are text; the keys of a result map are. *)
Definition text_keys (m : TestResultsMap) : Prop :=
  ∀ k, is_Some (m !! k) → valid_utf8 k = true.

Lemma parse_built_entries acc l :
  Forall (λ kv, valid_utf8 kv.1 = true) l →
  parse_entries acc (build_entry <$> l) = Ok (bt_extend acc (prod_map id reset_start <$> l)).
Proof.
  intros Hl. revert acc. induction Hl as [|[k r] l Hk Hl IH]; intros acc; [done|].
  cbn. unfold parse_entry. cbn. rewrite from_to_raw, timestamp_epoch. unfold to_text.
  cbn in Hk. rewrite Hk. cbn. by rewrite IH.
Qed.
Lemma bt_extend_fmap_values {V W} (f : V → W) (m : gmap string V) l :
  bt_extend (f <$> m) (prod_map id f <$> l) = f <$> bt_extend m l.
Proof.
  revert m. induction l as [|[k v] l IH]; intros m; [done|].
  rewrite fmap_cons, !bt_extend_cons, <-IH. cbn. by rewrite fmap_insert.
Qed.
Lemma parse_serialize commit message m :
  text_keys m → readable (build_results commit message m) →
  parse_test_results (serialize (build_results commit message m)) =
  Ok (mkCommitResults (default "" (to_text (default "" message)))
        (default "" (to_text commit)) (reset_start <$> m)).
Proof.
  intros Hm Hr. unfold parse_test_results. rewrite deserialize_serialize by done. cbn.
  rewrite parse_built_entries.
  - cbn. rewrite <-(fmap_empty reset_start), bt_extend_fmap_values.
    do 3 f_equal. apply bt_collect_iter.
  - rewrite Forall_forall. intros [k r] Hk%elem_of_bt_iter. apply Hm. eauto.
Qed.

(** ** The paths of the result files *)
Definition plain_commit (c : string) : Prop := plain_name c.

Lemma plain_app c s : plain_name c → s ≠ "" → contains_char s "/" = false → plain_name (c +:+ s).
Proof.
  intros (Hne & Hdot & Hc) Hs1 Hs2. destruct c as [|a c]; [done|].
  split; [done|split]; [|by rewrite contains_char_app, Hc, Hs2].
  rewrite str_app_cons. intros [= -> Heq]. apply (f_equal String.length) in Heq.
  rewrite str_length_app in Heq. destruct s; [done|]. cbn in Heq. lia.
Qed.
Lemma capnp_path_plain out c : plain_commit c → capnp_path out c = out ++ [c +:+ ".capnp"].
Proof. intros Hc. unfold capnp_path. by rewrite path_join_plain by by apply plain_app. Qed.
Definition tmp_name (c : string) (seq : Z) : string :=
  c +:+ ".capnp." +:+ of_u64 os_pid +:+ "." +:+ of_u64 seq +:+ ".new".
Lemma capnp_tmp_path_plain out c seq :
  plain_commit c → capnp_tmp_path out c seq = out ++ [tmp_name c seq].
Proof.
  intros Hc. unfold capnp_tmp_path. rewrite path_join_plain; [done|].
  apply plain_app; [done..|]. by rewrite !contains_char_app, !of_u64_no_slash.
Qed.
Lemma capnp_name_ne_tmp c c' seq : c +:+ ".capnp" ≠ tmp_name c' seq.
Proof.
  unfold tmp_name. intros Heq. apply (f_equal last_char) in Heq.
  rewrite <-!str_app_assoc in Heq.
  assert (∀ s, last_char (s +:+ ".capnp") = Some "p"%char) as Hp by (intros; apply last_char_app).
  assert (∀ s, last_char (s +:+ ".new") = Some "w"%char) as Hw by (intros; apply last_char_app).
  by rewrite Hp, Hw in Heq.
Qed.

Lemma capnp_ne_tmp out c c' seq :
  plain_commit c → plain_commit c' → capnp_path out c ≠ capnp_tmp_path out c' seq.
Proof.
  intros Hc Hc'. rewrite capnp_path_plain, capnp_tmp_path_plain by done.
  intros Heq%(inj _). injection Heq. apply capnp_name_ne_tmp.
Qed.

(** One write of a result file. The temporary name is fresh; what was at
    any other path, the target apart, stays. *)
Lemma results_to_capnp_spec out c msg m w r w' :
  plain_commit c → w_fs w !! capnp_tmp_path out c (w_seq w) = None →
  results_to_capnp out c msg m w = (r, w') → r ≠ Panic →
  w_now w' = w_now w ∧ w_seq w' = add64 (w_seq w) 1 ∧
  (∀ q, q ≠ capnp_path out c → q ≠ capnp_tmp_path out c (w_seq w) →
        w_fs w' !! q = w_fs w !! q) ∧
  match r with
  | Ok _ => w_fs w' !! capnp_path out c =
              Some (NFile (serialize (build_results c msg m)) (w_now w)) ∧
            w_fs w' !! capnp_tmp_path out c (w_seq w) = None
  | _ => w_fs w' !! capnp_path out c = w_fs w !! capnp_path out c
  end.
Proof.
  intros Hc Htmp Hr Hp. unfold results_to_capnp in Hr.
  pose proof (capnp_ne_tmp out c c (w_seq w) Hc Hc) as Hne.
  set (p := capnp_path out c) in *. set (q := capnp_tmp_path out c (w_seq w)) in *.
  case_match; [simplify_eq|]. cbn [w_fs w_now w_seq] in Hr.
  assert (resolve (w_fs w) q = q) as Hq by (apply resolve_not_link; congruence).
  destruct (create _ _ q) as [f [|]] eqn:Hw; cbn [negb] in Hr.
  - apply create_true in Hw as [-> Hq']. rewrite Hq in Hq', Hr.
    unfold write_all in Hr. rewrite Hq' in Hr.
    destruct (io_short q) as [n|]; cbn [negb] in Hr.
    { simplify_eq/=. split_and!; [done..| |].
      - intros q' _ Hne'. by rewrite !lookup_insert_ne by done.
      - by rewrite !lookup_insert_ne by done. }
    destruct (rename _ q p) as [f' [|]] eqn:Hren; simplify_eq/=.
    + apply rename_true in Hren as (d & t & Hd & ->). rewrite lookup_insert_eq in Hd.
      simplify_eq. split_and!; [done..| | |].
      * intros q' Hp' Hne'.
        by rewrite lookup_insert_ne, lookup_delete_ne, !lookup_insert_ne by done.
      * by rewrite lookup_insert_eq.
      * by rewrite lookup_insert_ne, lookup_delete_eq by done.
    + apply rename_false in Hren as ->. split_and!; [done..| |].
      * intros q' _ Hne'. by rewrite !lookup_insert_ne by done.
      * by rewrite !lookup_insert_ne by done.
  - apply create_false in Hw as ->. simplify_eq/=. done.
Qed.


(** When nothing stands in the way: the results directory exists, the system
    refuses neither name, no directory occupies the file's place and the
    temporary name is unused. *)
Definition can_render (out : path) (c : string) (w : world) : Prop :=
  plain_commit c ∧ dir_node (w_fs w) out = true ∧
  io_denied (capnp_path out c) = false ∧ io_denied (capnp_tmp_path out c (w_seq w)) = false ∧
  io_short (capnp_tmp_path out c (w_seq w)) = None ∧
  w_fs w !! capnp_tmp_path out c (w_seq w) = None ∧
  (∀ t, w_fs w !! capnp_path out c ≠ Some (NDir t)).
Definition fits_u32 (m : TestResultsMap) : Prop := (Z.of_nat (size m) < 2 ^ 32)%Z.

Lemma dir_node_insert_file f p q d t :
  dir_node f p = true → f !! q = None → dir_node (<[q := NFile d t]> f) p = true.
Proof.
  destruct p as [|c p]; [done|]. cbn. intros Hp Hq.
  rewrite lookup_insert_ne; [done|]. intros ->. by rewrite Hq in Hp.
Qed.

Lemma results_to_capnp_ok out c msg m w :
  can_render out c w → fits_u32 m → ∃ w', results_to_capnp out c msg m w = (Ok tt, w').
Proof.
  intros (Hc & Hdir & Hd1 & Hd2 & Hs & Htmp & Hnd) Hm. unfold results_to_capnp, fits_u32 in *.
  rewrite (proj2 (Z.leb_gt _ _)) by lia. cbn [w_fs w_now w_seq].
  pose proof (capnp_ne_tmp out c c (w_seq w) Hc Hc) as Hne.
  set (p := capnp_path out c) in *. set (q := capnp_tmp_path out c (w_seq w)) in *.
  assert (parent p = out ∧ parent q = out) as [Hpp Hpq].
  { unfold p, q. by rewrite capnp_path_plain, capnp_tmp_path_plain, !parent_snoc by done. }
  assert (resolve (w_fs w) q = q) as Hq by (apply resolve_not_link; congruence).
  unfold create, write_all. rewrite Hq, Hd2, Hpq, Hdir, Htmp. cbn [orb negb].
  rewrite resolve_not_link by by rewrite lookup_insert_eq.
  rewrite Hs, insert_insert_eq. cbn [negb].
  unfold rename. rewrite Hd1, Hd2, Hpp, dir_node_insert_file by done. cbn [orb negb].
  rewrite lookup_insert_eq. destruct (<[_ := _]> _ !! p) as [[]|] eqn:E; eauto.
  rewrite lookup_insert_ne in E by done. by destruct (Hnd _ E).
Qed.

Lemma render_spec out c m w :
  can_render out c w → fits_u32 m →
  ∃ w', render out c m w = Ok w' ∧ w_now w' = w_now w ∧ w_seq w' = add64 (w_seq w) 1 ∧
    w_fs w' !! capnp_path out c = Some (NFile (serialize (build_results c None m)) (w_now w)) ∧
    (∀ q, q ≠ capnp_path out c → w_fs w' !! q = w_fs w !! q).
Proof.
  intros Hcan Hm. destruct (results_to_capnp_ok out c None m w Hcan Hm) as [w' Hw].
  exists w'. unfold render. rewrite Hw. destruct Hcan as (Hc & _ & _ & _ & _ & Htmp & _).
  destruct (results_to_capnp_spec _ _ _ _ _ _ _ Hc Htmp Hw) as (? & ? & Hframe & ? & Hgone);
    [done|].
  split_and!; [done..|]. intros q Hq.
  destruct (decide (q = capnp_tmp_path out c (w_seq w))) as [->|]; [congruence|by apply Hframe].
Qed.

Lemma render_not_panic out c m w : fits_u32 m → ∃ w', render out c m w = Ok w'.
Proof.
  unfold render, results_to_capnp, fits_u32. intros Hm. rewrite (proj2 (Z.leb_gt _ _)) by lia.
  repeat case_match; simplify_eq; eauto.
Qed.

(** ** Theorems of the operations *)

(** C13: the result file changes in one step. However [results_to_capnp] ends,
    the commit's file is either untouched (on an error) or the complete
    serialization of the new results (on success), and no other path changes but
    the temporary name, which is gone after a success. *)
Theorem results_to_capnp_atomic out c msg m w r w' :
  plain_commit c → w_fs w !! capnp_tmp_path out c (w_seq w) = None →
  results_to_capnp out c msg m w = (r, w') → r ≠ Panic →
  (∀ q, q ≠ capnp_path out c → q ≠ capnp_tmp_path out c (w_seq w) →
        w_fs w' !! q = w_fs w !! q) ∧
  match r with
  | Ok _ => w_fs w' !! capnp_path out c =
              Some (NFile (serialize (build_results c msg m)) (w_now w)) ∧
            w_fs w' !! capnp_tmp_path out c (w_seq w) = None
  | _ => w_fs w' !! capnp_path out c = w_fs w !! capnp_path out c
  end.
Proof. intros Hc Ht Hr Hp. by destruct (results_to_capnp_spec _ _ _ _ _ _ _ Hc Ht Hr Hp) as (_&_&?&?). Qed.

(** The commit's map with the updates merged in: [updates] win. *)
Definition merged (st : TestResultsStore) (commit : string) (u : TestResultsMap) : TestResultsMap :=
  u ∪ default ∅ (by_commit st !! commit).

Lemma update_Ok st commit u w :
  fits_u32 (merged st commit u) →
  ∃ st' w', update st commit u w = Ok (st', w') ∧ output_dir st' = output_dir st ∧
    by_commit st' = (if decide (u = ∅) then by_commit st
                     else <[commit := merged st commit u]> (by_commit st)).
Proof.
  intros Hm. unfold update. case_decide; [eauto 10|].
  rewrite bt_extend_iter. fold (merged st commit u). cbn.
  destruct (render_not_panic (output_dir st) commit _ w Hm) as [w' ->]. cbn. eauto 10.
Qed.

Lemma lookup_status_merged st st' commit u c k :
  by_commit st' = (if decide (u = ∅) then by_commit st
                   else <[commit := merged st commit u]> (by_commit st)) →
  lookup_status st' c k =
    (if decide (c = commit)
     then match u !! k with Some r => Some (status r) | None => lookup_status st c k end
     else lookup_status st c k).
Proof.
  intros Hst. unfold lookup_status. rewrite Hst. case_decide; subst.
  - case_decide; by rewrite ?lookup_empty.
  - destruct (decide (c = commit)) as [->|].
    + rewrite lookup_insert_eq. cbn. unfold merged. rewrite lookup_union.
      destruct (u !! k); [by rewrite union_Some_l|]. rewrite (left_id_L None _).
      by destruct (by_commit st !! commit); cbn; rewrite ?lookup_empty.
    + by rewrite lookup_insert_ne by done.
Qed.


(** *** Concurrent updates

    The lock makes concurrent updates a sequence, in some order. *)
Fixpoint update_all (st : TestResultsStore) (ops : list (string * TestResultsMap)) (w : world) :
    outcome Empty_set (TestResultsStore * world) :=
  match ops with
  | [] => Ok (st, w)
  | (c, u) :: ops => '(st, w) ← update st c u w; update_all st ops w
  end.
Definition mem_update (op : string * TestResultsMap) (m : gmap string TestResultsMap) :=
  if decide (op.2 = ∅) then m else <[op.1 := op.2 ∪ default ∅ (m !! op.1)]> m.
Definition op_disjoint (a b : string * TestResultsMap) : Prop := a.1 ≠ b.1 ∨ a.2 ##ₘ b.2.

Lemma update_by_commit st c u w st' w' :
  update st c u w = Ok (st', w') →
  by_commit st' = mem_update (c, u) (by_commit st) ∧ output_dir st' = output_dir st.
Proof.
  unfold update, mem_update. cbn. case_decide; [by intros [= <- <-]|].
  rewrite bt_extend_iter. destruct (render _ _ _ _); cbn; [|done..]. by intros [= <- <-].
Qed.
Lemma update_all_by_commit st ops w st' w' :
  update_all st ops w = Ok (st', w') →
  by_commit st' = foldl (flip mem_update) (by_commit st) ops.
Proof.
  revert st w. induction ops as [|[c u] ops IH]; intros st w; cbn; [by intros [= <- <-]|].
  intros ([st1 w1] & Hu & Hrest)%outcome_bind_Ok.
  apply update_by_commit in Hu as [<- _]. by apply IH in Hrest.
Qed.
Lemma mem_update_comm a b m :
  op_disjoint a b → mem_update a (mem_update b m) = mem_update b (mem_update a m).
Proof.
  destruct a as [c u], b as [c' u']. unfold mem_update, op_disjoint. cbn. intros Hd.
  destruct (decide (u = ∅)) as [->|Hu], (decide (u' = ∅)) as [->|Hu']; [done..|].
  destruct (decide (c = c')) as [->|Hc].
  - destruct Hd as [?|Hd]; [done|]. rewrite !lookup_insert_eq, !insert_insert_eq. cbn.
    f_equal. rewrite !(assoc_L (∪)). f_equal. by apply map_union_comm.
  - rewrite !lookup_insert_ne by done. by apply insert_insert_ne.
Qed.

Lemma op_disjoint_sym a b : op_disjoint a b → op_disjoint b a.
Proof. unfold op_disjoint. intros [?|?]; [left|right]; by symmetry. Qed.
Lemma pair_disjoint a b :
  op_disjoint a b →
  ∀ i j x y, i ≠ j → [a; b] !! i = Some x → [a; b] !! j = Some y → op_disjoint x y.
Proof.
  intros Hd [|[|i]] [|[|j]] x y Hij Hx Hy; simplify_eq/=; try done. by apply op_disjoint_sym.
Qed.

(** C5: whatever order the lock is taken in, no verdict is lost: two orders of
    the same updates, pairwise about different commits or different subtests,
    end in the same results. *)
Theorem concurrent_updates_agree st ops ops' w w' st1 w1 st2 w2 :
  ops ≡ₚ ops' →
  (∀ i j a b, i ≠ j → ops !! i = Some a → ops !! j = Some b → op_disjoint a b) →
  update_all st ops w = Ok (st1, w1) → update_all st ops' w' = Ok (st2, w2) →
  by_commit st1 = by_commit st2.
Proof.
  intros Hperm Hd H1 H2.
  rewrite (update_all_by_commit _ _ _ _ _ H1), (update_all_by_commit _ _ _ _ _ H2).
  rewrite !foldl_reverse. apply (foldr_permutation (=) mem_update).
  - by intros op m ? <-.
  - intros i a j b m Hij [Hi ?]%reverse_lookup_Some [Hj ?]%reverse_lookup_Some.
    apply mem_update_comm. eapply Hd; [|exact Hi|exact Hj]. lia.
  - by rewrite !reverse_Permutation.
Qed.

(** ** The file system around the results *)
Record disk_ok (out : path) (w : world) : Prop := {
  dk_dir : dir_node (w_fs w) out = true;
  dk_tmp c seq : plain_commit c → w_fs w !! capnp_tmp_path out c seq = None;
  dk_file c t : plain_commit c → w_fs w !! capnp_path out c ≠ Some (NDir t);
  dk_link n t : w_fs w !! (out ++ [n]) ≠ Some (NSymlink t)
}.
Definition io_ok (out : path) : Prop :=
  ∀ c, plain_commit c → io_denied (capnp_path out c) = false ∧
       ∀ seq, io_denied (capnp_tmp_path out c seq) = false ∧
              io_short (capnp_tmp_path out c seq) = None.

Lemma disk_can_render out c w :
  disk_ok out w → io_ok out → plain_commit c → can_render out c w.
Proof.
  intros Hd Hio Hc. destruct (Hio c Hc) as [? Ht], (Ht (w_seq w)). destruct Hd.
  split_and!; auto.
Qed.
Lemma dir_node_frame f f' p :
  dir_node f p = true → (p ≠ [] → f' !! p = f !! p) → dir_node f' p = true.
Proof. destruct p; [done|]. cbn. intros Hp Hf. by rewrite Hf. Qed.

Lemma render_disk out c m w w' :
  disk_ok out w → io_ok out → plain_commit c → render out c m w = Ok w' →
  fits_u32 m ∧ disk_ok out w' ∧ w_now w' = w_now w ∧
  w_fs w' !! capnp_path out c = Some (NFile (serialize (build_results c None m)) (w_now w)) ∧
  (∀ q, q ≠ capnp_path out c → w_fs w' !! q = w_fs w !! q).
Proof.
  intros Hd Hio Hc Hr.
  assert (fits_u32 m) as Hm.
  { unfold render, results_to_capnp in Hr. unfold fits_u32.
    destruct (2 ^ 32 <=? Z.of_nat (size m))%Z eqn:E; [done|]. by apply Z.leb_gt in E. }
  destruct (render_spec out c m w) as (w1 & Hr' & ? & _ & Hfile & Hframe);
    [by apply disk_can_render|done|].
  rewrite Hr in Hr'. simplify_eq. split_and!; [done| |done..]. destruct Hd. split.
  - eapply dir_node_frame; [done|]. intros _. apply Hframe.
    rewrite capnp_path_plain by done. intros Heq. apply (f_equal length) in Heq.
    rewrite length_app in Heq. cbn in Heq. lia.
  - intros c' seq Hc'. rewrite Hframe; [auto|]. symmetry. by apply capnp_ne_tmp.
  - intros c' t Hc'. destruct (decide (capnp_path out c' = capnp_path out c)) as [->|Hne].
    + by rewrite Hfile.
    + rewrite Hframe by done. auto.
  - intros n t. destruct (decide (out ++ [n] = capnp_path out c)) as [->|Hne].
    + by rewrite Hfile.
    + rewrite Hframe by done. auto.
Qed.


(** ** What [load] keeps *)
Definition live (clear : bool) (m : TestResultsMap) : TestResultsMap :=
  filter (λ kv, drop_status clear (status kv.2) = false) m.
Definition stale_keys (clear : bool) (m : TestResultsMap) : list string :=
  (filter (λ kv, drop_status clear (status kv.2) = true) (bt_iter m)).*1.

Lemma elem_of_stale clear m k :
  k ∈ stale_keys clear m ↔ ∃ r, m !! k = Some r ∧ drop_status clear (status r) = true.
Proof.
  unfold stale_keys. rewrite list_elem_of_fmap. split.
  - intros ([? r] & -> & [Hd Hin]%list_elem_of_filter). apply elem_of_bt_iter in Hin. eauto.
  - intros (r & Hk & Hd). exists (k, r). split; [done|].
    apply list_elem_of_filter. by rewrite elem_of_bt_iter.
Qed.
Lemma remove_stale_map dir m f ks k :
  (foldl (remove_stale dir) (m, f) ks).1 !! k = if decide (k ∈ ks) then None else m !! k.
Proof.
  revert m f. induction ks as [|k' ks IH]; intros m f; cbn [foldl fst].
  { by rewrite decide_False by apply not_elem_of_nil. }
  unfold remove_stale at 2. cbn. rewrite IH. destruct (decide (k ∈ ks)).
  - by rewrite decide_True by by constructor.
  - destruct (decide (k = k')) as [->|]; [|rewrite lookup_delete_ne by done].
    + by rewrite lookup_delete_eq, decide_True by constructor.
    + by rewrite decide_False by (rewrite elem_of_cons; tauto).
Qed.
Lemma remove_stale_live dir clear m f :
  (foldl (remove_stale dir) (m, f) (stale_keys clear m)).1 = live clear m.
Proof.
  apply map_eq. intros k. rewrite remove_stale_map. unfold live.
  case_decide as Hk.
  - apply elem_of_stale in Hk as (r & Hk & Hd). symmetry. apply map_lookup_filter_None.
    right. intros ? ?. simplify_eq. cbn. congruence.
  - destruct (m !! k) as [r|] eqn:Em.
    + symmetry. apply map_lookup_filter_Some. split; [done|]. cbn.
      destruct (drop_status clear (status r)) eqn:E; [|done].
      destruct Hk. apply elem_of_stale. eauto.
    + symmetry. apply map_lookup_filter_None. by left.
Qed.
Lemma remove_stale_frame dir m f ks q :
  (∀ k, k ∈ ks → ¬ path_join dir k `prefix_of` q) →
  (foldl (remove_stale dir) (m, f) ks).2 !! q = f !! q.
Proof.
  revert m f. induction ks as [|k ks IH]; intros m f Hq; [done|].
  cbn [foldl]. unfold remove_stale at 2. cbn. rewrite IH by (intros; apply Hq; by constructor).
  destruct (remove_dir_all f (path_join dir k)) as [f' ok] eqn:E. cbn.
  eapply remove_dir_all_lookup; [done|]. apply Hq. constructor.
Qed.
Lemma remove_stale_Some dir m f ks q v :
  (foldl (remove_stale dir) (m, f) ks).2 !! q = Some v → f !! q = Some v.
Proof.
  revert m f. induction ks as [|k ks IH]; intros m f; [done|].
  cbn [foldl]. unfold remove_stale at 2. cbn. intros H%IH.
  destruct (remove_dir_all f (path_join dir k)) as [f' ok] eqn:E.
  by eapply remove_dir_all_Some.
Qed.
Lemma remove_stale_gone dir m f ks k q :
  k ∈ ks → io_denied (path_join dir k) = false →
  (∃ t, f !! path_join dir k = Some (NDir t)) → path_join dir k `prefix_of` q →
  (foldl (remove_stale dir) (m, f) ks).2 !! q = None.
Proof.
  intros Hin Hio [t Ht] Hpre. apply eq_None_not_Some. intros [v Hv].
  revert m f Ht Hv. induction ks as [|k' ks IH]; intros m f Ht; [by apply elem_of_nil in Hin|].
  cbn [foldl]. unfold remove_stale at 2. cbn.
  destruct (remove_dir_all f (path_join dir k')) as [f' ok] eqn:E. cbn. intros Hv.
  destruct (decide (k = k')) as [->|Hne].
  - assert (ok = true) as ->.
    { unfold remove_dir_all in E. rewrite Hio, Ht in E. by simplify_eq. }
    apply remove_stale_Some in Hv.
    by rewrite (remove_dir_all_gone _ _ _ _ E (ex_intro _ t Ht) Hpre) in Hv.
  - apply elem_of_cons in Hin as [?|Hin]; [done|].
    destruct (f' !! path_join dir k) as [v'|] eqn:Ef.
    + rewrite (remove_dir_all_Some _ _ _ _ _ _ E Ef) in Ht. simplify_eq.
      by eapply (IH Hin _ _ Ef).
    + clear IH. (* already gone: so is everything below it *)
      assert (path_join dir k' `prefix_of` path_join dir k ∨ f' !! path_join dir k = f !! path_join dir k)
        as [Hp|Heq].
      { destruct (decide (path_join dir k' `prefix_of` path_join dir k)); [by left|right].
        by eapply remove_dir_all_lookup. }
      2: congruence.
      apply remove_stale_Some in Hv.
      assert (ok = true) as -> by (destruct ok; [done|]; unfold remove_dir_all in E;
        repeat case_match; simplify_eq; congruence).
      unfold remove_dir_all in E. repeat case_match; simplify_eq.
      * apply map_lookup_filter_Some in Hv as [_ Hv]. apply Hv. cbn. by etrans.
      * apply lookup_delete_None in Ef as [Heq|?]; [|congruence]. congruence.
Qed.


(** The commit ids [load] looks at. *)
Definition hex_id (name : string) : Prop :=
  String.length name = 40 ∧ all_bytes is_ascii_hexdigit name = true ∧ valid_utf8 name = true.

Lemma all_bytes_no_char f s c :
  f c = false → all_bytes f s = true → contains_char s c = false.
Proof.
  intros Hc. induction s as [|d s IH]; [done|]. cbn. rewrite andb_true_iff. intros [Hd Hs].
  rewrite IH, orb_false_r by done. apply bool_decide_eq_false. intros ->. congruence.
Qed.
Lemma hex_id_plain name : hex_id name → plain_commit name.
Proof.
  intros (Hlen & Hhex & _). split_and!; [by intros ->|by intros ->|].
  apply (all_bytes_no_char is_ascii_hexdigit); [reflexivity|done].
Qed.
(** An id can be cut anywhere. *)
Lemma all_bytes_get f s n :
  all_bytes f s = true → n < String.length s → ∃ d, String.get n s = Some d ∧ f d = true.
Proof.
  revert n. induction s as [|c s IH]; intros n; cbn; [lia|]. intros [Hc Hs]%andb_true_iff Hn.
  destruct n as [|n]; [by exists c|]. apply IH; [done|lia].
Qed.
Lemma hex_slice {E} name n : hex_id name → n ≤ 40 → slice_to (E := E) name n = Ok (take n name).
Proof.
  intros (Hlen & Hhex & _) Hn. unfold slice_to, is_char_boundary. destruct n as [|n]; [done|].
  case_decide; [done|]. destruct (all_bytes_get _ _ (S n) Hhex) as (d & -> & Hd); [lia|].
  unfold is_continuation, is_ascii_hexdigit in *.
  assert ((128 <=? N_of_ascii d)%N = false) as ->; [|done].
  apply N.leb_gt. rewrite !orb_true_iff, !andb_true_iff, !N.leb_le in Hd. lia.
Qed.
Lemma is_commit_dir_spec f out name :
  is_commit_dir f out name = true ↔ hex_id name ∧ is_dir f (out ++ [name]) = true.
Proof.
  unfold is_commit_dir, hex_id, to_text.
  destruct (valid_utf8 name) eqn:Hv; cbn; rewrite !andb_true_iff, bool_decide_eq_true;
    naive_solver.
Qed.
Lemma is_commit_dir_id f out name :
  is_commit_dir f out name = true → default "" (to_text name) = name.
Proof. intros [(_ & _ & Hv) _]%is_commit_dir_spec. unfold to_text. by rewrite Hv. Qed.

(** What the disk holds for a commit, and what a load keeps of it. *)
Definition stored (out : path) (f : fs) (name : string) : option TestResultsMap :=
  if is_commit_dir f out name then
    match parse_test_results <$> read f (capnp_path out name) with
    | Some (Ok c) => Some (cr_tests c)
    | _ => None
    end
  else None.
Definition loaded (clear : bool) (out : path) (f : fs) (name : string) : option TestResultsMap :=
  m ← stored out f name;
  if decide (live clear m = ∅) then None else Some (live clear m).

(** A file the daemon can load: the names in it are result keys, so single
    components; chrono represents its start times; its entries can be counted
    with a u32 again. *)
Record clean_file (out : path) (f : fs) (c : string) : Prop := {
  cf_panic buf : read f (capnp_path out c) = Some buf → parse_test_results buf ≠ Panic;
  cf_keys m k : stored out f c = Some m → is_Some (m !! k) → plain_name k;
  cf_fits m : stored out f c = Some m → fits_u32 m
}.

(** Two result maps that agree on statuses and durations; the file has no
    start times. *)
Definition same_verdicts (m m' : TestResultsMap) : Prop :=
  (reset_start <$> m) = (reset_start <$> m').
#[export] Instance same_verdicts_equiv : Equivalence same_verdicts.
Proof. unfold same_verdicts. split; congruence. Qed.
(** The file of commit [c] holds the results [m]. *)
Definition mirrors (out : path) (f : fs) (c : string) (m : TestResultsMap) : Prop :=
  ∃ buf res, read f (capnp_path out c) = Some buf ∧ parse_test_results buf = Ok res ∧
             same_verdicts (cr_tests res) m.
#[export] Instance mirrors_proper out f c : Proper (same_verdicts ==> iff) (mirrors out f c).
Proof.
  intros m m' Hm. unfold mirrors. split; intros (buf & res & ? & ? & Hs); exists buf, res;
    (split_and!; [done..|]); by rewrite ?Hs, ?Hm.
Qed.

Lemma parse_entries_text acc es m :
  text_keys acc → parse_entries acc es = Ok m → text_keys m.
Proof.
  revert acc. induction es as [|e es IH]; intros acc Hacc; cbn; [by intros [= <-]|].
  intros ([k r] & He & Hrest)%outcome_bind_Ok. eapply IH; [|done].
  unfold parse_entry, to_text in He. repeat case_match; simplify_eq/=.
  intros k'. rewrite lookup_insert. case_decide; [by subst|]. apply Hacc.
Qed.
Lemma parse_text buf res : parse_test_results buf = Ok res → text_keys (cr_tests res).
Proof.
  unfold parse_test_results. case_match; [|done].
  intros (tests & Ht & [= <-])%outcome_bind_Ok. cbn. eapply parse_entries_text; [|done].
  intros k [v Hk]. by rewrite lookup_empty in Hk.
Qed.

Lemma mirrors_file out f c m t :
  plain_commit c → io_ok out → text_keys m → readable (build_results c None m) →
  f !! capnp_path out c = Some (NFile (serialize (build_results c None m)) t) →
  mirrors out f c m.
Proof.
  intros Hc Hio Hm Hr Hf. eexists _, _. split; [eapply read_file; [done|by apply Hio]|].
  split; [by apply parse_serialize|]. unfold same_verdicts. cbn.
  rewrite <-map_fmap_compose. apply map_fmap_ext. by intros.
Qed.
Lemma mirrors_frame out f f' c m :
  (∀ t, f !! capnp_path out c ≠ Some (NSymlink t)) → f' !! capnp_path out c = f !! capnp_path out c →
  mirrors out f c m → mirrors out f' c m.
Proof. unfold mirrors. intros Hl Hf. by rewrite (read_frame _ _ _ Hl Hf). Qed.


(** ** One step of [load] *)
Lemma is_dir_frame (f f' : fs) (p : path) :
  (∀ t, f !! p ≠ Some (NSymlink t)) → f' !! p = f !! p → is_dir f' p = is_dir f p.
Proof.
  intros Hl Hf. unfold is_dir. rewrite !resolve_not_link by (rewrite ?Hf; done).
  destruct p; [done|]. cbn. by rewrite Hf.
Qed.
Lemma stored_frame (out : path) (f f' : fs) c :
  (∀ n t, f !! (out ++ [n]) ≠ Some (NSymlink t)) →
  (hex_id c → f' !! (out ++ [c]) = f !! (out ++ [c]) ∧
              f' !! capnp_path out c = f !! capnp_path out c) →
  stored out f' c = stored out f c.
Proof.
  intros Hl Hf. unfold stored.
  destruct (is_commit_dir f out c) eqn:Hc.
  - apply is_commit_dir_spec in Hc as [Hid Hdir]. destruct (Hf Hid) as [H1 H2].
    rewrite (proj2 (is_commit_dir_spec f' out c)) by (by rewrite (is_dir_frame f)).
    rewrite (read_frame f); [done| |done].
    rewrite capnp_path_plain by by apply hex_id_plain. apply Hl.
  - destruct (is_commit_dir f' out c) eqn:Hc'; [|done].
    apply is_commit_dir_spec in Hc' as [Hid Hdir]. destruct (Hf Hid) as [H1 H2].
    rewrite (is_dir_frame f) in Hdir by done.
    by rewrite (proj2 (is_commit_dir_spec f out c)) in Hc by done.
Qed.
Lemma live_fits clear m : fits_u32 m → fits_u32 (live clear m).
Proof.
  unfold fits_u32, live. intros Hm.
  pose proof (map_subseteq_size _ _ (map_filter_subseteq (λ kv, drop_status clear (status kv.2) = false) m)).
  lia.
Qed.
Lemma no_stale_live clear m : stale_keys clear m = [] → live clear m = m.
Proof.
  intros Hs. apply map_eq. intros k. unfold live. destruct (m !! k) as [r|] eqn:E.
  - apply map_lookup_filter_Some. split; [done|]. cbn.
    destruct (drop_status clear (status r)) eqn:Hd; [|done].
    assert (k ∈ stale_keys clear m) as Hin by (apply elem_of_stale; eauto).
    rewrite Hs in Hin. by apply elem_of_nil in Hin.
  - apply map_lookup_filter_None. by left.
Qed.

(** The paths a load may change on account of commit [c], and what it does to
    them. *)
Definition touches (clear : bool) (out : path) (f : fs) (c : string) (q : path) : Prop :=
  ∃ m, stored out f c = Some m ∧
    (q = capnp_path out c ∨ ∃ k, k ∈ stale_keys clear m ∧ out ++ [c; k] `prefix_of` q).
Definition swept (clear : bool) (out : path) (f f' : fs) (now : Z) (c : string) : Prop :=
  ∀ m, stored out f c = Some m →
    (if decide (stale_keys clear m = [])
     then f' !! capnp_path out c = f !! capnp_path out c
     else f' !! capnp_path out c =
            Some (NFile (serialize (build_results c None (live clear m))) now)) ∧
    ∀ k q, k ∈ stale_keys clear m → io_denied (out ++ [c; k]) = false →
      (∃ t, f !! (out ++ [c; k]) = Some (NDir t)) → out ++ [c; k] `prefix_of` q → f' !! q = None.

Lemma subtest_path (out : path) c k :
  plain_name c → plain_name k → path_join (path_join out c) k = out ++ [c; k].
Proof. intros. by rewrite !path_join_plain, <-app_assoc by done. Qed.
Lemma not_under (out : path) c k n : ¬ out ++ [c; k] `prefix_of` out ++ [n].
Proof.
  intros Hp%prefix_length. rewrite !length_app in Hp. cbn in Hp. lia.
Qed.
Lemma not_under_out (out : path) c k : ¬ out ++ [c; k] `prefix_of` out.
Proof. intros Hp%prefix_length. rewrite !length_app in Hp. cbn in Hp. lia. Qed.

Lemma remove_stale_disk out c m w ks :
  plain_name c → (∀ k, k ∈ ks → plain_name k) → disk_ok out w →
  disk_ok out (set_fs w (foldl (remove_stale (path_join out c)) (m, w_fs w) ks).2).
Proof.
  intros Hc Hks [Hdir Htmp Hfile Hlink]. split; cbn.
  - eapply dir_node_frame; [done|]. intros _. apply remove_stale_frame. intros k Hk.
    rewrite subtest_path by auto. apply not_under_out.
  - intros c' seq Hc'. apply eq_None_not_Some. intros [v Hv%remove_stale_Some].
    by rewrite Htmp in Hv.
  - intros c' t Hc' Hv%remove_stale_Some. by eapply Hfile.
  - intros n t Hv%remove_stale_Some. by eapply Hlink.
Qed.

Lemma stored_parse out f c m :
  stored out f c = Some m ↔
  is_commit_dir f out c = true ∧
  ∃ buf res, read f (capnp_path out c) = Some buf ∧ parse_test_results buf = Ok res ∧ cr_tests res = m.
Proof.
  unfold stored. split.
  - intros H. repeat case_match; simplify_eq. destruct (read _ _) as [buf|] eqn:Hr; simplify_eq/=.
    eauto 10.
  - intros (-> & buf & res & -> & Hp & <-). cbn. by rewrite Hp.
Qed.

(** What the sweep of one commit leaves behind. *)
Definition step_result (clear : bool) (out : path) (w w' : world) (c : string) : Prop :=
  disk_ok out w' ∧ w_now w' = w_now w ∧ swept clear out (w_fs w) (w_fs w') (w_now w) c ∧
  ∀ q, ¬ touches clear out (w_fs w) c q → w_fs w' !! q = w_fs w !! q.

Lemma sweep_commit clear out c m w :
  disk_ok out w → io_ok out → plain_commit c → clean_file out (w_fs w) c →
  stored out (w_fs w) c = Some m → stale_keys clear m ≠ [] →
  ∃ w', render out c (live clear m)
          (set_fs w (foldl (remove_stale (path_join out c)) (m, w_fs w) (stale_keys clear m)).2) = Ok w' ∧
    step_result clear out w w' c.
Proof.
  intros Hd Hio Hc [_ Hkeys Hfits] Hst Hstale. set (ks := stale_keys clear m) in *.
  assert (∀ k, k ∈ ks → plain_name k) as Hks.
  { intros k Hk. apply (Hkeys _ _ Hst). apply elem_of_stale in Hk as (r & ? & _). eauto. }
  pose proof (remove_stale_disk out c m w ks Hc Hks Hd) as Hd1.
  set (w1 := set_fs w _) in *.
  destruct (render_not_panic out c (live clear m) w1) as [w' Hw']; [by apply live_fits, (Hfits _ Hst)|].
  exists w'. split; [done|].
  destruct (render_disk _ _ _ _ _ Hd1 Hio Hc Hw') as (_ & Hd' & Hnow & Hfile & Hframe).
  split_and!; [done|done| |].
  - intros m0 Hst0. rewrite Hst in Hst0. simplify_eq. fold ks. rewrite decide_False by done.
    split; [done|]. intros k q Hk Hk1 Hk2 Hpre.
    rewrite <-(subtest_path out c k) in * by auto.
    rewrite Hframe.
    + unfold w1. cbn. by eapply remove_stale_gone.
    + rewrite capnp_path_plain by done. intros ->. rewrite subtest_path in Hpre by auto.
      by apply not_under in Hpre.
  - intros q Hq. rewrite Hframe.
    + unfold w1. cbn. apply remove_stale_frame. intros k Hk Hpre.
      rewrite subtest_path in Hpre by auto. apply Hq. exists m. eauto.
    + intros ->. apply Hq. exists m. auto.
Qed.

Lemma load_step_spec clear out acc w name :
  disk_ok out w → io_ok out → clean_file out (w_fs w) name →
  ∃ w', load_step clear out (acc, w) name =
          Ok (match loaded clear out (w_fs w) name with
              | Some m => <[name := m]> acc | None => acc end, w') ∧
        step_result clear out w w' name.
Proof.
  intros Hd Hio Hclean.
  assert (stored out (w_fs w) name = None → step_result clear out w w name) as Hsame.
  { intros Hn. split_and!; [done..| |done]. intros m. by rewrite Hn. }
  unfold load_step, loaded. destruct (is_commit_dir _ out name) eqn:Hdir; cbn [negb].
  2: { assert (stored out (w_fs w) name = None) as Hn by (unfold stored; by rewrite Hdir).
       rewrite Hn. cbn. eauto. }
  rewrite (is_commit_dir_id _ _ _ Hdir).
  destruct (read (w_fs w) (capnp_path out name)) as [buf|] eqn:Hr; cbn [fmap option_fmap option_map].
  2: { assert (stored out (w_fs w) name = None) as Hn by (unfold stored; by rewrite Hdir, Hr).
       rewrite Hn. cbn. eauto. }
  destruct (parse_test_results buf) as [res|e|] eqn:Hp.
  - assert (stored out (w_fs w) name = Some (cr_tests res)) as Hst
      by (apply stored_parse; eauto 10).
    rewrite Hst. set (m := cr_tests res) in *. cbn [mbind option_bind].
    fold (stale_keys clear m). apply is_commit_dir_spec in Hdir as [Hid%hex_id_plain _].
    destruct (decide (stale_keys clear m = [])) as [Hs|Hs].
    + rewrite (no_stale_live _ _ Hs). exists w. cbn. split; [by case_decide|].
      split_and!; [done..| |done]. intros m0 Hm0. rewrite Hst in Hm0. simplify_eq.
      rewrite decide_True by done. split; [done|]. rewrite Hs. by intros k q Hk%elem_of_nil.
    + destruct (sweep_commit clear out name m w Hd Hio Hid Hclean Hst Hs) as (w' & Hw' & Hres).
      pose proof (remove_stale_live (path_join out name) clear m (w_fs w)) as Hlive.
      destruct (foldl _ _ _) as [m' f'] eqn:Hfold. cbn in Hlive, Hw'. subst m'.
      rewrite Hw'. exists w'. cbn. split; [by case_decide|done].
  - assert (stored out (w_fs w) name = None) as Hn by (unfold stored; by rewrite Hdir, Hr; cbn; rewrite Hp).
    rewrite Hn. cbn. eauto.
  - destruct Hclean as [Hpanic _ _]. by destruct (Hpanic _ Hr).
Qed.

(** ** Steps for different commits do not meet *)
Lemma stored_hex out f c m : stored out f c = Some m → hex_id c.
Proof. by intros [[? _]%is_commit_dir_spec _]%stored_parse. Qed.
Lemma capnp_not_hex c : ¬ hex_id (c +:+ ".capnp").
Proof.
  intros (_ & Hhex & _). eapply (all_bytes_no_char _ _ ".") in Hhex; [|done].
  rewrite contains_char_app in Hhex. apply orb_false_iff in Hhex as [_ ?]. done.
Qed.
Lemma capnp_path_inj out c c' :
  plain_commit c → plain_commit c' → capnp_path out c = capnp_path out c' → c = c'.
Proof.
  intros Hc Hc'. rewrite !capnp_path_plain by done. intros [= Heq]%(inj _).
  by apply str_app_inv_tail in Heq.
Qed.
Lemma prefix_sibling (out : path) c c' k k' q :
  out ++ [c; k] `prefix_of` q → out ++ [c'; k'] `prefix_of` q → c = c'.
Proof.
  intros [r1 ->] [r2 Heq]. rewrite <-!app_assoc in Heq. apply (inj _) in Heq. by simplify_eq/=.
Qed.

Section other.
Context (clear : bool) (out : path) (f : fs) (c c' : string) (Hne : c ≠ c').
Lemma touches_other_dir : hex_id c' → ¬ touches clear out f c (out ++ [c']).
Proof.
  intros Hc' (m & Hm & [Heq|(k & _ & Hp%not_under)]); [|done].
  rewrite capnp_path_plain in Heq by by eapply hex_id_plain, stored_hex.
  apply (inj _) in Heq as [= ->]. by eapply capnp_not_hex.
Qed.
Lemma touches_other_capnp : hex_id c' → ¬ touches clear out f c (capnp_path out c').
Proof.
  intros Hc' (m & Hm & [Heq|(k & _ & Hp)]).
  - apply Hne. symmetry. eapply capnp_path_inj; [by apply hex_id_plain| |done].
    by eapply hex_id_plain, stored_hex.
  - rewrite capnp_path_plain in Hp by by apply hex_id_plain. by apply not_under in Hp.
Qed.
Lemma touches_other_below k q : out ++ [c'; k] `prefix_of` q → ¬ touches clear out f c q.
Proof.
  intros Hp (m & Hm & [->|(k' & _ & Hp')]).
  - rewrite capnp_path_plain in Hp by by eapply hex_id_plain, stored_hex. by apply not_under in Hp.
  - apply Hne. by eapply prefix_sibling.
Qed.
End other.

Section after.
Context (clear : bool) (out : path) (w w' : world) (c c' : string) (Hne : c ≠ c').
Context (Hdisk : disk_ok out w) (Hstep : step_result clear out w w' c).

Lemma stored_after : stored out (w_fs w') c' = stored out (w_fs w) c'.
Proof.
  destruct Hstep as (_ & _ & _ & Hframe). apply stored_frame; [by apply Hdisk|].
  intros Hc'. split; apply Hframe; [by apply touches_other_dir|by apply touches_other_capnp].
Qed.
Lemma touches_after q : touches clear out (w_fs w') c' q ↔ touches clear out (w_fs w) c' q.
Proof. unfold touches. by rewrite stored_after. Qed.
Lemma capnp_after m :
  stored out (w_fs w) c' = Some m → w_fs w' !! capnp_path out c' = w_fs w !! capnp_path out c'.
Proof.
  intros Hm. destruct Hstep as (_ & _ & _ & Hframe).
  apply Hframe, touches_other_capnp; [done|by eapply stored_hex].
Qed.
Lemma clean_after : clean_file out (w_fs w) c' → hex_id c' → clean_file out (w_fs w') c'.
Proof.
  intros [Hp Hk Hfit] Hc'. pose proof Hstep as (_ & _ & _ & Hframe).
  split; intros *; rewrite ?stored_after; eauto.
  rewrite (read_frame (w_fs w)); [eauto| |by apply Hframe, touches_other_capnp].
  rewrite capnp_path_plain by by apply hex_id_plain. apply Hdisk.
Qed.
(** A sweep of [c'] after that of [c] is one on the disk as it was before. *)
Lemma swept_after f now :
  swept clear out (w_fs w') f now c' → swept clear out (w_fs w) f now c'.
Proof.
  intros Hs m Hm. destruct (Hs m) as [Hfile Hgone]; [by rewrite stored_after|]. split.
  - case_decide; [|done]. by rewrite Hfile, (capnp_after m).
  - intros k q Hk Hio [t Ht] Hp. eapply Hgone; [done|done| |done]. exists t.
    destruct Hstep as (_ & _ & _ & Hframe). rewrite Hframe; [done|].
    by eapply touches_other_below.
Qed.
End after.

Lemma touches_hex clear out f c q : touches clear out f c q → hex_id c.
Proof. intros (m & Hm & _). by eapply stored_hex. Qed.
Lemma swept_same clear out f now c : (∀ m, stored out f c = Some m → stale_keys clear m = []) →
  swept clear out f f now c.
Proof.
  intros Hs m Hm. rewrite decide_True by auto. split; [done|].
  intros k q Hk. rewrite (Hs m Hm) in Hk. by apply elem_of_nil in Hk.
Qed.

Lemma load_loop_spec clear out names : NoDup names → ∀ acc w,
  disk_ok out w → io_ok out → (∀ c, c ∈ names → hex_id c → clean_file out (w_fs w) c) →
  ∃ m w', load_loop clear out (acc, w) names = Ok (m, w') ∧
    disk_ok out w' ∧ w_now w' = w_now w ∧
    (∀ c, m !! c = if decide (c ∈ names)
                   then match loaded clear out (w_fs w) c with Some x => Some x | None => acc !! c end
                   else acc !! c) ∧
    (∀ c, c ∈ names → swept clear out (w_fs w) (w_fs w') (w_now w) c) ∧
    (∀ q, (∀ c, c ∈ names → ¬ touches clear out (w_fs w) c q) → w_fs w' !! q = w_fs w !! q).
Proof.
  induction 1 as [|n names Hn Hnd IH]; intros acc w Hd Hio Hclean.
  { exists acc, w. split_and!; try done. by intros c ?%elem_of_nil. }
  assert (∃ w1, load_step clear out (acc, w) n =
                Ok (match loaded clear out (w_fs w) n with Some m => <[n := m]> acc | None => acc end, w1)
                ∧ step_result clear out w w1 n) as (w1 & Hstep & Hres).
  { destruct (is_commit_dir (w_fs w) out n) eqn:Hdir.
    - apply load_step_spec; [done..|]. apply Hclean; [by constructor|].
      by apply (is_commit_dir_spec _ _ _) in Hdir as [? _].
    - assert (stored out (w_fs w) n = None) as Hs by (unfold stored; by rewrite Hdir).
      exists w. unfold load_step, loaded. rewrite Hdir, Hs. split; [done|].
      split_and!; [done..| |done]. apply swept_same. by rewrite Hs. }
  pose proof Hres as (Hd1 & Hnow1 & Hsw1 & Hframe1).
  set (acc1 := match loaded clear out (w_fs w) n with Some m => <[n := m]> acc | None => acc end) in *.
  assert (∀ c, c ∈ names → c ≠ n) as Hne by (intros c Hc ->; done).
  destruct (IH acc1 w1 Hd1 Hio) as (m & w' & Hloop & Hd' & Hnow' & Hm & Hsw & Hframe).
  { intros c Hc Hid. apply (clean_after clear out w w1 n c); [by apply not_eq_sym, Hne|done..| |done].
    apply Hclean; [by constructor|done]. }
  exists m, w'. cbn [load_loop]. rewrite Hstep. cbn [mbind outcome_bind]. rewrite Hloop.
  split_and!; [done|done|congruence| | |].
  - intros c. rewrite Hm. destruct (decide (c = n)) as [->|Hcn].
    + rewrite decide_False, decide_True by (done || constructor). unfold acc1.
      destruct (loaded clear out (w_fs w) n); [by rewrite lookup_insert_eq|done].
    + unfold loaded. rewrite (stored_after _ _ _ _ _ _ (not_eq_sym Hcn) Hd Hres).
      assert (acc1 !! c = acc !! c) as ->.
      { unfold acc1. case_match; [|done]. by rewrite lookup_insert_ne by done. }
      destruct (decide (c ∈ names)) as [Hin|Hin], (decide (c ∈ n :: names)) as [Hin'|Hin'];
        [done| | |done]; rewrite elem_of_cons in Hin'; tauto.
  - intros c [->|Hc]%elem_of_cons.
    + (* the later steps leave [n] alone *)
      intros m0 Hm0. destruct (Hsw1 m0 Hm0) as [Hfile Hgone].
      assert (hex_id n) as Hid by by eapply stored_hex.
      split.
      * rewrite Hframe; [done|]. intros c Hc. apply touches_other_capnp; [by apply Hne|done].
      * intros k q Hk Hk' Ht Hp. rewrite Hframe; [by eapply Hgone|].
        intros c Hc. eapply touches_other_below; [by apply Hne|done].
    + eapply swept_after; [by apply not_eq_sym, Hne|done|done|]. rewrite <-Hnow1. by apply Hsw.
  - intros q Hq. rewrite Hframe; [apply Hframe1, Hq; constructor|].
    intros c Hc. rewrite (touches_after _ _ _ _ _ _ (not_eq_sym (Hne c Hc)) Hd Hres).
    apply Hq. by constructor.
Qed.

(** ** The theorems of [load], [delete] and the daemon's life *)
Lemma stored_listed out w c m names :
  out ≠ [] → disk_ok out w → read_dir (w_fs w) out = Some names →
  stored out (w_fs w) c = Some m → c ∈ names.
Proof.
  intros Hout Hd Hr [Hdir%is_commit_dir_spec _]%stored_parse. destruct Hdir as [_ Hdir].
  apply read_dir_Some in Hr as [_ Hin]. apply Hin.
  rewrite resolve_not_link; [|pose proof (dk_dir _ _ Hd) as Ho; unfold dir_node in Ho;
    destruct out; [done|]; by intros t Ht; rewrite Ht in Ho].
  unfold is_dir in Hdir. rewrite resolve_not_link in Hdir by (intros t; apply Hd).
  unfold dir_node in Hdir. destruct (out ++ [c]) eqn:E; [by destruct out|].
  case_match; [eauto|done].
Qed.
Lemma read_dir_out out w :
  out ≠ [] → io_denied out = false → disk_ok out w → ∃ names, read_dir (w_fs w) out = Some names.
Proof.
  intros Hout Hio Hd. unfold read_dir. rewrite Hio.
  pose proof (dk_dir _ _ Hd) as Ho. unfold is_dir.
  rewrite resolve_not_link; [rewrite Ho; eauto|].
  unfold dir_node in Ho. destruct out; [done|]. by intros t Ht; rewrite Ht in Ho.
Qed.
Lemma touches_stored clear out f c q : touches clear out f c q → is_Some (stored out f c).
Proof. intros (m & ? & _). eauto. Qed.

Lemma load_spec out clear w :
  out ≠ [] → io_denied out = false → disk_ok out w → io_ok out →
  (∀ c, hex_id c → clean_file out (w_fs w) c) →
  ∃ st w', load out clear w = Ok (st, w') ∧ output_dir st = out ∧ disk_ok out w' ∧
    (∀ c, by_commit st !! c = loaded clear out (w_fs w) c) ∧
    (∀ c, swept clear out (w_fs w) (w_fs w') (w_now w) c) ∧
    (∀ q, (∀ c, ¬ touches clear out (w_fs w) c q) → w_fs w' !! q = w_fs w !! q).
Proof.
  intros Hout Hio Hd Hiok Hclean. destruct (read_dir_out out w Hout Hio Hd) as [names Hr].
  pose proof (read_dir_Some _ _ _ Hr) as [Hnd _].
  destruct (load_loop_spec clear out names Hnd ∅ w Hd Hiok) as (m & w' & Hl & Hd' & _ & Hm & Hsw & Hf);
    [auto|].
  exists (mkStore out m), w'. unfold load. rewrite Hr, Hl. split_and!; [done..| | |].
  - intros c. cbn [by_commit]. rewrite Hm, lookup_empty. case_decide as Hin; [by case_match|].
    unfold loaded. destruct (stored out (w_fs w) c) eqn:E; [|done].
    by destruct Hin; eapply (stored_listed out w).
  - intros c m0 Hm0. apply Hsw; [|done]. by eapply (stored_listed out w).
  - intros q Hq. auto.
Qed.
Lemma loaded_live clear out f c m k r :
  loaded clear out f c = Some m → m !! k = Some r → drop_status clear (status r) = false.
Proof.
  unfold loaded. destruct (stored out f c); [|done]. cbn. case_decide; [done|].
  intros [= <-] [_ ?]%map_lookup_filter_Some. done.
Qed.

(** C3: loading succeeds on any readable results directory. The store then
    holds, for every commit directory, the stored results less the ones in
    progress (and, on request, the ones that failed to run); the directory of
    each dropped subtest is gone and the commit's file rewritten without it, a
    commit with nothing to drop keeps its file as it was, and nothing else on
    disk changes. *)
Theorem load_correct out clear w :
  out ≠ [] → io_denied out = false → disk_ok out w → io_ok out →
  (∀ c, hex_id c → clean_file out (w_fs w) c) →
  ∃ st w', load out clear w = Ok (st, w') ∧ output_dir st = out ∧
    (∀ c, by_commit st !! c = loaded clear out (w_fs w) c) ∧
    (∀ c k s, lookup_status st c k = Some s → drop_status clear s = false) ∧
    (∀ c, swept clear out (w_fs w) (w_fs w') (w_now w) c) ∧
    (∀ q, (∀ c, ¬ touches clear out (w_fs w) c q) → w_fs w' !! q = w_fs w !! q).
Proof.
  intros H1 H2 H3 H4 H5. destruct (load_spec out clear w H1 H2 H3 H4 H5)
    as (st & w' & Hl & Ho & _ & Hby & Hsw & Hf).
  exists st, w'. split_and!; [done..| |done|done].
  intros c k s. unfold lookup_status. rewrite Hby.
  destruct (loaded _ _ _ c) as [m|] eqn:E; [|done]. cbn.
  destruct (m !! k) as [r|] eqn:Er; [|done]. cbn. intros [= <-]. by eapply loaded_live.
Qed.

Lemma delete_fold entry b keys :
  let res := foldl delete_step (entry, b) keys in
  (∀ k, res.1 !! k = if decide (k ∈ keys) then None else entry !! k) ∧
  (res.2 = true ↔ b = true ∨ ∃ k, k ∈ keys ∧ is_Some (entry !! k)) ∧
  res.1 ⊆ entry.
Proof.
  cbn zeta. revert entry b. induction keys as [|k' keys IH]; intros entry b.
  { split_and!; [| |done].
    - intros k. rewrite decide_False; [done|apply not_elem_of_nil].
    - split; [by left|]. by intros [?|(? & []%elem_of_nil & _)]. }
  cbn [foldl delete_step]. destruct (entry !! k') as [r|] eqn:Ek.
  - destruct (IH (delete k' entry) true) as (H1 & H2 & H3). split_and!.
    + intros k. rewrite H1. destruct (decide (k = k')) as [->|Hne].
      * rewrite lookup_delete_eq, (decide_True (P := k' ∈ k' :: keys)) by constructor. by case_decide.
      * rewrite lookup_delete_ne by done. by apply decide_ext; rewrite elem_of_cons; tauto.
    + rewrite H2. split; [|by left]. right. exists k'. split; [by constructor|eauto].
    + etrans; [done|apply delete_subseteq].
  - destruct (IH entry b) as (H1 & H2 & H3). split_and!; [| |done].
    + intros k. rewrite H1. destruct (decide (k = k')) as [->|Hne].
      * rewrite Ek. by repeat case_decide.
      * by apply decide_ext; rewrite elem_of_cons; tauto.
    + rewrite H2. split; (intros [?|(k & Hk & Hs)]; [by left|right; exists k; split; [|done]]).
      * by constructor.
      * apply elem_of_cons in Hk as [->|?]; [|done]. rewrite Ek in Hs. by destruct Hs.
Qed.

Lemma fits_subseteq (m m' : TestResultsMap) : m ⊆ m' → fits_u32 m' → fits_u32 m.
Proof. unfold fits_u32. intros Hs%map_subseteq_size Hf. lia. Qed.

(** What is in the commit's file after a write of its results [m]. *)
Definition file_says (out : path) (f : fs) (c : string) (get : string → option TestResult) : Prop :=
  ∃ buf res, read f (capnp_path out c) = Some buf ∧ parse_test_results buf = Ok res ∧
    ∀ k, cr_tests res !! k = reset_start <$> get k.
Lemma render_says out c m w w' :
  disk_ok out w → io_ok out → plain_commit c → text_keys m →
  readable (build_results c None m) → render out c m w = Ok w' →
  file_says out (w_fs w') c (m !!.) ∧
  (∀ q, q ≠ capnp_path out c → w_fs w' !! q = w_fs w !! q).
Proof.
  intros Hd Hio Hc Ht Hr Hren.
  destruct (render_disk _ _ _ _ _ Hd Hio Hc Hren) as (_ & _ & _ & Hfile & Hframe).
  split; [|done]. eexists _, _. split; [eapply read_file; [done|by apply Hio]|].
  split; [by apply parse_serialize|]. intros k. by rewrite <-lookup_fmap.
Qed.
Lemma file_says_ext out f c get get' :
  (∀ k, get k = get' k) → file_says out f c get → file_says out f c get'.
Proof. intros He (buf & res & ? & ? & Hg). exists buf, res. split_and!; [done..|]. intros k. by rewrite Hg, He. Qed.

(** The result of a subtest held in memory. *)
Definition held (st : TestResultsStore) (c k : string) : option TestResult :=
  m ← by_commit st !! c; m !! k.
Lemma lookup_status_held st c k : lookup_status st c k = status <$> held st c k.
Proof. unfold lookup_status, held. by destruct (by_commit st !! c). Qed.

(** C4: [update] returns and merges the updates into the commit's results, an
    update replacing the subtest's old result and every other subtest keeping
    its own: in memory, where no other commit changes, and, on a disk that can
    be written, in the commit's file, which reads back as exactly the merged
    results (less the start times, which the format drops) while no other path
    changes. An empty update does nothing. *)
Theorem update_correct st commit u w :
  fits_u32 (merged st commit u) →
  ∃ st' w', update st commit u w = Ok (st', w') ∧ output_dir st' = output_dir st ∧
    (∀ c k, held st' c k =
      (if decide (c = commit)
       then match u !! k with Some r => Some r | None => held st c k end
       else held st c k)) ∧
    (u = ∅ → w' = w) ∧
    (disk_ok (output_dir st) w → io_ok (output_dir st) → plain_commit commit →
     text_keys (merged st commit u) → readable (build_results commit None (merged st commit u)) →
     u ≠ ∅ →
     file_says (output_dir st) (w_fs w') commit
       (λ k, match u !! k with Some r => Some r | None => held st commit k end) ∧
     ∀ q, q ≠ capnp_path (output_dir st) commit → w_fs w' !! q = w_fs w !! q).
Proof.
  intros Hm. unfold update. case_decide as Hu.
  { exists st, w. split_and!; [done|done| |done|by intros].
    intros c k. rewrite Hu, lookup_empty. by case_decide. }
  rewrite bt_extend_iter. fold (merged st commit u).
  assert (∀ k, merged st commit u !! k =
    match u !! k with Some r => Some r | None => held st commit k end) as Hmk.
  { intros k. unfold merged, held. rewrite lookup_union.
    destruct (u !! k); [by rewrite union_Some_l|]. rewrite (left_id_L None _).
    by destruct (by_commit st !! commit); cbn; rewrite ?lookup_empty. }
  destruct (render_not_panic (output_dir st) commit _ w Hm) as [w' Hren]. cbn. rewrite Hren.
  eexists _, w'. split_and!; [done|done| |done|].
  - intros c k. unfold held at 1. cbn. case_decide as Hc; subst.
    + rewrite lookup_insert_eq. cbn. apply Hmk.
    + by rewrite lookup_insert_ne by done.
  - intros Hd Hio Hpc Ht Hr _. destruct (render_says _ _ _ _ _ Hd Hio Hpc Ht Hr Hren) as [Hf ?].
    split; [|done]. exact (file_says_ext _ _ _ _ _ Hmk Hf).
Qed.

(** Which of the two ways [delete_keys] goes. *)
Lemma delete_keys_cases st commit keys w :
  (∃ st', delete_keys st commit keys w = Ok (st', w) ∧ output_dir st' = output_dir st ∧
     by_commit st' = by_commit st ∧ (∀ k, k ∈ keys → held st commit k = None)) ∨
  (∃ entry e, delete_keys st commit keys w =
       (w' ← render (output_dir st) commit e w;
        Ok (mkStore (output_dir st) (<[commit := e]> (by_commit st)), w')) ∧
     by_commit st !! commit = Some entry ∧ e ⊆ entry ∧
     (∀ k, e !! k = if decide (k ∈ keys) then None else held st commit k) ∧
     (∃ k, k ∈ keys ∧ is_Some (held st commit k))).
Proof.
  unfold delete_keys. destruct (decide (keys = [])) as [->|Hk].
  { left. exists st. split_and!; [done..|]. by intros k []%elem_of_nil. }
  destruct (by_commit st !! commit) as [entry|] eqn:E.
  2: { left. exists st. split_and!; [done..|]. intros k _. unfold held. by rewrite E. }
  pose proof (delete_fold entry false keys) as (Hl & Hch & Hsub).
  destruct (foldl delete_step (entry, false) keys) as [e b]. cbn in Hl, Hch, Hsub.
  assert (∀ k, held st commit k = entry !! k) as Hh by (intros k; unfold held; by rewrite E).
  destruct b; [right|left].
  - exists entry, e. split_and!; [done..| |].
    + intros k. rewrite Hl. by case_decide; rewrite ?Hh.
    + destruct (proj1 Hch eq_refl) as [?|(k & Hin & Hr)]; [done|]. exists k. by rewrite Hh.
  - assert (∀ k, k ∈ keys → entry !! k = None) as Hno.
    { intros k Hin. apply eq_None_not_Some. intros Hs.
      enough (false = true) by done. apply Hch. eauto. }
    assert (e = entry) as ->.
    { apply map_eq. intros k. rewrite Hl. case_decide; [|done]. by rewrite Hno. }
    eexists. split_and!; [done|done|by apply insert_id|]. intros k Hin. rewrite Hh. auto.
Qed.

(** C14: deleting keys returns and removes exactly those subtests of that
    commit. When one of them was there, then on a disk that can be written the
    commit's file reads back as exactly the remaining results (less the start
    times) and no other path changes; when none was, neither the clock nor the
    files are touched. *)
Theorem delete_correct st commit keys w :
  (∀ m, by_commit st !! commit = Some m → fits_u32 m) →
  ∃ st' w', delete_keys st commit keys w = Ok (st', w') ∧ output_dir st' = output_dir st ∧
    (∀ c k, held st' c k =
       if decide (c = commit ∧ k ∈ keys) then None else held st c k) ∧
    ((∀ k, k ∈ keys → held st commit k = None) → w' = w) ∧
    (disk_ok (output_dir st) w → io_ok (output_dir st) → plain_commit commit →
     (∀ m, by_commit st' !! commit = Some m →
        text_keys m ∧ readable (build_results commit None m)) →
     (∃ k, k ∈ keys ∧ is_Some (held st commit k)) →
     file_says (output_dir st) (w_fs w') commit
       (λ k, if decide (k ∈ keys) then None else held st commit k) ∧
     ∀ q, q ≠ capnp_path (output_dir st) commit → w_fs w' !! q = w_fs w !! q).
Proof.
  intros Hfits. destruct (delete_keys_cases st commit keys w)
    as [(st' & Hdel & Ho & Hby & Hno)|(entry & e & Hdel & Hent & Hsub & He & k0 & Hk0 & Hs0)].
  - exists st', w. split_and!; [done|done| |done|].
    + intros c k. unfold held at 1. rewrite Hby. fold (held st c k).
      case_decide as Hc; [|done]. destruct Hc as [-> ?]. auto.
    + intros _ _ _ _ (k & Hk & [r Hr]). by rewrite Hno in Hr.
  - destruct (render_not_panic (output_dir st) commit e w) as [w' Hren].
    { by eapply fits_subseteq, Hfits. }
    rewrite Hren in Hdel. eexists _, w'. split_and!; [done|done|..].
    + intros c k. unfold held at 1. cbn. destruct (decide (c = commit)) as [->|Hne].
      * rewrite lookup_insert_eq. cbn. rewrite He.
        destruct (decide (k ∈ keys)); [by rewrite decide_True|by rewrite decide_False by tauto].
      * by rewrite lookup_insert_ne, decide_False by naive_solver.
    + intros Hno. rewrite Hno in Hs0 by done. by destruct Hs0.
    + intros Hd Hio Hc Hm _. destruct (Hm e) as [Ht Hr].
      { cbn. by rewrite lookup_insert_eq. }
      destruct (render_says _ _ _ _ _ Hd Hio Hc Ht Hr Hren) as [Hf ?].
      split; [|done]. exact (file_says_ext _ _ _ _ _ He Hf).
Qed.

(** *** The daemon's life after the load

    Its threads update and delete, the other programs on the host write
    elsewhere (the result directories; not the result files). *)
Inductive store_step (out : path) :
    TestResultsStore * world → TestResultsStore * world → Prop :=
  | step_update st w c u st' w' :
      plain_commit c → text_keys u → readable (build_results c None (merged st c u)) →
      update st c u w = Ok (st', w') → store_step out (st, w) (st', w')
  | step_delete st w c keys st' w' :
      (∀ m, by_commit st' !! c = Some m → readable (build_results c None m)) →
      delete_keys st c keys w = Ok (st', w') → store_step out (st, w) (st', w')
  | step_other st w w' :
      disk_ok out w' →
      (∀ c, plain_commit c → w_fs w' !! capnp_path out c = w_fs w !! capnp_path out c) →
      store_step out (st, w) (st, w').

Record synced (out : path) (st : TestResultsStore) (w : world) : Prop := {
  sy_out : output_dir st = out;
  sy_disk : disk_ok out w;
  sy_commit c m : by_commit st !! c = Some m →
    plain_commit c ∧ text_keys m ∧ mirrors out (w_fs w) c m
}.

Lemma mirrors_other out w f' c m :
  disk_ok out w → plain_commit c → f' !! capnp_path out c = w_fs w !! capnp_path out c →
  mirrors out (w_fs w) c m → mirrors out f' c m.
Proof.
  intros Hd Hc Hf. apply mirrors_frame; [|done].
  rewrite capnp_path_plain by done. apply Hd.
Qed.
(** Writing one commit's results keeps the store and the disk in step. *)
Lemma synced_render out st c m w w' :
  io_ok out → synced out st w → plain_commit c → text_keys m →
  readable (build_results c None m) → render out c m w = Ok w' →
  synced out (mkStore out (<[c := m]> (by_commit st))) w'.
Proof.
  intros Hio [Ho Hd Hby] Hc Hm Hr Hren.
  destruct (render_disk _ _ _ _ _ Hd Hio Hc Hren) as (_ & Hd' & _ & Hfile & Hframe).
  split; [done|done|]. intros c' m'. cbn.
  destruct (decide (c' = c)) as [->|Hne].
  - rewrite lookup_insert_eq. intros [= <-]. split_and!; [done..|]. by eapply mirrors_file.
  - rewrite lookup_insert_ne by done. intros H%Hby. destruct H as (Hc' & Hm' & Hmir).
    split_and!; [done..|]. apply (mirrors_other out w); [done..| |done]. apply Hframe.
    intros Heq. by apply Hne, (capnp_path_inj out).
Qed.
Lemma merged_text st c u out w :
  synced out st w → text_keys u → text_keys (merged st c u).
Proof.
  intros Hs Hu k. unfold merged. intros [r [Hk|[_ Hk]]%lookup_union_Some_raw]; [eauto|].
  destruct (by_commit st !! c) as [m|] eqn:E; [|done]. cbn in Hk.
  destruct (sy_commit _ _ _ Hs _ _ E) as (_ & Ht & _). eauto.
Qed.
Lemma step_synced out st w st' w' :
  io_ok out → synced out st w → store_step out (st, w) (st', w') → synced out st' w'.
Proof.
  intros Hio Hs Hstep. inversion Hstep as [? ? c u ? ? Hc Hu Hr Hup|? ? c ks ? ? Hr Hdel|? ? ? Hd Hf];
    subst; clear Hstep.
  - unfold update in Hup. case_decide; [by simplify_eq|]. rewrite bt_extend_iter in Hup.
    fold (merged st c u) in Hup. apply outcome_bind_Ok in Hup as (w1 & Hren & [= <- <-]).
    cbn in Hren. rewrite (sy_out _ _ _ Hs) in *.
    eapply synced_render; [done..| |done|done]. by eapply merged_text.
  - destruct (delete_keys_cases st c ks w)
      as [(st1 & Hd & Ho & Hby & _)|(m & e & Hd & Hm & Hsub & _)]; rewrite Hd in Hdel.
    + injection Hdel as <- <-. destruct Hs as [Ho' ? Hc]. split; [congruence|done|].
      rewrite Hby. exact Hc.
    + destruct (sy_commit _ _ _ Hs _ _ Hm) as (Hc & Ht & _). rewrite (sy_out _ _ _ Hs) in *.
      apply outcome_bind_Ok in Hdel as (w1 & Hren & [= <- <-]).
      eapply synced_render; [done|done|done| | |done].
      * intros k [r Hk]. apply Ht. eapply map_subseteq_spec in Hk; eauto.
      * apply Hr. cbn. by rewrite lookup_insert_eq.
  - destruct Hs as [Ho Hd0 Hby]. split; [done|done|]. intros c m Hm%Hby.
    destruct Hm as (Hc & Ht & Hmir). split_and!; [done..|].
    eapply mirrors_other; [exact Hd0|done| |done]. by apply Hf.
Qed.

Lemma load_synced out clear w st w' :
  out ≠ [] → io_denied out = false → disk_ok out w → io_ok out →
  (∀ c, hex_id c → clean_file out (w_fs w) c) →
  (∀ c m, loaded clear out (w_fs w) c = Some m → readable (build_results c None m)) →
  load out clear w = Ok (st, w') → synced out st w'.
Proof.
  intros H1 H2 Hd H4 H5 Hread Hload. destruct (load_spec out clear w H1 H2 Hd H4 H5)
    as (st0 & w0 & Hl & Ho & Hd' & Hby & Hsw & Hf).
  rewrite Hl in Hload. simplify_eq. split; [done|done|].
  intros c m Hm. rewrite Hby in Hm. pose proof (Hread _ _ Hm) as Hr. unfold loaded in Hm.
  destruct (stored (output_dir st) (w_fs w) c) as [m0|] eqn:Hst; [|done]. cbn in Hm. case_decide; [done|].
  simplify_eq. pose proof (hex_id_plain _ (stored_hex _ _ _ _ Hst)) as Hc.
  apply stored_parse in Hst as Hst'. destruct Hst' as (_ & buf & res & Hrd & Hp & <-).
  assert (text_keys (live clear (cr_tests res))) as Ht.
  { intros k [r [Hk _]%map_lookup_filter_Some]. apply (parse_text _ _ Hp). eauto. }
  split_and!; [done..|]. destruct (Hsw c _ Hst) as [Hfile _]. case_decide as Hs.
  - rewrite no_stale_live by done. eapply mirrors_other; [exact Hd|done|done|].
    exists buf, res. by split_and!.
  - by eapply mirrors_file.
Qed.

(** C1: from the load on, through any sequence of updates, deletions and
    writes of other programs, the file of every commit the daemon holds
    results for reads back as exactly those results (statuses and durations;
    the format of the file drops the start times). *)
Theorem store_mirrored_on_disk out clear w st0 w0 st w' :
  out ≠ [] → io_denied out = false → disk_ok out w → io_ok out →
  (∀ c, hex_id c → clean_file out (w_fs w) c) →
  (∀ c m, loaded clear out (w_fs w) c = Some m → readable (build_results c None m)) →
  load out clear w = Ok (st0, w0) → rtc (store_step out) (st0, w0) (st, w') →
  ∀ c m, by_commit st !! c = Some m → mirrors out (w_fs w') c m.
Proof.
  intros H1 H2 H3 Hio H5 H6 Hl Hsteps.
  assert (synced out st0 w0) as Hs0 by by eapply load_synced.
  assert (∀ x y, rtc (store_step out) x y → synced out x.1 x.2 → synced out y.1 y.2) as Hind.
  { induction 1 as [|[] [] ? Hstep ? IH]; [done|]. intros Hs. by eapply IH, step_synced. }
  intros c m Hm. by destruct (sy_commit _ _ _ (Hind _ _ Hsteps Hs0) _ _ Hm) as (_ & _ & ?).
Qed.

(** An update writes the commit's results from memory, whatever the disk
    says: a verdict deleted behind the daemon's back (rm-results removes the
    file and the result directories) is in the file again after the next
    verdict of the same commit. *)
Theorem deleted_results_return st c u w st' w' k r :
  disk_ok (output_dir st) w → io_ok (output_dir st) → plain_commit c →
  text_keys (merged st c u) → readable (build_results c None (merged st c u)) →
  u ≠ ∅ → u !! k = None → (m ← by_commit st !! c; m !! k) = Some r →
  update st c u w = Ok (st', w') →
  ∃ buf res, read (w_fs w') (capnp_path (output_dir st) c) = Some buf ∧
    parse_test_results buf = Ok res ∧ cr_tests res !! k = Some (reset_start r).
Proof.
  intros Hd Hio Hc Ht Hr Hu Hk Hm Hup. unfold update in Hup. rewrite decide_False in Hup by done.
  rewrite bt_extend_iter in Hup. fold (merged st c u) in Hup.
  apply outcome_bind_Ok in Hup as (w1 & Hren & [= <- <-]). cbn in Hren.
  destruct (render_disk _ _ _ _ _ Hd Hio Hc Hren) as (_ & _ & _ & Hfile & _).
  eexists _, _. split; [eapply read_file; [done|by apply Hio]|].
  split; [by apply parse_serialize|]. cbn. rewrite lookup_fmap. unfold merged.
  rewrite lookup_union, Hk, (left_id_L None _).
  destruct (by_commit st !! c) as [m|]; [|done]. cbn in *. by rewrite Hm.
Qed.

(** A check of [disk_ok] over a concrete tree. *)
Definition disk_check_node (out q : path) (v : node) : bool :=
  match child_name out q with
  | None => true
  | Some n =>
      match v with
      | NSymlink _ => false
      | NDir _ => bool_decide (last_char n ≠ Some "p"%char ∧ last_char n ≠ Some "w"%char)
      | NFile _ _ => bool_decide (last_char n ≠ Some "w"%char)
      end
  end.
Definition disk_check (out : path) (f : fs) : bool :=
  dir_node f out && forallb (λ kv, disk_check_node out kv.1 kv.2) (map_to_list f).
Lemma disk_check_ok out w : disk_check out (w_fs w) = true → disk_ok out w.
Proof.
  intros [Hdir Hf]%andb_true_iff. pose proof (fs_forallb _ (disk_check_node out) Hf) as Hall.
  assert (∀ n v, w_fs w !! (out ++ [n]) = Some v →
    match v with NSymlink _ => False | NDir _ => last_char n ≠ Some "p"%char ∧ last_char n ≠ Some "w"%char
    | NFile _ _ => last_char n ≠ Some "w"%char end) as Hn.
  { intros n v Hv%Hall. unfold disk_check_node in Hv.
    rewrite (proj2 (child_name_Some out (out ++ [n]) n)) in Hv by done.
    destruct v; [by apply bool_decide_eq_true in Hv..|done]. }
  assert (∀ c seq, last_char (tmp_name c seq) = Some "w"%char) as Htmp.
  { intros c seq. unfold tmp_name. rewrite <-!str_app_assoc. apply last_char_app. }
  split; [done| | |].
  - intros c seq Hc. rewrite capnp_tmp_path_plain by done. apply eq_None_not_Some.
    intros [v Hv]. pose proof (Htmp c seq). apply Hn in Hv. destruct v; naive_solver.
  - intros c t Hc Hv. rewrite capnp_path_plain in Hv by done. apply Hn in Hv as [Hv _].
    by rewrite last_char_app in Hv.
  - intros n t Hv. by apply Hn in Hv.
Qed.
End store.

(** ** Concrete runs *)
Section witnesses.
#[local] Existing Instance plain_os.
#[local] Existing Instance demo_codec.
#[local] Existing Instance demo_chrono.

Definition c1 : string := "aaaaaaaaaabbbbbbbbbbccccccccccdddddddddd".
Definition passed : TestResult := mkResult Passed 5 7.
Definition running : TestResult := mkResult Inprogress 5 0.
Definition demo_map : TestResultsMap := {[ "boot.a" := passed; "boot.b" := running ]}.
Definition demo_world : world :=
  mkWorld {[ ["out"] := NDir 0; ["out"; c1] := NDir 0; ["out"; c1; "boot.b"] := NDir 0;
             ["out"; c1; "boot.b"; "status"] := NFile "IN PROGRESS" 0;
             ["out"; c1 +:+ ".capnp"] := NFile (serialize (build_results c1 None demo_map)) 0 ]} 9 0.
Definition demo_store : TestResultsStore := mkStore ["out"] {[ c1 := demo_map ]}.

Lemma demo_io out : io_ok out.
Proof. by intros c _. Qed.
Lemma demo_disk : disk_ok ["out"] demo_world.
Proof. apply disk_check_ok. computed. Qed.
Lemma demo_parse buf : parse_test_results buf ≠ Panic.
Proof.
  unfold parse_test_results. case_match; [|done].
  assert (∀ es acc, parse_entries acc es ≠ Panic) as Hes.
  { induction es as [|e es IH]; intros acc; [done|]. cbn. unfold parse_entry.
    destruct (from_raw _); [|done]. cbn. destruct (to_text _); cbn; [apply IH|done]. }
  specialize (Hes (m_entries t) ∅). by destruct (parse_entries ∅ (m_entries t)).
Qed.
Lemma demo_file :
  read (w_fs demo_world) (capnp_path ["out"] c1) = Some (serialize (build_results c1 None demo_map)).
Proof.
  apply (read_file _ _ _ 0); [|reflexivity]. computed.
Qed.
Lemma demo_file_parse :
  parse_test_results (serialize (build_results c1 None demo_map)) =
  Ok (mkCommitResults "" c1 (reset_start <$> demo_map)).
Proof.
  rewrite parse_serialize; [reflexivity| |done].
  intros k [r Hk]. change (({[ "boot.a" := passed; "boot.b" := running ]} : TestResultsMap) !! k = Some r) in Hk.
  apply lookup_insert_Some in Hk as [[<- _]|[_ [<- _]%lookup_singleton_Some]]; reflexivity.
Qed.
Lemma demo_stored c m :
  stored ["out"] (w_fs demo_world) c = Some m → c = c1 ∧ m = reset_start <$> demo_map.
Proof.
  intros Hm. assert (c = c1) as ->.
  { apply stored_parse in Hm as [[_ Hd]%is_commit_dir_spec _]. unfold is_dir in Hd.
    rewrite resolve_not_link in Hd by (intros; apply demo_disk). cbn [app dir_node] in Hd.
    destruct (w_fs demo_world !! ["out"; c]) as [[]|] eqn:E; [done| |done..].
    eapply (fs_forallb _ (λ q v, match q, v with ["out"; n], NDir _ => bool_decide (n = c1)
             | _, _ => true end)) in E; [|computed].
    by apply bool_decide_eq_true in E. }
  split; [done|]. apply stored_parse in Hm as (_ & buf & res & Hr & Hp & <-).
  rewrite demo_file in Hr. apply (inj Some) in Hr as <-.
  rewrite demo_file_parse in Hp. by injection Hp as <-.
Qed.
Lemma demo_clean c : hex_id c → clean_file ["out"] (w_fs demo_world) c.
Proof.
  intros _. split; [intros; apply demo_parse| |].
  - intros m k [_ ->]%demo_stored. rewrite lookup_fmap, fmap_is_Some. intros [r Hk].
    change (({[ "boot.a" := passed; "boot.b" := running ]} : TestResultsMap) !! k = Some r) in Hk.
    apply lookup_insert_Some in Hk as [[<- _]|[_ [<- _]%lookup_singleton_Some]]; by vm_compute.
  - intros m [_ ->]%demo_stored. computed.
Qed.

Lemma demo_stored_c1 :
  stored ["out"] (w_fs demo_world) c1 = Some (reset_start <$> demo_map).
Proof.
  assert (is_Some (stored ["out"] (w_fs demo_world) c1)) as [m Hm].
  { apply not_eq_None_Some. assert (bool_decide (stored ["out"] (w_fs demo_world) c1 = None) = false)
      as H by computed. by apply bool_decide_eq_false in H. }
  rewrite Hm. f_equal. by apply demo_stored in Hm as [_ ?].
Qed.
Definition demo_ops : list (string * TestResultsMap) :=
  [(c1, {[ "boot.a" := running ]}); (c1, {[ "boot.b" := passed ]})].
Definition demo_ops' : list (string * TestResultsMap) :=
  [(c1, {[ "boot.b" := passed ]}); (c1, {[ "boot.a" := running ]})].
Lemma demo_update_all :
  is_ok (update_all demo_store demo_ops demo_world) &&
  is_ok (update_all demo_store demo_ops' demo_world) = true.
Proof. computed. Qed.
Lemma demo_load_update :
  match load ["out"] false demo_world with
  | Ok (st, w) => match update st c1 {[ "boot.b" := passed ]} w with
                  | Ok (st', _) => bool_decide (size <$> by_commit st' !! c1 = Some 2)
                  | _ => false
                  end
  | _ => false
  end = true.
Proof. computed. Qed.
Lemma demo_update_gone :
  is_ok (update demo_store c1 {[ "boot.b" := passed ]} (mkWorld {[ ["out"] := NDir 0 ]} 9 0)) = true.
Proof. computed. Qed.

Lemma results_to_capnp_atomic_witness :
  ∃ w', results_to_capnp ["out"] c1 None demo_map demo_world = (Ok tt, w') ∧
    w_fs w' !! capnp_path ["out"] c1 =
      Some (NFile (serialize (build_results c1 None demo_map)) (w_now demo_world)).
Proof.
  destruct (results_to_capnp_ok ["out"] c1 None demo_map demo_world) as [w' E].
  { apply disk_can_render; [apply demo_disk|apply demo_io|by split_and!]. }
  { computed. }
  destruct (results_to_capnp_atomic ["out"] c1 None demo_map demo_world (Ok tt) w')
    as (_ & Hf & _); [by split_and!|computed|done|done|].
  exists w'. by split.
Defined.
Lemma demo_merged_text :
  text_keys (merged demo_store c1 {[ "boot.b" := passed ]}).
Proof.
  intros k [r Hk]. unfold merged in Hk.
  change (({[ "boot.b" := passed ]} ∪ demo_map) !! k = Some r) in Hk.
  apply lookup_union_Some_raw in Hk as [[<- _]%lookup_singleton_Some|[_ Hk]]; [reflexivity|].
  change (({[ "boot.a" := passed; "boot.b" := running ]} : TestResultsMap) !! k = Some r) in Hk.
  apply lookup_insert_Some in Hk as [[<- _]|[_ [<- _]%lookup_singleton_Some]]; reflexivity.
Qed.
Lemma update_correct_witness :
  ∃ st' w', update demo_store c1 {[ "boot.b" := passed ]} demo_world = Ok (st', w') ∧
    held st' c1 "boot.b" = Some passed ∧ held st' c1 "boot.a" = Some passed ∧
    ∃ buf res, read (w_fs w') (capnp_path ["out"] c1) = Some buf ∧
      parse_test_results buf = Ok res ∧
      cr_tests res !! "boot.b" = Some (reset_start passed) ∧
      cr_tests res !! "boot.a" = Some (reset_start passed).
Proof.
  destruct (update_correct demo_store c1 {[ "boot.b" := passed ]} demo_world)
    as (st' & w' & Hu & _ & Hl & _ & Hf); [computed|].
  destruct Hf as [(buf & res & Hr & Hp & Hg) _];
    [apply demo_disk|apply demo_io|by split_and!|apply demo_merged_text|done|done|].
  exists st', w'. rewrite !Hl. split_and!; [done|reflexivity|reflexivity|].
  exists buf, res. split_and!; [done|done| |]; by rewrite Hg.
Defined.
Lemma concurrent_updates_agree_witness :
  ∃ st1 w1 st2 w2, update_all demo_store demo_ops demo_world = Ok (st1, w1) ∧
    update_all demo_store demo_ops' demo_world = Ok (st2, w2) ∧ by_commit st1 = by_commit st2.
Proof.
  pose proof demo_update_all as H. apply andb_true_iff in H as [H1 H2].
  destruct (update_all demo_store demo_ops demo_world) as [[st1 w1]|[]|] eqn:E1; [|discriminate H1].
  destruct (update_all demo_store demo_ops' demo_world) as [[st2 w2]|[]|] eqn:E2; [|discriminate H2].
  exists st1, w1, st2, w2. split_and!; [done..|].
  eapply concurrent_updates_agree; [apply Permutation_swap| |exact E1|exact E2].
  apply pair_disjoint. right. by apply map_disjoint_singleton_l.
Defined.
Lemma load_correct_witness :
  ∃ st w', load ["out"] false demo_world = Ok (st, w') ∧
    lookup_status st c1 "boot.b" = None ∧ lookup_status st c1 "boot.a" = Some Passed ∧
    w_fs w' !! ["out"; c1; "boot.b"; "status"] = None.
Proof.
  destruct (load_correct ["out"] false demo_world) as (st & w' & Hl & _ & Hby & _ & Hsw & _);
    [done|done|apply demo_disk|apply demo_io|apply demo_clean|].
  exists st, w'. split; [done|]. unfold lookup_status. rewrite !Hby.
  split_and!; [computed..|].
  destruct (Hsw c1 _ demo_stored_c1) as [_ Hgone].
  apply (Hgone "boot.b"); [|done|by exists 0%Z|by exists ["status"]].
  apply elem_of_stale. exists (mkResult Inprogress 0 0). by split.
Defined.
Lemma demo_delete :
  match delete_keys demo_store c1 ["boot.b"] demo_world with
  | Ok (st, _) => bool_decide (by_commit st !! c1 = Some {[ "boot.a" := passed ]})
  | _ => false
  end = true.
Proof. computed. Qed.
Lemma delete_correct_witness :
  ∃ st' w', delete_keys demo_store c1 ["boot.b"] demo_world = Ok (st', w') ∧
    held st' c1 "boot.b" = None ∧ held st' c1 "boot.a" = Some passed ∧
    ∃ buf res, read (w_fs w') (capnp_path ["out"] c1) = Some buf ∧
      parse_test_results buf = Ok res ∧ cr_tests res !! "boot.b" = None ∧
      cr_tests res !! "boot.a" = Some (reset_start passed).
Proof.
  destruct (delete_correct demo_store c1 ["boot.b"] demo_world)
    as (st' & w' & Hd & _ & Hl & _ & Hf).
  { intros m. change (by_commit demo_store !! c1) with (Some demo_map). intros [= <-]. reflexivity. }
  pose proof demo_delete as H. rewrite Hd in H. apply bool_decide_eq_true in H.
  destruct Hf as [(buf & res & Hr & Hp & Hg) _];
    [apply demo_disk|apply demo_io|by split_and!| |by exists "boot.b"; split; [constructor|exists running]|].
  { rewrite H. intros m Hm. apply (inj Some) in Hm as <-. split; [|done].
    intros k [r [<- _]%lookup_singleton_Some]. reflexivity. }
  exists st', w'. rewrite !Hl. split_and!; [done..|].
  exists buf, res. split_and!; [done|done| |]; by rewrite Hg.
Defined.
Lemma store_mirrored_witness :
  ∃ st0 w0 st w', load ["out"] false demo_world = Ok (st0, w0) ∧
    update st0 c1 {[ "boot.b" := passed ]} w0 = Ok (st, w') ∧
    ∃ m, by_commit st !! c1 = Some m ∧ size m = 2 ∧ mirrors ["out"] (w_fs w') c1 m.
Proof.
  pose proof demo_load_update as H.
  destruct (load ["out"] false demo_world) as [[st0 w0]|[]|] eqn:E0; [|discriminate H].
  destruct (update st0 c1 {[ "boot.b" := passed ]} w0) as [[st w']|[]|] eqn:E1; [|discriminate H].
  exists st0, w0, st, w'. split_and!; [done..|]. apply bool_decide_eq_true in H.
  destruct (by_commit st !! c1) as [m|] eqn:Hm; [|discriminate H]. apply (inj Some) in H as Hsize.
  exists m. split_and!; [done|done|].
  eapply (store_mirrored_on_disk ["out"] false demo_world);
    [done|done|apply demo_disk|apply demo_io|apply demo_clean|done|exact E0| |exact Hm].
  apply rtc_once. apply (step_update _ _ _ c1 {[ "boot.b" := passed ]}); [by split_and!| |done|done].
  intros k [r [<- _]%lookup_singleton_Some]. reflexivity.
Defined.
Lemma deleted_results_return_witness :
  ∃ st' w' buf res, update demo_store c1 {[ "boot.b" := passed ]} (mkWorld {[ ["out"] := NDir 0 ]} 9 0)
      = Ok (st', w') ∧ read (w_fs w') (capnp_path ["out"] c1) = Some buf ∧
    parse_test_results buf = Ok res ∧ cr_tests res !! "boot.a" = Some (reset_start passed).
Proof.
  destruct (update demo_store c1 {[ "boot.b" := passed ]} (mkWorld {[ ["out"] := NDir 0 ]} 9 0))
    as [[st' w']|[]|] eqn:E; [|pose proof demo_update_gone as H; rewrite E in H; discriminate H].
  destruct (deleted_results_return demo_store c1 {[ "boot.b" := passed ]}
              (mkWorld {[ ["out"] := NDir 0 ]} 9 0) st' w' "boot.a" passed)
    as (buf & res & ? & ? & ?).
  - apply disk_check_ok. computed.
  - apply demo_io.
  - by split_and!.
  - exact demo_merged_text.
  - done.
  - done.
  - reflexivity.
  - reflexivity.
  - exact E.
  - exists st', w', buf, res. by split_and!.
Defined.
End witnesses.
End Store.
