(* ===== verification/Results.v ===== *)
(** * Reading results: the result directories, the files, the client's cache
    (src/src/lib.rs)

    What the dashboard tools use: the per-subtest directories the supervisors
    fill, the commit files read back, and the cache ci-status keeps of files it
    fetches over HTTP. *)

From S2P Require Import Prelude.
From S2P Require Import RustStr.
From S2P Require Import Keys.
From S2P Require Import Status.
From S2P Require Import Fs.
From S2P Require Import Config.
From S2P Require Import Store.

Module Results.
Import Str Keys Status Fs Config Store.

Inductive read_error : Type :=
  | ReadFailed (p : path)
  | ParseFailed (e : parse_error)
  | WriteFailed (e : capnp_error)
  | HttpFailed (url : string)
  | HttpStatus (code : Z) (url : string).

(** reqwest: the status and body the server answers to a GET, with the time of
    the If-Modified-Since header; [None] when the request fails. *)
Class Http : Type := {
  http_get : string → option Z → option (Z * string)
}.
(** The order in which worker threads get through their lists. *)
Class Threads : Type := {
  interleave : list (list string) → list string;
  interleave_perm ls : interleave ls ≡ₚ concat ls
}.

(** [slice::chunks] *)
Fixpoint chunks_fuel {A} (fuel n : nat) (l : list A) : list (list A) :=
  match fuel, l with
  | _, [] => []
  | O, _ => []
  | S fuel, _ => list.take n l :: chunks_fuel fuel n (drop n l)
  end.
Definition chunks {A} (n : nat) (l : list A) : list (list A) := chunks_fuel (length l) n l.
Definition div_ceil (a b : nat) : nat := (a + b - 1) / b.

Section results.
Context {OS : OsEnv} {CD : Codec test_results} {CH : Chrono} {HT : Http} {TH : Threads}.

(** ** The result directories *)
Definition read_test_result (f : fs) (testdir : path) : option TestResult :=
  status ← read_to_string f (path_join testdir "status");
  mtime ← modified f (path_join testdir "status");
  Some (mkResult (from_str status) mtime
          (default 0%Z (parse_u64 (default "0" (read_to_string f (path_join testdir "duration")))))).

Fixpoint get_results_loop (f : fs) (dir : path) (acc : TestResultsMap) (names : list string) :
    outcome Empty_set TestResultsMap :=
  match names with
  | [] => Ok acc
  | n :: names =>
      match read_test_result f (dir ++ [n]) with
      | None => get_results_loop f dir acc names
      | Some r => match to_text n with
                  | None => Panic
                  | Some k => get_results_loop f dir (<[k := r]> acc) names
                  end
      end
  end.
Definition commitdir_get_results_fs (f : fs) (out : path) (commit_id : string) :
    outcome Empty_set TestResultsMap :=
  match read_dir f (path_join out commit_id) with
  | None => Ok ∅
  | Some names => get_results_loop f (path_join out commit_id) ∅ names
  end.

(** The error of the write is printed, so only its panic matters. *)
Definition update_results (out : path) (commit_id : string) (message : option string) (w : world) :
    outcome Empty_set world :=
  results ← commitdir_get_results_fs (w_fs w) out commit_id;
  match results_to_capnp out commit_id message results w with
  | (Panic, _) => Panic
  | (_, w) => Ok w
  end.
Definition commit_update_results (out : path) (commit_id : string) (w : world) :
    outcome Empty_set world := update_results out commit_id None w.
Definition commit_update_results_from_fs (rc : Ktestrc) (commit_id : string) (w : world) :
    outcome Empty_set world := commit_update_results (Config.output_dir rc) commit_id w.
Definition commit_update_results_with_message (out : path) (commit_id message : string) (w : world) :
    outcome Empty_set world := update_results out commit_id (Some message) w.

(** *** cleanup_inprogress_results *)
Definition cleanup_subtest (dir : path) (acc : fs * Z) (n : string) : fs * Z :=
  let '(f, deleted) := acc in
  match from_str <$> read_to_string f (path_join (dir ++ [n]) "status") with
  | Some Inprogress =>
      match remove_dir_all f (dir ++ [n]) with
      | (f, true) => (f, deleted + 1)%Z
      | (f, false) => (f, deleted)
      end
  | _ => (f, deleted)
  end.
Definition cleanup_commit (out : path) (w : world) (name : string) : outcome Empty_set world :=
  if negb (is_commit_dir (w_fs w) out name) then Ok w
  else match read_dir (w_fs w) (out ++ [name]) with
       | None => Ok w
       | Some subtests =>
           let '(f, deleted) := foldl (cleanup_subtest (out ++ [name])) (w_fs w, 0%Z) subtests in
           if (deleted =? 0)%Z then Ok (set_fs w f)
           else commit_update_results out (default "" (to_text name)) (set_fs w f)
       end.
Fixpoint cleanup_loop (out : path) (w : world) (names : list string) : outcome Empty_set world :=
  match names with
  | [] => Ok w
  | n :: names => w ← cleanup_commit out w n; cleanup_loop out w names
  end.
Definition cleanup_inprogress_results (out : path) (w : world) : outcome Empty_set world :=
  match read_dir (w_fs w) out with
  | None => Ok w
  | Some names => cleanup_loop out w names
  end.

(** ** The commit files *)
Definition commit_capnp_set_message (out : path) (commit_id message : string) (w : world) :
    outcome read_error unit * world :=
  match read (w_fs w) (path_join out (commit_id +:+ ".capnp")) with
  | None => (Err (ReadFailed (path_join out (commit_id +:+ ".capnp"))), w)
  | Some f =>
      match parse_test_results f with
      | Err e => (Err (ParseFailed e), w)
      | Panic => (Panic, w)
      | Ok existing =>
          let '(r, w) := results_to_capnp out commit_id (Some message) (cr_tests existing) w in
          (map_err WriteFailed r, w)
      end
  end.

Definition commit_read_capnp (rc : Ktestrc) (f : fs) (commit_id : string) :
    outcome read_error string :=
  match read f (path_join (Config.output_dir rc) (commit_id +:+ ".capnp")) with
  | Some buf => Ok buf
  | None => Err (ReadFailed (path_join (Config.output_dir rc) (commit_id +:+ ".capnp")))
  end.
Definition commitdir_get_results (rc : Ktestrc) (f : fs) (commit_id : string) :
    outcome read_error TestResultsMap :=
  buf ← commit_read_capnp rc f commit_id;
  c ← map_err ParseFailed (parse_test_results buf);
  mret (cr_tests c).

(** ** The client's cache *)
Definition fetch_capnp_cached (base_url : string) (cache_dir : path) (commit_id : string)
    (now : Z) (f : fs) : outcome read_error bool * fs :=
  let cache_path := path_join cache_dir (commit_id +:+ ".capnp") in
  let url := trim_end_matches "/" base_url +:+ "/" +:+ commit_id +:+ ".capnp" in
  match http_get url (modified f cache_path) with
  | None => (Err (HttpFailed url), f)
  | Some (304, _)%Z => (Ok true, f)
  | Some (200, bytes)%Z => (Ok true, (write f now cache_path bytes).1)
  | Some (404, _)%Z => (Ok false, f)
  | Some (s, _) => (Err (HttpStatus s url), f)
  end.

Definition N_FRESH : nat := 5.
Definition to_fetch_at (f : fs) (cache_dir : path) (i : nat) (id : string) : option (string * bool) :=
  let cached := exists_ f (path_join cache_dir (id +:+ ".capnp")) in
  if i <? N_FRESH then Some (id, cached) else if cached then None else Some (id, false).
Definition to_fetch (f : fs) (cache_dir : path) (commit_ids : list string) : list (string * bool) :=
  omap id (imap (to_fetch_at f cache_dir) commit_ids).
(** The lists of the worker threads. *)
Definition fetch_plan (ids : list (string * bool)) : list (list (string * bool)) :=
  let n_threads := Nat.max (Nat.min 8 (length ids)) 1 in
  chunks (Nat.max (div_ceil (length ids) n_threads) 1) ids.

(** A failed fetch prints the start of the id. *)
Definition fetch_one (base_url : string) (cache_dir : path) (now : Z)
    (acc : outcome Empty_set fs) (id : string) : outcome Empty_set fs :=
  f ← acc;
  match fetch_capnp_cached base_url cache_dir id now f with
  | (Ok _, f) => Ok f
  | (Err _, f) => _ ← slice_to id (Nat.min 12 (String.length id)); Ok f
  | (Panic, _) => Panic
  end.
Definition prefetch_capnp (base_url : string) (cache_dir : path) (commit_ids : list string)
    (now : Z) (f : fs) : outcome Empty_set fs :=
  let f := (create_dir_all f now cache_dir).1 in
  let ids := to_fetch f cache_dir commit_ids in
  match ids with
  | [] => Ok f
  | _ => foldl (fetch_one base_url cache_dir now) (Ok f)
           (interleave (map fst <$> fetch_plan ids))
  end.

Definition commitdir_get_results_full (rc : Ktestrc) (commit_id : string) (now : Z) (f : fs) :
    outcome read_error CommitResultsCapnp * fs :=
  let '(fetched, f) :=
    match ci_url rc with
    | Some base_url =>
        let f := (create_dir_all f now (Config.output_dir rc)).1 in
        fetch_capnp_cached base_url (Config.output_dir rc) commit_id now f
    | None => (Ok true, f)
    end in
  (_ ← fetched; buf ← commit_read_capnp rc f commit_id; map_err ParseFailed (parse_test_results buf), f).

(** ** Lemmas *)
Lemma chunks_fuel_concat {A} fuel n (l : list A) :
  0 < n → length l ≤ fuel → concat (chunks_fuel fuel n l) = l.
Proof.
  intros Hn. revert l. induction fuel as [|fuel IH]; intros [|x l] Hl; cbn in Hl; [done|lia|done|].
  cbn [chunks_fuel concat]. rewrite IH; [apply take_drop|].
  rewrite length_drop. cbn. lia.
Qed.
Lemma chunks_fuel_nonempty {A} fuel n (l : list A) :
  0 < n → Forall (λ c, c ≠ [] ∧ length c ≤ n) (chunks_fuel fuel n l).
Proof.
  intros Hn. revert l. induction fuel as [|fuel IH]; intros [|x l]; [constructor..|].
  cbn [chunks_fuel]. constructor; [|apply IH]. split; [by destruct n; [lia|]|].
  rewrite length_take. lia.
Qed.
Lemma chunks_fuel_length {A} fuel n k (l : list A) :
  0 < n → length l ≤ k * n → length (chunks_fuel fuel n l) ≤ k.
Proof.
  intros Hn. revert l k. induction fuel as [|fuel IH]; intros [|x l] k Hk; cbn; [lia..|].
  destruct k as [|k]; [cbn in Hk; lia|]. apply le_n_S. apply IH.
  rewrite length_drop. cbn in *. lia.
Qed.
Lemma div_ceil_mul a b : 0 < b → a ≤ b * div_ceil a b.
Proof.
  intros Hb. unfold div_ceil. pose proof (Nat.div_mod (a + b - 1) b).
  pose proof (Nat.mod_upper_bound (a + b - 1) b). lia.
Qed.
Lemma elem_of_omap_imap {A B} (f : nat → A → option B) l y :
  y ∈ omap id (imap f l) ↔ ∃ i x, l !! i = Some x ∧ f i x = Some y.
Proof.
  rewrite list_elem_of_omap. split.
  - intros (o & Ho & Ho'). cbn in Ho'. subst o. apply list_elem_of_lookup_1 in Ho as [i Hi].
    rewrite list_lookup_imap in Hi. destruct (l !! i) as [x|] eqn:E; [|done].
    cbn in Hi. simplify_eq. eauto.
  - intros (i & x & Hi & Hf). exists (Some y). split; [|done].
    apply list_elem_of_lookup. exists i. by rewrite list_lookup_imap, Hi, <-Hf.
Qed.

Lemma fetch_plan_concat (ids : list (string * bool)) : concat (fetch_plan ids) = ids.
Proof. unfold fetch_plan, chunks. apply chunks_fuel_concat; lia. Qed.
Lemma to_fetch_ids f cache_dir commit_ids id :
  id ∈ (to_fetch f cache_dir commit_ids).*1 → id ∈ commit_ids.
Proof.
  intros ([id' b] & -> & (i & x & Hi & Hx)%elem_of_omap_imap)%list_elem_of_fmap.
  assert (id' = x) as ->.
  { unfold to_fetch_at in Hx. by cases. }
  by apply list_elem_of_lookup_2 in Hi.
Qed.

(** The prefetch plan. Exactly the commits among the five newest and the
    ones without a cached file are fetched, each by one thread: the threads'
    lists concatenate to the commits to fetch, there are at most eight of
    them, and none is empty. *)
Theorem fetch_plan_complete f cache_dir commit_ids :
  let ids := to_fetch f cache_dir commit_ids in
  concat (fetch_plan ids) = ids ∧ length (fetch_plan ids) ≤ 8 ∧ [] ∉ fetch_plan ids ∧
  ∀ id, id ∈ ids.*1 ↔ ∃ i, commit_ids !! i = Some id ∧
    (i < 5 ∨ exists_ f (path_join cache_dir (id +:+ ".capnp")) = false).
Proof.
  intros ids. unfold fetch_plan. set (t := Nat.max (Nat.min 8 (length ids)) 1).
  set (n := Nat.max (div_ceil (length ids) t) 1). assert (0 < n) as Hn by lia.
  unfold chunks. split_and!.
  - apply fetch_plan_concat.
  - etrans; [apply (chunks_fuel_length _ _ t); [done|]|lia].
    pose proof (div_ceil_mul (length ids) t ltac:(lia)). unfold n. nia.
  - intros Hin. pose proof (chunks_fuel_nonempty (length ids) n ids Hn) as Hf.
    rewrite Forall_forall in Hf. by destruct (Hf _ Hin).
  - intros id. rewrite list_elem_of_fmap. unfold ids, to_fetch. split.
    + intros ([id' b] & -> & (i & x & Hi & Hx)%elem_of_omap_imap). exists i. cbn.
      unfold to_fetch_at, N_FRESH in Hx. destruct (i <? 5) eqn:E.
      * simplify_eq. split; [done|]. left. by apply Nat.ltb_lt.
      * case_match; simplify_eq. auto.
    + intros (i & Hi & Hc).
      assert (∃ b, to_fetch_at f cache_dir i id = Some (id, b)) as [b Hb].
      { unfold to_fetch_at, N_FRESH. destruct (i <? 5) eqn:E; [eauto|].
        destruct Hc as [Hc| ->]; [apply Nat.ltb_lt in Hc; congruence|eauto]. }
      exists (id, b). split; [done|]. apply elem_of_omap_imap. eauto.
Qed.

(** Setting a commit's message keeps its results: when it succeeds, the
    file reads back with the new message and the statuses and durations it had;
    when it fails, the file is untouched. *)
Theorem set_message_keeps_results out c msg w buf ex r w' :
  plain_commit c → io_ok out → w_fs w !! capnp_tmp_path out c (w_seq w) = None →
  valid_utf8 msg = true → read (w_fs w) (capnp_path out c) = Some buf →
  parse_test_results buf = Ok ex → readable (build_results c (Some msg) (cr_tests ex)) →
  commit_capnp_set_message out c msg w = (r, w') → r ≠ Panic →
  match r with
  | Ok _ => ∃ buf' ex', read (w_fs w') (capnp_path out c) = Some buf' ∧
      parse_test_results buf' = Ok ex' ∧ cr_message ex' = msg ∧
      same_verdicts (cr_tests ex') (cr_tests ex)
  | _ => w_fs w' !! capnp_path out c = w_fs w !! capnp_path out c
  end.
Proof.
  intros Hc Hio Htmp Hmsg Hr Hp Hread Hset Hnp. unfold commit_capnp_set_message in Hset.
  change (path_join out (c +:+ ".capnp")) with (capnp_path out c) in Hset. rewrite Hr, Hp in Hset.
  destruct (results_to_capnp _ _ _ _ _) as [r1 w1] eqn:Hw. injection Hset as <- <-.
  destruct (results_to_capnp_spec out c (Some msg) (cr_tests ex) w r1 w1 Hc Htmp Hw)
    as (_ & _ & _ & Hfile); [by intros ->|].
  destruct r1 as [?|e|]; cbn in *; [|done..]. destruct Hfile as [Hfile _].
  eexists _, _. split; [eapply read_file; [done|by apply Hio]|].
  split; [apply parse_serialize; [by eapply parse_text|done]|]. cbn. split.
  - unfold to_text. by rewrite Hmsg.
  - unfold same_verdicts. rewrite <-map_fmap_compose. by apply map_fmap_ext.
Qed.

Lemma get_results_loop_spec f dir names acc :
  Forall (λ n, valid_utf8 n = true) names →
  ∃ m, get_results_loop f dir acc names = Ok m ∧
    ∀ k, m !! k = if decide (k ∈ names)
                  then match read_test_result f (dir ++ [k]) with Some r => Some r | None => acc !! k end
                  else acc !! k.
Proof.
  intros Hn. revert acc. induction Hn as [|n names Hv Hn IH]; intros acc; [eexists; by split|].
  cbn [get_results_loop].
  assert (∀ k, k ∈ n :: names ↔ k = n ∨ k ∈ names) as Hcons by (intros; by rewrite elem_of_cons).
  destruct (read_test_result f (dir ++ [n])) as [r|] eqn:Hr.
  - unfold to_text. rewrite Hv. destruct (IH (<[n := r]> acc)) as (m & -> & Hm).
    exists m. split; [done|]. intros k. rewrite Hm.
    destruct (decide (k = n)) as [->|Hne]; [rewrite Hr, lookup_insert_eq|rewrite lookup_insert_ne by done].
    + rewrite (decide_True (P := n ∈ n :: names)) by constructor. by case_decide.
    + apply decide_ext. rewrite Hcons. naive_solver.
  - destruct (IH acc) as (m & -> & Hm). exists m. split; [done|]. intros k. rewrite Hm.
    destruct (decide (k = n)) as [->|Hne]; [rewrite Hr; by repeat case_decide|].
    apply decide_ext. rewrite Hcons. naive_solver.
Qed.

(** The directories a regeneration reads, and what it may have to write. *)
Record can_update (out : path) (c : string) (names : list string) (w : world) : Prop := {
  cu_commit : plain_commit c;
  cu_dir : read_dir (w_fs w) (path_join out c) = Some names;
  cu_text : Forall (λ n, valid_utf8 n = true) names;
  cu_fits m : commitdir_get_results_fs (w_fs w) out c = Ok m →
    fits_u32 m ∧ readable (build_results c None m)
}.
Lemma commit_update_spec out c names w :
  disk_ok out w → io_ok out → can_update out c names w →
  ∃ w' buf res, commit_update_results out c w = Ok w' ∧ disk_ok out w' ∧
    (∀ q, q ≠ capnp_path out c → w_fs w' !! q = w_fs w !! q) ∧
    read (w_fs w') (capnp_path out c) = Some buf ∧ parse_test_results buf = Ok res ∧
    ∀ k, cr_tests res !! k =
      if decide (k ∈ names) then reset_start <$> read_test_result (w_fs w) (out ++ [c; k]) else None.
Proof.
  intros Hd Hio [Hc Hdir Htext Hm]. unfold commit_update_results, update_results.
  unfold commitdir_get_results_fs in *. rewrite Hdir in *.
  destruct (get_results_loop_spec (w_fs w) (path_join out c) names ∅ Htext) as (m & Hl & Hk).
  destruct (Hm m Hl) as [Hfit Hread]. rewrite Hl. cbn [mbind outcome_bind].
  destruct (results_to_capnp_ok out c None m w) as [w' Hw]; [by apply disk_can_render|done|].
  assert (render out c m w = Ok w') as Hr by (unfold render; by rewrite Hw).
  destruct (render_disk _ _ _ _ _ Hd Hio Hc Hr) as (_ & Hd' & _ & Hfile & Hframe).
  rewrite Hw. eexists _, _, _. split_and!; [done..|eapply read_file; [done|by apply Hio]| |].
  - apply parse_serialize; [|done]. intros k [r Hkr]. rewrite Hk, lookup_empty in Hkr.
    case_decide; [|done]. rewrite Forall_forall in Htext. auto.
  - intros k. cbn. rewrite lookup_fmap, Hk, lookup_empty, path_join_plain, <-app_assoc by done.
    case_decide; [|done]. cbn. by destruct (read_test_result _ _).
Qed.

(** C39: regenerating a commit's file from its result directories: afterwards
    the file holds, for each directory with a readable status, its status and
    duration, and nothing else. *)
Theorem commit_update_results_correct out c names w :
  disk_ok out w → io_ok out → can_update out c names w →
  ∃ w' buf res, commit_update_results out c w = Ok w' ∧
    read (w_fs w') (capnp_path out c) = Some buf ∧ parse_test_results buf = Ok res ∧
    ∀ k, cr_tests res !! k =
      if decide (k ∈ names) then reset_start <$> read_test_result (w_fs w) (out ++ [c; k]) else None.
Proof.
  intros Hd Hio Hc. destruct (commit_update_spec _ _ _ _ Hd Hio Hc) as (w' & buf & res & ? & _ & _ & ?).
  by exists w', buf, res.
Qed.

End results.

(** ** Concrete runs *)
Definition demo_http : Http := {| http_get _ _ := None |}.
Definition demo_threads : Threads := {| interleave ls := concat ls; interleave_perm _ := reflexivity _ |}.
Section witnesses.
#[local] Existing Instance plain_os.
#[local] Existing Instance demo_codec.
#[local] Existing Instance demo_chrono.

Lemma demo_set_message :
  is_ok (commit_capnp_set_message ["out"] c1 "fix" demo_world).1 = true.
Proof. computed. Qed.
Lemma set_message_keeps_results_witness :
  ∃ w' buf' ex', commit_capnp_set_message ["out"] c1 "fix" demo_world = (Ok tt, w') ∧
    read (w_fs w') (capnp_path ["out"] c1) = Some buf' ∧
    parse_test_results buf' = Ok ex' ∧ cr_message ex' = "fix" ∧
    same_verdicts (cr_tests ex') demo_map.
Proof.
  pose proof demo_set_message as H.
  destruct (commit_capnp_set_message ["out"] c1 "fix" demo_world) as [[[]| |] w'] eqn:E;
    [|discriminate H..].
  destruct (set_message_keeps_results ["out"] c1 "fix" demo_world _ _ (Ok tt) w'
              ltac:(by split_and!) (demo_io _) ltac:(computed) eq_refl
              demo_file demo_file_parse I E ltac:(done)) as (buf' & ex' & Hr & Hp & Hm & Hv).
  exists w', buf', ex'. by split_and!.
Defined.
Lemma commit_update_results_correct_witness :
  ∃ w' buf res, commit_update_results ["out"] c1 demo_world = Ok w' ∧
    read (w_fs w') (capnp_path ["out"] c1) = Some buf ∧ parse_test_results buf = Ok res ∧
    cr_tests res !! "boot.b" = Some (mkResult Inprogress 0 0) ∧ cr_tests res !! "boot.a" = None.
Proof.
  destruct (commit_update_results_correct ["out"] c1 ["boot.b"] demo_world)
    as (w' & buf & res & Hu & Hr & Hp & Hk).
  - apply demo_disk.
  - apply demo_io.
  - split; [by split_and!|computed|by repeat constructor|]. intros m Hm. split; [|done].
    assert (fits_u32 <$> outcome_ok (commitdir_get_results_fs (w_fs demo_world) ["out"] c1) =
            Some (fits_u32 {[ "boot.b" := running ]})) as Hf by computed.
    rewrite Hm in Hf. cbn in Hf. apply (inj Some) in Hf. rewrite Hf. reflexivity.
  - exists w', buf, res. rewrite !Hk. split_and!; [done..|computed|reflexivity].
Defined.
End witnesses.
End Results.
