(* ===== verification/Stats.v ===== *)
(** * Historical durations (src/src/lib.rs [test_stats],
    src/src/bin/gen-avg-duration.rs)

    gen-avg-duration sums every stored result per subtest and writes the
    averages, in key order, to [test_durations.capnp]; the scheduler looks a
    subtest up in that file by binary search. *)

From S2P Require Import Prelude.
From S2P Require Import RustStr.
From S2P Require Import Keys.
From S2P Require Import Status.
From S2P Require Import Fs.
From S2P Require Import Config.
From S2P Require Import Store.
From S2P Require Import Results.

Module Stats.
Import Str Keys Status Fs Config Store Results.

(** ** The message of src/src/durations.capnp

    A reader may find an entry's text pointer broken ([None]). *)
Record duration_entry : Type := mkDur {
  d_test : option string; d_duration : Z; d_nr : Z; d_passed : Z; d_failed : Z
}.
Abbreviation durations := (list duration_entry).

Record TestStats : Type := mkStats { nr : Z; st_passed : Z; st_failed : Z; st_duration : Z }.

(** The loop of the binary search; [None] is running out of fuel. *)
Fixpoint search (fuel : nat) (d : durations) (full_test : string) (l r : nat) :
    option (outcome Empty_set (option TestStats)) :=
  match fuel with
  | O => None
  | S fuel =>
      if l <? r then
        let m := l + (r - l) / 2 in
        match d !! m with
        | None => Some Panic
        | Some d_m =>
            match d_test d_m with
            | None => Some (Ok None)
            | Some t =>
                if valid_utf8 t then
                  match String.compare full_test t with
                  | Lt => search fuel d full_test l m
                  | Gt => search fuel d full_test (m + 1) r
                  | Eq => Some (Ok (Some (mkStats (d_nr d_m) (d_passed d_m) (d_failed d_m)
                                            (d_duration d_m))))
                  end
                else Some Panic
            end
        end
      else Some (Ok None)
  end.

Section stats.
Context {OS : OsEnv} {CD : Codec test_results} {CH : Chrono} {DD : Codec durations}.

Definition test_stats (dur : option string) (test subtest kernel env : string) :
    option (outcome Empty_set (option TestStats)) :=
  match dur ≫= deserialize with
  | None => Some (Ok None)
  | Some d => search (S (length d)) d (subtest_result_key test subtest kernel env) 0 (length d)
  end.

(** ** gen-avg-duration *)
Record TestDuration : Type := mkTD { secs : Z; td_nr : Z; nr_passed : Z; nr_failed : Z }.
Definition td_default : TestDuration := mkTD 0 0 0 0.
Definition bool_u64 (b : bool) : Z := if b then 1%Z else 0%Z.

Definition add_result (durations : gmap string TestDuration) (kv : string * TestResult) :
    gmap string TestDuration :=
  let t := default td_default (durations !! kv.1) in
  <[kv.1 := (mkTD (secs t ⊕ duration kv.2) (td_nr t ⊕ 1)
              (nr_passed t ⊕ bool_u64 (bool_decide (status kv.2 = Passed)))
              (nr_failed t ⊕ bool_u64 (bool_decide (status kv.2 = Failed))))%rust]> durations.

(** [e.metadata()] of a directory entry does not follow links. *)
Definition entry_is_dir (f : fs) (dir : path) (n : string) : bool :=
  match f !! (dir ++ [n]) with Some (NDir _) => true | _ => false end.

Fixpoint sum_commits (rc : Ktestrc) (f : fs) (acc : gmap string TestDuration) (ids : list string) :
    outcome Empty_set (gmap string TestDuration) :=
  match ids with
  | [] => Ok acc
  | e :: ids =>
      match commitdir_get_results rc f e with
      | Ok m => sum_commits rc f (foldl add_result acc (bt_iter m)) ids
      | Err _ => sum_commits rc f acc ids
      | Panic => Panic
      end
  end.
Definition commit_dirs (f : fs) (dir : path) (names : list string) : list string :=
  omap to_text (filter (λ n, entry_is_dir f dir n = true) names).
Definition read_duration_sums (rc : Ktestrc) (f : fs) : outcome Empty_set (gmap string TestDuration) :=
  match read_dir f (Config.output_dir rc) with
  | None => Ok ∅
  | Some names => sum_commits rc f ∅ (commit_dirs f (Config.output_dir rc) names)
  end.

(** A division by zero panics. *)
Definition duration_out (kv : string * TestDuration) : outcome Empty_set duration_entry :=
  if (td_nr kv.2 =? 0)%Z then Panic
  else Ok (mkDur (Some kv.1) (secs kv.2 / td_nr kv.2) (td_nr kv.2) (nr_passed kv.2) (nr_failed kv.2)).
Fixpoint durations_out (l : list (string * TestDuration)) : outcome Empty_set durations :=
  match l with
  | [] => Ok []
  | kv :: l => e ← duration_out kv; es ← durations_out l; Ok (e :: es)
  end.
Definition durations_path (rc : Ktestrc) : path := path_join (Config.output_dir rc) "test_durations.capnp".
Definition durations_path_new (rc : Ktestrc) : path :=
  path_join (Config.output_dir rc) "test_durations.capnp.new".
Definition write_durations_capnp (rc : Ktestrc) (durations_in : gmap string TestDuration) (w : world) :
    outcome Empty_set world :=
  if (2 ^ 32 <=? Z.of_nat (size durations_in))%Z then Panic
  else
    es ← durations_out (bt_iter durations_in);
    match write (w_fs w) (w_now w) (durations_path_new rc) (serialize es) with
    | (f, true) => match rename f (durations_path_new rc) (durations_path rc) with
                   | (f, true) => Ok (set_fs w f)
                   | _ => Panic
                   end
    | _ => Panic
    end.
Definition gen_avg_duration (rc : Ktestrc) (w : world) : outcome Empty_set world :=
  sums ← read_duration_sums rc (w_fs w); write_durations_capnp rc sums w.

(** ** The binary search *)
Definition dur_key (e : duration_entry) : string := default "" (d_test e).
(** Entries as the writer leaves them: readable text, strictly ascending. *)
Definition sorted_entries (d : durations) : Prop :=
  StronglySorted (λ a b, String.compare (dur_key a) (dur_key b) = Lt) d ∧
  Forall (λ e, ∃ t, d_test e = Some t ∧ valid_utf8 t = true) d.

Lemma mid_bounds l r : l < r → l ≤ l + (r - l) / 2 < r.
Proof. intros H. pose proof (Nat.div_lt_upper_bound (r - l) 2 (r - l)). lia. Qed.

Lemma search_total fuel d key l r :
  r ≤ length d → r - l < fuel → ∃ o, search fuel d key l r = Some o.
Proof.
  revert l r. induction fuel as [|fuel IH]; intros l r Hr Hf; [lia|]. cbn [search].
  destruct (l <? r) eqn:E; [|eauto]. apply Nat.ltb_lt in E. pose proof (mid_bounds l r E).
  repeat case_match; eauto; apply IH; lia.
Qed.

Lemma search_sound fuel d key l r :
  (∀ e t, e ∈ d → d_test e = Some t → valid_utf8 t = true) → r ≤ length d → r - l < fuel →
  ∃ o, search fuel d key l r = Some (Ok o) ∧
    ∀ s, o = Some s → ∃ e, e ∈ d ∧ d_test e = Some key ∧
      s = mkStats (d_nr e) (d_passed e) (d_failed e) (d_duration e).
Proof.
  intros Htext. revert l r. induction fuel as [|fuel IH]; intros l r Hr Hf; [lia|]. cbn [search].
  destruct (l <? r) eqn:E; [|by eexists]. apply Nat.ltb_lt in E. pose proof (mid_bounds l r E) as Hm.
  destruct (lookup_lt_is_Some_2 d (l + (r - l) / 2)) as [e He]; [lia|]. rewrite He.
  apply list_elem_of_lookup_2 in He. destruct (d_test e) as [t|] eqn:Et; [|by eexists].
  rewrite (Htext e t He Et). destruct (String.compare key t) eqn:Ec.
  - apply String.compare_eq_iff in Ec as <-. eexists. split; [done|]. intros s [= <-]. eauto.
  - apply IH; lia.
  - apply IH; lia.
Qed.

(** Whatever the file holds, what a search that has enough fuel gives. *)
Lemma search_result fuel d key l r :
  r ≤ length d → r - l < fuel →
  ∃ res, search fuel d key l r = Some res ∧
    (res = Panic → ∃ e t, e ∈ d ∧ d_test e = Some t ∧ valid_utf8 t = false) ∧
    ∀ s, res = Ok (Some s) → ∃ e, e ∈ d ∧ d_test e = Some key ∧
      s = mkStats (d_nr e) (d_passed e) (d_failed e) (d_duration e).
Proof.
  revert l r. induction fuel as [|fuel IH]; intros l r Hr Hf; [lia|]. cbn [search].
  destruct (l <? r) eqn:E; [|by eexists]. apply Nat.ltb_lt in E. pose proof (mid_bounds l r E) as Hm.
  destruct (lookup_lt_is_Some_2 d (l + (r - l) / 2)) as [e He]; [lia|]. rewrite He.
  apply list_elem_of_lookup_2 in He. destruct (d_test e) as [t|] eqn:Et; [|by eexists].
  destruct (valid_utf8 t) eqn:Ev; [|eexists; split; [done|]; split; [by eauto|done]].
  destruct (String.compare key t) eqn:Ec.
  - apply String.compare_eq_iff in Ec as <-. eexists. split; [done|]. split; [done|].
    intros s [= <-]. eauto.
  - apply IH; lia.
  - apply IH; lia.
Qed.

(** C25: looking up a test's history in the durations file, whatever the file
    holds. The binary search ends, and never reads out of bounds: it panics
    only on an entry whose test name is not UTF-8; and a hit gives the numbers
    of an entry of the file for exactly the key asked for. A file that does
    not parse, or is not there, gives no history. *)
Theorem test_stats_sound dur test subtest kernel env :
  ∃ res, test_stats dur test subtest kernel env = Some res ∧
    (res = Panic → ∃ d e t, dur ≫= deserialize = Some d ∧ e ∈ d ∧ d_test e = Some t ∧
       valid_utf8 t = false) ∧
    (∀ s, res = Ok (Some s) → ∃ d e, dur ≫= deserialize = Some d ∧ e ∈ d ∧
      d_test e = Some (subtest_result_key test subtest kernel env) ∧
      s = mkStats (d_nr e) (d_passed e) (d_failed e) (d_duration e)) ∧
    (dur ≫= deserialize = None → res = Ok None).
Proof.
  unfold test_stats. destruct (dur ≫= deserialize) as [d|]; [|by eexists].
  destruct (search_result (S (length d)) d (subtest_result_key test subtest kernel env) 0 (length d))
    as (res & Hres & Hp & Hs); [lia..|].
  exists res. split; [done|]. split_and!; [| |done].
  - intros H. destruct (Hp H) as (e & t & ? & ? & ?). eauto 10.
  - intros s H. destruct (Hs s H) as (e & ? & ? & ?). eauto 10.
Qed.

Lemma sorted_lookup_lt d i j a b :
  StronglySorted (λ a b, String.compare (dur_key a) (dur_key b) = Lt) d →
  d !! i = Some a → d !! j = Some b → i < j → String.compare (dur_key a) (dur_key b) = Lt.
Proof.
  intros Hs. revert i j. induction Hs as [|x d Hs IH Hx]; intros i j Hi Hj Hij; [done|].
  destruct j as [|j]; [lia|]. destruct i as [|i]; cbn in *.
  - simplify_eq. rewrite Forall_forall in Hx. by eapply Hx, list_elem_of_lookup_2, Hj.
  - eapply IH; eauto. lia.
Qed.
(** The search keeps the key's position, if it has one, within [l, r). *)
Lemma search_finds fuel d key l r :
  sorted_entries d → r ≤ length d → r - l < fuel →
  (∀ i e, d !! i = Some e → d_test e = Some key → l ≤ i < r) →
  ∃ o, search fuel d key l r = Some (Ok o) ∧
    ∀ e, e ∈ d → d_test e = Some key →
      o = Some (mkStats (d_nr e) (d_passed e) (d_failed e) (d_duration e)).
Proof.
  intros [Hs Ht]. rewrite Forall_forall in Ht. revert l r.
  induction fuel as [|fuel IH]; intros l r Hr Hf Hin; [lia|]. cbn [search].
  destruct (l <? r) eqn:E.
  2: { eexists. split; [done|]. intros e [i Hi]%list_elem_of_lookup_1 He.
       apply Nat.ltb_ge in E. specialize (Hin i e Hi He). lia. }
  apply Nat.ltb_lt in E. pose proof (mid_bounds l r E) as Hm.
  set (m := l + (r - l) / 2) in *.
  destruct (lookup_lt_is_Some_2 d m) as [em Hem]; [lia|]. rewrite Hem.
  destruct (Ht em) as (t & Et & Hv); [by eapply list_elem_of_lookup_2|]. rewrite Et, Hv.
  assert (dur_key em = t) as Hk by (unfold dur_key; by rewrite Et).
  assert (∀ i e, d !! i = Some e → d_test e = Some key →
            (i < m → String.compare key t = Lt) ∧ (m < i → String.compare t key = Lt)) as Hcmp.
  { intros i e Hi He. assert (dur_key e = key) as Hke by (unfold dur_key; by rewrite He).
    split; intros; rewrite <-Hk, <-Hke; by eapply sorted_lookup_lt. }
  destruct (String.compare key t) eqn:Ec.
  - apply String.compare_eq_iff in Ec as ->. eexists. split; [done|].
    intros e [i Hi]%list_elem_of_lookup_1 He. destruct (Hcmp i e Hi He) as [H1 H2].
    rewrite (cmp_refl String.compare) in *.
    destruct (Nat.lt_trichotomy i m) as [?|[->|?]]; [by specialize (H1 ltac:(done))| |by specialize (H2 ltac:(done))].
    by simplify_eq.
  - apply IH; [lia..|]. intros i e Hi He. specialize (Hin i e Hi He).
    destruct (Hcmp i e Hi He) as [_ H2].
    assert (i ≠ m) by (intros ->; simplify_eq; by rewrite (cmp_refl String.compare) in Ec).
    destruct (decide (m < i)) as [Hlt|]; [|lia]. specialize (H2 Hlt).
    by rewrite (cmp_opp (cmp := String.compare) key t), Ec in H2.
  - apply IH; [lia..|]. intros i e Hi He. specialize (Hin i e Hi He).
    destruct (Hcmp i e Hi He) as [H1 _].
    assert (i ≠ m) by (intros ->; simplify_eq; by rewrite (cmp_refl String.compare) in Ec).
    destruct (decide (i < m)) as [Hlt|]; [|lia]. by specialize (H1 Hlt).
Qed.

(** ** What gen-avg-duration computes *)
Definition add_td (t : TestDuration) (r : TestResult) : TestDuration :=
  (mkTD (secs t ⊕ duration r) (td_nr t ⊕ 1)
    (nr_passed t ⊕ bool_u64 (bool_decide (status r = Passed)))
    (nr_failed t ⊕ bool_u64 (bool_decide (status r = Failed))))%rust.
Lemma add_result_lookup acc k r t :
  add_result acc (k, r) !! t =
  if decide (t = k) then Some (add_td (default td_default (acc !! k)) r) else acc !! t.
Proof.
  unfold add_result. cbn [fst snd]. destruct (decide (t = k)) as [->|Hne];
    [by rewrite lookup_insert_eq|by rewrite lookup_insert_ne by done].
Qed.
Lemma fold_results_lookup acc l t :
  NoDup l.*1 →
  foldl add_result acc l !! t =
  match list_to_map (M := TestResultsMap) l !! t with
  | Some r => Some (add_td (default td_default (acc !! t)) r)
  | None => acc !! t
  end.
Proof.
  revert acc. induction l as [|[k r] l IH]; intros acc; [done|]. cbn [fmap list_fmap fst].
  intros [Hk Hnd]%NoDup_cons. cbn [foldl]. rewrite list_to_map_cons, IH, add_result_lookup by done.
  destruct (decide (t = k)) as [->|Hne].
  - rewrite lookup_insert_eq. by rewrite (not_elem_of_list_to_map_1 _ _ Hk).
  - by rewrite lookup_insert_ne.
Qed.
Lemma bt_iter_list_to_map (m : TestResultsMap) : list_to_map (bt_iter m) = m.
Proof.
  apply map_eq. intros k. apply option_eq. intros r.
  rewrite <-elem_of_list_to_map by apply bt_iter_NoDup. apply elem_of_bt_iter.
Qed.
Lemma add_commit_lookup acc (m : TestResultsMap) t :
  foldl add_result acc (bt_iter m) !! t =
  match m !! t with Some r => Some (add_td (default td_default (acc !! t)) r) | None => acc !! t end.
Proof. by rewrite fold_results_lookup, bt_iter_list_to_map by apply bt_iter_NoDup. Qed.

(** The stored results of one subtest, and what they add up to. *)
Definition commit_maps (rc : Ktestrc) (f : fs) (ids : list string) : list TestResultsMap :=
  omap (λ c, outcome_ok (commitdir_get_results rc f c)) ids.
Definition results_of (t : string) (ms : list TestResultsMap) : list TestResult :=
  omap (λ m, m !! t) ms.
Definition count (s : TestStatus) (rs : list TestResult) : Z :=
  Z.of_nat (length (filter (λ r, status r = s) rs)).
Definition totals (rs : list TestResult) : TestDuration :=
  mkTD (sum64 (duration <$> rs)) (wrap64 (Z.of_nat (length rs)))
    (wrap64 (count Passed rs)) (wrap64 (count Failed rs)).

Lemma count_snoc s rs r :
  count s (rs ++ [r]) = (count s rs + bool_u64 (bool_decide (status r = s)))%Z.
Proof.
  unfold count. rewrite filter_app, length_app, filter_cons, filter_nil. case_decide as H.
  - rewrite bool_decide_eq_true_2 by done. cbn. lia.
  - rewrite bool_decide_eq_false_2 by done. cbn. lia.
Qed.
Lemma totals_snoc rs r : totals (rs ++ [r]) = add_td (totals rs) r.
Proof.
  unfold totals, add_td. cbn. rewrite !count_snoc, !wrap64_add, length_app. cbn. f_equal.
  - unfold sum64. by rewrite fmap_app, foldl_app.
  - f_equal. lia.
Qed.
Definition entry_of (rs : list TestResult) : option TestDuration :=
  match rs with [] => None | _ => Some (totals rs) end.
Lemma entry_of_snoc rs r :
  entry_of (rs ++ [r]) = Some (add_td (default td_default (entry_of rs)) r).
Proof.
  transitivity (Some (totals (rs ++ [r]))); [by destruct rs|].
  rewrite totals_snoc. by destruct rs.
Qed.

Lemma sum_commits_spec rc f ids ms acc :
  (∀ c, c ∈ ids → commitdir_get_results rc f c ≠ Panic) →
  (∀ t, acc !! t = entry_of (results_of t ms)) →
  ∃ sums, sum_commits rc f acc ids = Ok sums ∧
    ∀ t, sums !! t = entry_of (results_of t (ms ++ commit_maps rc f ids)).
Proof.
  revert ms acc. induction ids as [|c ids IH]; intros ms acc Hp Hacc.
  { exists acc. split; [done|]. cbn. intros t. by rewrite app_nil_r. }
  cbn [sum_commits]. unfold commit_maps. cbn [omap list_omap].
  assert (∀ c, c ∈ ids → commitdir_get_results rc f c ≠ Panic) as Hp' by (intros; apply Hp; by constructor).
  specialize (Hp c ltac:(constructor)).
  destruct (commitdir_get_results rc f c) as [m|e|]; [|by apply IH|done]. cbn [outcome_ok].
  destruct (IH (ms ++ [m]) (foldl add_result acc (bt_iter m)) Hp') as (sums & Hs & Hl).
  - intros t. rewrite add_commit_lookup. unfold results_of. rewrite omap_app. cbn.
    destruct (m !! t) as [r|]; [by rewrite entry_of_snoc, Hacc|by rewrite app_nil_r].
  - exists sums. split; [done|]. intros t. rewrite Hl, <-app_assoc. done.
Qed.

Lemma durations_out_spec l :
  Forall (λ kv, td_nr kv.2 ≠ 0%Z) l →
  durations_out l = Ok ((λ kv, mkDur (Some kv.1) (secs kv.2 / td_nr kv.2) (td_nr kv.2)
                                  (nr_passed kv.2) (nr_failed kv.2)) <$> l).
Proof.
  induction 1 as [|kv l Hk Hl IH]; [done|]. cbn [durations_out]. unfold duration_out.
  rewrite (proj2 (Z.eqb_neq _ _) Hk), IH. done.
Qed.

(** Nothing stands in the way of the run: the results that are there can be
    read, fewer than 2^64 commits are stored, and the message can be written to
    its file, and read back. *)
Record avg_ready (rc : Ktestrc) (w : world) (names : list string) : Prop := {
  ar_names : read_dir (w_fs w) (Config.output_dir rc) = Some names;
  ar_panic c : c ∈ commit_dirs (w_fs w) (Config.output_dir rc) names →
    commitdir_get_results rc (w_fs w) c ≠ Panic;
  ar_count : (Z.of_nat (length names) < 2 ^ 64)%Z;
  ar_sums sums : read_duration_sums rc (w_fs w) = Ok sums → (Z.of_nat (size sums) < 2 ^ 32)%Z;
  ar_read sums es : read_duration_sums rc (w_fs w) = Ok sums → durations_out (bt_iter sums) = Ok es →
    readable (M := durations) es;
  ar_dir : dir_node (w_fs w) (Config.output_dir rc) = true;
  ar_io : io_denied (durations_path rc) = false ∧ io_denied (durations_path_new rc) = false ∧
    io_short (durations_path_new rc) = None;
  ar_new : w_fs w !! durations_path_new rc = None;
  ar_old : match w_fs w !! durations_path rc with None | Some (NFile _ _) => True | _ => False end
}.

Lemma commit_maps_text rc f ids t r :
  r ∈ results_of t (commit_maps rc f ids) → valid_utf8 t = true.
Proof.
  unfold results_of, commit_maps. intros (m & Hm & Ht)%list_elem_of_omap.
  apply list_elem_of_omap in Hm as (c & _ & Hc).
  destruct (commitdir_get_results rc f c) as [m'|e|] eqn:E; [|done..]. cbn in Hc. simplify_eq.
  unfold commitdir_get_results in E. apply outcome_bind_Ok in E as (buf & _ & E).
  apply outcome_bind_Ok in E as (res & E & [= <-]).
  destruct (parse_test_results buf) as [res'|e|] eqn:Ep; [|done..]. cbn in E. simplify_eq.
  apply (parse_text _ _ Ep). eauto.
Qed.
Lemma results_of_length t ms : length (results_of t ms) ≤ length ms.
Proof. unfold results_of. induction ms as [|m ms IH]; cbn; [lia|]. case_match; cbn; lia. Qed.
Lemma omap_length_le {A B} (f : A → option B) l : length (omap f l) ≤ length l.
Proof. induction l as [|x l IH]; cbn; [lia|]. case_match; cbn; lia. Qed.


(** Looking a key up in sorted entries. *)
Lemma search_lookup d key :
  sorted_entries d →
  ∃ o, search (S (length d)) d key 0 (length d) = Some (Ok o) ∧
    match o with
    | Some s => ∃ e, e ∈ d ∧ d_test e = Some key ∧
                  s = mkStats (d_nr e) (d_passed e) (d_failed e) (d_duration e)
    | None => ∀ e, e ∈ d → d_test e ≠ Some key
    end.
Proof.
  intros Hs. destruct (search_finds (S (length d)) d key 0 (length d)) as (o & Ho & Hfind);
    [done|lia..| |].
  { intros i e Hi _. apply lookup_lt_Some in Hi. lia. }
  destruct (search_sound (S (length d)) d key 0 (length d)) as (o' & Ho' & Hsound); [|lia..|].
  { intros e t He Ht. destruct Hs as [_ Ht']. rewrite Forall_forall in Ht'.
    destruct (Ht' e He) as (t' & ? & ?). by simplify_eq. }
  exists o. split; [done|]. rewrite Ho in Ho'. simplify_eq. destruct o' as [s|]; [by apply Hsound|].
  intros e He Ht. by specialize (Hfind e He Ht).
Qed.

Lemma written_sorted (sums : gmap string TestDuration) :
  (∀ t, is_Some (sums !! t) → valid_utf8 t = true) →
  sorted_entries ((λ kv, mkDur (Some kv.1) (secs kv.2 / td_nr kv.2) (td_nr kv.2)
                           (nr_passed kv.2) (nr_failed kv.2)) <$> bt_iter sums).
Proof.
  intros Ht. split.
  - pose proof (bt_iter_sorted sums) as Hs. induction Hs as [|kv l Hs IH Hkv]; [constructor|].
    cbn. constructor; [done|]. rewrite Forall_forall in Hkv. rewrite Forall_forall.
    intros e (kv' & -> & Hin)%list_elem_of_fmap. by apply Hkv.
  - rewrite Forall_forall. intros e ([k t] & -> & Hin%elem_of_bt_iter)%list_elem_of_fmap.
    exists k. split; [done|]. apply Ht. eauto.
Qed.

Lemma sums_spec rc w names :
  avg_ready rc w names →
  ∃ sums, read_duration_sums rc (w_fs w) = Ok sums ∧
    ∀ t, sums !! t = entry_of (results_of t (commit_maps rc (w_fs w)
                       (commit_dirs (w_fs w) (Config.output_dir rc) names))).
Proof.
  intros Hr. unfold read_duration_sums. rewrite (ar_names _ _ _ Hr).
  apply (sum_commits_spec rc (w_fs w) _ [] ∅); [by apply Hr|done].
Qed.
Lemma results_bound rc w names t :
  avg_ready rc w names →
  let rs := results_of t (commit_maps rc (w_fs w) (commit_dirs (w_fs w) (Config.output_dir rc) names)) in
  is_u64 (Z.of_nat (length rs)) ∧ ∀ s, is_u64 (count s rs).
Proof.
  intros Hr rs. assert (length rs ≤ length names) as Hlen.
  { unfold rs. etrans; [apply results_of_length|]. unfold commit_maps, commit_dirs.
    do 2 (etrans; [apply omap_length_le|]). apply length_filter. }
  pose proof (ar_count _ _ _ Hr). split; [unfold is_u64; lia|].
  intros s. unfold is_u64, count. pose proof (length_filter (λ r, status r = s) rs). lia.
Qed.
Lemma write_durations_spec rc w sums :
  (Z.of_nat (size sums) < 2 ^ 32)%Z → (∀ t d, sums !! t = Some d → td_nr d ≠ 0%Z) →
  io_denied (durations_path rc) = false ∧ io_denied (durations_path_new rc) = false ∧
    io_short (durations_path_new rc) = None →
  dir_node (w_fs w) (Config.output_dir rc) = true → w_fs w !! durations_path_new rc = None →
  match w_fs w !! durations_path rc with None | Some (NFile _ _) => True | _ => False end →
  ∃ w', write_durations_capnp rc sums w = Ok w' ∧
    read (w_fs w') (durations_path rc) =
      Some (serialize ((λ kv, mkDur (Some kv.1) (secs kv.2 / td_nr kv.2) (td_nr kv.2)
                           (nr_passed kv.2) (nr_failed kv.2)) <$> bt_iter sums)).
Proof.
  intros Hsize Hnz (Hio & Hion & Hshort) Hdir Hnew Hold. unfold write_durations_capnp.
  rewrite (proj2 (Z.leb_gt _ _)) by done. rewrite durations_out_spec.
  2: { rewrite Forall_forall. intros [t d] Hin%elem_of_bt_iter. by eapply Hnz. }
  cbn [mbind outcome_bind]. set (es := _ <$> bt_iter sums).
  assert (durations_path rc = Config.output_dir rc ++ ["test_durations.capnp"]) as Hp
    by by apply path_join_plain.
  assert (durations_path_new rc = Config.output_dir rc ++ ["test_durations.capnp.new"]) as Hpn
    by by apply path_join_plain.
  assert (durations_path rc ≠ durations_path_new rc) as Hne by (rewrite Hp, Hpn; by intros [= ?]%(inj _)).
  assert (resolve (w_fs w) (durations_path_new rc) = durations_path_new rc) as Hres
    by (apply resolve_not_link; congruence).
  unfold write, create, write_all. rewrite Hres, Hion, Hnew, Hpn, parent_snoc, Hdir, <-Hpn.
  cbn [orb negb]. rewrite resolve_not_link, Hshort, insert_insert_eq by by rewrite lookup_insert_eq.
  unfold rename. rewrite Hio, Hion, lookup_insert_eq, lookup_insert_ne by done.
  rewrite Hp, parent_snoc, dir_node_insert_file, <-Hp by done. cbn [orb negb].
  assert (∀ f, read (w_fs (set_fs w (<[durations_path rc := NFile (serialize es) (w_now w)]> f)))
                 (durations_path rc) = Some (serialize es)) as Hread.
  { intros f. apply (read_file _ _ _ (w_now w)); [|exact Hio]. cbn [w_fs set_fs].
    by rewrite lookup_insert_eq. }
  destruct (w_fs w !! durations_path rc) as [[d t|t|t]|].
  - eexists. split; [reflexivity|apply Hread].
  - destruct Hold.
  - destruct Hold.
  - eexists. split; [reflexivity|apply Hread].
Qed.

(** C24: the scheduler reads the averages that gen-avg-duration wrote. After a
    run, looking up a subtest gives, from its results over all commit
    directories: how many there are, how many passed and failed, and their
    total duration (modulo 2^64, as u64 sums wrap) divided by their number; a
    subtest without results is not found. The run does not divide by zero. *)
Theorem gen_avg_test_stats rc w names test subtest kernel env :
  avg_ready rc w names →
  let key := subtest_result_key test subtest kernel env in
  let rs := results_of key (commit_maps rc (w_fs w)
              (commit_dirs (w_fs w) (Config.output_dir rc) names)) in
  let n := Z.of_nat (length rs) in
  ∃ w', gen_avg_duration rc w = Ok w' ∧
    test_stats (read (w_fs w') (durations_path rc)) test subtest kernel env =
    Some (Ok (if decide (rs = []) then None
              else Some (mkStats n (count Passed rs) (count Failed rs)
                           (wrap64 (Zsum (duration <$> rs)) / n)))).
Proof.
  intros Hr key rs n. destruct (sums_spec rc w names Hr) as (sums & Hs & Hl).
  assert (∀ t d, sums !! t = Some d → td_nr d ≠ 0%Z) as Hnz.
  { intros t d Hd. rewrite Hl in Hd. destruct (results_bound rc w names t Hr) as [Hb _].
    destruct (results_of t _) as [|r rs'] eqn:E; [done|]. injection Hd as <-.
    unfold totals. cbn [td_nr]. rewrite wrap64_id by done. cbn. lia. }
  assert (∀ t, is_Some (sums !! t) → valid_utf8 t = true) as Htext.
  { intros t [d Hd]. rewrite Hl in Hd. destruct (results_of t _) as [|r rs'] eqn:E; [done|].
    eapply (commit_maps_text rc (w_fs w) _ t r). rewrite E. constructor. }
  destruct (write_durations_spec rc w sums (ar_sums _ _ _ Hr _ Hs) Hnz (ar_io _ _ _ Hr)
              (ar_dir _ _ _ Hr) (ar_new _ _ _ Hr) (ar_old _ _ _ Hr)) as (w' & Hw & Hread).
  exists w'. unfold gen_avg_duration. rewrite Hs. split; [done|].
  unfold test_stats. rewrite Hread. cbn [mbind option_bind].
  rewrite deserialize_serialize by (eapply (ar_read _ _ _ Hr); [exact Hs|];
    apply durations_out_spec, Forall_forall; intros [t d] Hin%elem_of_bt_iter; by eapply Hnz).
  fold key.
  destruct (search_lookup _ key (written_sorted sums Htext)) as (o & -> & Ho). do 2 f_equal.
  specialize (Hl key). fold rs in Hl. destruct (results_bound rc w names key Hr) as [Hb Hc].
  fold rs in Hb, Hc. destruct o as [s|].
  - destruct Ho as (e & ([k d] & -> & Hin%elem_of_bt_iter)%list_elem_of_fmap & [= ->] & ->).
    rewrite Hin in Hl. rewrite decide_False by (intros Hnil; by rewrite Hnil in Hl).
    assert (d = totals rs) as -> by (destruct rs; by simplify_eq/=).
    unfold totals. cbn [d_nr d_passed d_failed d_duration fst snd td_nr nr_passed nr_failed secs].
    by rewrite sum64_Zsum, !wrap64_id by done.
  - rewrite decide_True; [done|]. destruct (decide (rs = [])) as [|Hne]; [done|]. exfalso.
    assert (sums !! key = Some (totals rs)) as Hk by (rewrite Hl; by destruct rs).
    eapply Ho; [apply list_elem_of_fmap; exists (key, totals rs); split; [done|by apply elem_of_bt_iter]|].
    done.
Qed.

End stats.

(** ** Concrete runs *)
#[export] Instance duration_entry_eq_dec : EqDecision duration_entry.
Proof. solve_decision. Defined.
#[export] Instance duration_entry_countable : Countable duration_entry.
Proof.
  apply (inj_countable' (λ e, (d_test e, d_duration e, d_nr e, d_passed e, d_failed e))
           (λ '(t, d, n, p, f), mkDur t d n p f)). by intros [].
Defined.
Definition demo_durations_codec : Codec durations := countable_codec.
Definition demo_rc : Ktestrc :=
  mkKtestrc ["linux"] ["out"] ["ktest"] None ∅ None None None None None None None false ∅ ∅.

Section witnesses.
#[local] Existing Instance plain_os.
#[local] Existing Instance demo_codec.
#[local] Existing Instance demo_chrono.
#[local] Existing Instance demo_durations_codec.

Lemma demo_no_panic rc f c : commitdir_get_results rc f c ≠ Panic.
Proof.
  unfold commitdir_get_results. destruct (commit_read_capnp rc f c) as [buf|e|] eqn:E; [|done|].
  - cbn. pose proof (demo_parse buf). by destruct (parse_test_results buf).
  - unfold commit_read_capnp in E. by case_match.
Qed.
Lemma demo_ready : avg_ready demo_rc demo_world [c1 +:+ ".capnp"; c1] ∨
                   avg_ready demo_rc demo_world [c1; c1 +:+ ".capnp"].
Proof.
  assert (∀ names, read_dir (w_fs demo_world) ["out"] = Some names → length names = 2 →
            avg_ready demo_rc demo_world names) as H.
  { intros names Hn Hlen. split; [done| | | | |by vm_compute|by split_and!| |].
    - intros c _. apply demo_no_panic.
    - rewrite Hlen. done.
    - intros sums Hs.
      assert (match read_duration_sums demo_rc (w_fs demo_world) with
              | Ok m => bool_decide (size m = 2) | _ => false end = true) as Hsz
        by computed.
      rewrite Hs in Hsz. apply bool_decide_eq_true in Hsz. rewrite Hsz. done.
    - intros sums es _ _. exact I.
    - computed.
    - assert (w_fs demo_world !! durations_path demo_rc = None) as Hold by computed.
      by rewrite Hold. }
  assert (∃ b : bool, read_dir (w_fs demo_world) ["out"] =
          Some (if b then [c1 +:+ ".capnp"; c1] else [c1; c1 +:+ ".capnp"])) as [[] Hb].
  { first [exists true; computed|exists false; computed]. }
  - left. by apply H.
  - right. by apply H.
Qed.
Lemma demo_results :
  results_of "boot.a" (commit_maps demo_rc (w_fs demo_world)
     (commit_dirs (w_fs demo_world) ["out"] [c1 +:+ ".capnp"; c1])) = [mkResult Passed 0 7] ∧
  results_of "boot.a" (commit_maps demo_rc (w_fs demo_world)
     (commit_dirs (w_fs demo_world) ["out"] [c1; c1 +:+ ".capnp"])) = [mkResult Passed 0 7].
Proof. split; computed. Qed.

Lemma gen_avg_test_stats_witness :
  ∃ w', gen_avg_duration demo_rc demo_world = Ok w' ∧
    test_stats (read (w_fs w') (durations_path demo_rc)) "boot.ktest" "a" "" "" =
    Some (Ok (Some (mkStats 1 1 0 7))).
Proof.
  destruct demo_results as [H1 H2]. destruct demo_ready as [Hr|Hr];
    destruct (gen_avg_test_stats _ _ _ "boot.ktest" "a" "" "" Hr) as (w' & Hw & Ht);
    exists w'; (split; [done|]); rewrite Ht;
    change (subtest_result_key "boot.ktest" "a" "" "") with "boot.a";
    change (Config.output_dir demo_rc) with ["out"].
  - rewrite H1. reflexivity.
  - rewrite H2. reflexivity.
Defined.
(** A history with an entry that is not text: found before the search meets it,
    and a panic. *)
Definition demo_durations : durations :=
  [mkDur (Some "boot.a") 7 1 1 0; mkDur (Some "boot.b") 9 2 0 2; mkDur (Some (String "255" "")) 1 1 1 0].
Lemma demo_searches :
  test_stats (Some (serialize demo_durations)) "boot.ktest" "b" "" "" = Some (Ok (Some (mkStats 2 0 2 9))) ∧
  test_stats (Some (serialize demo_durations)) "boot.ktest" "c" "" "" = Some Panic.
Proof. split; computed. Qed.
Lemma test_stats_sound_witness :
  (∃ d e, Some (serialize demo_durations) ≫= deserialize = Some d ∧ e ∈ d ∧ d_test e = Some "boot.b" ∧
    d_duration e = 9%Z) ∧
  (∃ d e t, Some (serialize demo_durations) ≫= deserialize = Some d ∧ e ∈ d ∧ d_test e = Some t ∧
     valid_utf8 t = false).
Proof.
  destruct demo_searches as [Hb Hc]. split.
  - destruct (test_stats_sound (Some (serialize demo_durations)) "boot.ktest" "b" "" "") as (res & Hr & _ & Hs & _).
    rewrite Hb in Hr. apply (inj Some) in Hr. destruct (Hs _ (eq_sym Hr)) as (d & e & Hd & He & Ht & Hst).
    exists d, e. split; [exact Hd|]. split; [exact He|]. split; [exact Ht|].
    by apply (f_equal st_duration) in Hst.
  - destruct (test_stats_sound (Some (serialize demo_durations)) "boot.ktest" "c" "" "") as (res & Hr & Hp & _).
    rewrite Hc in Hr. apply (inj Some) in Hr. exact (Hp (eq_sym Hr)).
Defined.
End witnesses.
End Stats.
