(* ===== verification/Git.v ===== *)
(** * git2, and [git_get_commit] (src/src/lib.rs)

    The git2 crate is a parameter: what the CI asks of it is to open a
    repository, to resolve a name to a commit, to walk from a commit through
    its ancestors, and to read a commit's message. Object ids are their
    hexadecimal text. *)

From S2P Require Import Prelude.
From S2P Require Import Fs.

Module Git.
Import Fs.

Class Git2 : Type := {
  repository : Type;
  object : Type;
  (** [Repository::open] *)
  open_repo : path → option repository;
  revparse_single : repository → string → option object;
  (** [Object::peel_to_commit], then [Commit::id] *)
  peel_to_commit : object → option string;
  (** [Repository::revwalk]; [Revwalk::push] and the items the walk yields *)
  revwalk : repository → bool;
  walk_push : repository → string → option (list (option string));
  (** [Repository::find_commit], then [Commit::message] (absent when not text) *)
  find_commit : repository → string → option (option string)
}.

Section git.
Context {G : Git2}.

Definition git_get_commit (repo : repository) (reference : string) : option string :=
  r ← revparse_single repo reference; peel_to_commit r.

(** The ids a walk yields, errors skipped. *)
Definition walk_ids (repo : repository) (start : string) : option (list string) :=
  match walk_push repo start with Some items => Some (omap id items) | None => None end.
End git.

(** A repository with one branch, [kent/master], for concrete runs. *)
Definition demo_git (history : list string) : Git2 := {|
  repository := unit; object := string;
  open_repo _ := Some tt;
  revparse_single _ s := if decide (s = "kent/master") then head history else None;
  peel_to_commit o := Some o;
  revwalk _ := true;
  walk_push _ _ := Some (Some <$> history);
  find_commit _ _ := Some (Some "msg")
|}.
End Git.
