(* ===== verification/Jobs.v ===== *)
(** * The job matrix (src/src/jobs.rs)

    What the CI wants run: (commits × groups × tests × subtests × kernels) less
    the jobs that have a verdict or are running, lowest weight first. *)

From S2P Require Import Prelude.
From S2P Require Import RustStr.
From S2P Require Import Keys.
From S2P Require Import Status.
From S2P Require Import Fs.
From S2P Require Import Config.
From S2P Require Import Store.
From S2P Require Import Results.
From S2P Require Import Stats.
From S2P Require Import Git.

Module Jobs.
Import Str Keys Status Fs Config Store Results Stats Git.

Record JobKey : Type := mkJobKey {
  k_user : string; k_repo : string; k_commit : string; k_kernel : string;
  k_env : string; k_test : string; k_subtest : string
}.
#[export] Instance JobKey_eq_dec : EqDecision JobKey.
Proof. solve_decision. Defined.
#[export] Instance JobKey_countable : Countable JobKey.
Proof.
  apply (inj_countable'
    (λ k, (k_user k, k_repo k, k_commit k, k_kernel k, k_env k, k_test k, k_subtest k))
    (λ '(u, r, c, k, e, t, s), mkJobKey u r c k e t s)). by intros [].
Defined.
Record Job : Type := mkJob { key : JobKey; age : Z; j_nice : Z; j_duration : Z }.

(** Running [<test> list-tests]: success and output, or a failed spawn. *)
Class ListTests : Type := { list_tests : fs → path → option (bool * string) }.

(** The process-wide listing cache, keyed by path and tagged with the mtime. *)
Abbreviation subtest_cache := (gmap path (Z * list string)).

Definition result_is_done (s : TestStatus) : bool :=
  match s with Passed | Failed | Notrun | FailedToRun => true | _ => false end.
Definition job_wanted (status : option TestStatus) : bool :=
  match status with
  | None => true
  | Some s => negb (result_is_done s) && negb (bool_decide (s = Inprogress))
  end.

Definition job_nice (tg : RcTestGroup) (stats : option TestStats) : Z :=
  let n := as_i64 (nice tg) in
  match stats with
  | None => n
  | Some stats =>
      let n := if negb (test_always_passes_nice tg =? 0)%Z &&
                  negb (st_passed stats =? st_failed stats)%Z &&
                  (test_always_passes_nice tg <? (st_passed stats ⊕ st_failed stats)%rust)%Z
               then addi64 n (as_i64 (test_always_passes_nice tg)) else n in
      if negb (test_duration_nice tg =? 0)%Z
      then addi64 n (as_i64 (st_duration stats / test_duration_nice tg)) else n
  end.
Definition job_weight (j : Job) : Z := addi64 (as_i64 (age j)) (j_nice j).

Record TestSpec : Type := mkSpec {
  s_user : string; s_repo : string; s_test : string; s_env : string; s_tg : RcTestGroup;
  s_subtests : list string; s_kernels : list string; s_commits : list string
}.

(** [Ordering::then] over weight, commit, test, kernel, env, duration. *)
Definition job_cmp : Job → Job → comparison :=
  cmp_lex (cmp_lex (cmp_lex (cmp_lex (cmp_lex
    (cmp_on job_weight Z.compare)
    (cmp_on (λ j, k_commit (key j)) String.compare))
    (cmp_on (λ j, k_test (key j)) String.compare))
    (cmp_on (λ j, k_kernel (key j)) String.compare))
    (cmp_on (λ j, k_env (key j)) String.compare))
    (cmp_on j_duration Z.compare).

Section jobs.
Context {OS : OsEnv} {CD : Codec test_results} {CH : Chrono} {DD : Codec durations}.
Context {G : Git2} {LT : ListTests}.

(** ** Enumerating *)
Definition listing (f : fs) (p : path) : list string :=
  match list_tests f p with
  | Some (true, stdout) => split_whitespace (lossy stdout)
  | Some (false, _) | None => []
  end.
Definition get_subtests (f : fs) (test_path : path) (cache : subtest_cache) :
    list string * subtest_cache :=
  let mtime := modified f test_path in
  let cached :=
    mt ← mtime; e ← cache !! test_path; if (e.1 =? mt)%Z then Some e.2 else None in
  match cached with
  | Some subtests => (subtests, cache)
  | None =>
      let subtests := listing f test_path in
      match subtests, mtime with
      | _ :: _, Some mt => (subtests, <[test_path := (mt, subtests)]> cache)
      | _, _ => (subtests, cache)
      end
  end.

Definition branch_commits (git : repository) (userbranch : string) (max : nat) :
    option (list string) :=
  reference ← git_get_commit git userbranch;
  if revwalk git then list.take max <$> walk_ids git reference else None.

(** The checks of [build_test_specs] for one (branch, group), each [continue]
    being [None]. *)
Definition group_context (rc : CiConfig) (u : Userrc) (user branch : string) (b : RcBranch)
    (tg_name : string) : option (RcTestGroup * string * list string * list string) :=
  tg ← groups u !! tg_name;
  env ← outcome_ok (encode_env (env tg));
  repo_path ← repo_path (ktest rc) (repo b);
  git ← open_repo repo_path;
  commits ← branch_commits git (user +:+ "/" +:+ branch) (Z.to_nat (max_commits tg));
  Some (tg, env, commits, match kernels tg with [] => [""] | ks => ks end).

Definition spec_tests (rc : CiConfig) (f : fs) (user : string) (b : RcBranch)
    (ctx : RcTestGroup * string * list string * list string)
    (acc : list TestSpec * subtest_cache) (test : string) : list TestSpec * subtest_cache :=
  let '(specs, cache) := acc in
  let '(tg, env, commits, kernels) := ctx in
  let test := lossy test in
  let '(subtests, cache) :=
    get_subtests f (path_join (path_join (ktest_dir (ktest rc)) "tests") test) cache in
  match subtests with
  | [] => (specs, cache)
  | _ => (specs ++ [mkSpec user (repo b) test env tg subtests kernels commits], cache)
  end.
Definition spec_group (rc : CiConfig) (f : fs) (u : Userrc) (user branch : string) (b : RcBranch)
    (acc : list TestSpec * subtest_cache) (tg_name : string) : list TestSpec * subtest_cache :=
  match group_context rc u user branch b tg_name with
  | None => acc
  | Some ctx => foldl (spec_tests rc f user b ctx) acc (tests ctx.1.1.1)
  end.
Definition spec_branch (rc : CiConfig) (f : fs) (u : Userrc) (user : string)
    (acc : list TestSpec * subtest_cache) (b : string * RcBranch) : list TestSpec * subtest_cache :=
  foldl (spec_group rc f u user b.1 b.2) acc (test_groups b.2).
Definition spec_user (rc : CiConfig) (f : fs) (acc : list TestSpec * subtest_cache)
    (u : string * outcome config_error Userrc) : list TestSpec * subtest_cache :=
  match u.2 with
  | Ok userconfig => foldl (spec_branch rc f userconfig u.1) acc (bt_iter (branches userconfig))
  | _ => acc
  end.
Definition build_test_specs (rc : CiConfig) (f : fs) (cache : subtest_cache) :
    list TestSpec * subtest_cache :=
  foldl (spec_user rc f) ([], cache) (bt_iter (users rc)).

(** ** Emitting

    The binary search ends ([search_total]), so it gives a result or panics. *)
Definition lookup_stats (dur : option string) (test subtest kernel env : string) :
    outcome Empty_set (option TestStats) :=
  default Panic (test_stats dur test subtest kernel env).

Definition job_for (rc : CiConfig) (dur : option string) (spec : TestSpec) (age : nat)
    (commit subtest : string) (nice : Z) (kernel : string) : outcome Empty_set Job :=
  s ← lookup_stats dur (s_test spec) subtest kernel (s_env spec);
  Ok (mkJob (mkJobKey (s_user spec) (s_repo spec) commit kernel (s_env spec) (s_test spec) subtest)
        (Z.of_nat age) nice
        (default (default 30%Z (subtest_duration_def (ktest rc))) (st_duration <$> s))).
Fixpoint emit_kernels (rc : CiConfig) (dur : option string) (spec : TestSpec) (age : nat)
    (commit : string) (results : TestResultsMap) (subtest : string) (nice : Z)
    (kernels : list string) : outcome Empty_set (list Job) :=
  match kernels with
  | [] => Ok []
  | kernel :: kernels =>
      j ← job_for rc dur spec age commit subtest nice kernel;
      let key := subtest_result_key (s_test spec) subtest kernel (s_env spec) in
      js ← emit_kernels rc dur spec age commit results subtest nice kernels;
      Ok (if job_wanted (status <$> results !! key) then j :: js else js)
  end.
Fixpoint emit_subtests (rc : CiConfig) (dur : option string) (spec : TestSpec) (age : nat)
    (commit : string) (results : TestResultsMap) (subtests : list string) :
    outcome Empty_set (list Job) :=
  match subtests with
  | [] => Ok []
  | subtest :: subtests =>
      stats ← lookup_stats dur (s_test spec) subtest "" "";
      js ← emit_kernels rc dur spec age commit results subtest (job_nice (s_tg spec) stats)
             (s_kernels spec);
      js' ← emit_subtests rc dur spec age commit results subtests;
      Ok (js ++ js')
  end.

(** [results_cache]: a commit's results are taken from the store once. *)
Definition cached_results (store : TestResultsStore) (commit : string)
    (cache : gmap string TestResultsMap) : TestResultsMap * gmap string TestResultsMap :=
  match cache !! commit with
  | Some m => (m, cache)
  | None => let m := default ∅ (commit_results store commit) in (m, <[commit := m]> cache)
  end.
Fixpoint emit_specs (rc : CiConfig) (dur : option string) (store : TestResultsStore) (age : nat)
    (cache : gmap string TestResultsMap) (specs : list TestSpec) :
    outcome Empty_set (list Job * gmap string TestResultsMap) :=
  match specs with
  | [] => Ok ([], cache)
  | spec :: specs =>
      match s_commits spec !! age with
      | None => emit_specs rc dur store age cache specs
      | Some commit =>
          let '(results, cache) := cached_results store commit cache in
          js ← emit_subtests rc dur spec age commit results (s_subtests spec);
          '(js', cache) ← emit_specs rc dur store age cache specs;
          Ok (js ++ js', cache)
      end
  end.
Fixpoint emit_ages (rc : CiConfig) (dur : option string) (store : TestResultsStore)
    (specs : list TestSpec) (cache : gmap string TestResultsMap) (ages : list nat) :
    outcome Empty_set (list Job) :=
  match ages with
  | [] => Ok []
  | age :: ages =>
      '(js, cache) ← emit_specs rc dur store age cache specs;
      js' ← emit_ages rc dur store specs cache ages;
      Ok (js ++ js')
  end.

Definition max_age (specs : list TestSpec) : nat :=
  foldr Nat.max 0 ((λ s, length (s_commits s)) <$> specs).
(** Sort, drop later duplicates of a key, truncate. *)
Definition select (limit : nat) (out : list Job) : list Job :=
  list.take limit (dedup_on key ∅ (sort_by job_cmp out)).

(** [memmap] shows the file's bytes. *)
Definition desired_jobs (rc : CiConfig) (f : fs) (store : TestResultsStore) (limit : nat)
    (cache : subtest_cache) : outcome Empty_set (list Job) * subtest_cache :=
  let dur := read f (path_join (Config.output_dir (ktest rc)) "test_durations.capnp") in
  let '(specs, cache) := build_test_specs rc f cache in
  (out ← emit_ages rc dur store specs ∅ (seq 0 (max_age specs)); Ok (select limit out), cache).

(** ** The listing cache *)
Definition subtests_of (f : fs) (cache : subtest_cache) (p : path) : list string :=
  (get_subtests f p cache).1.
(** Caches that answer alike. *)
Definition same_listings (f : fs) (c c' : subtest_cache) : Prop :=
  ∀ p, subtests_of f c p = subtests_of f c' p.
#[export] Instance same_listings_equiv f : Equivalence (same_listings f).
Proof. unfold same_listings. split; [by intros c p|by intros c c' H p|intros c1 c2 c3 H H' p; by rewrite H]. Qed.

Lemma get_subtests_other f p q c :
  p ≠ q → subtests_of f (get_subtests f q c).2 p = subtests_of f c p.
Proof.
  intros Hne. assert ((get_subtests f q c).2 !! p = c !! p) as Hc.
  { unfold get_subtests. repeat case_match; cbn; try done. by rewrite lookup_insert_ne. }
  unfold subtests_of. generalize dependent (get_subtests f q c).2. intros c' Hc.
  unfold get_subtests. rewrite Hc. by repeat case_match.
Qed.
Lemma get_subtests_again f p c : subtests_of f (get_subtests f p c).2 p = subtests_of f c p.
Proof.
  unfold subtests_of. destruct (get_subtests f p c) as [s c'] eqn:E. cbn. unfold get_subtests in E.
  destruct (modified f p) as [mt|] eqn:Hm; cbn in E.
  2: { unfold get_subtests. rewrite Hm. cbn. by case_match; simplify_eq. }
  destruct (c !! p) as [[mt' l]|] eqn:Hc; cbn in E.
  - destruct (mt' =? mt)%Z eqn:Hmt; simplify_eq.
    + unfold get_subtests. rewrite Hm. cbn. rewrite Hc. cbn. by rewrite Hmt.
    + destruct (listing f p) eqn:Hl; simplify_eq; unfold get_subtests; rewrite Hm; cbn.
      * rewrite Hc. cbn. by rewrite Hmt, Hl.
      * rewrite lookup_insert_eq. cbn. by rewrite Z.eqb_refl.
  - destruct (listing f p) eqn:Hl; simplify_eq; unfold get_subtests; rewrite Hm; cbn.
    + by rewrite Hc, Hl.
    + rewrite lookup_insert_eq. cbn. by rewrite Z.eqb_refl.
Qed.
(** Within one pass over an unchanging tree the cache changes no answer. *)
Lemma get_subtests_same f q c : same_listings f (get_subtests f q c).2 c.
Proof.
  intros p. destruct (decide (p = q)) as [->|]; [apply get_subtests_again|by apply get_subtests_other].
Qed.




(** ** The specs *)
(** A pass that appends specs and threads the cache. *)
Definition adds {X : Type} (f : fs) (c0 : subtest_cache)
    (F : list TestSpec * subtest_cache → X → list TestSpec * subtest_cache)
    (P : X → list TestSpec) : Prop :=
  ∀ acc x, same_listings f acc.2 c0 →
    same_listings f (F acc x).2 c0 ∧ (F acc x).1 = acc.1 ++ P x.
Lemma foldl_adds {X : Type} (f : fs) (c0 : subtest_cache)
    (F : list TestSpec * subtest_cache → X → list TestSpec * subtest_cache) (P : X → list TestSpec)
    (acc : list TestSpec * subtest_cache) (l : list X) :
  adds f c0 F P → same_listings f acc.2 c0 →
  same_listings f (foldl F acc l).2 c0 ∧ (foldl F acc l).1 = acc.1 ++ (l ≫= P).
Proof.
  intros HF. revert acc. induction l as [|x l IH]; intros acc Hacc.
  { split; [done|]. cbn. by rewrite app_nil_r. }
  cbn [foldl]. destruct (HF acc x Hacc) as [H1 H2]. destruct (IH (F acc x) H1) as [H3 H4].
  split; [done|]. by rewrite H4, H2, <-app_assoc.
Qed.

(** The specs of one test of a group, of a group of a branch, of a branch and
    of a user. *)
Definition from_test (rc : CiConfig) (f : fs) (c0 : subtest_cache) (user : string) (b : RcBranch)
    (ctx : RcTestGroup * string * list string * list string) (test : string) : list TestSpec :=
  let p := path_join (path_join (ktest_dir (ktest rc)) "tests") (lossy test) in
  if decide (subtests_of f c0 p = []) then []
  else [mkSpec user (repo b) (lossy test) ctx.1.1.2 ctx.1.1.1 (subtests_of f c0 p) ctx.2 ctx.1.2].
Lemma spec_tests_adds rc f c0 user b ctx :
  adds f c0 (spec_tests rc f user b ctx) (from_test rc f c0 user b ctx).
Proof.
  intros [specs c] test Hc. destruct ctx as [[[tg env] commits] ks]. unfold spec_tests, from_test.
  set (p := path_join _ (lossy test)). cbn [fst snd] in *.
  pose proof (get_subtests_same f p c) as Hsame. rewrite <-(Hc p). unfold subtests_of.
  destruct (get_subtests f p c) as [l c'] eqn:E. cbn in Hsame. cbn [fst].
  assert (same_listings f c' c0) by by etrans.
  destruct l as [|x l]; (split; [done|]); cbn; [by rewrite app_nil_r|done].
Qed.
Definition from_group rc f c0 u user (b : string * RcBranch) (tg_name : string) : list TestSpec :=
  match group_context rc u user b.1 b.2 tg_name with
  | Some ctx => tests ctx.1.1.1 ≫= from_test rc f c0 user b.2 ctx
  | None => []
  end.
Lemma spec_group_adds rc f c0 u user (b : string * RcBranch) :
  adds f c0 (spec_group rc f u user b.1 b.2) (from_group rc f c0 u user b).
Proof.
  intros acc tg_name Hc. unfold spec_group, from_group.
  destruct (group_context rc u user b.1 b.2 tg_name) as [ctx|]; [|by rewrite app_nil_r].
  apply (foldl_adds f c0 _ _ acc (tests ctx.1.1.1) (spec_tests_adds rc f c0 user b.2 ctx) Hc).
Qed.
Definition from_branch rc f c0 u user (b : string * RcBranch) : list TestSpec :=
  test_groups b.2 ≫= from_group rc f c0 u user b.
Lemma spec_branch_adds rc f c0 u user :
  adds f c0 (spec_branch rc f u user) (from_branch rc f c0 u user).
Proof.
  intros acc b Hc. by apply (foldl_adds f c0 _ _ acc (test_groups b.2) (spec_group_adds rc f c0 u user b)).
Qed.
Definition from_user rc f c0 (u : string * outcome config_error Userrc) : list TestSpec :=
  match u.2 with Ok uc => bt_iter (branches uc) ≫= from_branch rc f c0 uc u.1 | _ => [] end.
Lemma spec_user_adds rc f c0 : adds f c0 (spec_user rc f) (from_user rc f c0).
Proof.
  intros acc [user [uc|e|]] Hc; unfold spec_user, from_user; cbn [snd]; [|by rewrite app_nil_r..].
  apply (foldl_adds f c0 _ _ acc (bt_iter (branches uc)) (spec_branch_adds rc f c0 uc user) Hc).
Qed.

(** The configured (user, branch, group, test) tuples, in the order of the
    config: users and branches by name, groups and tests as listed, however
    often they are listed. *)
Definition configured (rc : CiConfig) : list (string * Userrc * (string * RcBranch) * string * RcTestGroup * string) :=
  '(user, uo) ← bt_iter (users rc);
  match uo with
  | Ok uc =>
      b ← bt_iter (branches uc);
      tg_name ← test_groups b.2;
      match groups uc !! tg_name with
      | Some tg => test ← tests tg; [(user, uc, b, tg_name, tg, test)]
      | None => []
      end
  | _ => []
  end.
(** What the CI runs of one of them. *)
Definition spec_of (rc : CiConfig) (subtests : path → list string)
    (x : string * Userrc * (string * RcBranch) * string * RcTestGroup * string) : option TestSpec :=
  let '(user, _, (bname, b), _, tg, test) := x in
  match encode_env (Config.env tg), repo_path (ktest rc) (repo b) ≫= open_repo,
        subtests (path_join (path_join (ktest_dir (ktest rc)) "tests") (lossy test)) with
  | Ok env, Some git, (_ :: _) as subs =>
      commits ← branch_commits git (user +:+ "/" +:+ bname) (Z.to_nat (max_commits tg));
      Some (mkSpec user (repo b) (lossy test) env tg subs
              (match kernels tg with [] => [""] | ks => ks end) commits)
  | _, _, _ => None
  end.
Lemma omap_bind {A B C} (h : B → option C) (g : A → list B) (l : list A) :
  omap h (l ≫= g) = l ≫= λ x, omap h (g x).
Proof. induction l as [|x l IH]; [done|]. cbn. by rewrite omap_app, IH. Qed.
Lemma from_group_spec rc f c0 uc user (b : string * RcBranch) tg_name :
  from_group rc f c0 uc user b tg_name =
  match groups uc !! tg_name with
  | Some tg => omap (spec_of rc (subtests_of f c0))
                 (test ← tests tg; [(user, uc, b, tg_name, tg, test)])
  | None => []
  end.
Proof.
  unfold from_group, group_context. destruct b as [bname b]. cbn [fst snd].
  destruct (groups uc !! tg_name) as [tg|]; [|done]. cbn [mbind option_bind].
  rewrite omap_bind. cbn [omap list_omap]. unfold spec_of.
  destruct (encode_env (Config.env tg)) as [env|e|]; cbn [outcome_ok mbind option_bind];
    [|by induction (tests tg)..].
  destruct (repo_path (ktest rc) (repo b)) as [rp|]; cbn [mbind option_bind]; [|by induction (tests tg)].
  destruct (open_repo rp) as [git|]; cbn [mbind option_bind]; [|by induction (tests tg)].
  destruct (branch_commits git _ _) as [commits|]; cbn [mbind option_bind].
  - cbn [fst snd]. apply list_bind_ext; [|done]. intros test. unfold from_test. cbn [fst snd].
    by destruct (subtests_of f c0 _).
  - induction (tests tg) as [|test l IH]; [done|]. cbn. by destruct (subtests_of f c0 _).
Qed.

(** C37: the specs are the configured ones, each as often and in the order as
    it is configured. There is one for every occurrence of a test, with a
    non-empty listing, in a group that a branch of a readable user config
    names, provided the group's environment encodes, its repository is
    configured and opens, and the branch resolves (a test that a group lists
    twice gives two); it carries the branch's newest [max_commits] commits and
    the group's kernels, or the empty kernel when the group lists none. *)
Theorem build_test_specs_correct rc f c0 :
  (build_test_specs rc f c0).1 = omap (spec_of rc (subtests_of f c0)) (configured rc).
Proof.
  unfold build_test_specs.
  destruct (foldl_adds f c0 _ _ ([], c0) (bt_iter (users rc)) (spec_user_adds rc f c0)) as [_ H]; [done|].
  rewrite H. cbn [fst app]. unfold configured. rewrite omap_bind.
  apply list_bind_ext; [|done]. intros [user [uc|e|]]; [|done..]. unfold from_user. cbn [fst snd].
  rewrite omap_bind. apply list_bind_ext; [|done]. intros b. unfold from_branch.
  rewrite omap_bind. apply list_bind_ext; [|done]. intros tg_name. rewrite from_group_spec.
  by destruct (groups uc !! tg_name).
Qed.

(** ** The candidates and what is emitted *)
(** Durations whose keys are text never make the search panic. *)
Definition text_durations (dur : option string) : Prop :=
  ∀ d e t, dur ≫= deserialize = Some d → e ∈ d → d_test e = Some t → valid_utf8 t = true.
Lemma lookup_stats_ok dur test subtest kernel env :
  text_durations dur → ∃ o, lookup_stats dur test subtest kernel env = Ok o.
Proof.
  intros Ht. unfold lookup_stats, test_stats. destruct (dur ≫= deserialize) as [d|] eqn:E; [|by eexists].
  destruct (search_sound (S (length d)) d (subtest_result_key test subtest kernel env) 0 (length d))
    as (o & -> & _); [|lia..|by eexists].
  intros e t He Het. by eapply Ht.
Qed.

(** A job of the matrix that the CI wants. *)
Definition candidate_at (rc : CiConfig) (dur : option string) (store : TestResultsStore)
    (spec : TestSpec) (age : nat) (commit subtest kernel : string) (j : Job) : Prop :=
  s_commits spec !! age = Some commit ∧ subtest ∈ s_subtests spec ∧ kernel ∈ s_kernels spec ∧
  job_wanted (lookup_status store commit
                (subtest_result_key (s_test spec) subtest kernel (s_env spec))) = true ∧
  ∃ stats, lookup_stats dur (s_test spec) subtest "" "" = Ok stats ∧
    job_for rc dur spec age commit subtest (job_nice (s_tg spec) stats) kernel = Ok j.
Definition candidate rc dur store (specs : list TestSpec) (j : Job) : Prop :=
  ∃ spec age commit subtest kernel, spec ∈ specs ∧
    candidate_at rc dur store spec age commit subtest kernel j.

Section emitting.
Context (rc : CiConfig) (dur : option string) (store : TestResultsStore).
Context (Htext : text_durations dur).

Lemma job_for_ok spec age commit subtest n kernel :
  ∃ j, job_for rc dur spec age commit subtest n kernel = Ok j.
Proof.
  unfold job_for. destruct (lookup_stats_ok dur (s_test spec) subtest kernel (s_env spec) Htext)
    as [o ->]. by eexists.
Qed.
Lemma emit_kernels_spec spec age commit results subtest n kernels :
  ∃ js, emit_kernels rc dur spec age commit results subtest n kernels = Ok js ∧
    ∀ j, j ∈ js ↔ ∃ kernel, kernel ∈ kernels ∧
      job_wanted (status <$> results !! subtest_result_key (s_test spec) subtest kernel (s_env spec))
        = true ∧ job_for rc dur spec age commit subtest n kernel = Ok j.
Proof.
  induction kernels as [|k ks IH].
  { eexists. split; [done|]. intros j. rewrite elem_of_nil.
    split; [done|]. by intros (? & []%elem_of_nil & _). }
  destruct IH as (js & Hjs & IH). cbn [emit_kernels].
  destruct (job_for_ok spec age commit subtest n k) as [j0 Hj0]. rewrite Hj0, Hjs.
  eexists. split; [done|]. intros j. case_match eqn:Hw.
  - rewrite elem_of_cons, IH. split.
    + intros [->|(k' & ? & ? & ?)]; [exists k|exists k']; rewrite elem_of_cons; eauto.
    + intros (k' & [->|?]%elem_of_cons & ? & ?); [left; congruence|right; eauto].
  - rewrite IH. split.
    + intros (k' & ? & ? & ?). exists k'. rewrite elem_of_cons. auto.
    + intros (k' & [->|?]%elem_of_cons & ? & ?); [congruence|eauto].
Qed.
Lemma emit_subtests_spec spec age commit results subtests :
  ∃ js, emit_subtests rc dur spec age commit results subtests = Ok js ∧
    ∀ j, j ∈ js ↔ ∃ subtest kernel, subtest ∈ subtests ∧ kernel ∈ s_kernels spec ∧
      job_wanted (status <$> results !! subtest_result_key (s_test spec) subtest kernel (s_env spec))
        = true ∧
      ∃ stats, lookup_stats dur (s_test spec) subtest "" "" = Ok stats ∧
        job_for rc dur spec age commit subtest (job_nice (s_tg spec) stats) kernel = Ok j.
Proof.
  induction subtests as [|st sts IH].
  { eexists. split; [done|]. intros j. rewrite elem_of_nil.
    split; [done|]. by intros (? & ? & []%elem_of_nil & _). }
  destruct IH as (js' & Hjs' & IH). cbn [emit_subtests].
  destruct (lookup_stats_ok dur (s_test spec) st "" "" Htext) as [o Ho]. rewrite Ho.
  cbn [mbind outcome_bind].
  destruct (emit_kernels_spec spec age commit results st (job_nice (s_tg spec) o) (s_kernels spec))
    as (js & -> & Hjs). rewrite Hjs'. eexists. split; [done|]. intros j.
  rewrite elem_of_app, Hjs, IH. split.
  - intros [(k & ? & ? & ?)|(st' & k & ? & ? & ? & ?)].
    + exists st, k. split; [constructor|]. eauto.
    + exists st', k. split; [by constructor|]. eauto.
  - intros (st' & k & [->|?]%elem_of_cons & ? & ? & o' & Ho' & ?).
    + left. exists k. rewrite Ho in Ho'. simplify_eq. eauto.
    + right. exists st', k. eauto 10.
Qed.

Definition cache_fresh (cache : gmap string TestResultsMap) : Prop :=
  ∀ c m, cache !! c = Some m → m = default ∅ (commit_results store c).
Lemma cached_results_spec commit cache :
  cache_fresh cache →
  (cached_results store commit cache).1 = default ∅ (commit_results store commit) ∧
  cache_fresh (cached_results store commit cache).2.
Proof.
  intros Hc. unfold cached_results. destruct (cache !! commit) as [m|] eqn:E; cbn; [eauto|].
  split; [done|]. intros c m [[<- <-]|[_ ?]]%lookup_insert_Some; eauto.
Qed.
Lemma wanted_results commit key :
  status <$> default ∅ (commit_results store commit) !! key = lookup_status store commit key.
Proof.
  unfold lookup_status, commit_results. by destruct (by_commit store !! commit); cbn; rewrite ?lookup_empty.
Qed.

Lemma emit_specs_spec age specs cache :
  cache_fresh cache →
  ∃ js cache', emit_specs rc dur store age cache specs = Ok (js, cache') ∧ cache_fresh cache' ∧
    ∀ j, j ∈ js ↔ ∃ spec commit subtest kernel, spec ∈ specs ∧
      candidate_at rc dur store spec age commit subtest kernel j.
Proof.
  revert cache. induction specs as [|spec specs IH]; intros cache Hc.
  { eexists _, _. split; [done|]. split; [done|]. intros j. rewrite elem_of_nil.
    split; [done|]. by intros (? & ? & ? & ? & []%elem_of_nil & _). }
  cbn [emit_specs]. destruct (s_commits spec !! age) as [commit|] eqn:Hcommit.
  2: { destruct (IH cache Hc) as (js & cache' & -> & Hc' & Hjs). eexists _, _.
       split; [done|]. split; [done|]. intros j. rewrite Hjs. split.
       - intros (s & c & st & k & ? & ?). exists s, c, st, k. split; [by constructor|done].
       - intros (s & c & st & k & [->|?]%elem_of_cons & Hcand); [|eauto 10].
         destruct Hcand as [? _]. congruence. }
  destruct (cached_results_spec commit cache Hc) as [Hres Hc1].
  destruct (cached_results store commit cache) as [results cache1]. cbn in Hres, Hc1. subst results.
  destruct (emit_subtests_spec spec age commit (default ∅ (commit_results store commit)) (s_subtests spec))
    as (js & -> & Hjs). cbn [mbind outcome_bind].
  destruct (IH cache1 Hc1) as (js' & cache' & -> & Hc' & Hjs'). cbn [mbind outcome_bind].
  eexists _, _. split; [done|]. split; [done|]. intros j. rewrite elem_of_app, Hjs, Hjs'. split.
  - intros [(st & k & ? & ? & Hw & ?)|(s & c & st & k & ? & ?)].
    + rewrite wanted_results in Hw. exists spec, commit, st, k. split; [constructor|]. by split_and!.
    + exists s, c, st, k. split; [by constructor|done].
  - intros (s & c & st & k & [->|?]%elem_of_cons & Hcand); [left|right; eauto 10].
    destruct Hcand as (? & ? & ? & Hw & ?). simplify_eq. exists st, k. by rewrite wanted_results.
Qed.
Lemma emit_ages_spec specs ages cache :
  cache_fresh cache →
  ∃ js, emit_ages rc dur store specs cache ages = Ok js ∧
    ∀ j, j ∈ js ↔ ∃ age, age ∈ ages ∧ ∃ spec commit subtest kernel, spec ∈ specs ∧
      candidate_at rc dur store spec age commit subtest kernel j.
Proof.
  revert cache. induction ages as [|a ages IH]; intros cache Hc.
  { eexists. split; [done|]. intros j. rewrite elem_of_nil.
    split; [done|]. by intros (? & []%elem_of_nil & _). }
  cbn [emit_ages]. destruct (emit_specs_spec a specs cache Hc) as (js & cache' & -> & Hc' & Hjs).
  cbn [mbind outcome_bind]. destruct (IH cache' Hc') as (js' & -> & Hjs'). cbn [mbind outcome_bind].
  eexists. split; [done|]. intros j. rewrite elem_of_app, Hjs, Hjs'. split.
  - intros [Hx|(a' & ? & Hx)]; [exists a|exists a']; (split; [|done]); [constructor|by constructor].
  - intros (a' & [->|?]%elem_of_cons & Hx); [by left|right; eauto].
Qed.
Lemma max_age_bound specs spec age commit :
  spec ∈ specs → s_commits spec !! age = Some commit → age < max_age specs.
Proof.
  intros Hin Ha%lookup_lt_Some. unfold max_age.
  induction specs as [|s specs IH]; [by apply elem_of_nil in Hin|].
  cbn. apply elem_of_cons in Hin as [->|Hin]; [lia|]. specialize (IH Hin). lia.
Qed.
Lemma emit_all specs :
  ∃ js, emit_ages rc dur store specs ∅ (seq 0 (max_age specs)) = Ok js ∧
    ∀ j, j ∈ js ↔ candidate rc dur store specs j.
Proof.
  destruct (emit_ages_spec specs (seq 0 (max_age specs)) ∅) as (js & Hjs & Hel).
  { intros ? ?. by rewrite lookup_empty. }
  exists js. split; [done|]. intros j. rewrite Hel. unfold candidate. split.
  - intros (a & _ & s & c & st & k & ? & ?). eauto 10.
  - intros (s & a & c & st & k & Hs & Hc). exists a. split; [|eauto 10].
    apply elem_of_seq. destruct Hc as [Ha _]. pose proof (max_age_bound _ _ _ _ Hs Ha). lia.
Qed.
End emitting.

#[export] Instance job_cmp_refl : Reflexive (cmp_le job_cmp).
Proof. intros j. unfold cmp_le. by rewrite (cmp_refl job_cmp). Qed.
Lemma sorted_take_drop {A} (R : relation A) n (l : list A) x y :
  StronglySorted R l → x ∈ list.take n l → y ∈ drop n l → R x y.
Proof.
  intros Hs. revert n. induction Hs as [|z l Hs IH Hz]; intros [|n]; cbn;
    rewrite ?elem_of_nil; try done.
  rewrite elem_of_cons. intros [->|Hx] Hy; [|by eapply IH].
  rewrite Forall_forall in Hz. apply Hz. eapply elem_of_sublist; [exact Hy|apply sublist_drop].
Qed.



(** C9: nothing wanted is dropped but by the limit. Every wanted job of the
    matrix is in the list, by an entry with the same identity that comes no
    later in the scheduling order (the best of its duplicates), unless the list
    is full with jobs that all come no later than it. *)
Theorem desired_jobs_complete rc f store limit cache jobs cache' c :
  text_durations (read f (path_join (Config.output_dir (ktest rc)) "test_durations.capnp")) →
  desired_jobs rc f store limit cache = (Ok jobs, cache') →
  candidate rc (read f (path_join (Config.output_dir (ktest rc)) "test_durations.capnp")) store
    (build_test_specs rc f cache).1 c →
  (∃ j, j ∈ jobs ∧ key j = key c ∧ cmp_le job_cmp j c) ∨
  (length jobs = limit ∧ ∀ j, j ∈ jobs → cmp_le job_cmp j c).
Proof.
  intros Ht Hd Hc. unfold desired_jobs in Hd. destruct (build_test_specs rc f cache) as [specs cache1].
  destruct (emit_all rc _ store Ht specs) as (out & Hem & Hout). rewrite Hem in Hd.
  cbn [mbind outcome_bind] in Hd. injection Hd as <- _. apply Hout in Hc.
  pose proof (sort_by_sorted job_cmp out) as Hs.
  destruct (dedup_on_least key (cmp_le job_cmp) ∅ (sort_by job_cmp out) c Hs)
    as (j & Hj & Hk & Hle); [by apply elem_of_sort_by|set_solver|].
  unfold select. set (d := dedup_on key ∅ (sort_by job_cmp out)) in *.
  rewrite <-(take_drop limit d), elem_of_app in Hj. destruct Hj as [Hj|Hj]; [left; eauto|right].
  assert (limit < length d) as Hlen.
  { destruct (decide (length d ≤ limit)) as [Hge|]; [|lia]. rewrite drop_ge in Hj by done.
    by apply elem_of_nil in Hj. }
  split; [rewrite length_take; lia|]. intros j' Hj'.
  eapply (cmp_le_trans job_cmp); [|exact Hle]. apply (sorted_take_drop (cmp_le job_cmp) limit d); [|done..].
  eapply sublist_StronglySorted; [apply dedup_on_sublist|exact Hs].
Qed.

End jobs.

(** ** A concrete matrix: one test with two subtests, two commits *)
Definition c2 : string := "bbbbbbbbbbccccccccccddddddddddeeeeeeeeee".
Definition demo_list : ListTests := {| list_tests _ _ := Some (true, "a b") |}.
Definition demo_group : RcTestGroup := mkGroup 50 0 180 10 ["boot.ktest"] [] ∅.
Definition demo_ci : CiConfig :=
  mkCiConfig demo_rc {[ "kent" := Ok (mkUserrc {[ "g" := demo_group ]}
                                        {[ "master" := mkBranch "x" "linux" ["g"] ]}) ]}.
Section witnesses.
#[local] Existing Instance plain_os.
#[local] Existing Instance demo_codec.
#[local] Existing Instance demo_chrono.
#[local] Existing Instance demo_durations_codec.
#[local] Instance demo_repo : Git2 := demo_git [c1; c2].
#[local] Existing Instance demo_list.

Definition demo_job (subtest : string) : Job :=
  mkJob (mkJobKey "kent" "linux" c2 "" "" "boot.ktest" subtest) 1 0 30.


Lemma demo_text : text_durations
  (read (w_fs demo_world) (path_join (Config.output_dir (ktest demo_ci)) "test_durations.capnp")).
Proof.
  assert (read (w_fs demo_world) (path_join (Config.output_dir (ktest demo_ci)) "test_durations.capnp")
          = None) as H by computed.
  rewrite H. by intros d e t.
Qed.
Lemma demo_desired :
  (desired_jobs demo_ci (w_fs demo_world) demo_store 1 ∅).1 = Ok [demo_job "a"].
Proof. computed. Qed.
Lemma demo_candidate_b :
  candidate demo_ci
    (read (w_fs demo_world) (path_join (Config.output_dir (ktest demo_ci)) "test_durations.capnp"))
    demo_store (build_test_specs demo_ci (w_fs demo_world) ∅).1 (demo_job "b").
Proof.
  assert ((build_test_specs demo_ci (w_fs demo_world) ∅).1 =
    [mkSpec "kent" "linux" "boot.ktest" "" demo_group ["a"; "b"] [""] [c1; c2]]) as Hs
    by computed.
  rewrite Hs. assert (read (w_fs demo_world)
    (path_join (Config.output_dir (ktest demo_ci)) "test_durations.capnp") = None) as Hr
    by computed.
  rewrite Hr. eexists _, 1, c2, "b", "". split; [constructor|]. split_and!.
  - reflexivity.
  - by do 2 constructor.
  - constructor.
  - computed.
  - exists None. by split.
Qed.
Lemma desired_jobs_complete_witness :
  ∃ jobs cache', desired_jobs demo_ci (w_fs demo_world) demo_store 1 ∅ = (Ok jobs, cache') ∧
    ((∃ j, j ∈ jobs ∧ key j = key (demo_job "b") ∧ cmp_le job_cmp j (demo_job "b")) ∨
     (length jobs = 1 ∧ ∀ j, j ∈ jobs → cmp_le job_cmp j (demo_job "b"))).
Proof.
  pose proof demo_desired as H.
  destruct (desired_jobs demo_ci (w_fs demo_world) demo_store 1 ∅) as [[jobs| |] cache'] eqn:E;
    [|discriminate H..].
  exists jobs, cache'. split; [done|].
  exact (desired_jobs_complete _ _ _ _ _ _ _ _ demo_text E demo_candidate_b).
Defined.

End witnesses.
End Jobs.
