(* ===== verification/Branch.v ===== *)
(** * Branch views (src/src/lib.rs)

    The results along a branch's history, the "last good" column, the
    per-commit roll-ups and the branch log file. *)

From S2P Require Import Prelude.
From S2P Require Import RustStr.
From S2P Require Import F64.
From S2P Require Import Keys.
From S2P Require Import Status.
From S2P Require Import Fs.
From S2P Require Import Config.
From S2P Require Import Store.
From S2P Require Import Results.
From S2P Require Import Git.
From S2P Require Import Stats.
From S2P Require Import Jobs.

Module Branch.
Import Str F64 Keys Status Fs Config Store Results Git.

Record CommitResults : Type := mkCR { c_id : string; c_message : string; c_tests : TestResultsMap }.

(** [Regex::is_match] of the pattern at hand. *)
Abbreviation matcher := (string → bool).
Definition filter_results (r : TestResultsMap) (tests_matching : matcher) : TestResultsMap :=
  bt_collect (filter (λ kv, tests_matching kv.1 = true) (bt_iter r)).

Inductive branch_error : Type :=
  | CommitNotFound
  | ErrorWalking (name : string).

(** [ret.pop()] while the last commit has no results. *)
Fixpoint pop_empty (l : list CommitResults) : list CommitResults :=
  match l with
  | [] => []
  | r :: l => match pop_empty l with
              | [] => if decide (c_tests r = ∅) then [] else [r]
              | l' => r :: l'
              end
  end.

Section branch.
Context {OS : OsEnv} {CD : Codec test_results} {CH : Chrono} {HT : Http} {TH : Threads} {G : Git2}.

(** Phase 3: [nr_empty] counts the empty commits in a row; the loop breaks at
    the 101st. *)
Fixpoint collect_results (ktest : Ktestrc) (f : fs) (tests_matching : matcher) (depth : nat)
    (nr_empty nr_commits : nat) (commits : list (string * string)) :
    outcome branch_error (list CommitResults) :=
  match commits with
  | [] => Ok []
  | (id, message) :: commits =>
      match commitdir_get_results ktest f id with
      | Panic => Panic
      | res =>
          let tests := filter_results (default ∅ (outcome_ok res)) tests_matching in
          let nr_empty := if decide (tests = ∅) then S nr_empty else 0 in
          if 100 <? nr_empty then Ok []
          else
            let nr_commits := S nr_commits in
            if depth <? nr_commits then Ok [mkCR id message tests]
            else rest ← collect_results ktest f tests_matching depth nr_empty nr_commits commits;
                 Ok (mkCR id message tests :: rest)
      end
  end.

(** Phase 1: the commits the walk reaches, with their messages. *)
Definition walk_commits (repo : repository) (depth : nat) (ids : list string) :
    list (string * string) :=
  list.take depth (omap (λ i, m ← find_commit repo i; Some (i, default "" m)) ids).

Definition depth_of (ktest : Ktestrc) : nat := Z.to_nat (default 500%Z (keep_results_commits ktest)).
Definition branch_get_results (repo : repository) (ktest : Ktestrc) (user branch commit : option string)
    (tests_matching : matcher) (now : Z) (f : fs) :
    outcome branch_error (list CommitResults) * fs :=
  match match commit with
        | Some commit => Some commit
        | None => u ← user; b ← branch; Some (u +:+ "/" +:+ b)
        end with
  | None => (Panic, f)
  | Some branch_or_commit =>
      if negb (revwalk repo) then (Panic, f)
      else
        match git_get_commit repo branch_or_commit with
        | None => (Err CommitNotFound, f)
        | Some reference =>
            match walk_ids repo reference with
            | None => (Err (ErrorWalking branch_or_commit), f)
            | Some ids =>
                let commits := walk_commits repo (depth_of ktest) ids in
                match (match ci_url ktest with
                       | Some base_url => prefetch_capnp base_url (Config.output_dir ktest) commits.*1 now f
                       | None => Ok f
                       end) with
                | Ok f => (ret ← collect_results ktest f tests_matching (depth_of ktest) 0 0 commits;
                           Ok (pop_empty ret), f)
                | Err e => match e : Empty_set with end
                | Panic => (Panic, f)
                end
            end
        end
  end.

(** ** Roll-ups *)
Record BranchEntry : Type := mkBE {
  commit_id : string; message : string; passed : Z; failed : Z; notrun : Z;
  failed_to_run : Z; inprogress : Z; unknown : Z; be_duration : Z
}.
(** The count is cast to u32. *)
Definition count_status (tests : TestResultsMap) (s : TestStatus) : Z :=
  wrap32 (Z.of_nat (length (filter (λ kv, status kv.2 = s) (bt_iter tests)))).
Definition branch_entry (r : CommitResults) : BranchEntry :=
  mkBE (c_id r) (c_message r) (count_status (c_tests r) Passed) (count_status (c_tests r) Failed)
    (count_status (c_tests r) Notrun) (count_status (c_tests r) FailedToRun)
    (count_status (c_tests r) Inprogress) (count_status (c_tests r) Unknown)
    (sum64 (duration <$> bt_values (c_tests r))).
Definition branch_entries (results : list CommitResults) : list BranchEntry :=
  branch_entry <$> filter (λ r, c_tests r ≠ ∅) results.

Definition log_branch_entry (r : CommitResults) : BranchEntry :=
  let duration := sum64 (map (λ x : string * TestResult, duration x.2) (bt_iter (c_tests r))) in
  mkBE (c_id r) (c_message r) (count_status (c_tests r) Passed)
    (count_status (c_tests r) Failed) (count_status (c_tests r) Notrun)
    (count_status (c_tests r) FailedToRun) (count_status (c_tests r) Inprogress)
    (count_status (c_tests r) Unknown) duration.
Definition log_branch_entries (results : list CommitResults) : list BranchEntry :=
  log_branch_entry <$> filter (λ r, c_tests r ≠ ∅) results.
(** The empty pattern matches everything. *)
Definition generate_branch_log (repo : repository) (ktest : Ktestrc) (user branch : string)
    (now : Z) (f : fs) : outcome branch_error (list BranchEntry) * fs :=
  let '(results, f) := branch_get_results repo ktest (Some user) (Some branch) None (λ _, true) now f in
  (results ← results; Ok (log_branch_entries results), f).

(** ** The last good commit *)
Fixpoint last_good_from (idx : nat) (results : list CommitResults) (test : string) : string :=
  match results with
  | [] => ">= " +:+ of_u64 (Z.of_nat idx)
  | r :: results =>
      match c_tests r !! test with
      | Some res =>
          if decide (status res = Passed) then of_u64 (Z.of_nat idx)
          else if decide (status res = Failed) then last_good_from (S idx) results test
          else ">= " +:+ of_u64 (Z.of_nat idx)
      | None => ">= " +:+ of_u64 (Z.of_nat idx)
      end
  end.
Definition last_good_line (results : list CommitResults) (test : string) : string :=
  last_good_from 0 results test.

(** ** Durations *)
Definition format_duration (secs : Z) : string :=
  if (secs <? 60)%Z then of_u64 secs +:+ "s"
  else if (secs <? 3600)%Z then of_u64 (secs / 60) +:+ "m"
  else if (secs <? 86400)%Z then one_decimal (f64_div secs 3600) +:+ "h"
  else one_decimal (f64_div secs 86400) +:+ "d".

(** ** The branch log file (src/src/branchlog.capnp)

    A reader may find the text of an entry broken ([None]). *)
Record log_entry : Type := mkLog {
  l_commit_id : option string; l_message : option string; l_passed : Z; l_failed : Z;
  l_notrun : Z; l_failed_to_run : Z; l_inprogress : Z; l_unknown : Z; l_duration : Z
}.
Context {LC : Codec (list log_entry)}.

Definition build_log_entry (e : BranchEntry) : log_entry :=
  mkLog (Some (commit_id e)) (Some (message e))
    (passed e) (failed e) (notrun e) (failed_to_run e) (inprogress e) (unknown e) (be_duration e).
Inductive log_error : Type := LogIo (p : path) | LogMalformed.

Definition log_path (out : path) (user branch : string) : path :=
  path_join out ("branch." +:+ user +:+ "." +:+ branch +:+ ".capnp").
Definition write_branch_log (out : path) (user branch : string) (entries : list BranchEntry) (w : world) :
    outcome log_error unit * world :=
  if (2 ^ 32 <=? Z.of_nat (length entries))%Z then (Panic, w)
  else
    let fname := log_path out user branch in
    let fname_new := path_join out ("branch." +:+ user +:+ "." +:+ branch +:+ ".capnp.new") in
    match write (w_fs w) (w_now w) fname_new (serialize (build_log_entry <$> entries)) with
    | (f, true) => match rename f fname_new fname with
                   | (f, true) => (Ok tt, set_fs w f)
                   | (f, false) => (Err (LogIo fname), set_fs w f)
                   end
    | (f, false) => (Err (LogIo fname_new), set_fs w f)
    end.

(** The fields are read with [unwrap]. *)
Definition parse_log_entry (e : log_entry) : outcome log_error BranchEntry :=
  match l_commit_id e ≫= to_text, l_message e ≫= to_text with
  | Some id, Some msg =>
      Ok (mkBE id msg (l_passed e) (l_failed e) (l_notrun e) (l_failed_to_run e)
            (l_inprogress e) (l_unknown e) (l_duration e))
  | _, _ => Panic
  end.
Fixpoint parse_log_entries (es : list log_entry) : outcome log_error (list BranchEntry) :=
  match es with
  | [] => Ok []
  | e :: es => b ← parse_log_entry e; bs ← parse_log_entries es; Ok (b :: bs)
  end.
Definition branchlog_parse (buf : string) : outcome log_error (list BranchEntry) :=
  match deserialize buf with
  | None => Err LogMalformed
  | Some es => parse_log_entries es
  end.
Definition branchlog_get (ktest : Ktestrc) (user branch : string) (f : fs) :
    outcome log_error (list BranchEntry) :=
  match read f (log_path (Config.output_dir ktest) user branch) with
  | None => Err (LogIo (log_path (Config.output_dir ktest) user branch))
  | Some buf => branchlog_parse buf
  end.
End branch.

Example duration_seconds : format_duration 59 = "59s".
Proof. computed. Qed.
Example duration_minutes : format_duration 3599 = "59m".
Proof. computed. Qed.
Example duration_hours : format_duration 5400 = "1.5h".
Proof. computed. Qed.
Example duration_tie : format_duration 4500 = "1.2h".
Proof. computed. Qed.
Example duration_days : format_duration 259200 = "3.0d".
Proof. computed. Qed.

(** ** The view of a history *)
Definition is_empty_result (r : CommitResults) : Prop := c_tests r = ∅.
Lemma pop_empty_spec l :
  pop_empty l `prefix_of` l ∧
  (∀ r, last (pop_empty l) = Some r → c_tests r ≠ ∅) ∧
  (∀ i r, l !! i = Some r → c_tests r ≠ ∅ → i < length (pop_empty l)).
Proof.
  induction l as [|r l (IH1 & IH2 & IH3)]; [split_and!; [done..|]; intros i r; by rewrite lookup_nil|].
  cbn [pop_empty]. destruct (pop_empty l) as [|r' l'] eqn:E.
  - destruct (decide (c_tests r = ∅)) as [He|He].
    + split_and!; [apply prefix_nil|done|]. intros [|i] r0 Hi Hr; cbn in Hi; [by simplify_eq|].
      specialize (IH3 i r0 Hi Hr). cbn in IH3. lia.
    + split_and!; [apply prefix_cons, prefix_nil|by intros r0 [= <-]|].
      intros [|i] r0 Hi Hr; cbn; [lia|]. specialize (IH3 i r0 Hi Hr). cbn in IH3. lia.
  - split_and!; [by apply prefix_cons|done|].
    intros [|i] r0 Hi Hr; [cbn; lia|]. specialize (IH3 i r0 Hi Hr). cbn in *. lia.
Qed.

Section view.
Context {OS : OsEnv} {CD : Codec test_results} {CH : Chrono} {HT : Http} {TH : Threads} {G : Git2}.

(** One commit as the view shows it. *)
Definition view (ktest : Ktestrc) (f : fs) (tests_matching : matcher) (c : string * string) :
    CommitResults :=
  mkCR c.1 c.2 (filter_results (default ∅ (outcome_ok (commitdir_get_results ktest f c.1)))
                  tests_matching).
(** From [j] on, 101 commits in a row have no results. *)
Definition gap_at (all : list CommitResults) (j : nat) : Prop :=
  ∀ k, j ≤ k < j + 101 → ∃ r, all !! k = Some r ∧ c_tests r = ∅.

Lemma collect_results_spec ktest f matching depth ne nc commits :
  (∀ c, commitdir_get_results ktest f c ≠ Panic) → nc + length commits ≤ depth → ne ≤ 100 →
  ∃ l, collect_results ktest f matching depth ne nc commits = Ok l ∧
    let all := view ktest f matching <$> commits in
    l = all ∨
    ∃ p start, l = list.take p all ∧ start ≤ p ∧ (p = start + 100 ∨ start = 0 ∧ ne + p = 100) ∧
      ∀ k, start ≤ k ≤ p → ∃ r, all !! k = Some r ∧ c_tests r = ∅.
Proof.
  intros Hp. revert ne nc. induction commits as [|[id msg] commits IH]; intros ne nc Hd Hne.
  { exists []. split; [done|by left]. }
  cbn [collect_results]. pose proof (Hp id) as Hpid.
  set (v := view ktest f matching (id, msg)).
  assert (c_tests v = filter_results (default ∅ (outcome_ok (commitdir_get_results ktest f id))) matching)
    as Hv by done.
  assert (mkCR id msg (c_tests v) = v) as Hmk by done.
  destruct (commitdir_get_results ktest f id) as [m|e|] eqn:Em; [| |done]; clear Hpid.
  all: rewrite <-Hv, Hmk; cbn [length] in Hd.
  all: set (ne' := if decide (c_tests v = ∅) then S ne else 0).
  all: destruct (100 <? ne') eqn:Hbrk.
  1,3: exists []; split; [done|]; right; exists 0, 0; apply Nat.ltb_lt in Hbrk; unfold ne' in Hbrk;
    case_decide; [|lia]; (split_and!; [done|lia|right; lia|]); intros k Hk;
    exists v; split; [by assert (k = 0) as -> by lia|done].
  all: rewrite (proj2 (Nat.ltb_ge depth (S nc))) by lia; apply Nat.ltb_ge in Hbrk.
  all: destruct (IH ne' (S nc)) as (l & -> & Hl); [lia|lia|]; exists (v :: l); (split; [done|]);
    cbn in Hl |- *; fold v; destruct Hl as [->|(p & start & -> & Hsp & Hcase & Hk)]; [by left|right].
  all: unfold ne' in Hcase; destruct (decide (c_tests v = ∅)) as [He|He].
  1,3: destruct Hcase as [Hcase|[-> Hcase]];
    [exists (S p), (S start)|exists (S p), 0]; (split_and!; [done|lia|lia|]);
    intros [|k] Hk'; [lia| |by exists v|]; apply (Hk k); lia.
  all: exists (S p), (S start); (split_and!; [done|lia|lia|]); intros [|k] Hk'; [lia|]; apply (Hk k); lia.
Qed.

(** C26: the view of a branch is the newest part of its history, up to the
    configured depth and never ending in a commit without results. A commit
    within the depth that has results is missing only if more than a hundred
    commits in a row before it have none. *)
Theorem branch_get_results_correct repo ktest user branch commit name matching now f reference ids f' :
  match commit with
  | Some c => name = c
  | None => ∃ u b, user = Some u ∧ branch = Some b ∧ name = u +:+ "/" +:+ b
  end →
  revwalk repo = true → git_get_commit repo name = Some reference → walk_ids repo reference = Some ids →
  let commits := walk_commits repo (depth_of ktest) ids in
  match ci_url ktest with
  | Some url => prefetch_capnp url (Config.output_dir ktest) commits.*1 now f = Ok f'
  | None => f' = f
  end →
  (∀ c, commitdir_get_results ktest f' c ≠ Panic) →
  ∃ ret, branch_get_results repo ktest user branch commit matching now f = (Ok ret, f') ∧
    let all := view ktest f' matching <$> commits in
    ret `prefix_of` all ∧ (∀ r, last ret = Some r → c_tests r ≠ ∅) ∧
    ∀ i r, all !! i = Some r → c_tests r ≠ ∅ → i < length ret ∨ ∃ j, j + 101 ≤ i ∧ gap_at all j.
Proof.
  intros Hname Hrw Hgit Hwalk commits Hfetch Hp. unfold branch_get_results.
  assert (match commit with
          | Some commit => Some commit
          | None => u ← user; b ← branch; Some (u +:+ "/" +:+ b)
          end = Some name) as ->.
  { destruct commit as [c|]; [by subst|]. by destruct Hname as (u & b & -> & -> & ->). }
  rewrite Hrw. cbn [negb]. rewrite Hgit, Hwalk. fold commits.
  assert (match ci_url ktest with
          | Some base_url => prefetch_capnp base_url (Config.output_dir ktest) commits.*1 now f
          | None => Ok f
          end = Ok f') as -> by (destruct (ci_url ktest); [done|by subst]).
  destruct (collect_results_spec ktest f' matching (depth_of ktest) 0 0 commits Hp)
    as (l & -> & Hl); [unfold commits, walk_commits; rewrite length_take; lia|lia|].
  cbn [mbind outcome_bind]. exists (pop_empty l). split; [done|].
  destruct (pop_empty_spec l) as (Hpre & Hlast & Hkeep).
  assert (l `prefix_of` view ktest f' matching <$> commits) as Hlp.
  { destruct Hl as [->|(p & start & -> & _)]; [done|apply prefix_take]. }
  split_and!; [by etrans|done|]. intros i r Hi Hr.
  destruct (decide (i < length l)) as [Hlt|Hge].
  { left. apply (Hkeep i r); [|done]. destruct Hlp as [k Hk]. rewrite Hk, lookup_app_l in Hi by done.
    done. }
  right. destruct Hl as [->|(p & start & -> & Hsp & Hcase & Hk)].
  { apply lookup_lt_Some in Hi. lia. }
  exists start. assert (p = start + 100) as -> by lia.
  rewrite length_take in Hge. apply lookup_lt_Some in Hi as Hi'. split.
  - destruct (decide (i = start + 100)) as [->|]; [|lia].
    destruct (Hk (start + 100)) as (r' & Hr' & He); [lia|]. by simplify_eq.
  - intros k Hkk. apply Hk. lia.
Qed.
End view.

(** ** Last good commit *)
(** How many of the newest commits fail the test, in a row. *)
Fixpoint failing_run (results : list CommitResults) (test : string) : nat :=
  match results with
  | [] => 0
  | r :: results =>
      match c_tests r !! test with
      | Some res => if decide (status res = Failed) then S (failing_run results test) else 0
      | None => 0
      end
  end.
Lemma last_good_from_spec idx results test :
  last_good_from idx results test =
  let n := failing_run results test in
  match results !! n ≫= λ r, c_tests r !! test with
  | Some (mkResult Passed _ _) => of_u64 (Z.of_nat (idx + n))
  | _ => ">= " +:+ of_u64 (Z.of_nat (idx + n))
  end.
Proof.
  revert idx. induction results as [|r results IH]; intros idx; cbn -[of_u64].
  { by rewrite Nat.add_0_r. }
  destruct (c_tests r !! test) as [[s t d]|] eqn:E; cbn -[of_u64].
  2: { rewrite E. cbn -[of_u64]. by rewrite Nat.add_0_r. }
  destruct (decide (s = Passed)) as [->|Hp].
  { rewrite decide_False by done. cbn -[of_u64]. rewrite E. cbn -[of_u64]. by rewrite Nat.add_0_r. }
  destruct (decide (s = Failed)) as [->|Hf].
  - rewrite IH. cbn -[of_u64]. by rewrite Nat.add_succ_r.
  - cbn -[of_u64]. rewrite E. cbn -[of_u64]. rewrite Nat.add_0_r. by destruct s.
Qed.
(** C34: the "last good" column. With [n] the number of newest commits that fail
    the test in a row, it is [n] when the next commit passes it, and [>= n]
    when that commit has another verdict, no verdict, or does not exist. *)
Theorem last_good_line_correct results test :
  last_good_line results test =
  let n := failing_run results test in
  match results !! n ≫= λ r, c_tests r !! test with
  | Some (mkResult Passed _ _) => of_u64 (Z.of_nat n)
  | _ => ">= " +:+ of_u64 (Z.of_nat n)
  end.
Proof. apply last_good_from_spec. Qed.

(** ** Roll-ups *)
Definition status_length (l : list (string * TestResult)) (s : TestStatus) : nat :=
  length (filter (λ kv : string * TestResult, status kv.2 = s) l).
Definition status_count (m : TestResultsMap) (s : TestStatus) : nat := status_length (bt_iter m) s.
Lemma status_length_cons k r l s :
  status_length ((k, r) :: l) s = (if decide (status r = s) then 1 else 0) + status_length l s.
Proof. unfold status_length. rewrite filter_cons. cbn [snd]. by case_decide. Qed.
Lemma statuses_partition l :
  status_length l Passed + status_length l Failed + status_length l Notrun +
  status_length l FailedToRun + status_length l Inprogress + status_length l Unknown = length l.
Proof.
  induction l as [|[k [s t d]] l IH]; [done|]. rewrite !status_length_cons. cbn [status length].
  destruct s; repeat case_decide; try done; lia.
Qed.
Lemma count_status_fits m s : fits_u32 m → count_status m s = Z.of_nat (status_count m s).
Proof.
  intros Hm. unfold count_status, wrap32, status_count, status_length. apply Z.mod_small.
  unfold fits_u32 in Hm.
  pose proof (length_filter (λ kv : string * TestResult, status kv.2 = s) (bt_iter m)) as H.
  rewrite bt_iter_length in H. lia.
Qed.
(** C27: rolling up. There is one entry per commit with results, in order; its
    six counts are the numbers of tests with each status, add up to the number
    of tests, and its duration is the tests' total (modulo 2^64). The branch
    log's own loop computes the same entries. *)
Theorem branch_entries_correct results :
  Forall (λ r, fits_u32 (c_tests r)) results →
  log_branch_entries results = branch_entries results ∧
  commit_id <$> branch_entries results = c_id <$> filter (λ r, c_tests r ≠ ∅) results ∧
  ∀ i r e, filter (λ r, c_tests r ≠ ∅) results !! i = Some r → branch_entries results !! i = Some e →
    message e = c_message r ∧
    passed e = Z.of_nat (status_count (c_tests r) Passed) ∧
    failed e = Z.of_nat (status_count (c_tests r) Failed) ∧
    failed_to_run e = Z.of_nat (status_count (c_tests r) FailedToRun) ∧
    (passed e + failed e + notrun e + failed_to_run e + inprogress e + unknown e =
       Z.of_nat (size (c_tests r)))%Z ∧
    be_duration e = wrap64 (Zsum (duration <$> bt_values (c_tests r))).
Proof.
  intros Hfit. rewrite Forall_forall in Hfit. split_and!.
  - unfold log_branch_entries, branch_entries, log_branch_entry, branch_entry.
    apply list_fmap_ext. intros _ r _. f_equal. unfold bt_values. by rewrite <-list_fmap_compose.
  - unfold branch_entries. by rewrite <-list_fmap_compose.
  - intros i r e Hi He. unfold branch_entries in He. rewrite list_lookup_fmap, Hi in He.
    injection He as <-. apply list_elem_of_lookup_2, list_elem_of_filter in Hi as [_ Hin].
    specialize (Hfit r Hin). cbn. rewrite !count_status_fits by done. split_and!; [done..| |].
    + rewrite <-!Nat2Z.inj_add, <-bt_iter_length. f_equal. apply statuses_partition.
    + apply sum64_Zsum.
Qed.

(** ** The branch log *)
Section log.
Context {OS : OsEnv} {LC : Codec (list log_entry)}.
Lemma parse_built_log entries :
  Forall (λ e, valid_utf8 (commit_id e) = true ∧ valid_utf8 (message e) = true) entries →
  parse_log_entries (build_log_entry <$> entries) = Ok entries.
Proof.
  induction 1 as [|e es [H1 H2] _ IH]; [done|]. rewrite fmap_cons.
  assert (parse_log_entry (build_log_entry e) = Ok e) as He.
  { unfold parse_log_entry. cbn. unfold to_text. rewrite H1, H2. by destruct e. }
  cbn [parse_log_entries]. by rewrite He, IH.
Qed.
(** C35: a branch log reads back as it was written: any entries whose ids and
    messages are text survive the file. *)
Theorem branch_log_roundtrip ktest user branch entries w w' :
  Forall (λ e, valid_utf8 (commit_id e) = true ∧ valid_utf8 (message e) = true) entries →
  readable (build_log_entry <$> entries) →
  let p := log_path (Config.output_dir ktest) user branch in
  io_denied p = false →
  write_branch_log (Config.output_dir ktest) user branch entries w = (Ok tt, w') →
  branchlog_get ktest user branch (w_fs w') = Ok entries.
Proof.
  intros Htext Hread p Hio Hw. unfold write_branch_log in Hw.
  case_match; [done|]. fold p in Hw.
  destruct (write _ _ _ _) as [f [|]] eqn:E1; [|done].
  destruct (rename f _ p) as [f' [|]] eqn:E2; [|done]. injection Hw as <-. cbn [w_fs set_fs].
  apply write_true in E1 as ->. apply rename_true in E2 as (d & t & Hd & ->).
  assert (d = serialize (build_log_entry <$> entries)) as ->.
  { set (q := path_join _ _) in *. destruct (decide (resolve (w_fs w) q = q)) as [Heq|Hne].
    - rewrite Heq, lookup_insert_eq in Hd. by simplify_eq.
    - rewrite lookup_insert_ne in Hd by done. destruct Hne. apply resolve_not_link. congruence. }
  unfold branchlog_get. fold p.
  rewrite (read_file _ p (serialize (build_log_entry <$> entries)) t); [|by rewrite lookup_insert_eq|done].
  unfold branchlog_parse. rewrite deserialize_serialize by done. by apply parse_built_log.
Qed.
End log.

(** ** Concrete runs *)
#[export] Instance log_entry_eq_dec : EqDecision log_entry.
Proof. solve_decision. Defined.
#[export] Instance log_entry_countable : Countable log_entry.
Proof.
  apply (inj_countable' (λ e, (l_commit_id e, l_message e, l_passed e, l_failed e, l_notrun e,
             l_failed_to_run e, l_inprogress e, l_unknown e, l_duration e))
           (λ '(a, b, c, d, e, f, g, h, i), mkLog a b c d e f g h i)). by intros [].
Defined.
Definition demo_log_codec : Codec (list log_entry) := countable_codec.
Import Stats Jobs.
Section witnesses.
#[local] Existing Instance plain_os.
#[local] Existing Instance demo_codec.
#[local] Existing Instance demo_chrono.
#[local] Existing Instance demo_http.
#[local] Existing Instance demo_threads.
#[local] Existing Instance demo_log_codec.
#[local] Instance demo_repo : Git2 := demo_git [c1; c2].

Definition demo_view : outcome branch_error (list CommitResults) * fs :=
  branch_get_results (G := demo_repo) tt demo_rc (Some "kent") (Some "master") None (λ _, true) 0
    (w_fs demo_world).
Lemma demo_view_ids :
  match demo_view with (Ok ret, _) => bool_decide (c_id <$> ret = [c1]) | _ => false end = true.
Proof. computed. Qed.
Lemma branch_get_results_correct_witness :
  ∃ ret, demo_view = (Ok ret, w_fs demo_world) ∧ c_id <$> ret = [c1] ∧
    ret `prefix_of` view demo_rc (w_fs demo_world) (λ _, true) <$> [(c1, "msg"); (c2, "msg")].
Proof.
  destruct (branch_get_results_correct (G := demo_repo) tt demo_rc (Some "kent") (Some "master") None
              "kent/master" (λ _, true) 0 (w_fs demo_world) c1 [c1; c2] (w_fs demo_world))
    as (ret & Hret & Hpre & _).
  - by exists "kent", "master".
  - reflexivity.
  - reflexivity.
  - reflexivity.
  - reflexivity.
  - intros c. apply demo_no_panic.
  - exists ret. split; [exact Hret|]. split; [|exact Hpre].
    pose proof demo_view_ids as H. unfold demo_view in H. rewrite Hret in H.
    by apply bool_decide_eq_true in H.
Defined.
Definition demo_results2 : list CommitResults := [mkCR c1 "msg" demo_map; mkCR c2 "msg" ∅].
Lemma branch_entries_correct_witness :
  commit_id <$> branch_entries demo_results2 = [c1] ∧
  ∃ e, branch_entries demo_results2 !! 0 = Some e ∧ passed e = 1%Z ∧ be_duration e = 7%Z.
Proof.
  destruct (branch_entries_correct demo_results2) as (_ & Hids & He).
  { repeat constructor; computed. }
  split; [exact Hids|].
  destruct (He 0 (mkCR c1 "msg" demo_map) (branch_entry (mkCR c1 "msg" demo_map)))
    as (_ & Hp & _ & _ & _ & Hd); [reflexivity|reflexivity|].
  exists (branch_entry (mkCR c1 "msg" demo_map)). split; [reflexivity|]. rewrite Hp, Hd.
  split; computed.
Defined.
Definition demo_entry : BranchEntry := branch_entry (mkCR c1 "msg" demo_map).
Lemma demo_log_ok :
  is_ok (write_branch_log ["out"] "kent" "master" [demo_entry] demo_world).1 = true.
Proof. computed. Qed.
Lemma branch_log_roundtrip_witness :
  ∃ w', write_branch_log ["out"] "kent" "master" [demo_entry] demo_world = (Ok tt, w') ∧
    branchlog_get demo_rc "kent" "master" (w_fs w') = Ok [demo_entry].
Proof.
  pose proof demo_log_ok as H.
  destruct (write_branch_log ["out"] "kent" "master" [demo_entry] demo_world) as [[[]| |] w'] eqn:E;
    [|discriminate H..].
  exists w'. split; [done|].
  apply (branch_log_roundtrip demo_rc "kent" "master" [demo_entry] demo_world w');
    [by repeat constructor|exact I|reflexivity|exact E].
Defined.
End witnesses.
End Branch.
