(* ===== verification/Api.v ===== *)
(** * The JSON contract (src/src/api.rs)

    The wire types the dashboard serializes and ci-status reads back, and the
    serializer they share. *)

From S2P Require Import Prelude.
From S2P Require Import RustStr.
From S2P Require Import Status.
From S2P Require Import Store.
From S2P Require Import Branch.

Module Api.
Import Str Status Store Branch.

Record TestEntry : Type := mkTestEntry { te_name : string; te_status : string; te_duration : Z }.
Record CommitTests : Type := mkCommitTests {
  ct_commit : string; ct_message : string; ct_tests : list TestEntry
}.
Record UserBranches : Type := mkUserBranches { ub_user : string; ub_branches : list string }.
Record ApiError : Type := mkApiError { error : string }.

(** serde and serde_json: a value is printed, plainly or with line breaks, and
    both read back; the text of a record or a list begins with a brace or a
    bracket. The integers of a value are in the range of their type. *)
Class Json (A : Type) : Type := {
  to_json : A → string;
  to_json_pretty : A → string;
  from_json : string → option A;
  jsonable : A → Prop;
  from_to_json a : jsonable a → from_json (to_json a) = Some a;
  from_to_json_pretty a : jsonable a → from_json (to_json_pretty a) = Some a;
  to_json_pretty_text a : starts_with (to_json_pretty a) "<" = false
}.

(** The rows of one commit, as both sides build them. *)
Definition test_entry (kv : string * TestResult) : TestEntry :=
  mkTestEntry kv.1 (to_str (status kv.2)) (duration kv.2).
Definition commit_tests (commit message : string) (tests : TestResultsMap) : CommitTests :=
  mkCommitTests commit message (test_entry <$> bt_iter tests).

(** What a reader makes of a row is what the writer had. *)
Lemma test_entry_status kv : from_str (te_status (test_entry kv)) = status kv.2.
Proof. cbn [te_status test_entry]. by destruct (status kv.2). Qed.

(** A serializer for concrete runs. *)
Definition countable_json {A} `{Countable A} : Json A.
Proof.
  refine {| to_json a := "[" +:+ bits (encode a); to_json_pretty a := "[" +:+ bits (encode a);
            from_json s := match s with String _ s => decode (unbits s) | _ => None end;
            jsonable a := True |}.
  - intros a _. change (decode (unbits (bits (encode a))) = Some a). by rewrite unbits_bits, decode_encode.
  - intros a _. change (decode (unbits (bits (encode a))) = Some a). by rewrite unbits_bits, decode_encode.
  - done.
Defined.
End Api.
