(* ===== verification/Daemon.v ===== *)
(** * The daemon's jobs (src/src/bin/ci-daemon.rs)

    What an executor does with a claimed batch: the commands it sends to the
    worker, the resume loop over the subtests without a verdict, and what it
    records. jobkit, ssh and the worker are parameters: a command is an oracle
    step, during which the other threads of the daemon and the other programs of
    the host also run. *)

From Stdlib Require Import SpecFloat.
From S2P Require Import Prelude.
From S2P Require Import RustStr.
From S2P Require Import F64.
From S2P Require Import Keys.
From S2P Require Import Status.
From S2P Require Import Fs.
From S2P Require Import Config.
From S2P Require Import Store.
From S2P Require Import Results.

Module Daemon.
Import Str F64 Keys Status Fs Config Store Results.

Definition qt : string := String (ascii_of_nat 34) "".

(** ** Commands *)
Record Command : Type := mkCommand { program : string; args : list string; null_stdin : bool }.
Definition SSH_OPTS : list string :=
  ["-o"; "ControlMaster=auto"; "-o"; "ControlPath=~/.ssh/ci-master-%r@%h:%p";
   "-o"; "ControlPersist=10m"; "-o"; "ServerAliveInterval=10"; "-o"; "ConnectTimeout=20";
   "-o"; "BatchMode=yes"; "-o"; "StrictHostKeyChecking=accept-new"].
Definition ssh_cmd (host remote : string) (tty : bool) : Command :=
  mkCommand "ssh" ((if tty then ["-tt"] else []) ++ SSH_OPTS ++ [host; remote]) true.

Inductive TaskError : Type :=
  | Retry (msg : string)
  | Fatal (msg : string).

Record JobParams : Type := mkParams {
  p_repo : string; p_commit : string; p_kernel : string; p_env : string; p_test : string;
  p_subtest : string; p_repo_url : string; p_ktest_url : string; p_output_dir : path
}.
Record ClaimedJob : Type := mkClaimed { j_id : Z; payload : JobParams }.

(** [&c[..c.len().min(12)]] *)
Definition short_commit {E} (c : string) : outcome E string := slice_to c (Nat.min (String.length c) 12).

Definition job_env_prefix (env ws : string) : string :=
  foldl (λ prefix pair, prefix +:+ pair +:+ " ") ("ktest_deps_dir=$HOME/" +:+ ws +:+ " ")
    (filter (λ s, s ≠ "") (split "," env)).

Definition workspace (slot : nat) : string := "ktest-ci/" +:+ of_u64 (Z.of_nat slot).
Definition key_of (p : JobParams) (st : string) : string :=
  subtest_result_key (p_test p) st (p_kernel p) (p_env p).
Definition job_key (j : ClaimedJob) : string := key_of (payload j) (p_subtest (payload j)).
Definition commit_dir (p : JobParams) : path := path_join (p_output_dir p) (p_commit p).

(** The shell function both network steps define. *)
Definition retry_fn (what : string) : string :=
  "retry() { n=0; until " +:+ qt +:+ "$@" +:+ qt +:+
  "; do n=$((n+1)); [ $n -ge 5 ] && return 1; echo " +:+ qt +:+ what +:+ ": retry $n: $*" +:+ qt +:+
  " >&2; sleep $((n*n)); done; }; ".
Definition checkout_cmd (ws : string) (p : JobParams) : string :=
  "set -e; " +:+ retry_fn "checkout" +:+
  "if [ ! -d " +:+ ws +:+ "/" +:+ p_repo p +:+ "/.git ]; then rm -rf " +:+ ws +:+
  "; mkdir -p " +:+ ws +:+ "; retry git -C " +:+ ws +:+ " clone " +:+ p_repo_url p +:+ " " +:+
  p_repo p +:+ "; fi; cd " +:+ ws +:+ "/" +:+ p_repo p +:+ "; rm -f .git/index.lock; " +:+
  "retry git fetch " +:+ p_repo_url p +:+ " " +:+ p_commit p +:+ "; git checkout -f FETCH_HEAD; " +:+
  "test " +:+ qt +:+ "$(git rev-parse HEAD)" +:+ qt +:+ " = " +:+ qt +:+ p_commit p +:+ qt.
Definition sync_cmd (url : string) : string :=
  retry_fn "sync ktest" +:+ "retry git -C ~/ktest fetch " +:+ url +:+
  " && git -C ~/ktest checkout -f FETCH_HEAD".
Definition mark_cmd (p : JobParams) (remaining : list string) : string :=
  join "; " ((λ st, "mkdir -p ktest-out/out/" +:+ key_of p st +:+
                    "; echo 'IN PROGRESS' > ktest-out/out/" +:+ key_of p st +:+ "/status") <$> remaining).
Definition prepare_cmd (ws : string) (p : JobParams) (remaining : list string) : string :=
  "set -e; cd " +:+ ws +:+ "; if [ -d ktest-out ]; then " +:+
  "find ktest-out -mindepth 1 -maxdepth 1 ! -name 'kernel*' -exec rm -rf {} +; fi; " +:+
  mark_cmd p remaining.
Definition runner_cmd (ws : string) (p : JobParams) : string :=
  if is_empty (p_kernel p)
  then "~/ktest/build-test-kernel run -k " +:+ ws +:+ "/" +:+ p_repo p +:+ " -T ktest-tmp -P"
  else "~/ktest/ktest run -k " +:+ p_kernel p +:+ " -T ktest-tmp".
(** [first] is [remaining[0]]. *)
Definition supervisor_cmd (ws : string) (p : JobParams) (first : string) (remaining : list string) : string :=
  let inner :=
    "cd " +:+ ws +:+ "; " +:+ job_env_prefix (p_env p) ws +:+
    "~/ktest/lib/supervisor -T 1200 -f " +:+ key_of p first +:+ "/full_log -S -F -b " +:+
    result_basename (p_test p) (p_kernel p) (p_env p) +:+ " -o ktest-out/out -- " +:+
    runner_cmd ws p +:+ " ~/ktest/tests/" +:+ p_test p +:+ " " +:+ join " " remaining in
  let run := if is_empty (p_kernel p)
             then "nix-shell ~/ktest/ci/shell.nix --run " +:+ qt +:+ inner +:+ qt else inner in
  "( " +:+ run +:+ " )".
(** [Path::display] of an absolute path. *)
Definition display (p : path) : string := "/" +:+ lossy (join "/" p).
Definition pull_cmd (host ws : string) (p : JobParams) (remaining : list string) : Command :=
  mkCommand "bash" ["-c";
    "mkdir -p " +:+ display (commit_dir p) +:+ " && ssh " +:+ join " " SSH_OPTS +:+ " " +:+ host +:+
    " 'cd " +:+ ws +:+ "/ktest-out/out && tar -c " +:+ join " " (key_of p <$> remaining) +:+
    "' | tar -x -C " +:+ display (commit_dir p)] false.

(** ** The daemon's state, and steps that may fail *)
Record dstate : Type := mkD { d_store : TestResultsStore; d_world : world }.

(** jobkit's executor handle, and the processes it runs: the exit code of a
    process that was run ([Some None] when a signal killed it), or the error of
    one that could not be (its message); how an error prints; and the brotli
    crate. *)
Class Jobkit : Type := {
  log_path : path;
  log_offset : dstate → Z;
  log_line : string → dstate → dstate;
  run_command : Command → dstate → (string + option Z) * dstate;
  brotli : string → string;
  error_text : TaskError → string
}.

Definition task (A : Type) : Type := dstate → outcome TaskError A * dstate.
#[export] Instance task_ret : MRet task := λ A a s, (Ok a, s).
#[export] Instance task_bind : MBind task := λ A B f m s,
  match m s with
  | (Ok a, s) => f a s
  | (Err e, s) => (Err e, s)
  | (Panic, s) => (Panic, s)
  end.
Definition give {A} (r : outcome TaskError A) : task A := λ s, (r, s).
Definition throw {A} (e : TaskError) : task A := give (Err e).

(** [{:?}] of [ExitStatus::code] *)
Definition of_i32 (z : Z) : string :=
  if (z <? 0)%Z then "-" +:+ of_u64 (- z) else of_u64 z.
Definition debug_code (c : option Z) : string :=
  match c with Some z => "Some(" +:+ of_i32 z +:+ ")" | None => "None" end.
Definition success (c : option Z) : bool := bool_decide (c = Some 0%Z).

(** [path.with_extension(ext)] *)
Definition with_extension (p : path) (ext : string) : path :=
  match last p with
  | Some n => parent p ++ [file_stem n +:+ "." +:+ ext]
  | None => p
  end.

Section daemon.
Context {OS : OsEnv} {CD : Codec test_results} {CH : Chrono} {JK : Jobkit}.

Definition log (s : string) : task () := λ st, (Ok tt, log_line s st).
Definition run (c : Command) : task (string + option Z) := λ s,
  let '(r, s) := run_command c s in (Ok r, s).
(** A command whose failure to run is the task's. *)
Definition run_or_retry (c : Command) (what : string) : task (option Z) :=
  r ← run c;
  match r with
  | inl e => throw (Retry (what +:+ ": " +:+ e))
  | inr code => mret code
  end.
Definition run_step (host remote desc : string) : task () :=
  _ ← log ("=== " +:+ desc +:+ " ===");
  code ← run_or_retry (ssh_cmd host remote false) desc;
  if success code then mret tt
  else throw (Retry (desc +:+ ": ssh exited " +:+ debug_code code)).

(** A file operation, at the present time. *)
Definition fs_op (g : fs → Z → fs * bool) : task bool := λ s,
  let w := d_world s in
  let '(f, ok) := g (w_fs w) (w_now w) in (Ok ok, mkD (d_store s) (set_fs w f)).
Definition fs_get {A} (g : fs → A) : task A := λ s, (Ok (g (w_fs (d_world s))), s).
Definition now : task Z := λ s, (Ok (w_now (d_world s)), s).
Definition offset : task Z := λ s, (Ok (log_offset s), s).
Definition lookup_store (commit key : string) : task (option TestStatus) := λ s,
  (Ok (lookup_status (d_store s) commit key), s).
Definition update_store (commit : string) (updates : TestResultsMap) : task () := λ s,
  match update (d_store s) commit updates (d_world s) with
  | Ok (st, w) => (Ok tt, mkD st w)
  | _ => (Panic, s)
  end.
Fixpoint each {A} (f : A → task ()) (l : list A) : task () :=
  match l with
  | [] => mret tt
  | x :: l => _ ← f x; each f l
  end.

(** [create_dir_all(d).and_then(|()| write(d/name, text))] *)
Definition make_file (d : path) (name text : string) : task bool :=
  fs_op (λ f t, match create_dir_all f t d with
                | (f, true) => write f t (path_join d name) text
                | r => r
                end).

Fixpoint drop_bytes (n : nat) (s : string) : string :=
  match n, s with
  | O, _ => s
  | S n, EmptyString => EmptyString
  | S n, String _ s => drop_bytes n s
  end.
Definition format_full_log (host : string) (slot : nat) (p : JobParams) (subtests : list string)
    (exec_log_path : path) (exec_offset_start : Z) (supervisor_body : string) (f : fs) : string :=
  let header := "# host=" +:+ host +:+ " slot=" +:+ of_u64 (Z.of_nat slot) +:+ " commit=" +:+
    p_commit p +:+ " kernel=" +:+ p_kernel p +:+ " test=" +:+ p_test p +:+ " env=" +:+ p_env p +:+
    " subtests=" +:+ join "," subtests +:+ nl in
  let exec_slice := default "" (drop_bytes (Z.to_nat exec_offset_start) <$> read f exec_log_path) in
  header +:+ "# --- ci-daemon executor log for this batch ---" +:+ nl +:+ exec_slice +:+
  nl +:+ "# --- supervisor full_log ---" +:+ nl +:+ supervisor_body.

(** The compressed file is created before it is filled; the original goes
    last. *)
Definition brotli_compress (p : path) : task bool :=
  fs_op (λ f t, match read f p with
                | None => (f, false)
                | Some data => match write f t (with_extension p "br") (brotli data) with
                               | (f, true) => remove_file f p
                               | r => r
                               end
                end).
Definition compress_or_log (what : string) (p : path) : task () :=
  ok ← brotli_compress p;
  if (ok : bool) then mret tt else log (what +:+ " " +:+ display p).

(** ** One iteration of the resume loop: run the supervisor over [remaining],
    pull, file the logs, read the verdicts *)
Definition drop_old_log (p : JobParams) (st : string) : task () :=
  _ ← fs_op (λ f _, remove_file f (path_join (path_join (commit_dir p) (key_of p st)) "full_log.br"));
  mret tt.
Definition file_logs (host : string) (slot : nat) (p : JobParams) (first : string)
    (remaining : list string) (iter_offset : Z) : task () :=
  _ ← each (drop_old_log p) remaining;
  let primary_key := key_of p first in
  let primary_path := path_join (path_join (commit_dir p) primary_key) "full_log" in
  body ← fs_get (λ f, default "" (read f primary_path));
  content ← fs_get (format_full_log host slot p remaining log_path iter_offset body);
  written ← fs_op (λ f t, write f t primary_path content);
  _ ← (if (written : bool) then compress_or_log "brotli" primary_path
       else log ("write full_log " +:+ display primary_path));
  _ ← each (λ st,
        let path := path_join (path_join (commit_dir p) (key_of p st)) "log" in
        there ← fs_get (λ f, exists_ f path);
        if (there : bool) then compress_or_log "compress" path else mret tt) remaining;
  each (λ st,
        ok ← fs_op (λ f _, symlink f ("../" +:+ primary_key +:+ "/full_log.br")
                     (path_join (path_join (commit_dir p) (key_of p st)) "full_log.br"));
        if (ok : bool) then mret tt else log ("full_log link for " +:+ st)) (tail remaining).
(** The verdicts on disk, those missing counting as in progress, and the
    subtests that need another VM. *)
Definition read_verdict (f : fs) (start : Z) (p : JobParams) (st : string) : TestResult :=
  default (mkResult Inprogress start 0)
    (read_test_result f (path_join (commit_dir p) (key_of p st))).
Definition verdicts_of (f : fs) (start : Z) (p : JobParams) (remaining : list string) : TestResultsMap :=
  bt_collect ((λ st, (key_of p st, read_verdict f start p st)) <$> remaining).
Definition next_of (f : fs) (start : Z) (p : JobParams) (remaining : list string) : list string :=
  filter (λ st, status (read_verdict f start p st) = Inprogress) remaining.

Definition iteration (host : string) (slot : nat) (p : JobParams) (start : Z) (first : string)
    (remaining : list string) : task (list string) :=
  let ws := workspace slot in
  iter_offset ← offset;
  _ ← log ("=== run: " +:+ join " " remaining +:+ " ===");
  _ ← run_or_retry (ssh_cmd host (supervisor_cmd ws p first remaining) true) "running supervisor";
  _ ← log "=== pull results ===";
  code ← run_or_retry (pull_cmd host ws p remaining) "pulling results";
  if negb (success code) then throw (Retry ("pulling results: exited " +:+ debug_code code))
  else
    _ ← file_logs host slot p first remaining iter_offset;
    verdicts ← fs_get (λ f, verdicts_of f start p remaining);
    next ← fs_get (λ f, next_of f start p remaining);
    _ ← update_store (p_commit p) verdicts;
    mret next.

Definition git_clean (host : string) (slot : nat) (p : JobParams) : task () :=
  _ ← log "=== run completed no subtests -- git clean + retry ===";
  _ ← run_or_retry (ssh_cmd host ("git -C ~/" +:+ workspace slot +:+ "/" +:+ p_repo p +:+
                                    " clean -fdqx") false) "git clean";
  mret tt.

(** The loop; [None] is running out of fuel. *)
Fixpoint resume (fuel : nat) (host : string) (slot : nat) (p : JobParams) (start : Z)
    (did_clean : bool) (remaining : list string) (s : dstate) :
    option (outcome TaskError () * dstate) :=
  match fuel with
  | O => None
  | S fuel =>
      match remaining with
      | [] => Some (Ok tt, s)
      | first :: _ =>
          match iteration host slot p start first remaining s with
          | (Err e, s) => Some (Err e, s)
          | (Panic, s) => Some (Panic, s)
          | (Ok next, s) =>
              if decide (length next = length remaining) then
                if did_clean then
                  Some (Err (Retry ("run completed no subtests: " +:+ join " " remaining)), s)
                else
                  match git_clean host slot p s with
                  | (Ok _, s) => resume fuel host slot p start true remaining s
                  | (Err e, s) => Some (Err e, s)
                  | (Panic, s) => Some (Panic, s)
                  end
              else resume fuel host slot p start did_clean next s
          end
      end
  end.

(** ** The job *)
Definition mark_inprogress (p : JobParams) (st : string) : task () :=
  ok ← make_file (path_join (commit_dir p) (key_of p st)) "status" ("IN PROGRESS" +:+ nl);
  if (ok : bool) then mret tt else log ("marking " +:+ st +:+ " in-progress").
Definition inprogress_map (start : Z) (p : JobParams) (remaining : list string) : TestResultsMap :=
  bt_collect ((λ st, (key_of p st, mkResult Inprogress start 0)) <$> remaining).
(** Everything before the loop; it gives the time of the marks. *)
Definition prepare (host : string) (slot : nat) (p : JobParams) (remaining : list string) : task Z :=
  let ws := workspace slot in
  if is_empty (p_repo_url p) then throw (Fatal ("repo " +:+ p_repo p +:+ " not configured"))
  else
    _ ← log ("=== batch on " +:+ host +:+ ":" +:+ of_u64 (Z.of_nat slot) +:+ " ===");
    start ← now;
    _ ← each (mark_inprogress p) remaining;
    _ ← update_store (p_commit p) (inprogress_map start p remaining);
    _ ← run_step host (checkout_cmd ws p) "checkout";
    _ ← (if is_empty (p_ktest_url p) then mret tt
         else run_step host (sync_cmd (p_ktest_url p)) "sync ktest");
    _ ← run_step host "make -C ~/ktest/lib supervisor" "build supervisor";
    _ ← run_step host (prepare_cmd ws p remaining) "prepare";
    mret start.

(** Each pass of the loop completes a subtest or is the one after the clean, so
    [length batch + 2] passes are enough. *)
Definition run_ktest_job_inner (host : string) (slot : nat) (p : JobParams)
    (batch : list ClaimedJob) (s : dstate) : option (outcome TaskError () * dstate) :=
  let remaining := (λ j, p_subtest (payload j)) <$> batch in
  match prepare host slot p remaining s with
  | (Ok start, s) => resume (length batch + 2) host slot p start false remaining s
  | (Err e, s) => Some (Err e, s)
  | (Panic, s) => Some (Panic, s)
  end.

Definition has_log (f : fs) (p : JobParams) (j : ClaimedJob) : bool :=
  exists_ f (path_join (path_join (commit_dir p) (job_key j)) "full_log.br").
Definition fallback_log (p : JobParams) (content : string) (j : ClaimedJob) : task () :=
  let d := path_join (commit_dir p) (job_key j) in
  ok ← make_file d "full_log" content;
  if (ok : bool) then compress_or_log "brotli" (path_join d "full_log")
  else log ("fallback full_log " +:+ display (path_join d "full_log")).
Definition fallback_logs (host : string) (slot : nat) (p : JobParams) (batch : list ClaimedJob)
    (start_offset : Z) : task () :=
  missing ← fs_get (λ f, filter (λ j, has_log f p j = false) batch);
  match missing with
  | [] => mret tt
  | _ =>
      content ← fs_get (format_full_log host slot p ((λ j, p_subtest (payload j)) <$> batch)
                          log_path start_offset "");
      each (fallback_log p content) missing
  end.
(** The subtests left in progress by a failure get a verdict. *)
Definition fail_one (p : JobParams) (start : Z) (acc : TestResultsMap) (j : ClaimedJob) :
    task TestResultsMap :=
  r ← lookup_store (p_commit p) (job_key j);
  if decide (r = Some Inprogress) then
    _ ← make_file (path_join (commit_dir p) (job_key j)) "status" ("FAILED TO RUN" +:+ nl);
    mret (<[job_key j := mkResult FailedToRun start 0]> acc)
  else mret acc.
Fixpoint fail_all (p : JobParams) (start : Z) (acc : TestResultsMap) (batch : list ClaimedJob) :
    task TestResultsMap :=
  match batch with
  | [] => mret acc
  | j :: batch => acc ← fail_one p start acc j; fail_all p start acc batch
  end.
Definition record_failure (p : JobParams) (batch : list ClaimedJob) : task () :=
  start ← now;
  updates ← fail_all p start ∅ batch;
  update_store (p_commit p) updates.

(** What happens after the inner function, whatever it returned. *)
Definition finish (host : string) (slot : nat) (p : JobParams) (batch : list ClaimedJob)
    (start_offset : Z) (result : outcome TaskError ()) : task () :=
  _ ← run (ssh_cmd host ("rm -rf " +:+ workspace slot +:+ "/ktest-tmp") false);
  _ ← fallback_logs host slot p batch start_offset;
  _ ← (if is_ok result then mret tt else record_failure p batch);
  give result.
Definition run_ktest_job (host : string) (slot : nat) (batch : list ClaimedJob) (s : dstate) :
    option (outcome TaskError () * dstate) :=
  match batch with
  | [] => Some (Panic, s)
  | j0 :: _ =>
      match run_ktest_job_inner host slot (payload j0) batch s with
      | None => None
      | Some (Panic, s) => Some (Panic, s)
      | Some (result, s') => Some (finish host slot (payload j0) batch (log_offset s) result s')
      end
  end.

(** ** One executor: claim, run, report *)
Inductive JobOutcome : Type := Completed | Failed_ (msg : string).
Definition outcome_of (r : outcome TaskError ()) : option JobOutcome :=
  match r with Ok _ => Some Completed | Err e => Some (Failed_ (error_text e)) | Panic => None end.
(** One turn of [run_executor]'s loop: the reports it makes. *)
Definition executor_turn (host : string) (slot : nat) (batch : list ClaimedJob) (s : dstate) :
    option (option (list (Z * JobOutcome)) * dstate) :=
  match run_ktest_job host slot batch s with
  | None => None
  | Some (r, s) => Some ((λ o, (λ j, (j_id j, o)) <$> batch) <$> outcome_of r, s)
  end.

End daemon.

(** ** Tasks that leave a subtest's recorded status alone *)
Section frame.
Context {OS : OsEnv} {CD : Codec test_results} {CH : Chrono} {JK : Jobkit}.
Definition status_at (s : dstate) (c k : string) : option TestStatus := lookup_status (d_store s) c k.
(** The other threads leave it alone too, while a command runs. *)
Definition owned (c k : string) : Prop :=
  (∀ cmd s, status_at (run_command cmd s).2 c k = status_at s c k) ∧
  (∀ m s, status_at (log_line m s) c k = status_at s c k).
Definition keeps {A} (m : task A) (c k : string) : Prop :=
  ∀ s r s', m s = (r, s') → status_at s' c k = status_at s c k.

Context (c k : string) (Hown : owned c k).

Lemma keeps_bind {A B} (m : task A) (f : A → task B) :
  keeps m c k → (∀ a, keeps (f a) c k) → keeps (m ≫= f) c k.
Proof.
  intros Hm Hf s r s'. unfold mbind, task_bind. destruct (m s) as [[a|e|] s1] eqn:E; intros H.
  - by rewrite (Hf _ _ _ _ H), (Hm _ _ _ E).
  - simplify_eq. by eapply Hm.
  - simplify_eq. by eapply Hm.
Qed.
Lemma keeps_ret {A} (a : A) : keeps (mret a) c k.
Proof. by intros s r s' [= <- <-]. Qed.
Lemma keeps_give {A} (r : outcome TaskError A) : keeps (give r) c k.
Proof. by intros s r' s' [= <- <-]. Qed.
Lemma keeps_log m : keeps (log m) c k.
Proof. intros s r s' [= <- <-]. apply Hown. Qed.
Lemma keeps_run cmd : keeps (run cmd) c k.
Proof.
  intros s r s' H. unfold run in H. destruct (run_command cmd s) as [x s1] eqn:E. simplify_eq.
  change s' with (x, s').2. rewrite <-E. apply Hown.
Qed.
Lemma keeps_fs_op g : keeps (fs_op g) c k.
Proof. intros s r s' H. unfold fs_op in H. destruct (g _ _). by simplify_eq. Qed.
Lemma keeps_fs_get {A} (g : fs → A) : keeps (fs_get g) c k.
Proof. by intros s r s' [= <- <-]. Qed.
Lemma keeps_now : keeps now c k.
Proof. by intros s r s' [= <- <-]. Qed.
Lemma keeps_offset : keeps offset c k.
Proof. by intros s r s' [= <- <-]. Qed.
Lemma keeps_lookup c' k' : keeps (lookup_store c' k') c k.
Proof. by intros s r s' [= <- <-]. Qed.
Lemma keeps_each {A} (f : A → task ()) l : (∀ x, keeps (f x) c k) → keeps (each f l) c k.
Proof.
  intros Hf. induction l as [|x l IH]; cbn; [apply keeps_ret|]. by apply keeps_bind.
Qed.
Lemma keeps_if {A} (b : bool) (m m' : task A) :
  keeps m c k → keeps m' c k → keeps (if b then m else m') c k.
Proof. by destruct b. Qed.
End frame.
Create HintDb keeps discriminated.
#[export] Hint Resolve keeps_bind keeps_ret keeps_give keeps_log keeps_run keeps_fs_op keeps_fs_get
  keeps_now keeps_offset keeps_lookup keeps_each keeps_if : keeps.
Section store_effects.
Context {OS : OsEnv} {CD : Codec test_results} {CH : Chrono} {JK : Jobkit}.

Lemma update_store_spec commit u s r s' :
  update_store commit u s = (r, s') →
  match r with
  | Ok _ => ∀ c k, status_at s' c k =
      if decide (c = commit) then match u !! k with Some x => Some (status x) | None => status_at s c k end
      else status_at s c k
  | Err _ => False
  | Panic => s' = s
  end.
Proof.
  unfold update_store. destruct (update _ _ _ _) as [[st w]|e|] eqn:E; intros [= <- <-]; [|by destruct e|done].
  intros c k. unfold status_at. cbn. apply lookup_status_merged.
  apply update_by_commit in E as [-> _]. unfold mem_update, merged. done.
Qed.
Lemma keeps_update commit u c k :
  (c = commit → u !! k = None) → keeps (update_store commit u) c k.
Proof.
  intros Hu s r s' H%update_store_spec. destruct r as [|e|]; [|done|by subst].
  rewrite H. case_decide; [|done]. by rewrite Hu.
Qed.

Section kept.
Context (c k : string) (Hown : owned c k).
Lemma keeps_run_or_retry cmd what : keeps (run_or_retry cmd what) c k.
Proof. unfold run_or_retry, throw. apply keeps_bind; [by apply keeps_run|]. intros [e|x]; auto with keeps. Qed.
Lemma keeps_run_step host remote desc : keeps (run_step host remote desc) c k.
Proof.
  unfold run_step, throw. apply keeps_bind; [by apply keeps_log|intros _].
  apply keeps_bind; [apply keeps_run_or_retry|]. intros x. by case_match; auto with keeps.
Qed.
Lemma keeps_compress what p : keeps (compress_or_log what p) c k.
Proof.
  unfold compress_or_log, brotli_compress. apply keeps_bind; [apply keeps_fs_op|].
  intros [|]; [apply keeps_ret|by apply keeps_log].
Qed.
Lemma keeps_make_file d n t : keeps (make_file d n t) c k.
Proof. apply keeps_fs_op. Qed.
Lemma keeps_file_logs host slot p first remaining off :
  keeps (file_logs host slot p first remaining off) c k.
Proof.
  unfold file_logs, drop_old_log.
  apply keeps_bind; [apply keeps_each; intros; apply keeps_bind; [apply keeps_fs_op|intros; apply keeps_ret]|intros _].
  apply keeps_bind; [apply keeps_fs_get|intros body]. apply keeps_bind; [apply keeps_fs_get|intros content].
  apply keeps_bind; [apply keeps_fs_op|intros b].
  apply keeps_bind; [apply keeps_if; [apply keeps_compress|by apply keeps_log]|intros _].
  apply keeps_bind.
  - apply keeps_each. intros st. apply keeps_bind; [apply keeps_fs_get|intros b'].
    apply keeps_if; [apply keeps_compress|apply keeps_ret].
  - intros _. apply keeps_each. intros st. apply keeps_bind; [apply keeps_fs_op|intros b'].
    apply keeps_if; [apply keeps_ret|by apply keeps_log].
Qed.
Lemma keeps_git_clean host slot p : keeps (git_clean host slot p) c k.
Proof.
  unfold git_clean. apply keeps_bind; [by apply keeps_log|intros _].
  apply keeps_bind; [apply keeps_run_or_retry|intros; apply keeps_ret].
Qed.
Lemma keeps_fallback host slot p batch off : keeps (fallback_logs host slot p batch off) c k.
Proof.
  unfold fallback_logs. apply keeps_bind; [apply keeps_fs_get|intros missing].
  destruct missing; [apply keeps_ret|]. apply keeps_bind; [apply keeps_fs_get|intros content].
  apply keeps_each. intros j. unfold fallback_log. apply keeps_bind; [apply keeps_make_file|].
  intros b. apply keeps_if; [apply keeps_compress|by apply keeps_log].
Qed.
Lemma keeps_fail_all p start acc batch : keeps (fail_all p start acc batch) c k.
Proof.
  revert acc. induction batch as [|j batch IH]; intros acc; cbn [fail_all]; [apply keeps_ret|].
  apply keeps_bind; [|intros; apply IH]. unfold fail_one.
  apply keeps_bind; [apply keeps_lookup|intros r]. case_decide; [|apply keeps_ret].
  apply keeps_bind; [apply keeps_make_file|intros; apply keeps_ret].
Qed.
End kept.

(** ** The resume loop *)
(** One iteration leaves the subtests outside it alone, and gives each of its
    own a verdict, except those it returns. *)
Definition keys_of (p : JobParams) (sts : list string) : list string := key_of p <$> sts.
Lemma verdicts_of_lookup f start p remaining k :
  verdicts_of f start p remaining !! k =
  if decide (k ∈ keys_of p remaining)
  then Some (default (mkResult Inprogress start 0) (read_test_result f (path_join (commit_dir p) k)))
  else None.
Proof.
  unfold verdicts_of, bt_collect, keys_of. induction remaining as [|st sts IH] using rev_ind.
  { unfold bt_extend. cbn [fmap list_fmap foldl]. rewrite lookup_empty, decide_False; [done|apply not_elem_of_nil]. }
  rewrite fmap_app. cbn. rewrite bt_extend_snoc, lookup_insert. cbn.
  rewrite fmap_app. cbn. destruct (decide (key_of p st = k)) as [<-|Hne].
  - rewrite decide_True; [done|]. rewrite elem_of_app, list_elem_of_singleton. auto.
  - rewrite IH. apply decide_ext. rewrite elem_of_app, list_elem_of_singleton. naive_solver.
Qed.
Lemma next_of_length f start p remaining : length (next_of f start p remaining) ≤ length remaining.
Proof. apply length_filter. Qed.

Lemma bind_inv {A B} (m : task A) (f : A → task B) s r s' :
  (m ≫= f) s = (r, s') →
  (∃ a s1, m s = (Ok a, s1) ∧ f a s1 = (r, s')) ∨
  (∃ e, m s = (Err e, s') ∧ r = Err e) ∨ (m s = (Panic, s') ∧ r = Panic).
Proof. unfold mbind, task_bind. destruct (m s) as [[a|e|] s1]; intros; simplify_eq; eauto 10. Qed.

Lemma iteration_spec host slot p start first remaining s r s' :
  iteration host slot p start first remaining s = (r, s') →
  (∀ c k, owned c k → (c = p_commit p → k ∉ keys_of p remaining) → status_at s' c k = status_at s c k) ∧
  match r with
  | Ok next => length next ≤ length remaining ∧ (∀ st, st ∈ next → st ∈ remaining) ∧
      ∀ st, st ∈ remaining → st ∈ next ∨
        ∃ v, status_at s' (p_commit p) (key_of p st) = Some v ∧ v ≠ Inprogress
  | _ => True
  end.
Proof.
  intros Hit. split.
  - intros c k Hown Hk. revert s r s' Hit.
    change (keeps (iteration host slot p start first remaining) c k). unfold iteration.
    apply keeps_bind; [apply keeps_offset|intros off].
    apply keeps_bind; [by apply keeps_log|intros _].
    apply keeps_bind; [by apply keeps_run_or_retry|intros _].
    apply keeps_bind; [by apply keeps_log|intros _].
    apply keeps_bind; [by apply keeps_run_or_retry|intros code].
    case_match; [apply keeps_give|].
    apply keeps_bind; [by apply keeps_file_logs|intros _].
    intros s0 r0 s0' Hu. unfold fs_get, mbind, task_bind in Hu.
    destruct (update_store _ _ s0) as [r1 s1] eqn:E.
    assert (status_at s1 c k = status_at s0 c k) as Heq.
    { eapply keeps_update; [|exact E]. intros Hc. rewrite verdicts_of_lookup. by rewrite decide_False by auto. }
    destruct r1; unfold mret, task_ret in Hu; simplify_eq; done.
  - destruct r as [next|e|]; [|done..]. rename Hit into H. unfold iteration in H.
    do 5 (apply bind_inv in H as [(? & ? & _ & H)|[(? & _ & [=])|[_ [=]]]]; cbn beta in H).
    case_match; [done|].
    apply bind_inv in H as [(? & s1 & _ & H)|[(? & _ & [=])|[_ [=]]]].
    unfold fs_get, mret, task_ret, mbind, task_bind in H.
    destruct (update_store _ _ s1) as [[[]|e|] s2] eqn:E; simplify_eq/=.
    apply update_store_spec in E. split_and!.
    + apply next_of_length.
    + intros st Hst. unfold next_of in Hst. by apply list_elem_of_filter in Hst as [_ ?].
    + intros st Hst. set (f := w_fs (d_world s1)) in *.
      destruct (decide (status (read_verdict f start p st) = Inprogress)) as [Hin|Hin].
      * left. unfold next_of. by apply list_elem_of_filter.
      * right. exists (status (read_verdict f start p st)). split; [|done].
        rewrite E, decide_True by done. rewrite verdicts_of_lookup, decide_True; [done|].
        apply list_elem_of_fmap. eauto.
Qed.

Lemma resume_total fuel host slot p start did_clean remaining s :
  length remaining + (if did_clean : bool then 1 else 2) ≤ fuel →
  ∃ r s', resume fuel host slot p start did_clean remaining s = Some (r, s').
Proof.
  revert did_clean remaining s. induction fuel as [|fuel IH]; intros dc remaining s Hf; [destruct dc; lia|].
  cbn [resume]. destruct remaining as [|first rest] eqn:Er; [eauto|]. rewrite <-Er in *.
  destruct (iteration host slot p start first remaining s) as [[next|e|] s1] eqn:E; [|eauto..].
  apply iteration_spec in E as [_ (Hlen & _)]. case_decide as Hl.
  - destruct dc; [eauto|]. destruct (git_clean host slot p s1) as [[[]|e|] s2]; [|eauto..].
    apply IH. lia.
  - apply IH. lia.
Qed.

Definition settled (s : dstate) (c k : string) : Prop :=
  ∃ v, status_at s c k = Some v ∧ v ≠ Inprogress.
(** Every subtest is still to run, or has its verdict. *)
Definition covered (s : dstate) (p : JobParams) (all remaining : list string) : Prop :=
  ∀ st, st ∈ all → key_of p st ∈ keys_of p remaining ∨ settled s (p_commit p) (key_of p st).

Lemma resume_frame fuel host slot p start did_clean remaining s r s' c k :
  owned c k → (c = p_commit p → k ∉ keys_of p remaining) →
  resume fuel host slot p start did_clean remaining s = Some (r, s') → status_at s' c k = status_at s c k.
Proof.
  intros Hown. revert did_clean remaining s.
  induction fuel as [|fuel IH]; intros dc remaining s Hk H; [done|].
  cbn [resume] in H. destruct remaining as [|first rest] eqn:Er; [by simplify_eq|].
  rewrite <-Er in H, Hk. destruct (iteration host slot p start first remaining s) as [r1 s1] eqn:E.
  apply iteration_spec in E as [Hfr Hn]. specialize (Hfr c k Hown Hk).
  destruct r1 as [next|e|]; [|by simplify_eq..]. rewrite <-Hfr. case_decide.
  - destruct dc; [by simplify_eq|]. destruct (git_clean host slot p s1) as [r2 s2] eqn:E2.
    pose proof (keeps_git_clean c k Hown _ _ _ _ _ _ E2) as Hc. rewrite <-Hc.
    destruct r2; [|by simplify_eq..]. by eapply IH.
  - eapply IH; [|exact H]. intros Hc Hin. apply Hk; [done|]. unfold keys_of in *.
    apply list_elem_of_fmap in Hin as (st & -> & Hst). apply list_elem_of_fmap.
    exists st. split; [done|]. by apply Hn.
Qed.

Lemma covered_iteration host slot p start first all remaining s next s' :
  (∀ st, st ∈ all → owned (p_commit p) (key_of p st)) → covered s p all remaining →
  iteration host slot p start first remaining s = (Ok next, s') → covered s' p all next.
Proof.
  intros Hown Hcov [Hfr (_ & _ & Hdone)]%iteration_spec st Hst.
  destruct (decide (key_of p st ∈ keys_of p remaining)) as [Hin|Hout].
  - unfold keys_of in Hin. apply list_elem_of_fmap in Hin as (st' & Hk & Hst').
    destruct (Hdone st' Hst') as [?|?]; [left|right; unfold settled; by rewrite Hk].
    apply list_elem_of_fmap. eauto.
  - right. destruct (Hcov st Hst) as [?|(v & Hv & Hne)]; [done|].
    exists v. split; [|done]. rewrite Hfr; [done|by apply Hown|done].
Qed.
Lemma resume_settles fuel host slot p start did_clean all remaining s s' :
  (∀ st, st ∈ all → owned (p_commit p) (key_of p st)) → covered s p all remaining →
  resume fuel host slot p start did_clean remaining s = Some (Ok tt, s') →
  ∀ st, st ∈ all → settled s' (p_commit p) (key_of p st).
Proof.
  intros Hown. revert did_clean remaining s.
  induction fuel as [|fuel IH]; intros dc remaining s Hcov H; [done|].
  cbn [resume] in H. destruct remaining as [|first rest] eqn:Er.
  { simplify_eq. intros st Hst. by destruct (Hcov st Hst) as [[]%elem_of_nil|?]. }
  rewrite <-Er in *. destruct (iteration host slot p start first remaining s) as [[next|e|] s1] eqn:E;
    [|by simplify_eq..].
  pose proof (covered_iteration _ _ _ _ _ _ _ _ _ _ Hown Hcov E) as Hcov1. case_decide as Hl.
  - destruct dc; [by simplify_eq|]. destruct (git_clean host slot p s1) as [[[]|e|] s2] eqn:E2;
      [|by simplify_eq..].
    eapply IH; [|exact H]. intros st Hst.
    apply iteration_spec in E as [_ (_ & Hsub & _)].
    destruct (Hcov1 st Hst) as [Hin|(v & Hv & Hne)].
    + left. unfold keys_of in *. apply list_elem_of_fmap in Hin as (st' & -> & Hst').
      apply list_elem_of_fmap. eauto.
    + right. exists v. split; [|done]. by rewrite (keeps_git_clean _ _ (Hown st Hst) _ _ _ _ _ _ E2).
  - by eapply IH.
Qed.

(** ** The job *)
(** The jobs of one claim differ in their subtest only: they share a batch
    key. *)
Definition uniform (p : JobParams) (batch : list ClaimedJob) : Prop :=
  ∀ j, j ∈ batch → job_key j = key_of p (p_subtest (payload j)).
Definition batch_keys (batch : list ClaimedJob) : list string := job_key <$> batch.

(** What [record_failure] collects: a failure verdict for each subtest in
    progress. *)
Record failures (p : JobParams) (s : dstate) (acc u : TestResultsMap) (ks : list string) : Prop := {
  fl_status k x : u !! k = Some x → status x = FailedToRun;
  fl_grow k : is_Some (acc !! k) → is_Some (u !! k);
  fl_keys k : is_Some (u !! k) →
    is_Some (acc !! k) ∨ (k ∈ ks ∧ status_at s (p_commit p) k = Some Inprogress)
}.
Lemma make_file_store d n t s r s' : make_file d n t s = (r, s') → d_store s' = d_store s ∧ ∃ b, r = Ok b.
Proof.
  unfold make_file, fs_op. destruct (create_dir_all _ _ _) as [f [|]]; [destruct (write _ _ _ _)|];
    intros [= <- <-]; eauto.
Qed.
Lemma fail_one_spec p start acc j s r s' :
  fail_one p start acc j s = (r, s') → (∀ k x, acc !! k = Some x → status x = FailedToRun) →
  ∃ u, r = Ok u ∧ failures p s acc u [job_key j] ∧ d_store s' = d_store s ∧
    (status_at s (p_commit p) (job_key j) = Some Inprogress → is_Some (u !! job_key j)).
Proof.
  intros H Hacc. unfold fail_one, lookup_store, mbind, task_bind in H.
  fold (status_at s (p_commit p) (job_key j)) in H. case_decide as Hd.
  - destruct (make_file _ _ _ s) as [r1 s2] eqn:Em. apply make_file_store in Em as [Hst [b ->]].
    injection H as <- <-. eexists. split; [done|]. split_and!; [|done|by rewrite lookup_insert_eq].
    split.
    + intros k x [[<- <-]|[_ ?]]%lookup_insert_Some; [done|eauto].
    + intros k Hk. rewrite lookup_insert. case_decide; [by eexists|done].
    + intros k [x [[<- _]|[_ ?]]%lookup_insert_Some]; [right; split; [constructor|done]|left; eauto].
  - injection H as <- <-. eexists. split; [done|]. split_and!; [by split; auto|done|done].
Qed.
Lemma fail_all_spec p start acc batch s r s' :
  fail_all p start acc batch s = (r, s') → (∀ k x, acc !! k = Some x → status x = FailedToRun) →
  ∃ u, r = Ok u ∧ failures p s acc u (batch_keys batch) ∧ d_store s' = d_store s ∧
    ∀ j, j ∈ batch → status_at s (p_commit p) (job_key j) = Some Inprogress → is_Some (u !! job_key j).
Proof.
  revert acc s. induction batch as [|j batch IH]; intros acc s H Hacc; cbn [fail_all] in H.
  { injection H as <- <-. exists acc. split_and!; [done|by split; auto|done|].
    by intros j []%elem_of_nil. }
  unfold mbind, task_bind in H. destruct (fail_one p start acc j s) as [r1 s1] eqn:E1.
  destruct (fail_one_spec _ _ _ _ _ _ _ E1 Hacc) as (u1 & -> & [F1 F2 F3] & Hst1 & Hj).
  destruct (IH _ _ H F1) as (u & -> & [G1 G2 G3] & Hst & Hall).
  exists u. split_and!; [done| |congruence|].
  - split; [done|auto|]. intros k Hk%G3. unfold batch_keys in *. rewrite fmap_cons, elem_of_cons.
    unfold status_at in *. rewrite Hst1 in Hk.
    destruct Hk as [Hk%F3|[? ?]]; [|auto]. destruct Hk as [?|[?%list_elem_of_singleton ?]]; auto.
  - intros j' [->|Hj']%elem_of_cons Hs; [auto|]. apply Hall; [done|].
    unfold status_at in *. by rewrite Hst1.
Qed.
(** Recording a failure: the batch's subtests in progress get the verdict, and
    nothing else changes. *)
Lemma record_failure_spec p batch s r s' :
  record_failure p batch s = (r, s') → r ≠ Panic →
  ∀ c k, status_at s' c k =
    if decide (c = p_commit p ∧ k ∈ batch_keys batch ∧ status_at s c k = Some Inprogress)
    then Some FailedToRun else status_at s c k.
Proof.
  intros H Hp c k. unfold record_failure, now, mbind, task_bind in H.
  destruct (fail_all p _ ∅ batch s) as [r1 s1] eqn:E.
  destruct (fail_all_spec _ _ _ _ _ _ _ E) as (u & -> & [F1 _ F3] & Hst & Hall).
  { intros k' x. by rewrite lookup_empty. }
  apply update_store_spec in H. destruct r as [|e|]; [|done..].
  assert (status_at s1 c k = status_at s c k) as Hs1 by (unfold status_at; by rewrite Hst).
  rewrite H, Hs1. destruct (decide (c = p_commit p)) as [->|Hc]; [|by rewrite decide_False by tauto].
  destruct (u !! k) as [x|] eqn:Eu.
  - destruct (F3 k) as [Hn|[Hin Hs]]; [by eexists|by rewrite lookup_empty in Hn; destruct Hn|].
    rewrite decide_True by done. by rewrite (F1 _ _ Eu).
  - rewrite decide_False; [done|]. intros (_ & (j & -> & Hj)%list_elem_of_fmap & Hs).
    destruct (Hall j Hj Hs) as [x Hx]. congruence.
Qed.

Lemma keeps_prepare host slot p remaining c k :
  owned c k → (c = p_commit p → k ∉ keys_of p remaining) → keeps (prepare host slot p remaining) c k.
Proof.
  intros Hown Hk. unfold prepare. case_match; [apply keeps_give|].
  apply keeps_bind; [by apply keeps_log|intros _]. apply keeps_bind; [apply keeps_now|intros start].
  apply keeps_bind; [|intros _].
  { apply keeps_each. intros st. unfold mark_inprogress. apply keeps_bind; [apply keeps_fs_op|].
    intros b. apply keeps_if; [apply keeps_ret|by apply keeps_log]. }
  apply keeps_bind; [|intros _].
  { apply keeps_update. intros Hc. apply not_elem_of_dom. intros Hin%elem_of_dom. apply (Hk Hc).
    destruct Hin as [x Hx]. unfold inprogress_map, bt_collect in Hx.
    apply bt_extend_Some in Hx as [Hx|[_ Hx]]; [|by rewrite lookup_empty in Hx].
    apply list_elem_of_fmap in Hx as (st & [= -> _] & Hst). apply list_elem_of_fmap. eauto. }
  apply keeps_bind; [by apply keeps_run_step|intros _].
  apply keeps_bind; [case_match; [apply keeps_ret|by apply keeps_run_step]|intros _].
  apply keeps_bind; [by apply keeps_run_step|intros _].
  apply keeps_bind; [by apply keeps_run_step|intros; apply keeps_ret].
Qed.
Lemma keeps_finish_ok host slot p batch off c k :
  owned c k → keeps (finish host slot p batch off (Ok tt)) c k.
Proof.
  intros Hown. unfold finish. apply keeps_bind; [by apply keeps_run|intros _].
  apply keeps_bind; [by apply keeps_fallback|intros _]. cbn [is_ok].
  apply keeps_bind; [apply keeps_ret|intros; apply keeps_give].
Qed.

(** Tasks that always succeed. *)
Definition safe {A} (m : task A) : Prop := ∀ s, ∃ a s', m s = (Ok a, s').
Lemma safe_bind {A B} (m : task A) (f : A → task B) : safe m → (∀ a, safe (f a)) → safe (m ≫= f).
Proof. intros Hm Hf s. destruct (Hm s) as (a & s1 & E). unfold mbind, task_bind. rewrite E. apply Hf. Qed.
Lemma safe_ret {A} (a : A) : safe (mret a).
Proof. intros s. by eexists _, _. Qed.
Lemma safe_log m : safe (log m).
Proof. intros s. by eexists _, _. Qed.
Lemma safe_run cmd : safe (run cmd).
Proof. intros s. unfold run. destruct (run_command cmd s). by eexists _, _. Qed.
Lemma safe_fs_op g : safe (fs_op g).
Proof. intros s. unfold fs_op. destruct (g _ _). by eexists _, _. Qed.
Lemma safe_fs_get {A} (g : fs → A) : safe (fs_get g).
Proof. intros s. by eexists _, _. Qed.
Lemma safe_each {A} (f : A → task ()) l : (∀ x, safe (f x)) → safe (each f l).
Proof. intros Hf. induction l as [|x l IH]; [apply safe_ret|by apply safe_bind]. Qed.
Lemma safe_compress what p : safe (compress_or_log what p).
Proof.
  apply safe_bind; [apply safe_fs_op|]. intros [|]; [apply safe_ret|apply safe_log].
Qed.
Lemma safe_fallback host slot p batch off : safe (fallback_logs host slot p batch off).
Proof.
  apply safe_bind; [apply safe_fs_get|intros [|j l]; [apply safe_ret|]].
  apply safe_bind; [apply safe_fs_get|intros content]. apply safe_each. intros j'.
  apply safe_bind; [apply safe_fs_op|]. intros [|]; [apply safe_compress|apply safe_log].
Qed.

(** The tail of the job reports what the inner function returned, and changes a
    status only by recording a failure. *)
Lemma finish_spec host slot p batch off result s r s' :
  finish host slot p batch off result s = (r, s') → r ≠ Panic →
  r = result ∧ ∀ c k, owned c k →
    status_at s' c k =
    if decide (is_ok result = false ∧ c = p_commit p ∧ k ∈ batch_keys batch ∧
               status_at s c k = Some Inprogress)
    then Some FailedToRun else status_at s c k.
Proof.
  intros H Hr. unfold finish in H. unfold mbind at 1, task_bind at 1 in H.
  destruct (safe_run (ssh_cmd host ("rm -rf " +:+ workspace slot +:+ "/ktest-tmp") false) s)
    as (x & s1 & E1). rewrite E1 in H. unfold mbind at 1, task_bind at 1 in H.
  destruct (safe_fallback host slot p batch off s1) as (y & s2 & E2). rewrite E2 in H.
  unfold mbind, task_bind, give in H.
  assert (∀ c k, owned c k → status_at s2 c k = status_at s c k) as Hs2.
  { intros c k Hown. rewrite (keeps_fallback c k Hown _ _ _ _ _ _ _ _ E2).
    by apply (keeps_run c k Hown) in E1. }
  destruct (is_ok result) eqn:Hok.
  - injection H as <- <-. split; [done|]. intros c k Hown. by rewrite decide_False, Hs2 by naive_solver.
  - destruct (record_failure p batch s2) as [r3 s3] eqn:E3.
    assert (r3 = Ok tt) as ->.
    { destruct r3 as [[]|e|]; [done| |by simplify_eq].
      unfold record_failure, now, mbind, task_bind in E3.
      destruct (fail_all p _ ∅ batch s2) as [r4 s4] eqn:E4.
      destruct (fail_all_spec _ _ _ _ _ _ _ E4) as (u & -> & _); [intros ? ?; by rewrite lookup_empty|].
      by apply update_store_spec in E3. }
    injection H as <- <-. split; [done|]. intros c k Hown.
    rewrite (record_failure_spec _ _ _ _ _ E3) by done. rewrite Hs2 by done.
    apply decide_ext. naive_solver.
Qed.

(** ** What recording a failure does to the disk *)
Lemma create_dirs_frame f t base rest q :
  let f' := (create_dirs f t base rest).1 in
  f' !! q = f !! q ∨ (f !! q = None ∧ q `prefix_of` base ++ rest ∧ ∃ d, f' !! q = Some (NDir d)).
Proof.
  cbn zeta. revert f base. induction rest as [|c rest IH]; intros f base; [by left|].
  cbn [create_dirs]. replace (base ++ c :: rest) with ((base ++ [c]) ++ rest) by by rewrite <-app_assoc.
  assert (∀ g, g = f ∨ (f !! (base ++ [c]) = None ∧ g = <[base ++ [c] := NDir t]> f) →
    let f' := (create_dirs g t (base ++ [c]) rest).1 in
    f' !! q = f !! q ∨ (f !! q = None ∧ q `prefix_of` (base ++ [c]) ++ rest ∧ ∃ d, f' !! q = Some (NDir d))) as Hg.
  { intros g [->|[Hn ->]]; [apply IH|]. cbn zeta.
    destruct (IH (<[base ++ [c] := NDir t]> f) (base ++ [c])) as [H|(H1 & H2 & H3)].
    - rewrite H. destruct (decide (q = base ++ [c])) as [->|Hne].
      + right. split; [done|]. split; [by exists rest|]. rewrite lookup_insert_eq. eauto.
      + left. by rewrite lookup_insert_ne.
    - right. split; [|done]. apply lookup_insert_None in H1 as [? _]. done. }
  repeat case_match; cbn [fst]; auto.
Qed.
Definition result_dir (p : JobParams) (j : ClaimedJob) : path := path_join (commit_dir p) (job_key j).
Definition status_file (p : JobParams) (j : ClaimedJob) : path := result_dir p j ++ ["status"].
Lemma make_status_disk d text s b s' :
  make_file d "status" text s = (Ok b, s') →
  (∀ t, w_fs (d_world s) !! (d ++ ["status"]) ≠ Some (NSymlink t)) →
  w_seq (d_world s') = w_seq (d_world s) ∧
  ∀ q, w_fs (d_world s') !! q = w_fs (d_world s) !! q ∨
    (q = d ++ ["status"] ∧ ∃ x t, w_fs (d_world s') !! q = Some (NFile x t) ∧ (io_short q = None → x = text)) ∨
    (q `prefix_of` d ∧ w_fs (d_world s) !! q = None ∧ ∃ t, w_fs (d_world s') !! q = Some (NDir t)).
Proof.
  intros H Hlink. unfold make_file, fs_op in H. set (w := d_world s) in *.
  pose proof (create_dirs_frame (w_fs w) (w_now w) [] d) as Hdirs. cbn zeta in Hdirs.
  fold (create_dir_all (w_fs w) (w_now w) d) in Hdirs.
  destruct (create_dir_all (w_fs w) (w_now w) d) as [f1 ok1]. cbn [fst] in Hdirs.
  rewrite path_join_plain in H by done. set (sp := d ++ ["status"]) in *.
  assert (f1 !! sp = w_fs w !! sp) as Hsp.
  { destruct (Hdirs sp) as [?|(_ & [k Hk] & _)]; [done|]. exfalso.
    apply (f_equal length) in Hk. unfold sp in Hk. rewrite !length_app in Hk. cbn in Hk. lia. }
  assert (resolve f1 sp = sp) as Hres by (apply resolve_not_link; intros t; rewrite Hsp; apply Hlink).
  destruct ok1.
  - destruct (write f1 (w_now w) sp text) as [f2 ok2] eqn:Ew. injection H as <- <-. cbn [d_world set_fs w_fs w_seq].
    split; [done|]. intros q. destruct (decide (q = sp)) as [->|Hne].
    + unfold write in Ew. destruct (create f1 (w_now w) sp) as [f3 []] eqn:Ec.
      * apply create_true in Ec as [-> Hr3]. rewrite Hres in Hr3, Ew. unfold write_all in Ew. rewrite Hr3 in Ew.
        right; left. split; [done|]. destruct (io_short sp); injection Ew as <- <-;
          rewrite lookup_insert_eq; by eexists _, _.
      * apply create_false in Ec as ->. injection Ew as <- <-. left. done.
    + rewrite (write_frame _ _ _ _ _ _ _ Ew) by by rewrite Hres.
      destruct (Hdirs q) as [?|(? & [k Hk] & ?)]; [by left|right; right]. split; [by exists k|done].
  - injection H as <- <-. cbn [d_world set_fs w_fs w_seq]. split; [done|]. intros q.
    destruct (Hdirs q) as [?|(? & [k Hk] & ?)]; [by left|right; right]. split; [by exists k|done].
Qed.

(** A path as it was, or one of a subtest in progress: its status file, with
    the failure in it, or a directory made for it. *)
Definition failure_marked (p : JobParams) (store : dstate) (batch : list ClaimedJob) (f f' : fs) (q : path) : Prop :=
  f' !! q = f !! q ∨
  ∃ j, j ∈ batch ∧ status_at store (p_commit p) (job_key j) = Some Inprogress ∧
    ((q = status_file p j ∧ ∃ x t, f' !! q = Some (NFile x t) ∧ (io_short q = None → x = "FAILED TO RUN" +:+ nl)) ∨
     (q `prefix_of` result_dir p j ∧ f !! q = None ∧ ∃ t, f' !! q = Some (NDir t))).
Lemma fail_one_disk p start acc j s u s' :
  fail_one p start acc j s = (Ok u, s') →
  (∀ t, w_fs (d_world s) !! status_file p j ≠ Some (NSymlink t)) →
  w_seq (d_world s') = w_seq (d_world s) ∧
  ∀ q, failure_marked p s [j] (w_fs (d_world s)) (w_fs (d_world s')) q.
Proof.
  intros H Hlink. unfold fail_one, lookup_store, mbind, task_bind in H.
  fold (status_at s (p_commit p) (job_key j)) in H. case_decide as Hd.
  2: { injection H as <- <-. split; [done|]. by left. }
  destruct (make_file _ _ _ s) as [r1 s2] eqn:Em. pose proof (make_file_store _ _ _ _ _ _ Em) as [_ [b ->]].
  injection H as <- <-. destruct (make_status_disk _ _ _ _ _ Em Hlink) as [Hseq Hq]. split; [done|].
  intros q. destruct (Hq q) as [?|Hc]; [by left|right]. exists j. split; [constructor|]. split; [done|]. exact Hc.
Qed.
Lemma fail_all_disk p start acc batch s u s' :
  fail_all p start acc batch s = (Ok u, s') →
  (∀ j t, j ∈ batch → w_fs (d_world s) !! status_file p j ≠ Some (NSymlink t)) →
  w_seq (d_world s') = w_seq (d_world s) ∧
  ∀ q, failure_marked p s batch (w_fs (d_world s)) (w_fs (d_world s')) q.
Proof.
  revert acc s. induction batch as [|j batch IH]; intros acc s H Hlink; cbn [fail_all] in H.
  { injection H as <- <-. split; [done|]. by left. }
  unfold mbind, task_bind in H. destruct (fail_one p start acc j s) as [[u1|e|] s1] eqn:E1; [|done..].
  destruct (fail_one_disk _ _ _ _ _ _ _ E1 (λ t, Hlink j t ltac:(by constructor))) as [Hs1 Hq1].
  destruct (IH u1 s1 H) as [Hs2 Hq2].
  { intros j' t Hj' Hl. destruct (Hq1 (status_file p j')) as [He|(j1 & _ & _ & [(_ & x & y & Hx & _)|(_ & _ & y & Hx)])].
    - rewrite He in Hl. eapply Hlink; [|exact Hl]. by constructor.
    - by rewrite Hx in Hl.
    - by rewrite Hx in Hl. }
  assert (∀ k, status_at s1 (p_commit p) k = status_at s (p_commit p) k) as Hst.
  { intros k. unfold fail_one, lookup_store, mbind, task_bind in E1. case_decide.
    - destruct (make_file _ _ _ s) as [r2 s2] eqn:Em. pose proof (make_file_store _ _ _ _ _ _ Em) as [Hst [b ->]].
      injection E1 as _ <-. unfold status_at. by rewrite Hst.
    - by injection E1 as _ <-. }
  split; [congruence|]. intros q. destruct (Hq2 q) as [He|(j' & Hj' & Hin & Hc)].
  - unfold failure_marked. rewrite He. destruct (Hq1 q) as [?|(j1 & ->%list_elem_of_singleton & Hin & Hc)]; [by left|].
    right. exists j. split; [constructor|]. by split.
  - rewrite Hst in Hin. right. exists j'. split; [by constructor|]. split; [done|].
    destruct Hc as [?|(Hp & Hn & Hd)]; [by left|right]. split_and!; [done| |done].
    destruct (Hq1 q) as [He|(j1 & _ & _ & [(_ & x & y & Hx & _)|(_ & Hx & _)])]; congruence.
Qed.
Lemma record_failure_disk p batch s s' :
  record_failure p batch s = (Ok tt, s') → plain_commit (p_commit p) →
  w_fs (d_world s) !! capnp_tmp_path (output_dir (d_store s)) (p_commit p) (w_seq (d_world s)) = None →
  (∀ j t, j ∈ batch → w_fs (d_world s) !! status_file p j ≠ Some (NSymlink t)) →
  (∀ j, j ∈ batch → ¬ capnp_tmp_path (output_dir (d_store s)) (p_commit p) (w_seq (d_world s)) `prefix_of` status_file p j) →
  ∀ q, q ≠ capnp_path (output_dir (d_store s)) (p_commit p) →
    q ≠ capnp_tmp_path (output_dir (d_store s)) (p_commit p) (w_seq (d_world s)) →
    failure_marked p s batch (w_fs (d_world s)) (w_fs (d_world s')) q.
Proof.
  intros H Hc Htmp Hlink Hapart q Hq1 Hq2. unfold record_failure, now, mbind, task_bind in H.
  destruct (fail_all p _ ∅ batch s) as [[u|e|] s1] eqn:E; [|done..].
  destruct (fail_all_disk _ _ _ _ _ _ _ E Hlink) as [Hseq Hmark].
  destruct (fail_all_spec _ _ _ _ _ _ _ E) as (u' & _ & _ & Hst & _); [intros ? ?; by rewrite lookup_empty|].
  unfold update_store in H. destruct (update _ _ _ _) as [[st w]|e|] eqn:Eu; [|by destruct e|done].
  injection H as <-. cbn [d_world]. unfold update in Eu. case_decide; [by simplify_eq|].
  apply outcome_bind_Ok in Eu as (w1 & Hren & [= _ <-]). cbn [output_dir] in Hren. unfold render in Hren.
  destruct (results_to_capnp _ _ _ _ _) as [r w2] eqn:Er.
  assert (r ≠ Panic ∧ w2 = w1) as [Hr ->] by (destruct r; by simplify_eq).
  rewrite Hst in Er. apply results_to_capnp_spec in Er as (_ & _ & Hframe & _); [|done| |done].
  - rewrite Hseq in Hframe. unfold failure_marked. rewrite Hframe by done. apply Hmark.
  - rewrite Hseq. destruct (Hmark (capnp_tmp_path (output_dir (d_store s)) (p_commit p) (w_seq (d_world s))))
      as [->|(j & Hj & _ & [[Hp _]|[Hp _]])]; [done|exfalso..].
    + by apply (Hapart j Hj); rewrite Hp.
    + apply (Hapart j Hj). etrans; [exact Hp|]. by eexists.
Qed.

Lemma job_inner_frame host slot p batch s r s' c k :
  owned c k → (c = p_commit p → k ∉ keys_of p ((λ j, p_subtest (payload j)) <$> batch)) →
  run_ktest_job_inner host slot p batch s = Some (r, s') → status_at s' c k = status_at s c k.
Proof.
  intros Hown Hk H. unfold run_ktest_job_inner in H.
  destruct (prepare _ _ _ _ s) as [r1 s1] eqn:E.
  pose proof (keeps_prepare _ _ _ _ c k Hown Hk _ _ _ E) as Hp. rewrite <-Hp.
  destruct r1 as [start|e|]; [|by simplify_eq..]. by eapply resume_frame.
Qed.
Lemma job_inner_settles host slot p batch s s' :
  (∀ j, j ∈ batch → owned (p_commit p) (key_of p (p_subtest (payload j)))) →
  run_ktest_job_inner host slot p batch s = Some (Ok tt, s') →
  ∀ j, j ∈ batch → settled s' (p_commit p) (key_of p (p_subtest (payload j))).
Proof.
  intros Hown H j Hj. unfold run_ktest_job_inner in H.
  destruct (prepare _ _ _ _ s) as [[start|e|] s1]; [|done..].
  set (all := (λ j, p_subtest (payload j)) <$> batch) in *.
  eapply (resume_settles _ _ _ _ _ _ all all); [| |exact H|].
  - intros st (j' & -> & Hj')%list_elem_of_fmap. by apply Hown.
  - intros st Hst. left. apply list_elem_of_fmap. eauto.
  - apply list_elem_of_fmap. eauto.
Qed.
Lemma uniform_keys p batch :
  uniform p batch → keys_of p ((λ j, p_subtest (payload j)) <$> batch) = batch_keys batch.
Proof.
  intros Hu. unfold keys_of, batch_keys. rewrite <-list_fmap_compose.
  induction batch as [|j batch IH]; [done|]. rewrite !fmap_cons. f_equal.
  - symmetry. apply Hu. constructor.
  - apply IH. intros j' Hj'. apply Hu. by constructor.
Qed.

(** C7: a job always comes to an end. However the worker, the network and the
    disk behave, the resume loop of a batch makes at most [length batch + 2]
    passes: every pass completes a subtest, returns an error, or is the one that
    cleans the workspace. *)
Theorem run_ktest_job_terminates host slot batch s :
  ∃ r s', run_ktest_job host slot batch s = Some (r, s').
Proof.
  destruct batch as [|j0 batch]; [by eexists _, _|]. cbn [run_ktest_job].
  assert (∃ r s1, run_ktest_job_inner host slot (payload j0) (j0 :: batch) s = Some (r, s1))
    as (r & s1 & ->).
  { unfold run_ktest_job_inner. destruct (prepare _ _ _ _ s) as [[start|e|] s1]; [|eauto..].
    apply resume_total. rewrite length_fmap. cbn. lia. }
  destruct r as [x|e|]; [|rename e into x|eauto].
  all: match goal with |- ∃ r s', Some ?x = _ => destruct x as [r s2]; eauto end.
Qed.

(** *** Tasks that lose no subtest's record *)
Definition grows {A} (m : task A) (c k : string) : Prop :=
  ∀ s r s', m s = (r, s') → is_Some (status_at s c k) → is_Some (status_at s' c k).
Lemma keeps_grows {A} (m : task A) c k : keeps m c k → grows m c k.
Proof. intros Hm s r s' H Hs. by rewrite (Hm _ _ _ H). Qed.
Lemma grows_bind {A B} (m : task A) (f : A → task B) c k :
  grows m c k → (∀ a, grows (f a) c k) → grows (m ≫= f) c k.
Proof.
  intros Hm Hf s r s'. unfold mbind, task_bind. destruct (m s) as [[a|e|] s1] eqn:E; intros H Hs.
  - eapply Hf; [exact H|]. by eapply Hm.
  - simplify_eq. by eapply Hm.
  - simplify_eq. by eapply Hm.
Qed.
Lemma grows_update commit u c k : grows (update_store commit u) c k.
Proof.
  intros s r s' H%update_store_spec Hs. destruct r as [|e|]; [|done|by subst].
  rewrite H. case_decide; [|done]. case_match; [by eexists|done].
Qed.
Lemma grows_iteration host slot p start first remaining c k :
  owned c k → grows (iteration host slot p start first remaining) c k.
Proof.
  intros Hown. unfold iteration.
  apply grows_bind; [apply keeps_grows, keeps_offset|intros off].
  apply grows_bind; [by apply keeps_grows, keeps_log|intros _].
  apply grows_bind; [by apply keeps_grows, keeps_run_or_retry|intros _].
  apply grows_bind; [by apply keeps_grows, keeps_log|intros _].
  apply grows_bind; [by apply keeps_grows, keeps_run_or_retry|intros code].
  case_match; [apply keeps_grows, keeps_give|].
  apply grows_bind; [by apply keeps_grows, keeps_file_logs|intros _].
  apply grows_bind; [apply keeps_grows, keeps_fs_get|intros v].
  apply grows_bind; [apply keeps_grows, keeps_fs_get|intros next].
  apply grows_bind; [apply grows_update|intros _]. apply keeps_grows, keeps_ret.
Qed.
Lemma resume_grows fuel host slot p start did_clean remaining s r s' c k :
  owned c k → resume fuel host slot p start did_clean remaining s = Some (r, s') →
  is_Some (status_at s c k) → is_Some (status_at s' c k).
Proof.
  intros Hown. revert did_clean remaining s.
  induction fuel as [|fuel IH]; intros dc remaining s H Hs; [done|].
  cbn [resume] in H. destruct remaining as [|first rest] eqn:Er; [by simplify_eq|].
  rewrite <-Er in H. destruct (iteration host slot p start first remaining s) as [r1 s1] eqn:E.
  pose proof (grows_iteration _ _ _ _ _ _ _ _ Hown _ _ _ E Hs) as Hs1.
  destruct r1 as [next|e|]; [|by simplify_eq..]. case_decide; [|by eapply IH].
  destruct dc; [by simplify_eq|]. destruct (git_clean host slot p s1) as [r2 s2] eqn:E2.
  rewrite <-(keeps_git_clean c k Hown _ _ _ _ _ _ E2) in Hs1.
  destruct r2; [by eapply IH|by simplify_eq..].
Qed.
(** The marks are in the store before anything can go wrong, but for a
    repository that is not configured. *)
Lemma prepare_marks host slot p remaining s r s' st :
  prepare host slot p remaining s = (r, s') → is_empty (p_repo_url p) = false → r ≠ Panic →
  st ∈ remaining → owned (p_commit p) (key_of p st) →
  is_Some (status_at s' (p_commit p) (key_of p st)).
Proof.
  intros H Hurl Hr Hst Hown. unfold prepare in H. rewrite Hurl in H.
  apply bind_inv in H as [(? & s1 & _ & H)|[(? & [=] & _)|[[=] _]]].
  apply bind_inv in H as [(start & s2 & _ & H)|[(? & [=] & _)|[[=] _]]].
  assert (safe (each (mark_inprogress p) remaining)) as Hsafe.
  { apply safe_each. intros x0. apply safe_bind; [apply safe_fs_op|].
    intros [|]; [apply safe_ret|apply safe_log]. }
  destruct (Hsafe s2) as (? & s3 & E3).
  apply bind_inv in H as [(? & s3' & E3' & H)|[(? & E3' & _)|[E3' _]]]; [|congruence..].
  apply bind_inv in H as [(? & s4 & E4 & H)|[(? & E4%update_store_spec & _)|[_ ->]]]; [|done..].
  apply update_store_spec in E4.
  assert (is_Some (status_at s4 (p_commit p) (key_of p st))) as Hs4.
  { rewrite E4, decide_True by done.
    assert (is_Some (inprogress_map start p remaining !! key_of p st)) as Hin; [|destruct Hin as [y Hy]; rewrite Hy; by eexists].
    unfold inprogress_map, bt_collect. clear -Hst. induction remaining as [|st' sts IH] using rev_ind;
      [by apply elem_of_nil in Hst|].
    rewrite fmap_app. cbn. rewrite bt_extend_snoc, lookup_insert. cbn.
    case_decide; [by eexists|]. apply IH. apply elem_of_app in Hst as [?| ->%list_elem_of_singleton]; done. }
  revert H Hs4. generalize s4 r s'. clear -Hown.
  match goal with |- ∀ s r s', ?m s = _ → _ → _ => change (grows m (p_commit p) (key_of p st)) end.
  apply keeps_grows. apply keeps_bind; [by apply keeps_run_step|intros _].
  apply keeps_bind; [case_match; [apply keeps_ret|by apply keeps_run_step]|intros _].
  apply keeps_bind; [by apply keeps_run_step|intros _].
  apply keeps_bind; [by apply keeps_run_step|intros; apply keeps_ret].
Qed.
Lemma job_inner_records host slot p batch s r s' j :
  run_ktest_job_inner host slot p batch s = Some (r, s') → is_empty (p_repo_url p) = false →
  r ≠ Panic → j ∈ batch → owned (p_commit p) (key_of p (p_subtest (payload j))) →
  is_Some (status_at s' (p_commit p) (key_of p (p_subtest (payload j)))).
Proof.
  intros H Hurl Hr Hj Hown. unfold run_ktest_job_inner in H.
  destruct (prepare _ _ _ _ s) as [r1 s1] eqn:E.
  assert (r1 ≠ Panic) as Hr1 by (intros ->; by simplify_eq).
  pose proof (prepare_marks _ _ _ _ _ _ _ (p_subtest (payload j)) E Hurl Hr1) as Hs.
  specialize (Hs ltac:(apply list_elem_of_fmap; eauto) Hown).
  destruct r1 as [start|e|]; [|by simplify_eq..]. by eapply resume_grows.
Qed.

(** C6: no subtest is lost or left in progress. Once a job has returned, with
    or without an error, no subtest of its batch is in progress in the store;
    and unless its repository is not configured (nothing is recorded then, and
    the job did not return without an error), each one has a status: a verdict,
    or unknown when the status file that came back was garbled. (The other
    threads do not write to the batch's subtests meanwhile: they belong to this
    executor.) *)
Theorem run_ktest_job_settles host slot j0 batch s r s' :
  uniform (payload j0) (j0 :: batch) →
  (∀ j, j ∈ j0 :: batch → owned (p_commit (payload j0)) (job_key j)) →
  run_ktest_job host slot (j0 :: batch) s = Some (r, s') → r ≠ Panic →
  (r = Ok tt → p_repo_url (payload j0) ≠ "") ∧
  ∀ j, j ∈ j0 :: batch →
    status_at s' (p_commit (payload j0)) (job_key j) ≠ Some Inprogress ∧
    (p_repo_url (payload j0) ≠ "" →
     ∃ v, status_at s' (p_commit (payload j0)) (job_key j) = Some v ∧
       v ∈ [Passed; Failed; Notrun; FailedToRun; Unknown]).
Proof.
  intros Hu Hown H Hr. set (p := payload j0) in *. cbn [run_ktest_job] in H. fold p in H.
  destruct (run_ktest_job_inner _ _ _ _ s) as [[r1 s1]|] eqn:E; [|done].
  assert (r1 ≠ Panic) as Hr1 by (intros ->; by simplify_eq).
  assert (finish host slot p (j0 :: batch) (log_offset s) r1 s1 = (r, s')) as Hf
    by (destruct r1; by simplify_eq).
  apply finish_spec in Hf as [-> Hst]; [|done]. split.
  { intros -> Hurl. unfold run_ktest_job_inner, prepare in E. by rewrite Hurl in E. }
  intros j Hj. pose proof (Hown j Hj) as Ho. pose proof (Hst _ _ Ho) as Hj'.
  assert (status_at s' (p_commit p) (job_key j) ≠ Some Inprogress) as Hnot.
  { rewrite Hj'. destruct r1 as [[]|e|]; [| |done].
    - rewrite decide_False by (intros [? _]; done).
      assert (∀ j', j' ∈ j0 :: batch → owned (p_commit p) (key_of p (p_subtest (payload j')))) as Hown'
        by (intros j' Hj''; rewrite <-(Hu j' Hj''); by apply Hown).
      destruct (job_inner_settles _ _ _ _ _ _ Hown' E j Hj) as (v & Hv & Hne).
      rewrite (Hu j Hj), Hv. congruence.
    - case_decide as Hd; [done|]. intros Hin. apply Hd. split_and!; try done.
      apply list_elem_of_fmap. eauto. }
  split; [done|]. intros Hurl. rewrite (Hu j Hj) in Ho.
  destruct (job_inner_records _ _ _ _ _ _ _ j E) as [v Hv]; [by destruct (p_repo_url p)|done..|].
  rewrite <-(Hu j Hj) in Hv. rewrite Hv in Hj'. case_decide; [by exists FailedToRun; set_solver|].
  exists v. split; [done|]. rewrite Hj' in Hnot. destruct v; set_solver.
Qed.

(** C12: a job writes to its own subtests only, and a failure overwrites no
    verdict of the store.
    - Every other subtest and commit keeps its status in the store, as far as
      the other threads leave it alone.
    - The job ends by clearing the worker's directory and writing the logs that
      are missing, and then, if it failed, by recording the failure. That
      leaves every recorded status but in progress alone; and on disk, apart
      from the commit's result file and its temporary name, it changes no path
      but the status files of subtests of the batch still in progress in the
      store, which then hold the failure, and missing directories on the way to
      them, which it makes.
    A job that succeeded records nothing. *)
Theorem run_ktest_job_frame host slot j0 batch s r s' :
  let p := payload j0 in
  uniform p (j0 :: batch) →
  run_ktest_job host slot (j0 :: batch) s = Some (r, s') → r ≠ Panic →
  (∀ c k, owned c k → ¬ (c = p_commit p ∧ k ∈ batch_keys (j0 :: batch)) →
     status_at s' c k = status_at s c k) ∧
  ∃ s1 s2, run_ktest_job_inner host slot p (j0 :: batch) s = Some (r, s1) ∧
    (_ ← run (ssh_cmd host ("rm -rf " +:+ workspace slot +:+ "/ktest-tmp") false);
     fallback_logs host slot p (j0 :: batch) (log_offset s)) s1 = (Ok tt, s2) ∧
    (∀ c k v, owned c k → status_at s1 c k = Some v → v ≠ Inprogress → status_at s' c k = Some v) ∧
    (r = Ok tt → s' = s2) ∧
    let tmp := capnp_tmp_path (output_dir (d_store s2)) (p_commit p) (w_seq (d_world s2)) in
    (plain_commit (p_commit p) → w_fs (d_world s2) !! tmp = None →
     (∀ j t, j ∈ j0 :: batch → w_fs (d_world s2) !! status_file p j ≠ Some (NSymlink t)) →
     (∀ j, j ∈ j0 :: batch → ¬ tmp `prefix_of` status_file p j) →
     ∀ q, q ≠ capnp_path (output_dir (d_store s2)) (p_commit p) → q ≠ tmp →
       w_fs (d_world s') !! q = w_fs (d_world s2) !! q ∨
       ∃ j, j ∈ j0 :: batch ∧ status_at s2 (p_commit p) (job_key j) = Some Inprogress ∧
         ((q = path_join (commit_dir p) (job_key j) ++ ["status"] ∧
           ∃ x t, w_fs (d_world s') !! q = Some (NFile x t) ∧
                  (io_short q = None → x = "FAILED TO RUN" +:+ nl)) ∨
          (q `prefix_of` path_join (commit_dir p) (job_key j) ∧ w_fs (d_world s2) !! q = None ∧
           ∃ t, w_fs (d_world s') !! q = Some (NDir t)))).
Proof.
  intros p Hu H Hr. cbn [run_ktest_job] in H. fold p in H.
  destruct (run_ktest_job_inner _ _ _ _ s) as [[r1 s1]|] eqn:E; [|done].
  assert (r1 ≠ Panic) as Hr1 by (intros ->; by simplify_eq).
  assert (finish host slot p (j0 :: batch) (log_offset s) r1 s1 = (r, s')) as Hf
    by (destruct r1; by simplify_eq).
  pose proof Hf as Hf'. apply finish_spec in Hf as [-> Hst]; [|done]. split.
  { intros c k Hown Hk. rewrite Hst, decide_False by tauto.
    eapply job_inner_frame; [done| |exact E]. rewrite uniform_keys by done. tauto. }
  unfold finish in Hf'. unfold mbind at 1, task_bind at 1 in Hf'.
  destruct (safe_run (ssh_cmd host ("rm -rf " +:+ workspace slot +:+ "/ktest-tmp") false) s1)
    as (x & sa & E1). rewrite E1 in Hf'. unfold mbind at 1, task_bind at 1 in Hf'.
  destruct (safe_fallback host slot p (j0 :: batch) (log_offset s) sa) as ([] & s2 & E2). rewrite E2 in Hf'.
  exists s1, s2. split; [done|]. split.
  { unfold mbind, task_bind. rewrite E1. exact E2. }
  split; [|split].
  - intros c k v Hown Hv Hne. rewrite Hst by done. rewrite decide_False; [done|].
    intros (_ & _ & _ & Hs). congruence.
  - intros ->. cbn [is_ok] in Hf'. unfold mbind, task_bind, give, mret, task_ret in Hf'. by injection Hf'.
  - intros tmp Hc Htmp Hlink Hapart q Hq1 Hq2. destruct r1 as [[]|e|]; [| |done].
    + left. cbn [is_ok] in Hf'. unfold mbind, task_bind, give, mret, task_ret in Hf'. by injection Hf' as <-.
    + cbn [is_ok] in Hf'. unfold mbind, task_bind, give in Hf'.
      destruct (record_failure p (j0 :: batch) s2) as [[[]|e'|] s3] eqn:E3; [| |by injection Hf'].
      * injection Hf' as <-. by apply (record_failure_disk _ _ _ _ E3).
      * exfalso. unfold record_failure, now, mbind, task_bind in E3.
        destruct (fail_all p _ ∅ (j0 :: batch) s2) as [r4 s4] eqn:E4.
        destruct (fail_all_spec _ _ _ _ _ _ _ E4) as (u & -> & _); [intros ? ?; by rewrite lookup_empty|].
        by apply update_store_spec in E3.
Qed.

(** Only subtests without a verdict are run again. A pass over [remaining]
    returns a subset of it, and every subtest it drops has a verdict; the rest
    of the loop, which runs over what the pass returned, changes the status of
    no subtest that was dropped. *)
Theorem first_verdict_stands fuel host slot p start first did_clean remaining s next s1 r s' :
  iteration host slot p start first remaining s = (Ok next, s1) →
  resume fuel host slot p start did_clean next s1 = Some (r, s') →
  (∀ st, st ∈ next → st ∈ remaining) ∧
  ∀ st, st ∈ remaining → key_of p st ∉ keys_of p next → owned (p_commit p) (key_of p st) →
    settled s1 (p_commit p) (key_of p st) ∧
    status_at s' (p_commit p) (key_of p st) = status_at s1 (p_commit p) (key_of p st).
Proof.
  intros Hit Hres. apply iteration_spec in Hit as [_ (_ & Hsub & Hdone)]. split; [done|].
  intros st Hst Hk Hown. split.
  - destruct (Hdone st Hst) as [Hin|?]; [|done]. destruct Hk. apply list_elem_of_fmap. eauto.
  - by eapply resume_frame.
Qed.

End store_effects.

(** ** The environment on the supervisor's command line *)
(** The environment prefix of a job whose env was encoded by [encode_env]
    is [ktest_deps_dir] followed by the bindings in key order, each as
    [K=V ]. *)
Theorem job_env_prefix_encoded env s ws :
  encode_env env = Ok s →
  job_env_prefix s ws = "ktest_deps_dir=$HOME/" +:+ ws +:+ " " +:+
                        String.concat "" ((λ kv, render_pair kv +:+ " ") <$> bt_iter env).
Proof.
  intros H. unfold job_env_prefix. change (filter _ (split "," s)) with (env_pairs s).
  rewrite (env_pairs_encode _ _ H).
  transitivity (("ktest_deps_dir=$HOME/" +:+ ws +:+ " ") +:+
                String.concat "" ((λ kv, render_pair kv +:+ " ") <$> bt_iter env));
    [|by rewrite !str_app_assoc].
  generalize ("ktest_deps_dir=$HOME/" +:+ ws +:+ " ") as pre.
  induction (bt_iter env) as [|kv l IH]; intros pre; [by rewrite str_app_nil_r|].
  assert (∀ x (ys : list string), String.concat "" (x :: ys) = x +:+ String.concat "" ys) as Hc.
  { intros x [|y ys]; [by rewrite str_app_nil_r|done]. }
  rewrite !fmap_cons, Hc. cbn [foldl]. by rewrite IH, !str_app_assoc.
Qed.

(** ** A concrete batch: the pull brings a verdict for the first of two
    subtests, and never one for the second *)
Section witnesses.
#[local] Existing Instance plain_os.
#[local] Existing Instance demo_codec.
#[local] Existing Instance demo_chrono.

Definition demo_pull (c : Command) (s : dstate) : dstate :=
  if decide (program c = "bash") then
    mkD (d_store s) (set_fs (d_world s)
      (write (w_fs (d_world s)) 9 ["out"; c1; "boot.a"; "status"] ("PASSED" +:+ nl)).1)
  else s.
Definition demo_jobkit : Jobkit := {|
  log_path := ["out"; "log"]; log_offset _ := 0%Z; log_line _ s := s;
  run_command c s := (inr (Some 0%Z), demo_pull c s); brotli b := b;
  error_text e := match e with Retry m | Fatal m => m end
|}.
#[local] Existing Instance demo_jobkit.

Definition demo_params (subtest : string) : JobParams :=
  mkParams "linux" c1 "" "" "boot.ktest" subtest "url" "" ["out"].
Definition demo_batch : list ClaimedJob :=
  [mkClaimed 1 (demo_params "a"); mkClaimed 2 (demo_params "b")].
Definition demo_start : dstate := mkD demo_store demo_world.

Lemma demo_owned c k : owned c k.
Proof.
  split; [|done]. intros cmd s. unfold status_at. cbn. unfold demo_pull. by case_decide.
Qed.
Lemma demo_uniform : uniform (demo_params "a") demo_batch.
Proof. by intros j [->|[->|[]%elem_of_nil]%elem_of_cons]%elem_of_cons. Qed.
(** The job reports that the second pass completed nothing; the first subtest
    keeps its verdict and the second is recorded as failed to run. *)
Definition demo_end (r : option (outcome TaskError () * dstate)) : bool :=
  match r with
  | Some (Err (Retry _), s) =>
      bool_decide (status_at s c1 "boot.a" = Some Passed) &&
      bool_decide (status_at s c1 "boot.b" = Some FailedToRun)
  | _ => false
  end.
Lemma demo_job_end : demo_end (run_ktest_job "host" 0 demo_batch demo_start) = true.
Proof. computed. Qed.

Lemma run_ktest_job_settles_witness :
  ∃ r s', run_ktest_job "host" 0 demo_batch demo_start = Some (r, s') ∧
    (∃ v, status_at s' c1 "boot.b" = Some v ∧ v ∈ [Passed; Failed; Notrun; FailedToRun; Unknown]) ∧
    status_at s' c1 "boot.b" ≠ Some Inprogress.
Proof.
  pose proof demo_job_end as He.
  destruct (run_ktest_job "host" 0 demo_batch demo_start) as [[r s']|] eqn:E; [|discriminate He].
  exists r, s'. split; [reflexivity|].
  assert (mkClaimed 2 (demo_params "b") ∈ demo_batch) as Hin by by right; left.
  assert (r ≠ Panic) as Hr by (intros ->; discriminate He).
  destruct (run_ktest_job_settles "host" 0 _ _ _ _ _ demo_uniform (λ j _, demo_owned _ _) E Hr) as [_ Hall].
  destruct (Hall _ Hin) as [Hnot Hv]. split; [|exact Hnot]. apply Hv. discriminate.
Defined.
(** The path of the first subtest's verdict stays, as the failure is recorded
    for the second; and a subtest of another test keeps its status. *)
Definition demo_tail : dstate :=
  match run_ktest_job_inner "host" 0 (demo_params "a") demo_batch demo_start with
  | Some (_, s1) =>
      ((_ ← run (ssh_cmd "host" ("rm -rf " +:+ workspace 0 +:+ "/ktest-tmp") false);
        fallback_logs "host" 0 (demo_params "a") demo_batch (log_offset demo_start)) s1).2
  | None => demo_start
  end.
Definition no_link (v : option node) : bool := match v with Some (NSymlink _) => false | _ => true end.
Lemma demo_tail_ok :
  let tmp := capnp_tmp_path (output_dir (d_store demo_tail)) c1 (w_seq (d_world demo_tail)) in
  let f := w_fs (d_world demo_tail) in
  bool_decide (f !! tmp = None) && forallb (λ j, no_link (f !! status_file (demo_params "a") j) &&
    bool_decide (¬ tmp `prefix_of` status_file (demo_params "a") j)) demo_batch &&
  bool_decide (["out"; c1; "boot.a"; "status"] ≠ capnp_path (output_dir (d_store demo_tail)) c1) &&
  bool_decide (["out"; c1; "boot.a"; "status"] ≠ tmp) &&
  bool_decide (status_at demo_tail c1 "boot.a" ≠ Some Inprogress) &&
  bool_decide (is_Some (f !! ["out"; c1; "boot.a"; "status"])) = true.
Proof. computed. Qed.
Lemma run_ktest_job_frame_witness :
  ∃ r s', run_ktest_job "host" 0 demo_batch demo_start = Some (r, s') ∧
    status_at s' c1 "boot.c" = status_at demo_start c1 "boot.c" ∧
    w_fs (d_world s') !! ["out"; c1; "boot.a"; "status"] =
    w_fs (d_world demo_tail) !! ["out"; c1; "boot.a"; "status"].
Proof.
  pose proof demo_job_end as He. pose proof demo_tail_ok as Ht. cbn zeta in Ht.
  destruct (run_ktest_job "host" 0 demo_batch demo_start) as [[r s']|] eqn:E; [|discriminate He].
  exists r, s'. split; [reflexivity|].
  assert (r ≠ Panic) as Hr by (intros ->; discriminate He).
  destruct (run_ktest_job_frame "host" 0 _ _ _ _ _ demo_uniform E Hr)
    as (Hmem & s1 & s2 & Hinner & Htail & _ & _ & Hdisk).
  split.
  - apply (Hmem _ _ (demo_owned _ _)). intros [_ H]. revert H. apply (bool_decide_eq_false_1 _). computed.
  - assert (demo_tail = s2) as Heq.
    { unfold demo_tail. unfold demo_batch at 1. change (demo_params "a") with (payload (mkClaimed 1 (demo_params "a"))) at 1.
      rewrite Hinner. exact (f_equal snd Htail). }
    rewrite <-Heq in Hdisk. clear Heq. rename Ht into Hb.
    apply andb_true_iff in Hb as [Hb H6%bool_decide_eq_true].
    apply andb_true_iff in Hb as [Hb H5%bool_decide_eq_true].
    apply andb_true_iff in Hb as [Hb H4%bool_decide_eq_true].
    apply andb_true_iff in Hb as [Hb H3%bool_decide_eq_true].
    apply andb_true_iff in Hb as [H1%bool_decide_eq_true H2].
    rewrite forallb_forall in H2.
    assert (∀ j, j ∈ demo_batch → job_key j = "boot.a" ∨ job_key j = "boot.b") as Hkeys.
    { intros j [->|[->|[]%elem_of_nil]%elem_of_cons]%elem_of_cons; [by left|by right]. }
    destruct (Hdisk ltac:(by split_and!) H1) with (q := ["out"; c1; "boot.a"; "status"])
      as [Hq|(j & Hj & Hin & Hc)]; [| |exact H3|exact H4|exact Hq|].
    + intros j t Hj Hl. apply list_elem_of_In, H2, andb_true_iff in Hj as [Hj _].
      cbn [payload] in Hl. rewrite Hl in Hj. discriminate Hj.
    + intros j Hj. apply list_elem_of_In, H2, andb_true_iff in Hj as [_ Hj].
      by apply bool_decide_eq_true in Hj.
    + exfalso. destruct (Hkeys j Hj) as [Hk|Hk]; rewrite Hk in Hin, Hc.
      * by apply H5.
      * destruct Hc as [[Hc _]|(_ & Hn & _)].
        { revert Hc. apply (bool_decide_eq_false_1 _). computed. }
        rewrite Hn in H6. destruct H6 as [v H6]. discriminate H6.
Defined.

(** A pull that fails after it has brought a verdict: the store still has the
    subtest in progress, so the failure is recorded for it, and the verdict on
    disk is overwritten too. *)
Definition cut_jobkit : Jobkit := {|
  log_path := ["out"; "log"]; log_offset _ := 0%Z; log_line _ s := s;
  run_command c s := (inr (Some (if decide (program c = "bash") then 2%Z else 0%Z)), demo_pull c s);
  brotli b := b; error_text e := match e with Retry m | Fatal m => m end
|}.
Definition demo_cut : bool :=
  match run_ktest_job (JK := cut_jobkit) "host" 0 demo_batch demo_start with
  | Some (Err (Retry _), s) =>
      bool_decide (read (w_fs (demo_pull (pull_cmd "host" "ws" (demo_params "a") ["a"; "b"])
            (prepare "host" 0 (demo_params "a") ["a"; "b"] demo_start).2).(d_world))
                     ["out"; c1; "boot.a"; "status"] = Some ("PASSED" +:+ nl)) &&
      bool_decide (status_at s c1 "boot.a" = Some FailedToRun) &&
      bool_decide (read (w_fs (d_world s)) ["out"; c1; "boot.a"; "status"] = Some ("FAILED TO RUN" +:+ nl))
  | _ => false
  end.
Lemma pulled_verdict_overwritten : demo_cut = true.
Proof. computed. Qed.

(** The second subtest's directory and the first's, as the job marks them. *)
Definition demo_marked : dstate :=
  (prepare "host" 0 (demo_params "a") ["a"; "b"] demo_start).2.
Definition demo_iterate (s : dstate) : outcome TaskError (list string) * dstate :=
  iteration "host" 0 (demo_params "a") 9 "a" ["a"; "b"] s.
Definition demo_resume (s : dstate) : option (outcome TaskError () * dstate) :=
  resume 9 "host" 0 (demo_params "a") 9 false ["b"] s.
Lemma demo_passes :
  match demo_iterate demo_marked with
  | (Ok next, s) => bool_decide (next = ["b"]) && bool_decide (is_Some (demo_resume s))
  | _ => false
  end = true.
Proof. computed. Qed.
Lemma demo_kept : key_of (demo_params "a") "a" ∉ keys_of (demo_params "a") ["b"].
Proof. apply (bool_decide_eq_false_1 _). computed. Qed.
Lemma first_verdict_stands_witness :
  ∃ s1 r s', demo_iterate demo_marked = (Ok ["b"], s1) ∧ demo_resume s1 = Some (r, s') ∧
    settled s1 c1 (key_of (demo_params "a") "a") ∧
    status_at s' c1 (key_of (demo_params "a") "a") = status_at s1 c1 (key_of (demo_params "a") "a").
Proof.
  pose proof demo_passes as Hp. generalize demo_marked, Hp. clear Hp. intros s Hp.
  destruct (demo_iterate s) as [[next|e|] s1] eqn:Ei; [|discriminate Hp..].
  apply andb_true_iff in Hp as [->%bool_decide_eq_true [[r s'] E]%bool_decide_eq_true].
  exists s1, r, s'. split; [reflexivity|]. split; [exact E|].
  refine (proj2 (first_verdict_stands 9 "host" 0 (demo_params "a") 9 "a" false ["a"; "b"] s ["b"]
                   s1 r s' Ei E) "a" _ demo_kept (demo_owned _ _)).
  by left.
Defined.
End witnesses.

Lemma job_env_prefix_encoded_witness :
  job_env_prefix "BAR=x,FOO=1" "ktest-ci/0" = "ktest_deps_dir=$HOME/ktest-ci/0 BAR=x FOO=1 ".
Proof.
  transitivity ("ktest_deps_dir=$HOME/" +:+ "ktest-ci/0" +:+ " " +:+
                String.concat "" ((λ kv, render_pair kv +:+ " ") <$> bt_iter env_example)).
  - apply job_env_prefix_encoded. computed.
  - computed.
Defined.

End Daemon.
