(* ===== verification/Sched.v ===== *)
(** * The daemon's window of jobs (src/src/bin/ci-daemon.rs)

    How desired jobs become jobkit jobs, how the window is topped up, and the
    rest of the daemon's main thread: executors, status file, branch fetches. *)

From Stdlib Require Import SpecFloat.
From S2P Require Import Prelude.
From S2P Require Import RustStr.
From S2P Require Import F64.
From S2P Require Import Status.
From S2P Require Import Fs.
From S2P Require Import Config.
From S2P Require Import Store.
From S2P Require Import Stats.
From S2P Require Import Git.
From S2P Require Import Jobs.
From S2P Require Import Daemon.

Module Sched.
Import Str F64 Status Fs Config Store Stats Git Jobs Daemon.

Definition WINDOW : nat := 2000.
Definition nul : string := String "000" "".

(** [JobSpec::new(name, params)] and its builder methods *)
Record JobSpec : Type := mkJobSpec {
  js_name : string; js_params : JobParams; js_batch_key : string; js_cost : spec_float;
  js_group : string; js_weight : spec_float
}.

Definition batch_key (k : JobKey) : string :=
  k_user k +:+ nul +:+ k_repo k +:+ nul +:+ k_commit k +:+ nul +:+ k_kernel k +:+ nul +:+
  k_env k +:+ nul +:+ k_test k.
Definition job_params (rc : CiConfig) (k : JobKey) : JobParams :=
  mkParams (k_repo k) (k_commit k) (k_kernel k) (k_env k) (k_test k) (k_subtest k)
    (default "" (repo_path_url (ktest rc) (k_repo k))) (default "" (ktest_url (ktest rc)))
    (Config.output_dir (ktest rc)).
Definition job_user_nice (rc : CiConfig) (j : Job) : Z :=
  addi64 (j_nice j) (default 0%Z (user_nice (ktest rc) !! k_user (key j))).
Definition make_job_spec (rc : CiConfig) (job : Job) : outcome Empty_set JobSpec :=
  let k := key job in
  short ← short_commit (k_commit k);
  Ok (mkJobSpec (short +:+ " " +:+ k_test k +:+ " " +:+ k_subtest k) (job_params rc k)
        (batch_key k) (f64_of (j_duration job)) (k_user k)
        (f64_max (f64_add (f64_of 1) (f64_of (job_user_nice rc job))) (f64_div 1 10))).

(** jobkit's Choir, as far as the main thread uses it: dropping finished jobs,
    the ids of the jobs there are, and submitting, which gives a new id. *)
Class ChoirOps : Type := {
  Choir : Type;
  remove_finished : Choir → Choir;
  job_ids : Choir → gset Z;
  submit : Choir → JobSpec → Z * Choir;
  job_spec : Choir → Z → option JobSpec;
  remove_finished_ids c : job_ids (remove_finished c) ⊆ job_ids c;
  remove_finished_spec c i : i ∈ job_ids (remove_finished c) → job_spec (remove_finished c) i = job_spec c i;
  submit_fresh c s : (submit c s).1 ∉ job_ids c;
  submit_ids c s : job_ids (submit c s).2 = {[ (submit c s).1 ]} ∪ job_ids c;
  submit_spec c s i :
    job_spec (submit c s).2 i = if decide (i = (submit c s).1) then Some s else job_spec c i
}.

Section sched.
Context {OS : OsEnv} {CD : Codec test_results} {CH : Chrono} {DD : Codec durations}.
Context {G : Git2} {LT : ListTests} {CO : ChoirOps}.

Fixpoint submit_all (rc : CiConfig) (choir : Choir) (job_map : gmap JobKey Z) (desired : list Job) :
    outcome Empty_set (Choir * gmap JobKey Z) :=
  match desired with
  | [] => Ok (choir, job_map)
  | job :: desired =>
      if decide (is_Some (job_map !! key job)) then submit_all rc choir job_map desired
      else
        spec ← make_job_spec rc job;
        let '(id, choir) := submit choir spec in
        submit_all rc choir (<[key job := id]> job_map) desired
  end.
Definition refill (rc : CiConfig) (f : fs) (store : TestResultsStore) (window : nat)
    (choir : Choir) (job_map : gmap JobKey Z) (cache : subtest_cache) :
    outcome Empty_set (Choir * gmap JobKey Z) * subtest_cache :=
  let choir := remove_finished choir in
  let existing := job_ids choir in
  let job_map := filter (λ kv, kv.2 ∈ existing) job_map in
  let '(desired, cache) := desired_jobs rc f store window cache in
  (desired ← desired; submit_all rc choir job_map desired, cache).

(** ** The status file *)
Definition write_status (rc : CiConfig) (json : option string) (f : fs) (t : Z) : fs :=
  match json with
  | None => f
  | Some json =>
      let path := path_join (Config.output_dir (ktest rc)) "ci-daemon-status.json" in
      let tmp := with_extension path "json.new" in
      match write f t tmp json with
      | (f, true) => (rename f tmp path).1
      | (f, false) => f
      end
  end.

(** ** Executors: a name, a host and a slot for each slot of each host *)
Definition executors_of (rc : CiConfig) : list (string * string * nat) :=
  h ← bt_iter (executors (ktest rc));
  (λ slot, (h.1 +:+ ":" +:+ of_u64 (Z.of_nat slot), h.1, slot)) <$> seq 0 (Z.to_nat (slots h.2)).
Definition prewarm_cmds (rc : CiConfig) : list Command :=
  (λ host, mkCommand "timeout" (["30"; "ssh"] ++ SSH_OPTS ++ [host; "true"]) true) <$>
  bt_keys (executors (ktest rc)).

(** ** Fetching branches *)
Definition fetch_list_branch (rc : CiConfig) (user : string) (b : string * RcBranch) :
    option (string * string * path * string) :=
  p ← repo_path (ktest rc) (repo b.2); Some (user, b.1, p, fetch b.2).
Definition fetch_list_user (rc : CiConfig) (u : string * outcome config_error Userrc) :
    list (string * string * path * string) :=
  match u.2 with
  | Ok uc => omap (fetch_list_branch rc u.1) (bt_iter (branches uc))
  | _ => []
  end.
(** The branches [spawn_repo_fetcher] snapshots for its thread. *)
Definition fetch_list (rc : CiConfig) : list (string * string * path * string) :=
  bt_iter (users rc) ≫= fetch_list_user rc.

Definition fetch_cmd (path : path) (fetch : string) : Command :=
  mkCommand "git" (["-C"; display path; "fetch"] ++ split_whitespace fetch) false.

(** ** The batch key *)
Lemma nul_split a a' b b' :
  contains_char a "000" = false → contains_char a' "000" = false →
  a +:+ nul +:+ b = a' +:+ nul +:+ b' → a = a' ∧ b = b'.
Proof.
  unfold nul. rewrite !str_app_cons, !str_app_nil_l. intros Ha Ha' H.
  pose proof (f_equal (split "000") H) as Hs. rewrite !split_app in Hs by done.
  injection Hs as -> _. apply (inj _) in H. by injection H.
Qed.
Definition no_nul (k : JobKey) : Prop :=
  Forall (λ s, contains_char s "000" = false)
    [k_user k; k_repo k; k_commit k; k_kernel k; k_env k].
Lemma batch_key_eq k k' :
  no_nul k → no_nul k' →
  batch_key k = batch_key k' ↔
  k' = mkJobKey (k_user k) (k_repo k) (k_commit k) (k_kernel k) (k_env k) (k_test k) (k_subtest k').
Proof.
  intros Hk Hk'. unfold no_nul in *. rewrite !Forall_cons in Hk, Hk'.
  destruct Hk as (H1 & H2 & H3 & H4 & H5 & _), Hk' as (G1 & G2 & G3 & G4 & G5 & _).
  destruct k, k'. unfold batch_key. cbn [k_user k_repo k_commit k_kernel k_env k_test k_subtest] in *.
  split; [|by intros [= -> -> -> -> -> ->]].
  intros (-> & (-> & (-> & (-> & (-> & ->)%nul_split)%nul_split)%nul_split)%nul_split)%nul_split; done.
Qed.
(** Two jobs share a batch key exactly when they differ in the subtest
    only, so that what one executor claims runs in one VM with one kernel,
    environment, commit and test file. *)
Theorem batch_key_injective rc j j' s s' :
  no_nul (key j) → no_nul (key j') →
  make_job_spec rc j = Ok s → make_job_spec rc j' = Ok s' →
  js_batch_key s = js_batch_key s' ↔
  key j' = mkJobKey (k_user (key j)) (k_repo (key j)) (k_commit (key j)) (k_kernel (key j))
             (k_env (key j)) (k_test (key j)) (k_subtest (key j')).
Proof.
  unfold make_job_spec. intros Hj Hj' H H'.
  apply outcome_bind_Ok in H as (n & _ & [= <-]). apply outcome_bind_Ok in H' as (n' & _ & [= <-]).
  by apply batch_key_eq.
Qed.

(** ** The window *)
(** The job map names live jobs, each for the job of its key. *)
Record tracked (rc : CiConfig) (choir : Choir) (job_map : gmap JobKey Z) : Prop := {
  tr_live k i : job_map !! k = Some i → i ∈ job_ids choir;
  tr_inj k k' i : job_map !! k = Some i → job_map !! k' = Some i → k = k';
  tr_spec k i : job_map !! k = Some i →
    ∃ s, job_spec choir i = Some s ∧ js_params s = job_params rc k
}.
Lemma make_job_spec_ok rc job s :
  make_job_spec rc job = Ok s → js_params s = job_params rc (key job).
Proof. unfold make_job_spec. by intros (n & _ & [= <-])%outcome_bind_Ok. Qed.
Lemma submit_all_spec rc choir job_map desired choir' job_map' :
  tracked rc choir job_map → submit_all rc choir job_map desired = Ok (choir', job_map') →
  tracked rc choir' job_map' ∧ job_map ⊆ job_map' ∧
  (∀ j, j ∈ desired → is_Some (job_map' !! key j)) ∧
  (∀ k, is_Some (job_map' !! k) → is_Some (job_map !! k) ∨ k ∈ key <$> desired) ∧
  job_ids choir ⊆ job_ids choir' ∧
  size (job_ids choir') = size (job_ids choir) + (size job_map' - size job_map).
Proof.
  revert choir job_map. induction desired as [|job desired IH]; intros choir m Ht H; cbn [submit_all] in H.
  { injection H as <- <-. split_and!; [done|done|by intros ? []%elem_of_nil|auto|done|lia]. }
  destruct (decide (is_Some (m !! key job))) as [Hin|Hout].
  - destruct (IH _ _ Ht H) as (H1 & H2 & H3 & H4 & H5 & H6). split_and!; [done..| | |done|done].
    + intros j [->|?]%elem_of_cons; [|auto]. destruct Hin as [i Hi]. exists i. by eapply lookup_weaken.
    + intros k Hk. rewrite fmap_cons, elem_of_cons. destruct (H4 k Hk); auto.
  - apply outcome_bind_Ok in H as (spec & Hspec & H).
    pose proof (submit_fresh choir spec) as Hfresh. pose proof (submit_ids choir spec) as Hids.
    pose proof (submit_spec choir spec) as Hsp.
    destruct (submit choir spec) as [id choir1]. cbn [fst snd] in *.
    assert (m !! key job = None) as Hnone by by apply eq_None_not_Some.
    assert (tracked rc choir1 (<[key job := id]> m)) as Ht1.
    { destruct Ht as [T1 T2 T3]. split.
      - intros k i [[<- <-]|[_ Hk]]%lookup_insert_Some; rewrite Hids; [set_solver|].
        apply T1 in Hk. set_solver.
      - intros k k' i [[<- <-]|[Hk Hi]]%lookup_insert_Some [[<- Heq]|[Hk' Hi']]%lookup_insert_Some;
          [done|exfalso|exfalso|by eapply T2].
        + by apply Hfresh, (T1 k').
        + subst i. by apply Hfresh, (T1 k).
      - intros k i [[<- <-]|[_ Hk]]%lookup_insert_Some; rewrite Hsp.
        + rewrite decide_True by done. exists spec. split; [done|]. by apply make_job_spec_ok.
        + rewrite decide_False; [by apply T3|]. intros ->. by apply Hfresh, (T1 k). }
    destruct (IH _ _ Ht1 H) as (H1 & H2 & H3 & H4 & H5 & H6).
    assert (m ⊆ <[key job := id]> m) as Hsub by by apply insert_subseteq.
    split_and!; [done|by etrans| | | |].
    + intros j [->|?]%elem_of_cons; [|auto]. exists id. eapply lookup_weaken; [|done].
      by rewrite lookup_insert_eq.
    + intros k Hk. rewrite fmap_cons, elem_of_cons.
      destruct (H4 k Hk) as [[i Hi]|?]; [|auto]. rewrite lookup_insert in Hi.
      case_decide; [by subst; right; left|left; eauto].
    + rewrite Hids in H5. set_solver.
    + rewrite H6, Hids, size_union by set_solver. rewrite size_singleton, map_size_insert_None by done.
      apply map_subseteq_size in H2. rewrite map_size_insert_None in H2 by done. lia.
Qed.

(** Dropping the finished jobs. *)
Lemma filter_tracked rc choir job_map :
  tracked rc choir job_map →
  tracked rc (remove_finished choir) (filter (λ kv, kv.2 ∈ job_ids (remove_finished choir)) job_map).
Proof.
  intros [T1 T2 T3]. split.
  - by intros k i [_ ?]%map_lookup_filter_Some.
  - intros k k' i [Hk _]%map_lookup_filter_Some [Hk' _]%map_lookup_filter_Some. by eapply T2.
  - intros k i [Hk Hi]%map_lookup_filter_Some. cbn in Hi.
    rewrite remove_finished_spec by done. by apply T3.
Qed.
(** C10: topping up the window. After a refill every desired job is tracked by
    exactly one job of the choir, made from its own parameters; every tracked
    job is one that exists; and the choir has grown by exactly the desired jobs
    that were not tracked, so a job that is pending or running is never
    submitted a second time. *)
Theorem refill_correct rc f store window choir job_map cache desired cache1 choir' job_map' cache2 :
  tracked rc choir job_map →
  desired_jobs rc f store window cache = (Ok desired, cache1) →
  refill rc f store window choir job_map cache = (Ok (choir', job_map'), cache2) →
  tracked rc choir' job_map' ∧
  (∀ j, j ∈ desired → is_Some (job_map' !! key j)) ∧
  (∀ k i, job_map !! k = Some i → i ∈ job_ids (remove_finished choir) → job_map' !! k = Some i) ∧
  size (job_ids choir') =
    size (job_ids (remove_finished choir)) +
    size (filter (λ k, job_map !! k ≫= (λ i, guard (i ∈ job_ids (remove_finished choir));; Some i) = None)
                 (list_to_set (C := gset JobKey) (key <$> desired))).
Proof.
  intros Ht Hd H. unfold refill in H. rewrite Hd in H. cbn [mbind outcome_bind] in H.
  injection H as H _. set (m := filter _ job_map) in *.
  pose proof (filter_tracked rc choir job_map Ht : tracked rc (remove_finished choir) m) as Ht1.
  destruct (submit_all_spec _ _ _ _ _ _ Ht1 H) as (H1 & H2 & H3 & H4 & _ & H6).
  split_and!; [done|done| |].
  - intros k i Hk Hi. eapply lookup_weaken; [|exact H2]. by apply map_lookup_filter_Some.
  - rewrite H6. f_equal. rewrite <-(size_dom (D := gset JobKey) m), <-(size_dom (D := gset JobKey) job_map').
    rewrite <-size_difference by (by apply subseteq_dom). f_equal. apply leibniz_equiv. intros k.
    rewrite elem_of_difference, !elem_of_dom, elem_of_filter, elem_of_list_to_set.
    assert (is_Some (m !! k) ↔ is_Some (job_map !! k ≫= (λ i, guard (i ∈ job_ids (remove_finished choir));; Some i))) as Hm.
    { unfold m. rewrite map_lookup_filter. done. }
    rewrite Hm, <-eq_None_not_Some. split.
    + intros [Hk Hn]. split; [done|]. destruct (H4 k Hk) as [Hk'|?]; [|done].
      apply Hm in Hk'. rewrite Hn in Hk'. by destruct Hk'.
    + intros [Hn (j & -> & Hj)%list_elem_of_fmap]. split; [by apply H3|done].
Qed.

(** The branches the fetcher fetches: those of the readable user configs whose
    repository is configured. *)
Lemma elem_of_fetch_list rc user branch p fetch :
  (user, branch, p, fetch) ∈ fetch_list rc ↔
  ∃ uc b, users rc !! user = Some (Ok uc) ∧ branches uc !! branch = Some b ∧
    repo_path (ktest rc) (repo b) = Some p ∧ fetch = Config.fetch b.
Proof.
  unfold fetch_list. rewrite list_elem_of_bind. split.
  - intros ([u uo] & Hin & Hu%elem_of_bt_iter). unfold fetch_list_user in Hin. cbn in Hin.
    destruct uo as [uc|e|]; [|by apply elem_of_nil in Hin..].
    apply list_elem_of_omap in Hin as ([bn b] & Hb%elem_of_bt_iter & Hf).
    unfold fetch_list_branch in Hf. cbn in Hf.
    destruct (repo_path (ktest rc) (repo b)) as [q|] eqn:E; [|done]. cbn in Hf. simplify_eq.
    eauto 10.
  - intros (uc & b & Hu & Hb & Hp & ->). exists (user, Ok uc).
    split; [|by apply elem_of_bt_iter]. unfold fetch_list_user. cbn.
    apply list_elem_of_omap. exists (branch, b). split; [by apply elem_of_bt_iter|].
    unfold fetch_list_branch. cbn. by rewrite Hp.
Qed.

End sched.

(** ** A choir kept as a map from ids to jobs, and whether they are finished *)
#[local] Instance demo_choir_ops : ChoirOps.
Proof.
  refine {|
    Choir := gmap Z (JobSpec * bool);
    remove_finished c := filter (λ kv, kv.2.2 = false) c;
    job_ids c := dom c;
    submit c s := let id := fresh (dom c) in (id, <[id := (s, false)]> c);
    job_spec c i := fst <$> c !! i
  |}.
  - intros c. apply dom_filter_subseteq.
  - intros c i [[x b] H]%elem_of_dom. rewrite H.
    by apply map_lookup_filter_Some in H as [-> _].
  - intros c s. apply is_fresh.
  - intros c s. apply dom_insert_L.
  - intros c s i. cbn. destruct (decide (i = fresh (dom c))) as [->|Hi].
    + by rewrite lookup_insert_eq.
    + by rewrite lookup_insert_ne by done.
Defined.

Section witnesses.
#[local] Existing Instance plain_os.
#[local] Existing Instance demo_codec.
#[local] Existing Instance demo_chrono.
#[local] Existing Instance demo_durations_codec.
#[local] Instance demo_repo : Git2 := demo_git [c1; c2].
#[local] Existing Instance demo_list.

Definition demo_spec (subtest : string) : JobSpec :=
  mkJobSpec "" (job_params demo_ci (key (demo_job subtest))) "" (f64_of 1) "" (f64_of 1).
(** Job 7 is the desired one and still runs; job 8 is done. *)
Definition demo_choir : Choir := {[ 7%Z := (demo_spec "a", false); 8%Z := (demo_spec "b", true) ]}.
Definition demo_jobs : gmap JobKey Z :=
  {[ key (demo_job "a") := 7%Z; key (demo_job "b") := 8%Z ]}.
Lemma demo_tracked : tracked demo_ci demo_choir demo_jobs.
Proof.
  assert (∀ k i, demo_jobs !! k = Some i →
            (k = key (demo_job "a") ∧ i = 7%Z) ∨ (k = key (demo_job "b") ∧ i = 8%Z)) as Hk.
  { unfold demo_jobs. intros k i [[<- <-]|[_ [<- <-]%lookup_singleton_Some]]%lookup_insert_Some; auto. }
  split.
  - intros k i [[_ ->]|[_ ->]]%Hk; decided.
  - intros k k' i [[-> ->]|[-> ->]]%Hk [[-> ?]|[-> ?]]%Hk; done.
  - intros k i [[-> ->]|[-> ->]]%Hk; eexists; by split.
Qed.
Lemma demo_refill (window : nat) :
  window = 2 → is_ok (refill demo_ci (w_fs demo_world) demo_store window demo_choir demo_jobs ∅).1 &&
  match (desired_jobs demo_ci (w_fs demo_world) demo_store window ∅).1 with
  | Ok desired => bool_decide (key <$> desired = [key (demo_job "a"); key (demo_job "b")])
  | _ => false
  end = true.
Proof. intros ->. computed. Qed.

Lemma refill_correct_witness :
  ∃ choir' job_map' cache',
    refill demo_ci (w_fs demo_world) demo_store 2 demo_choir demo_jobs ∅ =
      (Ok (choir', job_map'), cache') ∧
    is_Some (job_map' !! key (demo_job "b")) ∧ job_map' !! key (demo_job "a") = Some 7%Z.
Proof.
  pose proof (demo_refill 2 eq_refl) as [H1 H2]%andb_true_iff.
  destruct (refill demo_ci _ demo_store 2 demo_choir demo_jobs ∅) as [[[choir' m]|[]|] cache2] eqn:E;
    [|discriminate H1].
  destruct (desired_jobs demo_ci _ demo_store 2 ∅) as [[desired|[]|] cache1] eqn:Ed; [|discriminate H2].
  apply bool_decide_eq_true in H2. cbn [fst] in H2.
  exists choir', m, cache2. split; [reflexivity|].
  destruct (refill_correct demo_ci _ demo_store 2 demo_choir demo_jobs ∅ _ _ _ _ _
              demo_tracked Ed E) as (_ & Hin & Hold & _).
  split.
  { assert (key (demo_job "b") ∈ key <$> desired) as (j & -> & Hj)%list_elem_of_fmap
      by (rewrite H2; by right; left). by apply Hin. }
  apply Hold; [by apply lookup_insert_eq|].
  decided.
Defined.
Lemma batch_key_injective_witness :
  ∃ s s', make_job_spec demo_ci (demo_job "a") = Ok s ∧ make_job_spec demo_ci (demo_job "b") = Ok s' ∧
    js_batch_key s = js_batch_key s'.
Proof.
  destruct (make_job_spec demo_ci (demo_job "a")) as [s|[]|] eqn:E; [|by vm_compute in E].
  destruct (make_job_spec demo_ci (demo_job "b")) as [s'|[]|] eqn:E'; [|by vm_compute in E'].
  exists s, s'. split; [done|]. split; [done|].
  assert (∀ st, no_nul (key (demo_job st))) as Hn by (intros st; repeat constructor).
  by apply (batch_key_injective demo_ci (demo_job "a") (demo_job "b") s s' (Hn _) (Hn _) E E').
Defined.
End witnesses.
End Sched.
