(* ===== verification/Gc.v ===== *)
(** * Garbage collection of results (src/src/bin/gc-results.rs)

    Which commits are live, and what a run removes from the output directory. *)

From S2P Require Import Prelude.
From S2P Require Import RustStr.
From S2P Require Import Keys.
From S2P Require Import Status.
From S2P Require Import Fs.
From S2P Require Import Config.
From S2P Require Import Store.
From S2P Require Import Results.
From S2P Require Import Git.
From S2P Require Import Stats.
From S2P Require Import Jobs.
From S2P Require Import Branch.

Module Gc.
Import Str Keys Status Fs Config Store Results Git Branch.

Section gc.
Context {OS : OsEnv} {G : Git2}.

(** ** The live commits *)
Definition branch_get_commits (repo : repository) (branch : string) (max_commits : nat) :
    outcome Empty_set (list string) :=
  if negb (revwalk repo) then Panic
  else
    match git_get_commit repo branch with
    | None => Ok []
    | Some reference =>
        match walk_push repo reference with
        | None => Ok []
        | Some items => Ok (filter (λ i, is_Some (find_commit repo i))
                              (list.take max_commits (omap id items)))
        end
    end.
Definition gc_depth (rc : CiConfig) : nat := Z.to_nat (default 500%Z (keep_results_commits (ktest rc))).
Definition live_branch (rc : CiConfig) (user : string) (acc : gset string) (b : string * RcBranch) :
    outcome Empty_set (gset string) :=
  match repo_path (ktest rc) (repo b.2) with
  | None => Ok acc
  | Some path =>
      match open_repo path with
      | None => Ok acc
      | Some repo =>
          commits ← branch_get_commits repo (user +:+ "/" +:+ b.1) (gc_depth rc);
          Ok (list_to_set commits ∪ acc)
      end
  end.
Fixpoint live_branches (rc : CiConfig) (user : string) (acc : gset string)
    (l : list (string * RcBranch)) : outcome Empty_set (gset string) :=
  match l with
  | [] => Ok acc
  | b :: l => acc ← live_branch rc user acc b; live_branches rc user acc l
  end.
Fixpoint live_users (rc : CiConfig) (acc : gset string)
    (l : list (string * outcome config_error Userrc)) : outcome Empty_set (gset string) :=
  match l with
  | [] => Ok acc
  | (user, Ok uc) :: l => acc ← live_branches rc user acc (bt_iter (branches uc)); live_users rc acc l
  | _ :: l => live_users rc acc l
  end.
Definition get_live_commits (rc : CiConfig) : outcome Empty_set (gset string) :=
  live_users rc ∅ (bt_iter (users rc)).

(** ** The sweep *)
(** The answer, and the tree after the modification time of a live entry has
    been renewed. *)
Definition result_is_live (commits : gset string) (now : Z) (f : fs) (dir : path) (name : string) :
    outcome Empty_set bool * fs :=
  match to_text name with
  | None => (Ok false, f)
  | Some fname =>
      if String.length fname <? 40 then (Ok true, f)
      else
        match slice_to (E := Empty_set) fname 40 with
        | Ok commit => if decide (commit ∈ commits) then (Ok true, set_modified f (dir ++ [name]) now)
                       else (Ok false, f)
        | Err e => (Err e, f)
        | Panic => (Panic, f)
        end
  end.
Definition gc_entry (commits : gset string) (now older_than : Z) (dry_run : bool) (dir : path)
    (f : fs) (name : string) : outcome Empty_set fs :=
  match result_is_live commits now f dir name with
  | (Panic, _) => Panic
  | (Err e, _) => Err e
  | (Ok true, f) => Ok f
  | (Ok false, f) =>
      let d := dir ++ [name] in
      match modified f d with
      | None => Panic
      | Some t =>
          if (t <? older_than)%Z && negb dry_run then
            Ok (if is_dir f d then (remove_dir_all f d).1 else (remove_file f d).1)
          else Ok f
      end
  end.
Fixpoint gc_loop (commits : gset string) (now older_than : Z) (dry_run : bool) (dir : path)
    (f : fs) (names : list string) : outcome Empty_set fs :=
  match names with
  | [] => Ok f
  | n :: names => f ← gc_entry commits now older_than dry_run dir f n;
                  gc_loop commits now older_than dry_run dir f names
  end.
Definition gc_results (rc : CiConfig) (dry_run : bool) (now : Z) (f : fs) : outcome Empty_set fs :=
  commits ← get_live_commits rc;
  match read_dir f (Config.output_dir (ktest rc)) with
  | None => Panic
  | Some names => gc_loop commits now (now - 3600) dry_run (Config.output_dir (ktest rc)) f names
  end.

(** ** What is live *)
(** A commit is live when it is among the newest of some user's branch. *)
Definition live_via (rc : CiConfig) (c : string) : Prop :=
  ∃ user uc branch b path repo reference items,
    users rc !! user = Some (Ok uc) ∧ branches uc !! branch = Some b ∧
    repo_path (ktest rc) (Config.repo b) = Some path ∧ open_repo path = Some repo ∧
    git_get_commit repo (user +:+ "/" +:+ branch) = Some reference ∧
    walk_push repo reference = Some items ∧
    c ∈ list.take (gc_depth rc) (omap id items) ∧ is_Some (find_commit repo c).
Definition branch_lives (rc : CiConfig) (user : string) (b : string * RcBranch) (c : string) : Prop :=
  ∃ path repo reference items,
    repo_path (ktest rc) (Config.repo b.2) = Some path ∧ open_repo path = Some repo ∧
    git_get_commit repo (user +:+ "/" +:+ b.1) = Some reference ∧
    walk_push repo reference = Some items ∧
    c ∈ list.take (gc_depth rc) (omap id items) ∧ is_Some (find_commit repo c).
Lemma live_branch_spec rc user acc b acc' :
  live_branch rc user acc b = Ok acc' → ∀ c, c ∈ acc' ↔ branch_lives rc user b c ∨ c ∈ acc.
Proof.
  unfold live_branch, branch_get_commits, branch_lives. intros H c.
  destruct (repo_path _ _) as [p|]; [|simplify_eq; naive_solver].
  destruct (open_repo p) as [r|] eqn:Er; [|simplify_eq; naive_solver].
  apply outcome_bind_Ok in H as (l & Hl & [= <-]). rewrite elem_of_union, elem_of_list_to_set.
  destruct (negb (revwalk r)); [done|].
  destruct (git_get_commit r _) as [ref|] eqn:Eg; [|simplify_eq; set_solver].
  destruct (walk_push r ref) as [items|] eqn:Ew; [|simplify_eq; set_solver].
  injection Hl as <-. rewrite list_elem_of_filter. naive_solver.
Qed.
Lemma live_branches_spec rc user acc l acc' :
  live_branches rc user acc l = Ok acc' →
  ∀ c, c ∈ acc' ↔ (∃ b, b ∈ l ∧ branch_lives rc user b c) ∨ c ∈ acc.
Proof.
  revert acc. induction l as [|b l IH]; intros acc H c; cbn [live_branches] in H.
  { injection H as <-. set_solver. }
  apply outcome_bind_Ok in H as (acc1 & H1 & H). rewrite (IH _ H c), (live_branch_spec _ _ _ _ _ H1 c).
  set_solver.
Qed.
Lemma live_users_spec rc acc l acc' :
  live_users rc acc l = Ok acc' →
  ∀ c, c ∈ acc' ↔
    (∃ user uc b, (user, Ok uc) ∈ l ∧ b ∈ bt_iter (branches uc) ∧ branch_lives rc user b c) ∨ c ∈ acc.
Proof.
  revert acc. induction l as [|[user [uc|e|]] l IH]; intros acc H c; cbn [live_users] in H.
  { injection H as <-. set_solver. }
  - apply outcome_bind_Ok in H as (acc1 & H1 & H).
    rewrite (IH _ H c), (live_branches_spec _ _ _ _ _ H1 c). set_solver.
  - rewrite (IH _ H c). set_solver.
  - rewrite (IH _ H c). set_solver.
Qed.
Lemma get_live_commits_spec rc live :
  get_live_commits rc = Ok live → ∀ c, c ∈ live ↔ live_via rc c.
Proof.
  intros H c. rewrite (live_users_spec _ _ _ _ H c). unfold live_via. split.
  - intros [(user & uc & [bn b] & Hu%elem_of_bt_iter & Hb%elem_of_bt_iter & Hl)|?]; [|set_solver].
    destruct Hl as (? & ? & ? & ? & ?). exists user, uc, bn, b. eauto 10.
  - intros (user & uc & bn & b & p & r & ref & items & Hu & Hb & Hl). left.
    exists user, uc, (bn, b). rewrite !elem_of_bt_iter. unfold branch_lives. eauto 10.
Qed.

(** ** What a run does to the tree *)
Context (live : gset string) (now : Z) (dry_run : bool) (out : path).
Implicit Types (f g : fs) (n : string) (q : path).

(** An entry of the output directory that is not a commit's, or a live one's:
    its name is text, and shorter than an id or begins with a live id. *)
Definition spared (n : string) : bool :=
  match to_text n with
  | None => false
  | Some s => (String.length s <? 40) || bool_decide (take 40 s ∈ live)
  end.
(** An entry that is removed: not spared, an hour old, and not refused. *)
Definition doomed f n : bool :=
  negb (spared n) && negb dry_run && negb (io_denied (out ++ [n])) &&
  match modified f (out ++ [n]) with Some t => (t <? now - 3600)%Z | None => false end.
Definition renewed n : bool :=
  spared n && negb (String.length n <? 40) && negb (io_denied (out ++ [n])).
Definition after f n q : option node :=
  if doomed f n then None
  else if bool_decide (q = out ++ [n]) && renewed n then touched now <$> f !! q
  else f !! q.

(** A file or a directory, not a link, whose name can be cut at 40 bytes;
    nothing lies below a file. *)
Record plain_entry f n : Prop := {
  pe_there : is_Some (f !! (out ++ [n]));
  pe_link t : f !! (out ++ [n]) ≠ Some (NSymlink t);
  pe_cut : valid_utf8 n = true → 40 ≤ String.length n → is_char_boundary n 40 = true;
  pe_leaf d t k r : f !! (out ++ [n]) = Some (NFile d t) → f !! ((out ++ [n]) ++ k :: r) = None
}.

Lemma under_inj n m q : out ++ [n] `prefix_of` q → out ++ [m] `prefix_of` q → n = m.
Proof.
  intros [k ->] [k' H]. rewrite <-!app_assoc in H. apply app_inv_head in H. by injection H.
Qed.
Lemma slice_40 n :
  40 ≤ String.length n → is_char_boundary n 40 = true → slice_to (E := Empty_set) n 40 = Ok (take 40 n).
Proof. intros _ Hb. unfold slice_to. by rewrite Hb. Qed.

Lemma result_is_live_spec f n :
  plain_entry f n →
  ∃ g, result_is_live live now f out n = (Ok (spared n), g) ∧
       (∀ q, g !! q = if bool_decide (q = out ++ [n]) && renewed n then touched now <$> f !! q else f !! q).
Proof.
  intros [[v Hv] Hlink Hcut _]. unfold result_is_live, renewed, spared, to_text.
  destruct (valid_utf8 n) eqn:Hu; [|eexists; split; [done|intros q; by rewrite andb_false_r]].
  destruct (String.length n <? 40) eqn:Hlen.
  { eexists. split; [done|]. intros q. cbn. by rewrite andb_false_r. }
  apply Nat.ltb_ge in Hlen. rewrite slice_40 by auto. cbn [orb].
  destruct (decide (take 40 n ∈ live)) as [Hl|Hl].
  - rewrite bool_decide_eq_true_2 by done. eexists. split; [done|]. intros q. cbn.
    unfold set_modified. rewrite resolve_not_link, Hv by done.
    destruct (io_denied (out ++ [n])); [by rewrite andb_false_r|]. rewrite andb_true_r.
    destruct v as [d t|t|t]; [..|by destruct (Hlink t)].
    all: destruct (decide (q = out ++ [n])) as [->|Hq].
    1,3: by rewrite bool_decide_eq_true_2, lookup_insert_eq, Hv by done.
    all: by rewrite bool_decide_eq_false_2, lookup_insert_ne by done.
  - rewrite bool_decide_eq_false_2 by done. eexists. split; [done|]. intros q. by rewrite andb_false_r.
Qed.
Lemma remove_entry_spec f n g :
  plain_entry f n →
  g = (if is_dir f (out ++ [n]) then (remove_dir_all f (out ++ [n])).1 else (remove_file f (out ++ [n])).1) →
  ∀ q, g !! q = if bool_decide (out ++ [n] `prefix_of` q) && negb (io_denied (out ++ [n]))
                then None else f !! q.
Proof.
  intros [[v Hv] Hlink _ Hleaf] -> q. unfold is_dir, dir_node. rewrite resolve_not_link by done.
  assert (∃ x l, out ++ [n] = x :: l) as (x & l & Ep) by (destruct out; by eexists _, _).
  rewrite Ep at 1. rewrite Hv. unfold remove_dir_all, remove_file.
  destruct (io_denied (out ++ [n])); [rewrite andb_false_r; by destruct v|]. rewrite Hv, andb_true_r.
  destruct v as [d t|t|t]; [..|by destruct (Hlink t)]; cbn [fst].
  - destruct (decide (out ++ [n] `prefix_of` q)) as [[k ->]|Hp].
    + rewrite bool_decide_eq_true_2 by by eexists. destruct k as [|k r].
      * by rewrite app_nil_r, lookup_delete_eq.
      * rewrite lookup_delete_ne; [|intros H; rewrite <-(app_nil_r (out ++ [n])) in H at 1;
          by apply app_inv_head in H].
        by apply (Hleaf d t).
    + rewrite bool_decide_eq_false_2, lookup_delete_ne by (done || by intros <-). done.
  - destruct (decide (out ++ [n] `prefix_of` q)) as [Hp|Hp].
    + rewrite bool_decide_eq_true_2 by done. apply map_lookup_filter_None. right. intros w _ H. by apply H.
    + rewrite bool_decide_eq_false_2 by done. destruct (f !! q) as [w|] eqn:E.
      * by apply map_lookup_filter_Some.
      * apply map_lookup_filter_None. by left.
Qed.
Lemma gc_entry_spec f n :
  plain_entry f n →
  ∃ g, gc_entry live now (now - 3600) dry_run out f n = Ok g ∧
       ∀ q, g !! q = if bool_decide (out ++ [n] `prefix_of` q) then after f n q else f !! q.
Proof.
  intros Hp. destruct (result_is_live_spec f n Hp) as (g & Hl & Hg). unfold gc_entry. rewrite Hl.
  assert (∀ q, q = out ++ [n] → bool_decide (out ++ [n] `prefix_of` q) = true) as Hself
    by (intros q ->; by apply bool_decide_eq_true_2).
  unfold after, doomed. destruct (spared n) eqn:Hs; cbn [negb andb].
  { exists g. split; [done|]. intros q. rewrite Hg.
    destruct (decide (q = out ++ [n])) as [Hq|Hq].
    - by rewrite Hself by done.
    - rewrite (bool_decide_eq_false_2 (q = out ++ [n])) by done. cbn [andb]. by case_match. }
  assert (renewed n = false) as Hren by (unfold renewed; by rewrite Hs).
  assert (g = f) as -> by (apply map_eq; intros q; by rewrite Hg, Hren, andb_false_r).
  assert (is_Some (modified f (out ++ [n]))) as [t Ht].
  { destruct Hp as [[v Hv] Hlink _ _]. unfold modified. rewrite resolve_not_link, Hv by done.
    destruct v; [eauto..|by edestruct Hlink]. }
  rewrite Ht, Hren. destruct (t <? now - 3600)%Z; cbn [negb andb]; rewrite ?andb_false_r, ?andb_true_r.
  2:{ exists f. split; [done|]. intros q. rewrite ?andb_false_r. by repeat case_match. }
  destruct dry_run; cbn [negb andb].
  { exists f. split; [done|]. intros q. rewrite ?andb_false_r. by repeat case_match. }
  eexists. split; [done|]. intros q.
  rewrite (remove_entry_spec f n _ Hp eq_refl q).
  destruct (bool_decide (out ++ [n] `prefix_of` q)); [|done]. rewrite ?andb_false_r. cbn [andb]. by repeat case_match.
Qed.

Lemma plain_entry_ext f g n :
  (∀ q, out ++ [n] `prefix_of` q → g !! q = f !! q) → plain_entry f n → plain_entry g n.
Proof.
  intros Hg [H1 H2 H3 H4]. assert (out ++ [n] `prefix_of` out ++ [n]) as Hself by done.
  split; [by rewrite Hg|intros t; rewrite Hg by done; apply H2|done|].
  intros d t k r. rewrite (Hg _ Hself), Hg by by apply prefix_app_r. apply H4.
Qed.
Lemma after_ext f g n q :
  (∀ r, out ++ [n] `prefix_of` r → g !! r = f !! r) → plain_entry f n →
  out ++ [n] `prefix_of` q → after g n q = after f n q.
Proof.
  intros Hg Hp Hq. pose proof (plain_entry_ext _ _ _ Hg Hp) as Hp'. unfold after, doomed, modified.
  rewrite (resolve_not_link g), (resolve_not_link f) by apply Hp || apply Hp'. by rewrite !Hg.
Qed.
Lemma gc_loop_spec f names :
  NoDup names → Forall (plain_entry f) names →
  ∃ g, gc_loop live now (now - 3600) dry_run out f names = Ok g ∧
    (∀ n q, n ∈ names → out ++ [n] `prefix_of` q → g !! q = after f n q) ∧
    (∀ q, (∀ n, n ∈ names → ¬ out ++ [n] `prefix_of` q) → g !! q = f !! q).
Proof.
  intros Hnd. revert f. induction Hnd as [|n names Hn Hnd IH]; intros f Hp.
  { exists f. split; [done|]. split; [|done]. by intros n q []%elem_of_nil. }
  apply Forall_cons in Hp as [Hpn Hp]. destruct (gc_entry_spec f n Hpn) as (f1 & H1 & Hf1).
  cbn [gc_loop]. rewrite H1. cbn [mbind outcome_bind].
  assert (∀ m, m ∈ names → ∀ q, out ++ [m] `prefix_of` q → f1 !! q = f !! q) as Hsame.
  { intros m Hm q Hq. rewrite Hf1, bool_decide_eq_false_2; [done|].
    intros Hq'. by rewrite (under_inj _ _ _ Hq Hq') in Hm. }
  destruct (IH f1) as (g & Hg & Hin & Hout).
  { rewrite Forall_forall in *. intros m Hm. eapply plain_entry_ext; [by apply Hsame|by apply Hp]. }
  exists g. split; [done|]. split.
  - intros m q Hm Hq. apply elem_of_cons in Hm as [->|Hm].
    + rewrite Hout, Hf1, bool_decide_eq_true_2; [done..|].
      intros m Hm Hq'. by rewrite (under_inj _ _ _ Hq' Hq) in Hm.
    + rewrite (Hin m q Hm Hq). apply after_ext; [by apply Hsame| |done].
      rewrite Forall_forall in Hp. by apply Hp.
  - intros q Hq. rewrite Hout by (intros m Hm; apply Hq; by right).
    rewrite Hf1, bool_decide_eq_false_2; [done|]. apply Hq. by left.
Qed.
End gc.

Section runs.
Context {OS : OsEnv} {CD : Codec test_results} {CH : Chrono} {HT : Http} {TH : Threads} {G : Git2}.

(** C17: what a collection removes. In an output directory of files and
    directories it goes through without a panic. It removes an entry, with
    everything below, exactly when the entry is named neither by something
    shorter than a commit id nor by the id of a commit that is among the newest
    of some user's branch, has not been modified for an hour, can be removed and
    the run is not a dry one. All else is unchanged, but for the modification
    time of the live entries themselves, which is renewed even by a dry run. *)
Theorem gc_results_correct rc dry_run now f live names t :
  let out := Config.output_dir (ktest rc) in
  get_live_commits rc = Ok live → f !! out = Some (NDir t) → read_dir f out = Some names →
  Forall (plain_entry out f) names →
  ∃ f', gc_results rc dry_run now f = Ok f' ∧ (∀ c, c ∈ live ↔ live_via rc c) ∧
    (∀ n q, n ∈ names → out ++ [n] `prefix_of` q →
       f' !! q = if doomed live now dry_run out f n then None
                 else if bool_decide (q = out ++ [n]) && renewed live out n
                      then touched now <$> f !! q else f !! q) ∧
    (∀ q, (∀ n, n ∈ names → ¬ out ++ [n] `prefix_of` q) → f' !! q = f !! q).
Proof.
  intros out Hlive Hdir Hnames Hp. unfold gc_results. rewrite Hlive. cbn [mbind outcome_bind].
  fold out. rewrite Hnames.
  destruct (gc_loop_spec live now dry_run out f names) as (g & Hg & Hin & Hout); [|done|].
  { by apply read_dir_Some in Hnames as [? _]. }
  exists g. split; [done|]. split; [by apply get_live_commits_spec|]. done.
Qed.

(** The commits a view holds are those of its walk. *)
Lemma collect_results_ids ktest f matching depth e n commits l :
  collect_results ktest f matching depth e n commits = Ok l → ∀ r, r ∈ l → c_id r ∈ commits.*1.
Proof.
  revert e n l. induction commits as [|[id m] commits IH]; intros e n l H r Hr; cbn [collect_results] in H.
  { injection H as <-. by apply elem_of_nil in Hr. }
  rewrite fmap_cons, elem_of_cons. cbn [fst].
  assert (∀ res : outcome read_error TestResultsMap,
    (let tests := filter_results (default ∅ (outcome_ok res)) matching in
     let e := if decide (tests = ∅) then S e else 0 in
     if 100 <? e then Ok []
     else let n := S n in
          if depth <? n then Ok [mkCR id m tests]
          else rest ← collect_results ktest f matching depth e n commits;
               Ok (mkCR id m tests :: rest)) = Ok l → c_id r = id ∨ c_id r ∈ commits.*1) as Hgo.
  { intros res. cbn zeta. destruct (100 <? _); [by intros [= <-]; apply elem_of_nil in Hr|].
    destruct (depth <? _); [intros [= <-]; apply list_elem_of_singleton in Hr as ->; by left|].
    intros (rest & Hrest & [= <-])%outcome_bind_Ok.
    apply elem_of_cons in Hr as [->|Hr]; [by left|right; by eapply IH]. }
  destruct (commitdir_get_results ktest f id) as [res|err|]; [|..|done].
  - by apply (Hgo (Ok res)).
  - by apply (Hgo (Err err)).
Qed.

Lemma walk_commits_ids (repo : repository) depth ids :
  (∀ i, i ∈ ids → is_Some (find_commit repo i)) →
  (walk_commits repo depth ids).*1 = list.take depth ids.
Proof.
  intros Hall. unfold walk_commits. rewrite fmap_take. f_equal.
  induction ids as [|i ids IH]; [done|].
  destruct (Hall i) as [m Hm]; [by left|]. cbn. rewrite Hm. cbn. f_equal. apply IH.
  intros j Hj. apply Hall. by right.
Qed.
(** The commits that a branch's view shows are live. *)
Lemma view_live rc live user uc branch b path repo matching now f ret f' :
  get_live_commits rc = Ok live →
  users rc !! user = Some (Ok uc) → branches uc !! branch = Some b →
  repo_path (ktest rc) (Config.repo b) = Some path → open_repo path = Some repo →
  (∀ reference items, walk_push repo reference = Some items →
     ∀ i, i ∈ omap id items → is_Some (find_commit repo i)) →
  branch_get_results repo (ktest rc) (Some user) (Some branch) None matching now f = (Ok ret, f') →
  ∀ r, r ∈ ret → c_id r ∈ live.
Proof.
  intros Hlive Hu Hb Hpath Hopen Hfind H r Hr.
  apply (get_live_commits_spec _ _ Hlive). unfold branch_get_results in H. cbn [mbind option_bind] in H.
  destruct (negb (revwalk repo)); [done|].
  destruct (git_get_commit repo _) as [reference|] eqn:Eg; [|done].
  unfold walk_ids in H. destruct (walk_push repo reference) as [items|] eqn:Ew; [|done].
  set (commits := walk_commits repo _ _) in *.
  assert (∃ f1 l, collect_results (ktest rc) f1 matching (depth_of (ktest rc)) 0 0 commits = Ok l ∧
                  ret = pop_empty l) as (f1 & l & Hl & ->).
  { destruct (match ci_url (ktest rc) with Some _ => _ | None => _ end) as [f1|[]|]; [|done].
    injection H as H <-. apply outcome_bind_Ok in H as (l & Hl & [= <-]). eauto. }
  assert (c_id r ∈ commits.*1) as Hc.
  { eapply collect_results_ids; [exact Hl|]. destruct (pop_empty_spec l) as ([k ->] & _).
    by apply elem_of_app; left. }
  unfold commits in Hc. rewrite walk_commits_ids in Hc by by eapply Hfind.
  exists user, uc, branch, b, path, repo, reference, items. split_and!; try done.
  eapply Hfind; [done|]. apply elem_of_take in Hc as (i & Hi & _). by eapply list_elem_of_lookup_2.
Qed.

(** The directory and the file of a live commit are spared. *)
Lemma spared_id live n c :
  c ∈ live → hex_id c → n = c ∨ n = c +:+ ".capnp" → spared live n = true.
Proof.
  intros Hc (Hlen & _ & Hu) Hn. unfold spared, to_text.
  assert (valid_utf8 n = true ∧ Str.take 40 n = c) as [Hv Ht].
  { rewrite <-Hlen. destruct Hn as [-> | ->].
    - split; [done|]. rewrite <-(str_app_nil_r c) at 2. apply str_take_app.
    - by rewrite valid_utf8_app, str_take_app by done. }
  rewrite Hv, Ht.
  rewrite (bool_decide_eq_true_2 (c ∈ live)) by done. apply orb_true_r.
Qed.
(** C16: collection never removes what the dashboard shows. Every commit in the
    view of a configured user's branch keeps its result directory, with all that
    is below it, and its result file, whatever their age. (The repository finds
    every commit it walks over.) *)
Theorem gc_protects_views rc dry_run now f f' names t user uc branch b path repo matching now1 f1 ret f2 :
  let out := Config.output_dir (ktest rc) in
  gc_results rc dry_run now f = Ok f' →
  f !! out = Some (NDir t) → read_dir f out = Some names → Forall (plain_entry out f) names →
  users rc !! user = Some (Ok uc) → branches uc !! branch = Some b →
  repo_path (ktest rc) (Config.repo b) = Some path → open_repo path = Some repo →
  (∀ reference items, walk_push repo reference = Some items →
     ∀ i, i ∈ omap id items → is_Some (find_commit repo i)) →
  branch_get_results repo (ktest rc) (Some user) (Some branch) None matching now1 f1 = (Ok ret, f2) →
  ∀ r n q v, r ∈ ret → hex_id (c_id r) → (n = c_id r ∨ n = c_id r +:+ ".capnp") →
    out ++ [n] `prefix_of` q → f !! q = Some v →
    f' !! q = Some v ∨ (q = out ++ [n] ∧ f' !! q = Some (touched now v)).
Proof.
  intros out Hgc Hdir Hnames Hp Hu Hb Hpath Hopen Hfind Hview r n q v Hr Hhex Hn Hq Hv.
  unfold gc_results in Hgc. apply outcome_bind_Ok in Hgc as (live & Hlive & Hgc). fold out in Hgc.
  rewrite Hnames in Hgc.
  destruct (gc_loop_spec live now dry_run out f names) as (g & Hg & Hin & Hout); [|done|].
  { by apply read_dir_Some in Hnames as [? _]. }
  rewrite Hg in Hgc. injection Hgc as <-.
  assert (spared live n = true) as Hs.
  { pose proof (view_live _ _ _ _ _ _ _ _ _ _ _ _ _ Hlive Hu Hb Hpath Hopen Hfind Hview r Hr) as Hl.
    by apply spared_id with (c_id r). }
  destruct (decide (n ∈ names)) as [Hnn|Hnn].
  - rewrite (Hin n q Hnn Hq). unfold after, doomed. rewrite Hs. cbn [negb andb].
    destruct (bool_decide _ && _) eqn:E; [|by left]. apply andb_true_iff in E as [->%bool_decide_eq_true _].
    right. by rewrite Hv.
  - left. rewrite Hout; [done|]. intros m Hm Hq'. by rewrite (under_inj _ _ _ _ Hq' Hq) in Hm.
Qed.
End runs.

(** ** A concrete run: one live commit, one dead one *)
(** Entries of a concrete tree, by evaluation. *)
Definition plain_check (out : path) (f : fs) (n : string) : bool :=
  let p := out ++ [n] in
  match f !! p with Some (NFile _ _) | Some (NDir _) => true | _ => false end &&
  ((String.length n <? 40) || is_char_boundary n 40) &&
  (match f !! p with Some (NDir _) => true | _ => false end ||
   forallb (λ kv, negb (bool_decide (p `prefix_of` kv.1) && (length p <? length kv.1))) (map_to_list f)).
Lemma plain_check_ok out f n : plain_check out f n = true → plain_entry out f n.
Proof.
  unfold plain_check. rewrite !andb_true_iff, !orb_true_iff. intros ((Hv & Hcut) & Hleaf). split.
  - destruct (f !! _); [eauto|done].
  - intros t Ht. by rewrite Ht in Hv.
  - intros _ Hlen. destruct Hcut as [Hlt%Nat.ltb_lt|]; [lia|done].
  - intros d t k r Hd. destruct Hleaf as [Hn|Hall]; [by rewrite Hd in Hn|].
    destruct (f !! ((out ++ [n]) ++ k :: r)) as [v|] eqn:E; [|done].
    apply (fs_forallb f (λ q _, negb (bool_decide (out ++ [n] `prefix_of` q) &&
                                      (length (out ++ [n]) <? length q))) Hall) in E.
    rewrite bool_decide_eq_true_2 in E by by apply prefix_app_r.
    apply negb_true_iff, Nat.ltb_ge in E. rewrite (length_app (out ++ [n])) in E. cbn in E. lia.
Qed.
Lemma plain_checks out f names :
  forallb (plain_check out f) names = true → Forall (plain_entry out f) names.
Proof.
  rewrite forallb_forall, Forall_forall. intros H n Hn.
  by apply plain_check_ok, H, list_elem_of_In.
Qed.

Import Stats Jobs.
Section witnesses.
#[local] Existing Instance plain_os.
#[local] Existing Instance demo_codec.
#[local] Existing Instance demo_chrono.
#[local] Existing Instance demo_http.
#[local] Existing Instance demo_threads.
#[local] Existing Instance Branch.demo_repo.

Definition c3 : string := "ccccccccccddddddddddeeeeeeeeeeffffffffff".
Definition gc_tree : fs :=
  <[["out"; c3] := NDir 0]> (<[["out"; c3; "boot.a"] := NDir 0]> (w_fs demo_world)).
Definition gc_names : list string := default [] (read_dir gc_tree ["out"]).
Lemma gc_live : get_live_commits demo_ci = Ok {[ c1; c2 ]}.
Proof. apply (bool_decide_eq_true_1 (get_live_commits demo_ci = Ok {[ c1; c2 ]})). computed. Qed.
Lemma gc_names_ok : read_dir gc_tree ["out"] = Some gc_names.
Proof. computed. Qed.
Lemma gc_plain : Forall (plain_entry ["out"] gc_tree) gc_names.
Proof. apply plain_checks. computed. Qed.
Lemma gc_results_correct_witness :
  ∃ f', gc_results demo_ci false 9999 gc_tree = Ok f' ∧
    f' !! ["out"; c3; "boot.a"] = None ∧ f' !! ["out"; c1] = Some (NDir 9999).
Proof.
  destruct (gc_results_correct demo_ci false 9999 gc_tree {[ c1; c2 ]} gc_names 0 gc_live)
    as (f' & Hf & _ & Hin & _); [computed|exact gc_names_ok|exact gc_plain|].
  exists f'. split; [exact Hf|]. split.
  - rewrite (Hin c3); [computed| |by eexists ["boot.a"]].
    decided.
  - rewrite (Hin c1); [computed| |by eexists []].
    decided.
Defined.
Lemma gc_protects_views_witness :
  ∃ f', gc_results demo_ci false 9999 gc_tree = Ok f' ∧
    ∀ v, gc_tree !! ["out"; c1; "boot.b"] = Some v → f' !! ["out"; c1; "boot.b"] = Some v.
Proof.
  assert (is_ok (gc_results demo_ci false 9999 gc_tree) = true) as Hok by computed.
  destruct (gc_results demo_ci false 9999 gc_tree) as [f'|[]|] eqn:Hgc; [|discriminate Hok].
  exists f'. split; [reflexivity|]. intros v Hv.
  pose proof demo_view_ids as Hids. unfold demo_view in Hids.
  destruct (branch_get_results _ _ _ _ _ _ _ _) as [[ret|e|] f2] eqn:Hview; [|discriminate Hids..].
  apply bool_decide_eq_true in Hids.
  destruct ret as [|r ret]; [discriminate Hids|]. injection Hids as Hr _.
  destruct (gc_protects_views (G := demo_repo) demo_ci false 9999 gc_tree f' gc_names 0 "kent"
              (mkUserrc {[ "g" := demo_group ]} {[ "master" := mkBranch "x" "linux" ["g"] ]}) "master"
              (mkBranch "x" "linux" ["g"]) (linux_repo demo_rc) tt (λ _, true) 0 _ _ _
              Hgc ltac:(computed) gc_names_ok gc_plain eq_refl eq_refl eq_refl eq_refl
              ltac:(by intros; eexists) Hview r c1 ["out"; c1; "boot.b"] v) as [?|[Hq _]].
  - by left.
  - rewrite Hr. vm_compute. auto.
  - left. by rewrite Hr.
  - by eexists ["boot.b"].
  - exact Hv.
  - done.
  - discriminate Hq.
Defined.
End witnesses.
End Gc.
