(* ===== verification/System.v ===== *)
(** * The daemon as a whole (src/src/bin/ci-daemon.rs)

    [main]'s start and its loop, as a state machine whose steps interleave with
    the executors and the other programs of the host; and the thread that
    keeps the repositories current. *)

From S2P Require Import Prelude.
From S2P Require Import RustStr.
From S2P Require Import Keys.
From S2P Require Import Status.
From S2P Require Import Fs.
From S2P Require Import Config.
From S2P Require Import Store.
From S2P Require Import Results.
From S2P Require Import Stats.
From S2P Require Import Git.
From S2P Require Import Jobs.
From S2P Require Import Daemon.
From S2P Require Import Sched.
From S2P Require Import Gc.

Module System.
Import Str Status Fs Config Store Results Stats Git Jobs Daemon Sched.

(** ** The main thread *)
Record Args : Type := mkArgs { once : bool; limit : option nat; clear_failed_to_run : bool }.
(** Seconds *)
Definition MAINTENANCE_INTERVAL : Z := 30 * 60.

(** What runs beside the main thread in the choir: executors claim jobs and
    report them. The jobs there are change by submitting and removing only. *)
Class ChoirRun {CO : ChoirOps} : Type := {
  choir_new : Choir;
  choir_new_ids : job_ids choir_new = ∅;
  status_json : Choir → option string;
  pending_by_group : Choir → gmap string nat;
  all_finished : Choir → bool;
  evolves : Choir → Choir → Prop;
  evolves_ids c c' : evolves c c' → job_ids c' = job_ids c;
  evolves_spec c c' i : evolves c c' → job_spec c' i = job_spec c i
}.

Section main.
Context {OS : OsEnv} {CD : Codec test_results} {CH : Chrono} {DD : Codec durations}.
Context {G : Git2} {LT : ListTests} {CO : ChoirOps} {CR : ChoirRun}.

Record daemon : Type := mkDaemon {
  choir : Choir; job_map : gmap JobKey Z; cache : subtest_cache; results : TestResultsStore;
  host : world; last_maintenance : option Z
}.
Definition start (rc : CiConfig) (args : Args) (w : world) : outcome Empty_set daemon :=
  match load (Config.output_dir (ktest rc)) (clear_failed_to_run args) w with
  | Ok (results, w) => Ok (mkDaemon choir_new ∅ ∅ results w None)
  | Err e => match e with end
  | Panic => Panic
  end.
Definition total_slots (rc : CiConfig) : Z :=
  foldl (λ n e, wrap32 (n + slots e)) 0%Z (bt_values (executors (ktest rc))).
Definition window (args : Args) : nat := default WINDOW (limit args).

Definition top_up (rc : CiConfig) (args : Args) (d : daemon) : outcome Empty_set daemon :=
  match refill rc (w_fs (host d)) (results d) (window args) (choir d) (job_map d) (cache d) with
  | (Ok (choir, job_map), cache) =>
      Ok (mkDaemon choir job_map cache (results d) (host d) (last_maintenance d))
  | (Err e, _) => match e : Empty_set with end
  | (Panic, _) => Panic
  end.
Definition report (rc : CiConfig) (d : daemon) : daemon :=
  mkDaemon (choir d) (job_map d) (cache d) (results d)
    (set_fs (host d) (write_status rc (status_json (choir d)) (w_fs (host d)) (w_now (host d))))
    (last_maintenance d).
Definition maintenance_due (d : daemon) : bool :=
  match last_maintenance d with
  | None => true
  | Some t => (MAINTENANCE_INTERVAL <? w_now (host d) - t)%Z
  end.
Definition pending (c : Choir) : nat := sum_list (bt_values (pending_by_group c)).
Definition drained (args : Args) (c : Choir) : bool := pending c <=? window args / 4.

(** [run_maintenance] runs another program of the repository to its end, and
    goes on whether it ended well, badly or could not be started. A collection
    goes through the entries of the output directory one after another; one
    that ends badly stops before some entry. It reads the configuration
    itself. *)
Inductive gc_run (rc : CiConfig) (now : Z) (f : fs) : fs → Prop :=
  | gc_ran f' : Gc.gc_results rc false now f = Ok f' → gc_run rc now f f'
  | gc_stopped live names names' f' :
      Gc.get_live_commits rc = Ok live →
      read_dir f (Config.output_dir (ktest rc)) = Some (names ++ names') →
      Gc.gc_loop live now (now - 3600) false (Config.output_dir (ktest rc)) f names = Ok f' →
      gc_run rc now f f'
  | gc_not_run : gc_run rc now f f.
(** The averages are written to a new file, which then replaces the old one. *)
Inductive avg_run (rc : Ktestrc) (w : world) : world → Prop :=
  | avg_ran w' : gen_avg_duration rc w = Ok w' → avg_run rc w w'
  | avg_stopped w' :
      (∀ q, q ≠ durations_path_new rc → w_fs w' !! q = w_fs w !! q) →
      (∀ q, w_fs w' !! q = w_fs w !! q ∨ ∃ d t, w_fs w' !! q = Some (NFile d t)) →
      avg_run rc w w'.

(** The commits whose result file a program other than the daemon has removed
    or replaced since the daemon last wrote it. The daemon does not know them;
    they are kept beside the state to say what the files hold. *)
Definition lost_files : Type := string → Prop.
Definition disturbed (out : path) (f f' : fs) (lost : lost_files) : lost_files :=
  λ c, lost c ∨ read f' (capnp_path out c) ≠ read f (capnp_path out c).
Definition rewritten (c : string) (lost : lost_files) : lost_files := λ c', lost c' ∧ c' ≠ c.

(** What happens beside the main thread: executors update and delete results
    through the store, and write elsewhere, as the other programs of the host
    do; [others] says how these may change the tree. *)
Inductive beside (out : path) (others : fs → fs → Prop) :
    TestResultsStore * world * lost_files → TestResultsStore * world * lost_files → Prop :=
  | be_update st w l c u st' w' :
      hex_id c → text_keys u → readable (build_results c None (merged st c u)) →
      update st c u w = Ok (st', w') →
      beside out others (st, w, l) (st', w', if decide (u = ∅) then l else rewritten c l)
  | be_delete st w l c keys st' w' :
      (∀ m, by_commit st' !! c = Some m → readable (build_results c None m)) →
      delete_keys st c keys w = Ok (st', w') →
      beside out others (st, w, l)
        (st', w', λ c', l c' ∧ ¬ (c' = c ∧ ∃ k, k ∈ keys ∧ is_Some (held st c k)))
  | be_other st w w' l :
      disk_ok out w' → others (w_fs w) (w_fs w') →
      beside out others (st, w, l) (st, w', disturbed out (w_fs w) (w_fs w') l).

(** Where the main thread is. *)
Inductive phase : Type := Refilling | Joining | Upkeep | Averaging | Polling | Finished.
Definition with_host (d : daemon) (w : world) : daemon :=
  mkDaemon (choir d) (job_map d) (cache d) (results d) w (last_maintenance d).
Inductive step (rc : CiConfig) (args : Args) (others : fs → fs → Prop) :
    phase * daemon * lost_files → phase * daemon * lost_files → Prop :=
  | step_refill d d' l :
      top_up rc args d = Ok d' →
      step rc args others (Refilling, d, l) (if once args then Joining else Upkeep, report rc d', l)
  | step_join d l :
      all_finished (choir d) = true →
      step rc args others (Joining, d, l) (Finished, report rc d, l)
  | step_no_upkeep d l :
      maintenance_due d = false → step rc args others (Upkeep, d, l) (Polling, d, l)
  | step_gc d l rc' f' :
      maintenance_due d = true → Config.output_dir (ktest rc') = Config.output_dir (ktest rc) →
      gc_run rc' (w_now (host d)) (w_fs (host d)) f' →
      step rc args others (Upkeep, d, l)
        (Averaging, with_host d (set_fs (host d) f'),
         disturbed (Config.output_dir (ktest rc)) (w_fs (host d)) f' l)
  | step_average d l rc' w' :
      Config.output_dir rc' = Config.output_dir (ktest rc) → avg_run rc' (host d) w' →
      step rc args others (Averaging, d, l)
        (Polling, mkDaemon (choir d) (job_map d) (cache d) (results d) w' (Some (w_now w')), l)
  | step_poll d l :
      step rc args others (Polling, d, l)
        (if drained args (choir d) then Refilling else Polling, report rc d, l)
  | step_beside ph d l c st w l' :
      evolves (choir d) c →
      rtc (beside (Config.output_dir (ktest rc)) others) (results d, host d, l) (st, w, l') →
      step rc args others (ph, d, l) (ph, mkDaemon c (job_map d) (cache d) st w (last_maintenance d), l').

(** ** Every job of the choir is tracked, once *)
Record matched (rc : CiConfig) (c : Choir) (m : gmap JobKey Z) : Prop := {
  mt_tracked : tracked rc c m;
  mt_all i : i ∈ job_ids c → ∃ k, m !! k = Some i
}.
Lemma submit_all_covers rc c m desired c' m' :
  submit_all rc c m desired = Ok (c', m') →
  (∀ i, i ∈ job_ids c → ∃ k, m !! k = Some i) → ∀ i, i ∈ job_ids c' → ∃ k, m' !! k = Some i.
Proof.
  revert c m. induction desired as [|job desired IH]; intros c m H Hall; cbn [submit_all] in H.
  { by injection H as <- <-. }
  destruct (decide (is_Some (m !! key job))) as [Hin|Hout]; [by eapply IH|].
  apply outcome_bind_Ok in H as (spec & _ & H). pose proof (submit_ids c spec) as Hids.
  destruct (submit c spec) as [id c1]. cbn [fst snd] in *. apply (IH _ _ H).
  intros i. rewrite Hids, elem_of_union, elem_of_singleton. apply eq_None_not_Some in Hout.
  intros [->|[k Hk]%Hall]; [exists (key job); by rewrite lookup_insert_eq|].
  exists k. rewrite lookup_insert_ne; [done|]. congruence.
Qed.
Lemma refill_matched rc f st w c m cc c' m' cc' :
  matched rc c m → refill rc f st w c m cc = (Ok (c', m'), cc') → matched rc c' m'.
Proof.
  intros [Ht Hall] H. unfold refill in H. destruct (desired_jobs rc f st w cc) as [desired cc1].
  injection H as H _. destruct desired as [desired|[]|]; [|done]. cbn [mbind outcome_bind] in H.
  pose proof (filter_tracked rc c m Ht) as Ht1. split.
  - by apply (submit_all_spec _ _ _ _ _ _ Ht1 H).
  - apply (submit_all_covers _ _ _ _ _ _ H). intros i Hi.
    destruct (Hall i) as [k Hk]; [by apply remove_finished_ids|].
    exists k. by apply map_lookup_filter_Some.
Qed.
Lemma evolves_matched rc c c' m : evolves c c' → matched rc c m → matched rc c' m.
Proof.
  intros He [[T1 T2 T3] Hall]. pose proof (evolves_ids _ _ He) as Hi. split; [split|].
  - intros k i Hk. rewrite Hi. eauto.
  - done.
  - intros k i Hk. rewrite (evolves_spec _ _ _ He). eauto.
  - intros i. rewrite Hi. apply Hall.
Qed.

(** ** What keeps a results directory in order *)
(** A path is left alone, removed, written or touched; no directory or link
    appears. *)
Definition tame (v v' : option node) : Prop :=
  v' = v ∨ v' = None ∨ (∃ d t, v' = Some (NFile d t)) ∨ ∃ t, v' = touched t <$> v.
Lemma tame_trans v1 v2 v3 : tame v1 v2 → tame v2 v3 → tame v1 v3.
Proof.
  intros [->|[->|[(d & t & ->)|[t ->]]]]; unfold tame; [done|..].
  - intros [->|[->|[(?&?& ->)|[? ->]]]]; eauto 10.
  - intros [->|[->|[(?&?& ->)|[? ->]]]]; cbn; eauto 10.
  - intros [->|[->|[(?&?& ->)|[t' ->]]]]; eauto 10. right; right; right. exists t'.
    by destruct v1 as [[]|].
Qed.
Lemma disk_ok_tame out w w' :
  disk_ok out w → (∀ q, tame (w_fs w !! q) (w_fs w' !! q)) → dir_node (w_fs w') out = true →
  (∀ c seq, plain_commit c → w_fs w' !! capnp_tmp_path out c seq = None) → disk_ok out w'.
Proof.
  intros [D1 D2 D3 D4] Ht Hdir Htmp. split; [done|done| |].
  - intros c t Hc Hv. pose proof (D3 c t Hc) as Hold. destruct (Ht (capnp_path out c)) as
      [H|[H|[(d & x & H)|[x H]]]]; rewrite H in Hv; [done..|].
    destruct (w_fs w !! capnp_path out c) as [[]|] eqn:E; try done. by eapply D3.
  - intros n t Hv. destruct (Ht (out ++ [n])) as [H|[H|[(d & x & H)|[x H]]]]; rewrite H in Hv; [by eapply D4|done..|].
    destruct (w_fs w !! (out ++ [n])) as [[]|] eqn:E; try done. by eapply D4.
Qed.

(** Some file beside the result files is written anew, through a temporary
    one. *)
Lemma write_tame f t p d q : tame (f !! q) ((write f t p d).1 !! q).
Proof.
  unfold write, write_all. destruct (create f t p) as [f0 []] eqn:Ec; cbn [fst].
  - apply create_true in Ec as [-> Hr]. rewrite Hr. destruct (decide (resolve f p = q)) as [<-|Hne].
    + right; right; left. case_match; cbn [fst]; rewrite lookup_insert_eq; eauto.
    + left. case_match; cbn [fst]; by rewrite !lookup_insert_ne.
  - apply create_false in Ec as ->. by left.
Qed.
Lemma rename_tame f p p' q : tame (f !! q) ((rename f p p').1 !! q).
Proof.
  destruct (rename f p p') as [f2 []] eqn:Er; cbn [fst].
  - apply rename_true in Er as (d & s & _ & ->). destruct (decide (q = p')) as [->|Hp].
    { right; right; left. rewrite lookup_insert_eq. eauto. }
    rewrite lookup_insert_ne by done. destruct (decide (q = p)) as [->|Ht].
    { right; left. by rewrite lookup_delete_eq. }
    rewrite lookup_delete_ne by done. by left.
  - apply rename_false in Er as ->. by left.
Qed.
Lemma rename_frame f p p' q : q ≠ p → q ≠ p' → (rename f p p').1 !! q = f !! q.
Proof.
  intros Hp Hp'. destruct (rename f p p') as [f2 []] eqn:Er; cbn [fst].
  - apply rename_true in Er as (d & s & _ & ->). by rewrite lookup_insert_ne, lookup_delete_ne.
  - by apply rename_false in Er as ->.
Qed.

(** The files the daemon and gen-avg-duration write there themselves. *)
Lemma contains_mid s p t : contains (s +:+ p +:+ t) p = true.
Proof.
  assert (∀ q, starts_with (q +:+ t) q = true) as Hp.
  { unfold starts_with. induction q as [|c q IH]; [by destruct t|]. rewrite str_app_cons. cbn.
    by destruct (ascii_dec c c). }
  induction s as [|c s IH].
  - rewrite str_app_nil_l. pose proof (Hp p) as H. destruct (p +:+ t) eqn:E; cbn [contains]; rewrite H; done.
  - rewrite str_app_cons. cbn [contains]. by rewrite IH, orb_true_r.
Qed.
Lemma last_char_contains s c : last_char s = Some c → contains_char s c = true.
Proof.
  induction s as [|d s IH]; [done|]. cbn. destruct s as [|e s].
  - intros [= ->]. by rewrite bool_decide_eq_true_2.
  - intros H. by rewrite IH, orb_true_r.
Qed.
Definition own_files : list string :=
  ["ci-daemon-status.json"; "ci-daemon-status.json.new"; "test_durations.capnp"; "test_durations.capnp.new"].
Lemma own_not_result n c : n ∈ own_files → hex_id c → n ≠ c +:+ ".capnp".
Proof.
  intros Hn (Hlen & _ & _) ->. unfold own_files in Hn.
  rewrite !elem_of_cons, elem_of_nil in Hn. destruct Hn as [H|[H|[H|[H|[]]]]];
    apply (f_equal String.length) in H; rewrite str_length_app, Hlen in H; discriminate H.
Qed.
Lemma own_not_tmp n c seq : n ∈ own_files → n ≠ tmp_name c seq.
Proof.
  intros Hn Heq. unfold tmp_name in Heq. unfold own_files in Hn.
  rewrite !elem_of_cons, elem_of_nil in Hn.
  assert (contains n ".capnp." = true) as Hc by (rewrite Heq; apply contains_mid).
  destruct Hn as [-> |[-> |[-> |[-> |[]]]]]; [discriminate Hc..|]. clear Hc.
  change "test_durations.capnp.new" with ("test_durations.capnp" +:+ ".new") in Heq.
  rewrite <-!str_app_assoc in Heq. apply str_app_inv_tail, (f_equal last_char) in Heq.
  rewrite str_app_assoc, str_app_cons, str_app_nil_l, last_char_app in Heq. symmetry in Heq. apply last_char_contains in Heq.
  cbn in Heq. rewrite of_u64_no_char in Heq; [discriminate Heq|].
  intros k. unfold pretty_N_char. by repeat case_match.
Qed.

Definition own_path (out q : path) : Prop := ∃ n, n ∈ own_files ∧ q = out ++ [n].
(** A change of these files only. *)
Record aside (out : path) (f f' : fs) : Prop := {
  as_frame q : ¬ own_path out q → f' !! q = f !! q;
  as_tame q : tame (f !! q) (f' !! q)
}.
Lemma aside_refl out f : aside out f f.
Proof. split; [done|by left]. Qed.
Lemma aside_trans out f1 f2 f3 : aside out f1 f2 → aside out f2 f3 → aside out f1 f3.
Proof.
  intros [F1 T1] [F2 T2]. split; [intros q Hq; by rewrite F2, F1|].
  intros q. by eapply tame_trans.
Qed.
Lemma own_join out n : n ∈ own_files → path_join out n = out ++ [n].
Proof.
  intros Hn. apply path_join_plain. unfold own_files in Hn.
  rewrite !elem_of_cons, elem_of_nil in Hn. by destruct Hn as [-> |[-> |[-> |[-> |[]]]]].
Qed.
Lemma write_aside out f t n d :
  n ∈ own_files → (∀ s, f !! (out ++ [n]) ≠ Some (NSymlink s)) →
  aside out f (write f t (out ++ [n]) d).1.
Proof.
  intros Hn Hl. split; [|apply write_tame]. intros q Hq.
  destruct (write f t (out ++ [n]) d) as [f1 ok] eqn:Ew. eapply write_frame; [exact Ew|].
  rewrite resolve_not_link by done. intros ->. apply Hq. by exists n.
Qed.
Lemma rename_aside out f n n' :
  n ∈ own_files → n' ∈ own_files → aside out f (rename f (out ++ [n]) (out ++ [n'])).1.
Proof.
  intros Hn Hn'. split; [|apply rename_tame]. intros q Hq.
  apply rename_frame; intros ->; apply Hq; [by exists n|by exists n'].
Qed.
Lemma write_status_aside rc json f t :
  let out := Config.output_dir (ktest rc) in
  (∀ n s, f !! (out ++ [n]) ≠ Some (NSymlink s)) → aside out f (write_status rc json f t).
Proof.
  intros out Hlink. unfold write_status. destruct json as [json|]; [|apply aside_refl].
  fold out. rewrite own_join by (unfold own_files; set_solver).
  assert (with_extension (out ++ ["ci-daemon-status.json"]) "json.new" = out ++ ["ci-daemon-status.json.new"]) as ->.
  { unfold with_extension. rewrite last_snoc, parent_snoc. done. }
  pose proof (write_aside out f t "ci-daemon-status.json.new" json) as Hw.
  destruct (write f t _ json) as [f1 ok] eqn:Ew. cbn [fst] in Hw.
  specialize (Hw ltac:(unfold own_files; set_solver) (Hlink _)).
  destruct ok; [|done]. eapply aside_trans; [done|]. apply rename_aside; unfold own_files; set_solver.
Qed.
Lemma durations_own rc :
  durations_path rc = Config.output_dir rc ++ ["test_durations.capnp"] ∧
  durations_path_new rc = Config.output_dir rc ++ ["test_durations.capnp.new"].
Proof. split; apply own_join; unfold own_files; set_solver. Qed.
Lemma avg_run_aside rc w w' :
  (∀ n s, w_fs w !! (Config.output_dir rc ++ [n]) ≠ Some (NSymlink s)) →
  avg_run rc w w' → aside (Config.output_dir rc) (w_fs w) (w_fs w').
Proof.
  intros Hlink Hrun. destruct (durations_own rc) as [Hp Hpn]. destruct Hrun as [w' H|w' Hf Hn].
  - unfold gen_avg_duration in H. apply outcome_bind_Ok in H as (sums & _ & H).
    unfold write_durations_capnp in H. case_match; [done|]. apply outcome_bind_Ok in H as (es & _ & H).
    rewrite Hp, Hpn in H.
    pose proof (write_aside (Config.output_dir rc) (w_fs w) (w_now w) "test_durations.capnp.new" (serialize es)) as Hw.
    destruct (write (w_fs w) _ _ (serialize es)) as [f1 []]; [|done].
    specialize (Hw ltac:(unfold own_files; set_solver) (Hlink _)).
    pose proof (rename_aside (Config.output_dir rc) f1 "test_durations.capnp.new" "test_durations.capnp") as Hr.
    destruct (rename f1 _ _) as [f2 []]; [|done]. injection H as <-. cbn [w_fs set_fs].
    eapply aside_trans; [exact Hw|apply Hr; unfold own_files; set_solver].
  - split.
    + intros q Hq. apply Hf. intros ->. apply Hq. eexists. split; [|exact Hpn]. unfold own_files. set_solver.
    + intros q. destruct (Hn q) as [->|(d & t & ->)]; [by left|]. right; right; left. eauto.
Qed.
Lemma aside_keeps out w w' :
  disk_ok out w → aside out (w_fs w) (w_fs w') →
  disk_ok out w' ∧ ∀ c, hex_id c → read (w_fs w') (capnp_path out c) = read (w_fs w) (capnp_path out c).
Proof.
  intros Hd [Hf Ht]. split.
  - apply (disk_ok_tame out w w'); [done..| |].
    + eapply dir_node_frame; [apply Hd|]. intros _. apply Hf. intros (n & _ & H).
      apply (f_equal length) in H. rewrite length_app in H. cbn in H. lia.
    + intros c seq Hc. rewrite Hf; [by apply Hd|]. rewrite capnp_tmp_path_plain by done.
      intros (n & Hn & H%(inj (app out))). injection H as H. by eapply own_not_tmp.
  - intros c Hc. pose proof (hex_id_plain c Hc) as Hp. rewrite capnp_path_plain by done.
    apply read_frame; [apply Hd|]. apply Hf. intros (n & Hn & H%(inj (app out))). injection H as H.
    by eapply own_not_result.
Qed.

(** ** What a collection does to the result files *)
Lemma gc_entry_keeps live now older out w n f' :
  disk_ok out w → Gc.gc_entry live now older false out (w_fs w) n = Ok f' →
  disk_ok out (set_fs w f') ∧
  ∀ q, f' !! q = w_fs w !! q ∨ f' !! q = None ∨ f' !! q = touched now <$> w_fs w !! q.
Proof.
  intros Hd H. assert (resolve (w_fs w) (out ++ [n]) = out ++ [n]) as Hres
    by (apply resolve_not_link, Hd).
  assert ((∀ q, f' !! q = w_fs w !! q ∨ f' !! q = None ∨ f' !! q = touched now <$> w_fs w !! q) ∧
    f' !! out = w_fs w !! out) as [Hq Hout].
  { unfold Gc.gc_entry in H. destruct (Gc.result_is_live live now (w_fs w) out n) as [r g] eqn:El.
    assert ((r = Ok true ∧ g = set_modified (w_fs w) (out ++ [n]) now) ∨ g = w_fs w) as Hg.
    { unfold Gc.result_is_live in El. cases; auto. }
    assert (out ≠ out ++ [n]) as Hne by (intros He; apply (f_equal length) in He; rewrite length_app in He; cbn in He; lia).
    destruct r as [[]|[]|]; [|destruct Hg as [[? _]|Hg]; [done|subst g]|done].
    - injection H as <-. destruct Hg as [[_ ->]| ->]; [|split; [by left|done]].
      unfold set_modified. rewrite Hres. case_match; [split; [by left|done]|].
      destruct (w_fs w !! (out ++ [n])) as [v|] eqn:Ev; [|split; [by left|done]].
      destruct v; (split; [|by rewrite ?lookup_insert_ne]); intros q; try (by left).
      all: destruct (decide (q = out ++ [n])) as [->|?]; [right; right; by rewrite lookup_insert_eq, Ev|].
      all: left; by rewrite lookup_insert_ne.
    - destruct (modified _ _) as [t|]; [|done]. case_match; injection H as <-; [|split; [by left|done]].
      case_match.
      + destruct (remove_dir_all (w_fs w) (out ++ [n])) as [g ok] eqn:Er. cbn [fst]. split.
        * intros q. destruct (g !! q) as [v|] eqn:Eg; [|by right; left]. left. symmetry.
          by eapply remove_dir_all_Some.
        * eapply remove_dir_all_lookup; [exact Er|]. intros [k Hk].
          apply (f_equal length) in Hk. rewrite !length_app in Hk. cbn in Hk. lia.
      + unfold remove_file. repeat case_match; cbn [fst]; (split; [|by rewrite ?lookup_delete_ne]);
          intros q; try (by left); destruct (decide (q = out ++ [n])) as [->|?];
          (rewrite lookup_delete_eq by done; by right; left) || (left; by rewrite lookup_delete_ne). }
  split; [|done]. apply (disk_ok_tame out w); [done| | |].
  - intros q. cbn. destruct (Hq q) as [->|[->| ->]]; unfold tame; eauto 10.
  - eapply dir_node_frame; [apply Hd|]. done.
  - intros c seq Hc. cbn. pose proof (dk_tmp _ _ Hd c seq Hc) as Hn.
    destruct (Hq (capnp_tmp_path out c seq)) as [->|[->| ->]]; by rewrite ?Hn.
Qed.
(** Cut short or not, a collection leaves the directory in order, and each
    result file as it reads or removed. *)
Lemma gc_loop_keeps live now older out w names f' :
  disk_ok out w → Gc.gc_loop live now older false out (w_fs w) names = Ok f' →
  disk_ok out (set_fs w f') ∧
  ∀ c, hex_id c → read f' (capnp_path out c) = read (w_fs w) (capnp_path out c) ∨
                  read f' (capnp_path out c) = None.
Proof.
  revert w. induction names as [|n names IH]; intros w Hd H.
  { injection H as <-. split; [by destruct w|by left]. }
  cbn [Gc.gc_loop] in H. apply outcome_bind_Ok in H as (f1 & H1 & H).
  destruct (gc_entry_keeps _ _ _ _ _ _ _ Hd H1) as [Hd1 Hf1].
  destruct (IH (set_fs w f1) Hd1 H) as [Hd2 Hc]. split; [exact Hd2|].
  intros c Hh. destruct (Hc c Hh) as [->|]; [|by right]. cbn [w_fs set_fs].
  pose proof (hex_id_plain c Hh) as Hp. assert (∀ f, (∀ s, f !! capnp_path out c ≠ Some (NSymlink s)) →
    read f (capnp_path out c) = if io_denied (capnp_path out c) then None
      else match f !! capnp_path out c with Some (NFile d _) => Some d | _ => None end) as Hread
    by (intros f Hl; unfold read; by rewrite resolve_not_link).
  assert (∀ w, disk_ok out w → ∀ s, w_fs w !! capnp_path out c ≠ Some (NSymlink s)) as Hlink.
  { intros w' Hw s. rewrite capnp_path_plain by done. apply Hw. }
  rewrite (Hread f1 (Hlink (set_fs w f1) Hd1)), (Hread _ (Hlink w Hd)).
  case_match; [by right|].
  destruct (Hf1 (capnp_path out c)) as [->|[->| ->]]; [by left|by right|left].
  by destruct (w_fs w !! _) as [[]|].
Qed.
Lemma gc_run_keeps rc w f' :
  let out := Config.output_dir (ktest rc) in
  disk_ok out w → gc_run rc (w_now w) (w_fs w) f' →
  disk_ok out (set_fs w f') ∧
  ∀ c, hex_id c → read f' (capnp_path out c) = read (w_fs w) (capnp_path out c) ∨
                  read f' (capnp_path out c) = None.
Proof.
  intros out Hd [g H|live names names' g _ _ H|].
  - unfold Gc.gc_results in H. apply outcome_bind_Ok in H as (live & _ & H).
    destruct (read_dir _ _) as [names|]; [|done]. by eapply gc_loop_keeps.
  - by eapply gc_loop_keeps.
  - split; [by destruct w|by left].
Qed.

(** ** What holds in every reachable state *)
(** The result files are out of the others' reach. *)
Definition hands_off (out : path) (others : fs → fs → Prop) : Prop :=
  ∀ f f', others f f' → ∀ c, read f' (capnp_path out c) = read f (capnp_path out c).
(** The file of a commit reads back as its results in memory, or another
    program has changed it since it was written: removed it, if only
    collections did. *)
Definition on_disk (out : path) (others : fs → fs → Prop) (f : fs) (lost : lost_files)
    (c : string) (m : TestResultsMap) : Prop :=
  mirrors out f c m ∨
  (lost c ∧ (hands_off out others → read f (capnp_path out c) = None)).
Record stored_sound (out : path) (others : fs → fs → Prop) (st : TestResultsStore) (w : world)
    (lost : lost_files) : Prop := {
  ss_out : output_dir st = out;
  ss_disk : disk_ok out w;
  ss_commit c m : by_commit st !! c = Some m →
    hex_id c ∧ text_keys m ∧ on_disk out others (w_fs w) lost c m
}.
Lemma on_disk_keep out others f f' lost lost' c m :
  read f' (capnp_path out c) = read f (capnp_path out c) → (lost c → lost' c) →
  on_disk out others f lost c m → on_disk out others f' lost' c m.
Proof. unfold on_disk, mirrors. intros -> Hl [?|[? ?]]; [by left|right; auto]. Qed.
Lemma on_disk_disturbed out others f f' lost c m :
  (hands_off out others → read f' (capnp_path out c) = read f (capnp_path out c) ∨
                          read f' (capnp_path out c) = None) →
  on_disk out others f lost c m → on_disk out others f' (disturbed out f f' lost) c m.
Proof.
  intros Hq Hon. destruct (decide (read f' (capnp_path out c) = read f (capnp_path out c))) as [He|Hne].
  { eapply on_disk_keep; [done|by left|done]. }
  right. split; [by right|]. intros Hh. by destruct (Hq Hh).
Qed.
Lemma stored_sound_disturbed out others st w w' lost :
  disk_ok out w' →
  (∀ c, hex_id c → hands_off out others →
     read (w_fs w') (capnp_path out c) = read (w_fs w) (capnp_path out c) ∨
     read (w_fs w') (capnp_path out c) = None) →
  stored_sound out others st w lost →
  stored_sound out others st w' (disturbed out (w_fs w) (w_fs w') lost).
Proof.
  intros Hd Hq [Ho _ Hc]. split; [done|done|]. intros c m Hm. destruct (Hc c m Hm) as (Hh & Ht & Hon).
  split_and!; [done..|]. apply on_disk_disturbed; auto.
Qed.
(** The store writes the results of a commit: its file holds them again. *)
Lemma stored_sound_render out others st w w' c m lost lost' :
  io_ok out → stored_sound out others st w lost → hex_id c → text_keys m →
  readable (build_results c None m) → render out c m w = Ok w' →
  (∀ c', c' ≠ c → lost c' → lost' c') →
  stored_sound out others (mkStore out (<[c := m]> (by_commit st))) w' lost'.
Proof.
  intros Hio [Ho Hd Hby] Hc Ht Hr Hren Hl. pose proof (hex_id_plain c Hc) as Hpc.
  destruct (render_disk _ _ _ _ _ Hd Hio Hpc Hren) as (_ & Hd' & _ & Hfile & Hframe).
  split; [done|done|]. intros c' m'. cbn. destruct (decide (c' = c)) as [->|Hne].
  - rewrite lookup_insert_eq. intros [= <-]. split_and!; [done..|]. left. by eapply mirrors_file.
  - rewrite lookup_insert_ne by done. intros (Hc' & Ht' & Hon)%Hby. split_and!; [done..|].
    eapply on_disk_keep; [|by apply Hl|exact Hon]. pose proof (hex_id_plain c' Hc') as Hpc'.
    apply read_frame; [rewrite capnp_path_plain by done; apply Hd|]. apply Hframe.
    intros Heq. by apply Hne, (capnp_path_inj out).
Qed.
Lemma beside_sound out others st w l st' w' l' :
  io_ok out → beside out others (st, w, l) (st', w', l') →
  stored_sound out others st w l → stored_sound out others st' w' l'.
Proof.
  intros Hio Hstep Hs. inversion Hstep as [? ? ? c u ? ? Hc Hu Hr Hup|? ? ? c ks ? ? Hr Hdel|? ? ? ? Hd Hf];
    subst; clear Hstep.
  - unfold update in Hup. case_decide; [by simplify_eq|]. rewrite bt_extend_iter in Hup.
    fold (merged st c u) in Hup. apply outcome_bind_Ok in Hup as (w1 & Hren & [= <- <-]).
    cbn in Hren. rewrite (ss_out _ _ _ _ _ Hs) in *.
    eapply stored_sound_render; [done|exact Hs|done| |done|done|by intros].
    intros k. unfold merged. intros [r [Hk|[_ Hk]]%lookup_union_Some_raw]; [eauto|].
    destruct (by_commit st !! c) as [m|] eqn:E; [|done]. cbn in Hk.
    destruct (ss_commit _ _ _ _ _ Hs _ _ E) as (_ & Ht & _). eauto.
  - destruct (delete_keys_cases st c ks w)
      as [(st1 & Hd & Ho & Hby & Hno)|(m & e & Hd & Hm & Hsub & _ & Hk)]; rewrite Hd in Hdel.
    + injection Hdel as <- <-. destruct Hs as [Ho' ? Hc]. split; [congruence|done|].
      rewrite Hby. intros c' m Hm. destruct (Hc c' m Hm) as (? & ? & Hon). split_and!; [done..|].
      eapply on_disk_keep; [done| |exact Hon]. intros Hl. split; [done|].
      intros (_ & k & Hk & Hh). rewrite (Hno k Hk) in Hh. by destruct Hh.
    + destruct (ss_commit _ _ _ _ _ Hs _ _ Hm) as (Hc & Ht & _). rewrite (ss_out _ _ _ _ _ Hs) in *.
      apply outcome_bind_Ok in Hdel as (w1 & Hren & [= <- <-]).
      eapply stored_sound_render; [done|exact Hs|done| | |done|].
      * intros k [r Hk']. apply Ht. eapply map_subseteq_spec in Hk'; eauto.
      * apply Hr. cbn. by rewrite lookup_insert_eq.
      * intros c' Hne Hl. split; [done|]. by intros [? _].
  - apply stored_sound_disturbed; [done| |done]. intros c _ Hh. left. by apply Hh.
Qed.
Lemma besides_sound out others x y :
  io_ok out → rtc (beside out others) x y →
  stored_sound out others x.1.1 x.1.2 x.2 → stored_sound out others y.1.1 y.1.2 y.2.
Proof.
  intros Hio. induction 1 as [|[[] ] [[] ] ? Hstep ? IH]; [done|]. intros Hs.
  by eapply IH, beside_sound.
Qed.
Lemma stored_sound_aside out others st w w' lost :
  aside out (w_fs w) (w_fs w') → stored_sound out others st w lost →
  stored_sound out others st w' lost.
Proof.
  intros Ha [Ho Hd Hc]. destruct (aside_keeps out w w' Hd Ha) as [Hd' Hr]. split; [done|done|].
  intros c m Hm. destruct (Hc c m Hm) as (Hh & ? & Hon). split_and!; [done..|].
  eapply on_disk_keep; [by apply Hr|done|exact Hon].
Qed.

Record sound (rc : CiConfig) (others : fs → fs → Prop) (d : daemon) (lost : lost_files) : Prop := {
  so_matched : matched rc (choir d) (job_map d);
  so_stored : stored_sound (Config.output_dir (ktest rc)) others (results d) (host d) lost
}.
Lemma report_sound rc others d l : sound rc others d l → sound rc others (report rc d) l.
Proof.
  intros [Hm Hs]. split; [done|]. eapply stored_sound_aside; [|exact Hs].
  apply write_status_aside. apply (ss_disk _ _ _ _ _ Hs).
Qed.
Lemma step_sound rc args others x y :
  io_ok (Config.output_dir (ktest rc)) → step rc args others x y →
  sound rc others x.1.2 x.2 → sound rc others y.1.2 y.2.
Proof.
  intros Hio Hstep Hs. destruct Hstep as [d d' l Ht|d l _|d l _|d l rc' f' _ Ho Hgc|d l rc' w' Ho Havg|d l|
    ph d l c st w l' He Hst]; cbn [fst snd] in *.
  - apply report_sound. unfold top_up in Ht. destruct (refill _ _ _ _ _ _ _) as [[[c m]|[]|] cc] eqn:E; [|done].
    injection Ht as <-. split; [by eapply refill_matched, E; apply Hs|apply Hs].
  - by apply report_sound.
  - done.
  - destruct Hs as [Hm Hs]. split; [done|]. cbn. rewrite <-Ho in *.
    destruct (gc_run_keeps rc' (host d) f' (ss_disk _ _ _ _ _ Hs) Hgc) as [Hd Hr].
    apply (stored_sound_disturbed _ _ _ _ (set_fs (host d) f')); [done| |done]. intros c Hc _. by apply Hr.
  - destruct Hs as [Hm Hs]. split; [done|]. cbn. eapply stored_sound_aside; [|exact Hs].
    rewrite <-Ho. eapply avg_run_aside; [|exact Havg]. rewrite Ho. apply (ss_disk _ _ _ _ _ Hs).
  - by apply report_sound.
  - split; [eapply evolves_matched; [exact He|apply Hs]|].
    apply (besides_sound _ others (results d, host d, l) (st, w, l') Hio Hst). apply Hs.
Qed.
Lemma steps_sound rc args others x y :
  io_ok (Config.output_dir (ktest rc)) → rtc (step rc args others) x y →
  sound rc others x.1.2 x.2 → sound rc others y.1.2 y.2.
Proof. intros Hio. induction 1 as [|x y z Hstep _ IH]; [done|]. intros Hs. by eapply IH, step_sound. Qed.
Lemma start_sound rc args others w d :
  let out := Config.output_dir (ktest rc) in
  out ≠ [] → io_denied out = false → disk_ok out w → io_ok out →
  (∀ c, hex_id c → clean_file out (w_fs w) c) →
  (∀ c m, loaded (clear_failed_to_run args) out (w_fs w) c = Some m → readable (build_results c None m)) →
  start rc args w = Ok d → sound rc others d (λ _, False).
Proof.
  intros out H1 H2 H3 Hio H5 H6 Hstart. unfold start in Hstart. fold out in Hstart.
  destruct (load _ _ w) as [[st w']|[]|] eqn:El; [|done]. injection Hstart as <-.
  split; [split; [split; intros; by simplify_map_eq|]|]; cbn.
  - intros i. cbn. rewrite choir_new_ids. set_solver.
  - destruct (load_synced _ _ _ _ _ H1 H2 H3 Hio H5 H6 El) as [Ho Hd Hc]. split; [done|done|].
    intros c m Hm. destruct (Hc c m Hm) as (_ & Ht & Hmir). split_and!; [|done|by left].
    destruct (load_spec _ (clear_failed_to_run args) w H1 H2 H3 Hio H5) as (st0 & w0 & Hl & _ & _ & Hby & _).
    rewrite Hl in El. injection El as <- <-. rewrite Hby in Hm. unfold loaded in Hm.
    destruct (stored out (w_fs w) c) as [m0|] eqn:Hst; [|done].
    by eapply stored_hex.
Qed.

(** C2: the daemon as a whole. Started on a results directory in order, and
    whatever its executors, the collections and averages it runs itself and the
    other programs of the host do meanwhile, in every state it reaches
    - each job of the choir is tracked under exactly one key, with that key's
      parameters, so no two jobs of the choir are for the same key, and every
      tracked job exists;
    - the file of each commit in memory reads back as the results in memory,
      unless another program (a collection among them) has changed it since the
      daemon last wrote it. When only collections touch the result files, such
      a file is gone, not garbled. *)
Theorem daemon_sound rc args others w d0 ph d lost :
  let out := Config.output_dir (ktest rc) in
  out ≠ [] → io_denied out = false → disk_ok out w → io_ok out →
  (∀ c, hex_id c → clean_file out (w_fs w) c) →
  (∀ c m, loaded (clear_failed_to_run args) out (w_fs w) c = Some m → readable (build_results c None m)) →
  start rc args w = Ok d0 →
  rtc (step rc args others) (Refilling, d0, λ _, False) (ph, d, lost) →
  (∀ i, i ∈ job_ids (choir d) → ∃ k s, job_map d !! k = Some i ∧ (∀ k', job_map d !! k' = Some i → k' = k) ∧
     job_spec (choir d) i = Some s ∧ js_params s = job_params rc k) ∧
  (∀ k i, job_map d !! k = Some i → i ∈ job_ids (choir d)) ∧
  (∀ c m, by_commit (results d) !! c = Some m →
     mirrors out (w_fs (host d)) c m ∨
     (lost c ∧
      ((∀ f f', others f f' → ∀ c, read f' (capnp_path out c) = read f (capnp_path out c)) →
       read (w_fs (host d)) (capnp_path out c) = None))).
Proof.
  intros out H1 H2 H3 Hio H5 H6 Hstart Hsteps.
  destruct (steps_sound rc args others _ _ Hio Hsteps) as [[[T1 T2 T3] Hall] Hs];
    [by apply (start_sound rc args others w)|]. cbn [fst snd] in *.
  split_and!.
  - intros i [k Hk]%Hall. destruct (T3 k i Hk) as (s & Hspec & Hp). exists k, s.
    split_and!; [done| |done..]. intros k' Hk'. by eapply T2.
  - done.
  - intros c m Hm. by destruct (ss_commit _ _ _ _ _ Hs _ _ Hm) as (_ & _ & ?).
Qed.
End main.

(** ** The fetcher *)
(** The repositories of the host: running a git command, what FETCH_HEAD is
    peeled to, a local branch, and [Repository::branch] with [force]. *)
Class Repos : Type := {
  repos : Type;
  run_git : Daemon.Command → repos → option bool * repos;
  fetch_head : repos → path → option string;
  ref_at : repos → path → string → option string;
  set_branch : repos → path → string → string → option repos
}.
Inductive fetch_error : Type := NotRun | FetchFailed (fetch : string) (p : path) | NoFetchHead | NoBranch.
Section fetcher.
Context {R : Repos}.

Definition fetch_branch (p : path) (user branch fetch : string) (r : repos) :
    outcome fetch_error () * repos :=
  match run_git (fetch_cmd p fetch) r with
  | (None, r) => (Err NotRun, r)
  | (Some false, r) => (Err (FetchFailed fetch p), r)
  | (Some true, r) =>
      match fetch_head r p with
      | None => (Err NoFetchHead, r)
      | Some commit =>
          match set_branch r p (user +:+ "/" +:+ branch) commit with
          | None => (Err NoBranch, r)
          | Some r => (Ok tt, r)
          end
      end
  end.
(** One round of the thread; an error is logged, and the round goes on. *)
Definition fetch_round (l : list (string * string * path * string)) (r : repos) : repos :=
  foldl (λ r b, let '(user, branch, p, fetch) := b in (fetch_branch p user branch fetch r).2) r l.

(** A fetch by remote and ref leaves the local branches alone, and setting a
    branch sets that branch of that repository. *)
Record git_ok (l : list (string * string * path * string)) : Prop := {
  go_fetch user branch p fetch r b r' q n :
    (user, branch, p, fetch) ∈ l → run_git (fetch_cmd p fetch) r = (b, r') → ref_at r' q n = ref_at r q n;
  go_set r p n c r' : set_branch r p n c = Some r' → ref_at r' p n = Some c;
  go_other r p n c r' q m : set_branch r p n c = Some r' → (q, m) ≠ (p, n) → ref_at r' q m = ref_at r q m
}.
(** The branch [n] of [p] is at what a fetch of an entry of [l] for it found. *)
Definition fetched (l : list (string * string * path * string)) (p : path) (n c : string) : Prop :=
  ∃ user branch fetch r r', (user, branch, p, fetch) ∈ l ∧ n = user +:+ "/" +:+ branch ∧
    run_git (fetch_cmd p fetch) r = (Some true, r') ∧ fetch_head r' p = Some c.
Lemma fetch_branch_spec l p user branch fetch r q n :
  git_ok l → (user, branch, p, fetch) ∈ l →
  let r' := (fetch_branch p user branch fetch r).2 in
  ref_at r' q n = ref_at r q n ∨ ∃ c, ref_at r' q n = Some c ∧ fetched l q n c.
Proof.
  intros [G1 G2 G3] Hin. cbn zeta. unfold fetch_branch.
  destruct (run_git _ r) as [b r1] eqn:E. pose proof (G1 _ _ _ _ _ _ _ q n Hin E) as Hq.
  destruct b as [[]|]; cbn [snd]; [|by left..].
  destruct (fetch_head r1 p) as [c|] eqn:Eh; cbn [snd]; [|by left].
  destruct (set_branch r1 p _ c) as [r2|] eqn:Es; cbn [snd]; [|by left].
  destruct (decide ((q, n) = (p, user +:+ "/" +:+ branch))) as [[= -> ->]|Hne].
  - right. exists c. split; [by eapply G2|]. exists user, branch, fetch, r, r1. by split_and!.
  - left. by rewrite (G3 _ _ _ _ _ _ _ Es Hne).
Qed.
Lemma fetch_round_spec l l' r q n :
  git_ok l → l' ⊆ l →
  ref_at (fetch_round l' r) q n = ref_at r q n ∨
  ∃ c, ref_at (fetch_round l' r) q n = Some c ∧ fetched l q n c.
Proof.
  intros HG. revert r. induction l' as [|[[[user branch] p] fetch] l' IH]; intros r Hl; [by left|].
  cbn [fetch_round foldl]. fold (fetch_round l' (fetch_branch p user branch fetch r).2).
  destruct (IH (fetch_branch p user branch fetch r).2) as [H|H]; [set_solver| |by right].
  rewrite H. apply (fetch_branch_spec l); [done|]. apply Hl. by left.
Qed.
(** C11: one round of the fetcher, over the branches of the configuration. A local
    branch is left as it was, or it is <user>/<branch> of a readable user
    config, in that branch's repository, and then it is at the FETCH_HEAD that
    a successful fetch of just that branch's remote and ref left. In
    particular no branch of one user is ever set to what another's fetch
    found. *)
Theorem fetch_round_correct rc r q n :
  git_ok (fetch_list rc) → (∀ u, is_Some (users rc !! u) → contains_char u "/" = false) →
  ref_at (fetch_round (fetch_list rc) r) q n = ref_at r q n ∨
  ∃ user branch uc b c r1 r2,
    n = user +:+ "/" +:+ branch ∧ users rc !! user = Some (Ok uc) ∧ branches uc !! branch = Some b ∧
    repo_path (ktest rc) (repo b) = Some q ∧
    (∀ user' branch', n = user' +:+ "/" +:+ branch' → is_Some (users rc !! user') →
       user' = user ∧ branch' = branch) ∧
    run_git (fetch_cmd q (Config.fetch b)) r1 = (Some true, r2) ∧ fetch_head r2 q = Some c ∧
    ref_at (fetch_round (fetch_list rc) r) q n = Some c.
Proof.
  intros HG Hslash. destruct (fetch_round_spec (fetch_list rc) (fetch_list rc) r q n HG) as [|(c & Hc & Hf)];
    [done|by left|right].
  destruct Hf as (user & branch & fetch & r1 & r2 & Hin & -> & Hrun & Hhead).
  apply elem_of_fetch_list in Hin as (uc & b & Hu & Hb & Hp & ->).
  exists user, branch, uc, b, c, r1, r2. split_and!; try done.
  intros user' branch' Heq Hu'. pose proof (Hslash user ltac:(by eexists)) as H1. pose proof (Hslash user' Hu') as H2.
  apply (f_equal (split "/")) in Heq.
  change (user +:+ "/" +:+ branch) with (user +:+ String "/" branch) in Heq.
  change (user' +:+ "/" +:+ branch') with (user' +:+ String "/" branch') in Heq.
  rewrite !split_app in Heq by done. injection Heq as -> Hs. split; [done|].
  apply (f_equal (join "/")) in Hs. by rewrite !join_split in Hs.
Qed.
End fetcher.

(** ** Concrete runs *)
Section witnesses.
#[local] Existing Instance plain_os.
#[local] Existing Instance demo_codec.
#[local] Existing Instance demo_chrono.
#[local] Existing Instance demo_durations_codec.
#[local] Existing Instance Sched.demo_repo.
#[local] Existing Instance demo_list.
#[local] Existing Instance demo_choir_ops.

#[local] Instance demo_choir_run : ChoirRun.
Proof.
  refine {| choir_new := (∅ : gmap Z (JobSpec * bool)); status_json _ := Some "status";
            pending_by_group c := {[ "kent" := size (job_ids c) ]};
            all_finished _ := true; evolves c c' := c' = c |}.
  - change (dom (∅ : gmap Z (JobSpec * bool)) = ∅). apply dom_empty_L.
  - by intros ?? ->.
  - by intros ??? ->.
Defined.
Definition demo_args : Args := mkArgs false (Some 2) false.
(** A collection two hours later, on a configuration without branches, takes
    the file of the commit the daemon has in memory. *)
Definition demo_ci_idle : CiConfig := mkCiConfig (ktest demo_ci) ∅.
Definition demo_later (d : daemon) : daemon :=
  with_host d (mkWorld (w_fs (host d)) 9000 (w_seq (host d))).
Definition demo_collected (r : outcome Empty_set daemon) : bool :=
  match r with
  | Ok d => match top_up demo_ci demo_args d with
            | Ok d' =>
                let d' := report demo_ci d' in
                disk_check ["out"] (w_fs (host d')) && maintenance_due (demo_later d') &&
                match Gc.gc_results demo_ci_idle false 9000 (w_fs (host d')) with
                | Ok f => bool_decide (read f (capnp_path ["out"] c1) = None) &&
                          bool_decide (is_Some (by_commit (results d') !! c1)) &&
                          bool_decide (size (job_map d') = 2)
                | _ => false
                end
            | _ => false
            end
  | _ => false
  end.
Lemma demo_collect : demo_collected (start demo_ci demo_args demo_world) = true.
Proof. computed. Qed.
Lemma daemon_sound_witness :
  ∃ d0 d lost, start demo_ci demo_args demo_world = Ok d0 ∧
    rtc (step demo_ci demo_args (λ f f', f' = f)) (Refilling, d0, λ _, False) (Averaging, d, lost) ∧
    size (job_map d) = 2 ∧ (∀ i, i ∈ job_ids (choir d) → ∃ k, job_map d !! k = Some i) ∧
    is_Some (by_commit (results d) !! c1) ∧ lost c1.
Proof.
  pose proof demo_collect as H. destruct (start demo_ci demo_args demo_world) as [d0|[]|] eqn:E; [|discriminate H].
  cbn [demo_collected] in H. destruct (top_up demo_ci demo_args d0) as [d1|[]|] eqn:Et; [|discriminate H].
  apply andb_true_iff in H as [[Hdisk Hdue]%andb_true_iff H].
  destruct (Gc.gc_results _ _ _ _) as [f|[]|] eqn:Eg in H; [|discriminate H].
  apply andb_true_iff in H as [[Hread Hmem]%andb_true_iff Hsize].
  apply bool_decide_eq_true in Hread, Hmem, Hsize.
  set (d2 := report demo_ci d1) in *. set (d3 := demo_later d2).
  set (l3 := disturbed ["out"] (w_fs (host d2)) (w_fs (host d3)) (λ _, False)).
  set (d := with_host d3 (set_fs (host d3) f)).
  assert (rtc (step demo_ci demo_args (λ f f', f' = f)) (Refilling, d0, λ _, False)
            (Averaging, d, disturbed ["out"] (w_fs (host d3)) f l3)) as Hsteps.
  { eapply rtc_l; [exact (step_refill demo_ci demo_args _ d0 d1 _ Et)|].
    eapply rtc_l.
    - eapply (step_beside demo_ci demo_args _ Upkeep d2 _ (choir d2) (results d2) (host d3) l3); [reflexivity|].
      apply rtc_once. apply (be_other _ _ (results d2) (host d2) (host d3)); [|reflexivity]. by apply disk_check_ok.
    - apply rtc_once.
      apply (step_gc demo_ci demo_args (λ f f', f' = f) d3 l3 demo_ci_idle f);
        [exact Hdue|reflexivity|]. apply gc_ran. exact Eg. }
  exists d0, d, (disturbed ["out"] (w_fs (host d3)) f l3).
  split; [reflexivity|]. split; [exact Hsteps|]. split; [exact Hsize|].
  destruct (daemon_sound demo_ci demo_args (λ f f', f' = f) demo_world d0 Averaging d
      (disturbed ["out"] (w_fs (host d3)) f l3)) as (Hall & _ & Hfiles);
    [discriminate|reflexivity|apply demo_disk|apply demo_io|apply demo_clean|intros; exact I|exact E|exact Hsteps|].
  split; [intros i Hi; destruct (Hall i Hi) as (k & _ & Hk & _); by exists k|].
  split; [exact Hmem|]. destruct Hmem as [m Hm].
  destruct (Hfiles c1 m Hm) as [(buf & res & Hbuf & _)|[Hl _]]; [|exact Hl].
  exfalso. change (read f (capnp_path ["out"] c1) = Some buf) in Hbuf.
  rewrite Hread in Hbuf. discriminate Hbuf.
Defined.

(** Repositories as maps of branches, with the command as what it fetched. *)
#[local] Instance demo_repos : Repos := {|
  repos := gmap (path * string) string * string;
  run_git c r := (Some true, (r.1, join " " (Daemon.args c)));
  fetch_head r _ := Some r.2;
  ref_at r p n := r.1 !! (p, n);
  set_branch r p n c := Some (<[(p, n) := c]> r.1, r.2)
|}.
Lemma demo_git_ok l : git_ok l.
Proof.
  split; cbn.
  - by intros ? ? ? ? ? ? ? ? ? _ [= _ <-].
  - intros r p n c r' [= <-]. cbn. by rewrite lookup_insert_eq.
  - intros r p n c r' q m [= <-] Hne. cbn. by rewrite lookup_insert_ne.
Qed.
Definition no_branches : repos := (∅ : gmap (path * string) string, "").
Definition after_round : repos := fetch_round (fetch_list demo_ci) no_branches.
Lemma fetch_round_correct_witness :
  ∃ branch b c, "kent/master" = "kent/" +:+ branch ∧ fetch b = "x" ∧
    ref_at after_round ["linux"] "kent/master" = Some c.
Proof.
  assert (ref_at after_round ["linux"] "kent/master" = Some "-C /linux fetch x") as Hr by computed.
  destruct (fetch_round_correct demo_ci no_branches ["linux"] "kent/master" (demo_git_ok _)) as [H|H].
  - intros u [r Hu]. unfold demo_ci in Hu. cbn [users] in Hu. by apply lookup_singleton_Some in Hu as [<- _].
  - exfalso. unfold after_round in Hr. rewrite H in Hr. discriminate Hr.
  - destruct H as (user & branch & uc & b & c & r1 & r2 & Hn & Hu & Hb & _ & _ & _ & _ & Hc).
    unfold demo_ci in Hu. cbn [users] in Hu. apply lookup_singleton_Some in Hu as [<- [= <-]].
    cbn [branches] in Hb. apply lookup_singleton_Some in Hb as [<- <-].
    exists "master", (mkBranch "x" "linux" ["g"]), c. split; [reflexivity|]. split; [reflexivity|exact Hc].
Defined.
End witnesses.
End System.
