(* ===== verification/Rm.v ===== *)
(** * Deleting results by name (src/src/bin/rm-results.rs)

    Which result directories a pattern and a range of commits select, their
    removal, and the result files written anew. *)

From S2P Require Import Prelude.
From S2P Require Import RustStr.
From S2P Require Import Keys.
From S2P Require Import Status.
From S2P Require Import Fs.
From S2P Require Import Config.
From S2P Require Import Store.
From S2P Require Import Results.
From S2P Require Import Git.
From S2P Require Import Stats.
From S2P Require Import Jobs.

Module Rm.
Import Str Keys Status Fs Config Store Results Git.

Record Args : Type := mkArgs {
  test : string; commits : option string; arg_repo : option path; arg_output_dir : option path;
  dry_run : bool; verbose : bool
}.
Inductive rm_error : Type :=
  | InvalidPattern (test : string)
  | NoOutputDirectory
  | NoRepository
  | OpeningRepository (p : path)
  | ParsingRange (range : string)
  | ReadingOutputDir
  | ReadingCommitDir (p : path).
#[export] Instance rm_error_eq_dec : EqDecision rm_error.
Proof. solve_decision. Defined.

(** The glob crate: a pattern, compiled, matches names. *)
Class Glob : Type := { pattern_new : string → option (string → bool) }.
(** git2's ranges: the two ends of [a..b] (either may be missing), and the walk
    from one commit that leaves out the ancestors of another. *)
Class RevParse {G : Git2} : Type := {
  revparse : repository → string → option (option string * option string);
  walk_range : repository → string → string → option (list (option string))
}.
(** The order in which a [HashSet] of names is listed. *)
Class HashOrder : Type := {
  hash_order : list string → list string;
  hash_order_perm l : hash_order l ≡ₚ l
}.

Section rm.
Context {OS : OsEnv} {CD : Codec test_results} {CH : Chrono} {G : Git2}.
Context {GL : Glob} {RP : RevParse} {HO : HashOrder}.

Definition get_commits_in_range (repo : repository) (range : string) : option (gset string) :=
  if contains range ".." then
    revspec ← revparse repo range;
    from ← (revspec.1 : option string);
    to ← (revspec.2 : option string);
    if negb (revwalk repo) then None
    else (λ items, list_to_set (omap id items)) <$> walk_range repo to from
  else
    (λ c, {[ c ]}) <$> git_get_commit repo range.

(** ** Selecting the results *)
Definition skipped_prefixes : list string :=
  ["jobs."; "workers"; "user_stats"; "test_durations"; "fetch"].
Definition skipped (name_str : string) : bool :=
  existsb (starts_with name_str) skipped_prefixes ||
  ends_with name_str ".lock" || ends_with name_str ".new" || ends_with name_str ".capnp" ||
  (String.length name_str <? 40).
Definition commit_selected (commits : option (gset string)) (name_str : string) :
    outcome rm_error bool :=
  match commits with
  | None => Ok true
  | Some commits => c ← slice_to name_str 40; Ok (bool_decide (c ∈ commits))
  end.
Definition match_entry (output_dir : path) (test_pattern : string → bool)
    (commits : option (gset string)) (f : fs) (name : string) : outcome rm_error (list path) :=
  let name_str := lossy name in
  if skipped name_str then Ok []
  else
    match commit_selected commits name_str with
    | Ok true =>
        let commit_dir := output_dir ++ [name] in
        if negb (is_dir f commit_dir) then Ok []
        else
          match read_dir f commit_dir with
          | None => Err (ReadingCommitDir commit_dir)
          | Some tests => Ok ((λ t, commit_dir ++ [t]) <$>
                              filter (λ t, test_pattern (lossy t) = true) tests)
          end
    | Ok false => Ok []
    | Err e => Err e
    | Panic => Panic
    end.
Fixpoint match_entries (output_dir : path) (test_pattern : string → bool)
    (commits : option (gset string)) (f : fs) (names : list string) : outcome rm_error (list path) :=
  match names with
  | [] => Ok []
  | n :: names => l ← match_entry output_dir test_pattern commits f n;
                  rest ← match_entries output_dir test_pattern commits f names; Ok (l ++ rest)
  end.
Definition find_matching_results (output_dir : path) (test_pattern : string → bool)
    (commits : option (gset string)) (f : fs) : outcome rm_error (list path) :=
  match read_dir f output_dir with
  | None => Err ReadingOutputDir
  | Some names => match_entries output_dir test_pattern commits f names
  end.

(** ** Removing them *)
Definition remove_path (f : fs) (p : path) : fs * bool :=
  if is_dir f p then remove_dir_all f p else remove_file f p.
Definition remove_all (f : fs) (results : list path) : fs :=
  foldl (λ f p, (remove_path f p).1) f results.
(** Each path names its commit, the directory it is in. *)
Definition affected_commits (results : list path) : gset string :=
  list_to_set (omap (λ p, lossy <$> file_name (parent p)) results).
Fixpoint update_summaries (output_dir : path) (w : world) (commits : list string) :
    outcome rm_error world :=
  match commits with
  | [] => Ok w
  | c :: commits =>
      match commit_update_results output_dir c w with
      | Ok w => update_summaries output_dir w commits
      | Err e => match e : Empty_set with end
      | Panic => Panic
      end
  end.
Definition remove_results (output_dir : path) (results : list path) (w : world) :
    outcome rm_error world :=
  update_summaries output_dir (set_fs w (remove_all (w_fs w) results))
    (hash_order (elements (affected_commits results))).

Definition or_else {A} (a b : option A) : option A := match a with Some _ => a | None => b end.
Definition ok_or {A} (e : rm_error) (a : option A) : outcome rm_error A :=
  match a with Some a => Ok a | None => Err e end.
Definition selected_commits (args : Args) (rc : option CiConfig) :
    outcome rm_error (option (gset string)) :=
  match commits args with
  | None => Ok None
  | Some range =>
      repo_path ← ok_or NoRepository (or_else (arg_repo args) ((λ r, linux_repo (ktest r)) <$> rc));
      repo ← ok_or (OpeningRepository repo_path) (open_repo repo_path);
      commits ← ok_or (ParsingRange range) (get_commits_in_range repo range);
      Ok (Some commits)
  end.
(** [main]; [rc] is the configuration if it can be read. *)
Definition rm_results (args : Args) (rc : option CiConfig) (w : world) : outcome rm_error world :=
  test_pattern ← ok_or (InvalidPattern (test args)) (pattern_new (replace_char "/" "." (test args)));
  output_dir ← ok_or NoOutputDirectory
    (or_else (arg_output_dir args) ((λ r, Config.output_dir (ktest r)) <$> rc));
  commits ← selected_commits args rc;
  results ← find_matching_results output_dir test_pattern commits (w_fs w);
  if decide (results = []) then Ok w
  else if dry_run args then Ok w
  else remove_results output_dir results w.

(** ** What is selected *)
Definition picked (output_dir : path) (test_pattern : string → bool)
    (commits : option (gset string)) (f : fs) (n t : string) : Prop :=
  skipped (lossy n) = false ∧
  match commits with Some cs => Str.take 40 (lossy n) ∈ cs | None => True end ∧
  is_dir f (output_dir ++ [n]) = true ∧
  is_Some (f !! (resolve f (output_dir ++ [n]) ++ [t])) ∧ test_pattern (lossy t) = true.
Lemma match_entry_spec out pat cs f n l :
  match_entry out pat cs f n = Ok l →
  NoDup l ∧ ∀ p, p ∈ l ↔ ∃ t, p = (out ++ [n]) ++ [t] ∧ picked out pat cs f n t.
Proof.
  unfold match_entry, picked. destruct (skipped (lossy n)) eqn:Hs.
  { intros [= <-]. split; [constructor|]. intros p. rewrite elem_of_nil. naive_solver. }
  assert (∀ b, commit_selected cs (lossy n) = Ok b →
            (b = true ↔ match cs with Some cs => Str.take 40 (lossy n) ∈ cs | None => True end)) as Hsel.
  { unfold commit_selected. destruct cs as [cs|]; [|by intros b [= <-]].
    intros b (c & Hc & [= <-])%outcome_bind_Ok. unfold slice_to in Hc.
    case_match; [|done]. injection Hc as <-. apply bool_decide_eq_true. }
  destruct (commit_selected cs (lossy n)) as [[|]|e|]; [| |done..]; specialize (Hsel _ eq_refl).
  2:{ intros [= <-]. split; [constructor|]. intros p. rewrite elem_of_nil. naive_solver. }
  destruct (is_dir f (out ++ [n])); cbn [negb].
  2:{ intros [= <-]. split; [constructor|]. intros p. rewrite elem_of_nil. naive_solver. }
  destruct (read_dir f (out ++ [n])) as [tests|] eqn:Hd; [|done]. intros [= <-].
  apply read_dir_Some in Hd as [Hnd Hin]. split.
  - apply NoDup_fmap; [intros ? ?; intros H; apply app_inv_head in H; by injection H|].
    by apply NoDup_filter.
  - intros p. rewrite list_elem_of_fmap. setoid_rewrite list_elem_of_filter. setoid_rewrite Hin.
    naive_solver.
Qed.
Lemma match_entries_spec out pat cs f names l :
  NoDup names → match_entries out pat cs f names = Ok l →
  NoDup l ∧ ∀ p, p ∈ l ↔ ∃ n t, n ∈ names ∧ p = (out ++ [n]) ++ [t] ∧ picked out pat cs f n t.
Proof.
  intros Hnd. revert l. induction Hnd as [|n names Hn Hnd IH]; intros l H; cbn [match_entries] in H.
  { injection H as <-. split; [constructor|]. intros p. rewrite elem_of_nil.
    split; [done|]. by intros (n & t & []%elem_of_nil & _). }
  apply outcome_bind_Ok in H as (l1 & [Hnd1 H1]%match_entry_spec & H).
  apply outcome_bind_Ok in H as (l2 & [Hnd2 H2]%IH & [= <-]). split.
  - apply NoDup_app. split_and!; [done| |done]. intros p (t & -> & _)%H1 (n' & t' & Hn' & Heq & _)%H2.
    apply app_inj_2 in Heq as [Heq _]; [|done]. apply app_inv_head in Heq. injection Heq as <-. done.
  - intros p. rewrite elem_of_app, H1, H2. setoid_rewrite elem_of_cons. naive_solver.
Qed.
Lemma find_matching_spec out pat cs f l :
  find_matching_results out pat cs f = Ok l → resolve f out = out →
  NoDup l ∧ ∀ p, p ∈ l ↔ ∃ n t, p = (out ++ [n]) ++ [t] ∧ is_Some (f !! (out ++ [n])) ∧
                               picked out pat cs f n t.
Proof.
  unfold find_matching_results. destruct (read_dir f out) as [names|] eqn:Hd; [|done].
  intros H Hout. apply read_dir_Some in Hd as [Hnd Hin]. rewrite Hout in Hin.
  destruct (match_entries_spec _ _ _ _ _ _ Hnd H) as [? Hl]. split; [done|].
  intros p. rewrite Hl. setoid_rewrite Hin. naive_solver.
Qed.

(** ** What is removed *)
(** Removing [p] takes [q]: it is [p], or below the directory [p]. *)
Definition takes (f : fs) (p q : path) : bool :=
  negb (io_denied p) &&
  (bool_decide (q = p) ||
   bool_decide (p `prefix_of` q) && match f !! p with Some (NDir _) => true | _ => false end).
Lemma remove_path_spec f p q :
  p ≠ [] → (remove_path f p).1 !! q = if takes f p q then None else f !! q.
Proof.
  intros Hp. unfold remove_path, takes.
  assert (delete p f !! q = if bool_decide (q = p) then None else f !! q) as Hdel.
  { case_bool_decide as Hq; [subst; apply lookup_delete_eq|by apply lookup_delete_ne]. }
  unfold remove_dir_all, remove_file. destruct (io_denied p); [by destruct (is_dir f p)|]. cbn [negb andb].
  destruct (f !! p) as [[d t|t|t]|] eqn:E.
  - assert (is_dir f p = false) as ->.
    { unfold is_dir, dir_node. rewrite resolve_not_link, E by (by rewrite E). by destruct p. }
    cbn. rewrite Hdel, andb_false_r, orb_false_r. done.
  - assert (is_dir f p = true) as ->.
    { unfold is_dir, dir_node. rewrite resolve_not_link, E by (by rewrite E). by destruct p. }
    cbn. rewrite andb_true_r. destruct (decide (p `prefix_of` q)) as [Hq|Hq].
    + rewrite (bool_decide_eq_true_2 (p `prefix_of` q)), orb_true_r by done.
      apply map_lookup_filter_None. right. intros w _ H. by apply H.
    + rewrite !bool_decide_eq_false_2 by (done || by intros ->). cbn.
      destruct (f !! q) as [w|] eqn:Ew; [by apply map_lookup_filter_Some|].
      apply map_lookup_filter_None. by left.
  - rewrite andb_false_r, orb_false_r. destruct (is_dir f p); apply Hdel.
  - rewrite andb_false_r, orb_false_r. destruct (is_dir f p); cbn.
    all: case_bool_decide as Hq; [by subst|done].
Qed.
(** Paths of one length do not take each other. *)
Lemma remove_all_spec f results len q :
  0 < len → NoDup results → Forall (λ p, length p = len) results →
  remove_all f results !! q = if existsb (λ p, takes f p q) results then None else f !! q.
Proof.
  intros Hlen Hnd. revert f. induction Hnd as [|p results Hp Hnd IH]; intros f Hl; [done|].
  apply Forall_cons in Hl as [Hpl Hl]. cbn [remove_all foldl existsb].
  change (foldl _ ?g results) with (remove_all g results).
  assert (p ≠ []) as Hne by (intros ->; cbn in *; lia). rewrite IH by done.
  assert (∀ p', p' ∈ results → takes (remove_path f p).1 p' q = takes f p' q) as Hsame.
  { intros p' Hp'. unfold takes. rewrite remove_path_spec by done.
    assert (takes f p p' = false) as ->; [|done]. unfold takes.
    rewrite Forall_forall in Hl. specialize (Hl _ Hp').
    assert (p' ≠ p) by (by intros ->). rewrite (bool_decide_eq_false_2 (p' = p)) by done.
    rewrite (bool_decide_eq_false_2 (p `prefix_of` p')); [by rewrite andb_false_r|].
    intros [k ->]. rewrite length_app in Hl. destruct k; [by rewrite app_nil_r in *|cbn in Hl; lia]. }
  assert (existsb (λ p', takes (remove_path f p).1 p' q) results = existsb (λ p', takes f p' q) results) as ->.
  { clear IH Hp Hnd Hl. induction results as [|p' results IH]; [done|]. cbn.
    rewrite Hsame by by left. f_equal. apply IH. intros p'' Hp''. apply Hsame. by right. }
  rewrite remove_path_spec by done. destruct (takes f p q), (existsb _ results); done.
Qed.

(** ** The result files written anew *)
Lemma modified_frame f f' p :
  (∀ t, f !! p ≠ Some (NSymlink t)) → f' !! p = f !! p → modified f' p = modified f p.
Proof.
  intros Hl Hf. unfold modified. rewrite !resolve_not_link by (rewrite ?Hf; done). by rewrite Hf.
Qed.
Lemma read_test_result_frame f f' dir :
  (∀ x t, f !! (dir ++ [x]) ≠ Some (NSymlink t)) → (∀ x, f' !! (dir ++ [x]) = f !! (dir ++ [x])) →
  read_test_result f' dir = read_test_result f dir.
Proof.
  intros Hl Hf. unfold read_test_result, read_to_string.
  rewrite !path_join_plain by done.
  by rewrite !(read_frame f f'), !(modified_frame f f') by done.
Qed.

(** A commit directory whose results can be read and written to a file. *)
Definition results_in (f : fs) (out : path) (c k : string) : option TestResult :=
  if decide (is_Some (f !! (out ++ [c; k]))) then read_test_result f (out ++ [c; k]) else None.
Record ready (f : fs) (out : path) (c : string) : Prop := {
  rd_id : hex_id c;
  rd_io : io_denied (out ++ [c]) = false;
  rd_dir : ∃ t, f !! (out ++ [c]) = Some (NDir t);
  rd_text k : is_Some (f !! (out ++ [c; k])) → valid_utf8 k = true;
  rd_link k x t : f !! (out ++ [c; k; x]) ≠ Some (NSymlink t);
  rd_fits (m : TestResultsMap) : (∀ k, m !! k = results_in f out c k) →
    fits_u32 m ∧ readable (build_results c None m)
}.
Definition same_below (f f' : fs) (out : path) (c : string) : Prop :=
  ∀ k, f' !! (out ++ c :: k) = f !! (out ++ c :: k).
Lemma results_in_frame f f' out c k :
  ready f out c → same_below f f' out c → results_in f' out c k = results_in f out c k.
Proof.
  intros Hr Hs. unfold results_in. rewrite (Hs [k]).
  assert (∀ x, (out ++ [c; k]) ++ [x] = out ++ [c; k; x]) as Happ by (intros; by rewrite <-app_assoc).
  case_decide; [|done]. apply read_test_result_frame; intros x; rewrite Happ; [apply Hr|apply (Hs [k; x])].
Qed.
Lemma ready_frame f f' out c : ready f out c → same_below f f' out c → ready f' out c.
Proof.
  intros Hr Hs. split.
  - apply Hr.
  - apply Hr.
  - rewrite (Hs []). apply Hr.
  - intros k. rewrite (Hs [k]). apply Hr.
  - intros k x t. rewrite (Hs [k; x]). apply Hr.
  - intros m Hm. apply (rd_fits _ _ _ Hr). intros k. rewrite Hm. by apply results_in_frame.
Qed.
Lemma ready_can_update out c w :
  ready (w_fs w) out c →
  ∃ names, can_update out c names w ∧ ∀ k, k ∈ names ↔ is_Some (w_fs w !! (out ++ [c; k])).
Proof.
  intros Hr. destruct (rd_dir _ _ _ Hr) as [t Ht].
  assert (plain_commit c) as Hc by apply hex_id_plain, Hr.
  assert (resolve (w_fs w) (out ++ [c]) = out ++ [c]) as Hres
    by (apply resolve_not_link; intros t'; by rewrite Ht).
  assert (is_dir (w_fs w) (out ++ [c]) = true) as Hd.
  { unfold is_dir, dir_node. rewrite Hres, Ht. by destruct out. }
  destruct (read_dir (w_fs w) (out ++ [c])) as [names|] eqn:Hn.
  2:{ unfold read_dir in Hn. by rewrite (rd_io _ _ _ Hr), Hd in Hn. }
  pose proof (read_dir_Some _ _ _ Hn) as [_ Hin]. rewrite Hres in Hin.
  assert (∀ k, k ∈ names ↔ is_Some (w_fs w !! (out ++ [c; k]))) as Hin'
    by (intros k; by rewrite Hin, <-app_assoc).
  assert (Forall (λ n, valid_utf8 n = true) names) as Htext.
  { apply Forall_forall. intros k Hk%Hin'. by apply Hr. }
  exists names. split; [|done]. split; rewrite ?path_join_plain by done; [done..|].
  intros m Hm. apply (rd_fits _ _ _ Hr). intros k. unfold commitdir_get_results_fs in Hm.
  rewrite path_join_plain, Hn in Hm by done.
  destruct (get_results_loop_spec (w_fs w) (out ++ [c]) names ∅ Htext) as (m' & Hm' & Hk).
  rewrite Hm in Hm'. injection Hm' as <-. rewrite Hk, lookup_empty, <-app_assoc. unfold results_in.
  destruct (decide (k ∈ names)) as [Hkn|Hkn]; rewrite Hin' in Hkn.
  - rewrite decide_True by done. by destruct (read_test_result _ _).
  - by rewrite decide_False.
Qed.

(** The file of [c] lists what is in its directory in [f]. *)
Definition summarised (f : fs) (out : path) (w : world) (c : string) : Prop :=
  ∃ buf res, read (w_fs w) (capnp_path out c) = Some buf ∧ parse_test_results buf = Ok res ∧
    ∀ k, cr_tests res !! k = reset_start <$> results_in f out c k.
Lemma capnp_not_below out c c' k : hex_id c → hex_id c' → out ++ c :: k ≠ capnp_path out c'.
Proof.
  intros (Hc & _) Hc'. rewrite capnp_path_plain by by apply hex_id_plain.
  intros H%app_inv_head. injection H as -> _. destruct Hc' as (Hc' & _).
  rewrite str_length_app, Hc' in Hc. done.
Qed.
Lemma update_summaries_spec out w cs f :
  disk_ok out w → io_ok out → NoDup cs → Forall (ready f out) cs →
  (∀ c, c ∈ cs → same_below f (w_fs w) out c) →
  ∃ w', update_summaries out w cs = Ok w' ∧
    (∀ q, (∀ c, c ∈ cs → q ≠ capnp_path out c) → w_fs w' !! q = w_fs w !! q) ∧
    ∀ c, c ∈ cs → summarised f out w' c.
Proof.
  intros Hd Hio Hnd. revert w Hd. induction Hnd as [|c cs Hc Hnd IH]; intros w Hd Hr Hs.
  { exists w. split; [done|]. split; [done|]. by intros c []%elem_of_nil. }
  apply Forall_cons in Hr as [Hrc Hr]. assert (same_below f (w_fs w) out c) as Hsc by (apply Hs; by left).
  pose proof (ready_frame _ _ _ _ Hrc Hsc) as Hrw.
  destruct (ready_can_update out c w Hrw) as (names & Hcan & Hin).
  destruct (commit_update_spec out c names w Hd Hio Hcan)
    as (w1 & buf & res & Hw1 & Hd1 & Hframe & Hread & Hparse & Hk).
  cbn [update_summaries]. rewrite Hw1.
  assert (∀ c', c' ∈ cs → hex_id c') as Hids
    by (intros c' Hc'; rewrite Forall_forall in Hr; by apply (Hr c')).
  destruct (IH w1 Hd1 Hr) as (w' & Hw' & Hframe' & Hsum).
  { intros c' Hc' k. rewrite Hframe; [by apply Hs; right|].
    apply capnp_not_below; [by apply Hids|apply Hrc]. }
  exists w'. split; [done|]. split.
  - intros q Hq. rewrite Hframe', Hframe; [done|apply Hq; by left|]. intros c' Hc'. apply Hq. by right.
  - intros c' [->|Hc']%elem_of_cons; [|auto]. exists buf, res. split_and!; [|done|].
    + rewrite <-Hread. apply read_frame.
      * intros t. rewrite capnp_path_plain by apply hex_id_plain, Hrc. apply Hd1.
      * apply Hframe'. intros c' Hc' Heq. apply capnp_path_inj in Heq as ->; [done|apply hex_id_plain, Hrc|by apply hex_id_plain, Hids].
    + intros k. rewrite Hk, <-(results_in_frame f (w_fs w)) by done. unfold results_in.
      destruct (decide (k ∈ names)) as [Hkn|Hkn]; rewrite Hin in Hkn;
        [by rewrite decide_True|by rewrite decide_False].
Qed.

Lemma elem_of_affected out results c :
  (∀ p, p ∈ results → ∃ n t, p = (out ++ [n]) ++ [t] ∧ hex_id n) →
  c ∈ affected_commits results ↔ ∃ t, (out ++ [c]) ++ [t] ∈ results.
Proof.
  intros Hall. unfold affected_commits. rewrite elem_of_list_to_set, list_elem_of_omap.
  assert (∀ n t, hex_id n → (lossy <$> file_name (parent ((out ++ [n]) ++ [t]))) = Some n) as Hname.
  { intros n t (_ & _ & Hn). rewrite parent_snoc. unfold file_name. rewrite last_snoc. cbn.
    by rewrite lossy_text. }
  split.
  - intros (p & Hp & Hc). destruct (Hall p Hp) as (n & t & -> & Hn). rewrite Hname in Hc by done.
    injection Hc as <-. eauto.
  - intros (t & Ht). exists ((out ++ [c]) ++ [t]). split; [done|].
    destruct (Hall _ Ht) as (n & t' & Heq & Hn). apply app_inj_2 in Heq as [Heq _]; [|done].
    apply app_inv_head in Heq. injection Heq as <-. by apply Hname.
Qed.
Lemma disk_ok_subset out w f :
  disk_ok out w → f !! out = w_fs w !! out → (∀ q v, f !! q = Some v → w_fs w !! q = Some v) →
  disk_ok out (set_fs w f).
Proof.
  intros [H1 H2 H3 H4] Hout Hsub. split; cbn.
  - by eapply dir_node_frame.
  - intros c seq Hc. specialize (H2 c seq Hc). apply eq_None_not_Some.
    intros [v E%Hsub]. congruence.
  - intros c t Hc E%Hsub. by eapply H3.
  - intros n t E%Hsub. by eapply H4.
Qed.

(** C18: deleting results. The run goes through; it selects exactly the
    subtest directories that the pattern matches in the directories of the
    selected commits; it removes those with all that is below them, and nothing
    else; and the file of every commit that lost one is written anew, with what
    is still in the commit's directory. *)
Theorem rm_results_correct args rc w pat out cs results :
  pattern_new (replace_char "/" "." (test args)) = Some pat →
  or_else (arg_output_dir args) ((λ r, Config.output_dir (ktest r)) <$> rc) = Some out →
  selected_commits args rc = Ok cs → dry_run args = false → out ≠ [] →
  disk_ok out w → io_ok out → find_matching_results out pat cs (w_fs w) = Ok results →
  (∀ n t, picked out pat cs (w_fs w) n t → hex_id n) →
  let f := remove_all (w_fs w) results in
  (∀ c t, (out ++ [c]) ++ [t] ∈ results → ready f out c) →
  ∃ w', rm_results args rc w = Ok w' ∧
    (∀ p, p ∈ results ↔ ∃ n t, p = (out ++ [n]) ++ [t] ∧ is_Some (w_fs w !! (out ++ [n])) ∧
                               picked out pat cs (w_fs w) n t) ∧
    (∀ q, f !! q = if existsb (λ p, takes (w_fs w) p q) results then None else w_fs w !! q) ∧
    (∀ q, (∀ c t, (out ++ [c]) ++ [t] ∈ results → q ≠ capnp_path out c) → w_fs w' !! q = f !! q) ∧
    (∀ c t, (out ++ [c]) ++ [t] ∈ results → summarised f out w' c).
Proof.
  intros Hpat Hout Hcs Hdry Hne Hd Hio Hfind Hhex f Hready.
  assert (resolve (w_fs w) out = out) as Hres.
  { apply resolve_not_link. pose proof (dk_dir _ _ Hd) as Hdir. destruct out; [done|]. cbn in Hdir.
    intros t Ht. by rewrite Ht in Hdir. }
  destruct (find_matching_spec _ _ _ _ _ Hfind Hres) as [Hnd Hin].
  assert (∀ p, p ∈ results → ∃ n t, p = (out ++ [n]) ++ [t] ∧ hex_id n) as Hshape.
  { intros p (n & t & -> & _ & Hp)%Hin. eauto. }
  assert (∀ q, f !! q = if existsb (λ p, takes (w_fs w) p q) results then None else w_fs w !! q) as Hf.
  { intros q. apply (remove_all_spec _ _ (length out + 2)); [lia|done|]. apply Forall_forall.
    intros p (n & t & -> & _)%Hshape. rewrite !length_app. cbn. lia. }
  assert (disk_ok out (set_fs w f)) as Hd'.
  { apply disk_ok_subset; [done| |].
    - rewrite Hf. destruct (existsb _ results) eqn:E; [|done].
      apply existsb_exists in E as (p & Hp%list_elem_of_In & Ht).
      destruct (Hshape p Hp) as (n & t & -> & _). unfold takes in Ht.
      rewrite (bool_decide_eq_false_2 (out = _)), (bool_decide_eq_false_2 (_ `prefix_of` out)) in Ht.
      + by rewrite andb_false_r in Ht.
      + intros [k Hk]. apply (f_equal length) in Hk. rewrite !length_app in Hk. cbn in Hk. lia.
      + intros Hk. apply (f_equal length) in Hk. rewrite !length_app in Hk. cbn in Hk. lia.
    - intros q v. rewrite Hf. by case_match. }
  set (order := hash_order (elements (affected_commits results))).
  assert (∀ c, c ∈ order ↔ ∃ t, (out ++ [c]) ++ [t] ∈ results) as Horder.
  { intros c. unfold order. by rewrite hash_order_perm, elem_of_elements, (elem_of_affected out). }
  destruct (update_summaries_spec out (set_fs w f) order f Hd' Hio) as (w' & Hw' & Hframe & Hsum).
  { unfold order. rewrite hash_order_perm. apply NoDup_elements. }
  { apply Forall_forall. intros c [t Ht]%Horder. by eapply Hready. }
  { by intros c _ k. }
  unfold rm_results. rewrite Hpat, Hout, Hcs. cbn [ok_or mbind outcome_bind]. rewrite Hfind.
  cbn [mbind outcome_bind]. rewrite Hdry.
  destruct (decide (results = [])) as [Hr|Hr].
  - exists w. split; [done|]. split; [done|]. split; [done|].
    assert (f = w_fs w) as Hfw by (unfold f; by rewrite Hr).
    split; [by rewrite Hfw|]. intros c t Ht. rewrite Hr in Ht. by apply elem_of_nil in Ht.
  - exists w'. split; [exact Hw'|]. split; [done|]. split; [done|]. split.
    + intros q Hq. rewrite Hframe; [done|]. intros c [t Ht]%Horder. by eapply Hq.
    + intros c t Ht. apply Hsum, Horder. eauto.
Qed.
End rm.

(** ** A concrete run *)
Import Stats Jobs.
Section witnesses.
#[local] Existing Instance plain_os.
#[local] Existing Instance demo_codec.
#[local] Existing Instance demo_chrono.
#[local] Existing Instance demo_http.
#[local] Existing Instance demo_threads.
#[local] Instance demo_repo : Git2 := demo_git [c1; c2].
Definition demo_glob : Glob := {| pattern_new s := Some (λ n, bool_decide (n = s)) |}.
#[local] Existing Instance demo_glob.
#[local] Instance demo_ranges : RevParse := {| revparse _ _ := None; walk_range _ _ _ := None |}.
#[local] Instance demo_order : HashOrder := {| hash_order l := l; hash_order_perm _ := reflexivity _ |}.

Definition demo_args : Args := mkArgs "boot/b" None None None false false.
Definition demo_match (n : string) : bool := bool_decide (n = "boot.b").
Definition demo_removed : fs := remove_all (w_fs demo_world) [["out"; c1; "boot.b"]].
Lemma demo_find :
  find_matching_results ["out"] demo_match None (w_fs demo_world) = Ok [["out"; c1; "boot.b"]].
Proof. decided. Qed.
Lemma demo_removed_below k : demo_removed !! (["out"] ++ c1 :: k) = if decide (k = []) then Some (NDir 0) else None.
Proof.
  destruct k as [|x k]; [computed|]. rewrite decide_False by done.
  destruct (demo_removed !! _) as [v|] eqn:E; [|done].
  assert (forallb (λ kv, negb (bool_decide (["out"; c1] `prefix_of` kv.1) && (2 <? length kv.1)))
            (map_to_list demo_removed) = true) as H by computed.
  apply (fs_forallb _ (λ q _, negb (bool_decide (["out"; c1] `prefix_of` q) && (2 <? length q))) H) in E.
  clear H. rewrite bool_decide_eq_true_2 in E; [discriminate E|by exists (x :: k)].
Qed.
Lemma demo_hex : hex_id c1.
Proof. by split_and!. Qed.
Lemma rm_demo_ready : ready demo_removed ["out"] c1.
Proof.
  split.
  - apply demo_hex.
  - done.
  - exists 0%Z. by rewrite (demo_removed_below []).
  - intros k. rewrite (demo_removed_below [k]). by intros [? [=]].
  - intros k x t. by rewrite (demo_removed_below [k; x]).
  - intros m Hm. assert (m = ∅) as ->; [|by split].
    apply map_eq. intros k. rewrite Hm, lookup_empty. unfold results_in.
    by rewrite (demo_removed_below [k]), decide_False by by intros [? [=]].
Qed.
(** The only directory of a concrete output directory. *)
Definition only_dir (c : string) (q : path) (v : node) : bool :=
  match q, v with
  | ["out"; n], NDir _ => bool_decide (n = c)
  | ["out"; n], NSymlink _ => false
  | _, _ => true
  end.
Lemma only_dir_ok (f : fs) c n :
  forallb (λ kv, only_dir c kv.1 kv.2) (map_to_list f) = true → is_dir f ["out"; n] = true → n = c.
Proof.
  intros H Hd. pose proof (fs_forallb f (only_dir c) H) as Hall.
  assert (∀ t, f !! ["out"; n] ≠ Some (NSymlink t)) as Hl by by intros t E%Hall.
  unfold is_dir in Hd. rewrite resolve_not_link in Hd by done. unfold dir_node in Hd.
  destruct (f !! ["out"; n]) as [[|t|]|] eqn:E; [done| |done..].
  apply Hall in E. by apply bool_decide_eq_true in E.
Qed.
Lemma demo_picked n t : picked ["out"] demo_match None (w_fs demo_world) n t → hex_id n.
Proof.
  intros (_ & _ & Hd & _).
  assert (forallb (λ kv, only_dir c1 kv.1 kv.2) (map_to_list (w_fs demo_world)) = true) as H
    by computed.
  pose proof (only_dir_ok _ c1 n H Hd) as ->. apply demo_hex.
Qed.
Lemma rm_results_correct_witness :
  ∃ w', rm_results demo_args (Some demo_ci) demo_world = Ok w' ∧
    w_fs w' !! ["out"; c1; "boot.b"; "status"] = None ∧
    ∃ buf res, read (w_fs w') (capnp_path ["out"] c1) = Some buf ∧ parse_test_results buf = Ok res ∧
      cr_tests res !! "boot.b" = None.
Proof.
  destruct (rm_results_correct demo_args (Some demo_ci) demo_world demo_match ["out"] None
              [["out"; c1; "boot.b"]]) as (w' & Hw' & _ & _ & Hrest & Hsum).
  - reflexivity.
  - reflexivity.
  - reflexivity.
  - reflexivity.
  - discriminate.
  - apply demo_disk.
  - apply demo_io.
  - apply demo_find.
  - apply demo_picked.
  - intros c t Hc%list_elem_of_singleton. injection Hc as -> _. apply rm_demo_ready.
  - exists w'. split; [exact Hw'|]. split.
    + rewrite Hrest; [computed|]. intros c t Hc%list_elem_of_singleton.
      injection Hc as -> _. apply (capnp_not_below ["out"] c1 c1 ["boot.b"; "status"]); apply demo_hex.
    + destruct (Hsum c1 "boot.b") as (buf & res & Hb & Hp & Hk); [by left|].
      exists buf, res. split; [exact Hb|]. split; [exact Hp|]. rewrite Hk. reflexivity.
Defined.
End witnesses.
End Rm.
