(* ===== verification/Lcov.v ===== *)
(** * Coverage reports (src/src/lib.rs, src/src/bin/update-lcov.rs)

    [update_lcov] merges the partial coverage reports of a commit into
    [lcov.info] and renders them; the tools it runs are a parameter. *)

From S2P Require Import Prelude.
From S2P Require Import RustStr.
From S2P Require Import Fs.
From S2P Require Import Config.

Module Lcov.
Import Str Fs Config.

(** The lock file, when it can be taken, and [Command::status] of a command in
    a directory: [None] when it cannot be executed, and otherwise whether it
    succeeded; both with what they leave. What goes to stderr is not kept. *)
Class Tools : Type := {
  file_lock : fs → bool * fs;
  run_status : list string → path → fs → option bool * fs
}.
Definition lcov_command (args : list string) : list string :=
  ["lcov"; "--quiet"; "--output-file"; "lcov.info.new"] ++ args.
Definition tracefiles (names : list string) : list string :=
  concat ((λ d, ["--add-tracefile"; d]) <$> names).
Definition linux_1 : path := ["home"; "testdashboard"; "linux-1"].
Definition is_partial (d : string) : bool := starts_with d "lcov.partial.".

Section lcov.
Context {OS : OsEnv} {T : Tools}.

(** git checkout and genhtml, once the reports are merged. *)
Definition render_html (commit_dir : path) (commit_id : string) (f : fs) : outcome Empty_set (option ()) * fs :=
  match run_status ["git"; "checkout"; "-f"; commit_id] linux_1 f with
  | (None, f) => (Panic, f)
  | (Some false, f) => (Ok (Some tt), f)
  | (Some true, f) =>
      match run_status ["genhtml"; "--output-directory"; "/" +:+ join "/" (path_join commit_dir "lcov");
                        "/" +:+ join "/" (path_join commit_dir "lcov.info")] linux_1 f with
      | (None, f) => (Panic, f)
      | (Some _, f) => (Ok (Some tt), f)
      end
  end.
Definition remove_partials (commit_dir : path) (new_lcov : list string) (f : fs) : fs :=
  foldl (λ f d, (remove_file f (path_join commit_dir d)).1) f new_lcov.
Definition merge (commit_dir : path) (commit_id : string) (names : list string) (f : fs) :
    outcome Empty_set (option ()) * fs :=
  let new_lcov := filter (λ d, is_partial d = true) (omap to_text names) in
  let args := tracefiles (new_lcov ++ if exists_ f (path_join commit_dir "lcov.info")
                                      then ["lcov.info"] else []) in
  match run_status (lcov_command args) commit_dir f with
  | (None, f) => (Panic, f)
  | (Some false, f) => (Ok (Some tt), f)
  | (Some true, f) =>
      match rename f (path_join commit_dir "lcov.info.new") (path_join commit_dir "lcov.info") with
      | (f, false) => (Ok None, f)
      | (f, true) => render_html commit_dir commit_id (remove_partials commit_dir new_lcov f)
      end
  end.
Definition update_lcov (rc : Ktestrc) (commit_id : string) (f : fs) : outcome Empty_set (option ()) * fs :=
  let commit_dir := path_join (output_dir rc) commit_id in
  match remove_file f (path_join commit_dir "lcov-stale") with
  | (f, false) => (Ok (Some tt), f)
  | (f, true) =>
      match file_lock f with
      | (false, f) => (Ok None, f)
      | (true, f) =>
          match read_dir f commit_dir with
          | None => (Ok None, f)
          | Some names => merge commit_dir commit_id names f
          end
      end
  end.

(** update-lcov: the configuration, then [update_lcov]; its result is dropped. *)
Definition main {J5 : Json5} (exe : path) (commit : string) (f : fs) : outcome config_error () * fs :=
  match ktestrc_read f exe with
  | Ok ktestrc => match update_lcov ktestrc commit f with
                  | (Panic, f) => (Panic, f)
                  | (_, f) => (Ok tt, f)
                  end
  | Err e => (Err e, f)
  | Panic => (Panic, f)
  end.

(** ** What the tools leave alone *)
(** lcov writes the output it is given and nothing else; the lock, the checkout
    of the commit [c] and genhtml leave the commit's directory alone, but for
    the report below [lcov]. *)
Record tools_ok (dir : path) (c : string) : Prop := {
  lock_frame f b f' n : file_lock f = (b, f') → f' !! (dir ++ [n]) = f !! (dir ++ [n]);
  lock_dir f b f' : file_lock f = (b, f') → f' !! dir = f !! dir;
  lcov_frame args f b f' n : run_status (lcov_command args) dir f = (b, f') → n ≠ "lcov.info.new" →
    f' !! (dir ++ [n]) = f !! (dir ++ [n]);
  lcov_dir args f b f' : run_status (lcov_command args) dir f = (b, f') → f' !! dir = f !! dir;
  git_frame f b f' n : run_status ["git"; "checkout"; "-f"; c] linux_1 f = (b, f') → n ≠ "lcov" →
    f' !! (dir ++ [n]) = f !! (dir ++ [n]);
  html_frame f b f' n :
    run_status ["genhtml"; "--output-directory"; "/" +:+ join "/" (dir ++ ["lcov"]);
                "/" +:+ join "/" (dir ++ ["lcov.info"])] linux_1 f = (b, f') → n ≠ "lcov" →
    f' !! (dir ++ [n]) = f !! (dir ++ [n])
}.

Lemma remove_file_lookup f p q : q ≠ p → (remove_file f p).1 !! q = f !! q.
Proof. intros ?. unfold remove_file. repeat case_match; cbn; try done; by rewrite lookup_delete_ne. Qed.
Lemma remove_file_self f p : (remove_file f p).1 !! p = None ∨ (remove_file f p).1 !! p = f !! p.
Proof. unfold remove_file. repeat case_match; cbn; try (by right); left; by rewrite lookup_delete_eq. Qed.
Lemma remove_file_false f p f' : remove_file f p = (f', false) → f' = f.
Proof. unfold remove_file. by cases. Qed.
Lemma read_dir_plain f p names :
  read_dir f p = Some names → (∀ t, f !! p ≠ Some (NSymlink t)) → 
  NoDup names ∧ ∀ n, n ∈ names ↔ is_Some (f !! (p ++ [n])).
Proof. intros [? Hn]%read_dir_Some ?. by rewrite resolve_not_link in Hn. Qed.

Section update.
Context (dir : path) (c : string) (HT : tools_ok dir c).

Lemma render_html_frame f r f' n :
  render_html dir c f = (r, f') → n ≠ "lcov" → f' !! (dir ++ [n]) = f !! (dir ++ [n]).
Proof.
  intros Hr Hn. unfold render_html in Hr. rewrite !path_join_plain in Hr by done.
  destruct (run_status ["git"; _; _; _] linux_1 f) as [[[]|] f1] eqn:E1;
    [|simplify_eq; by apply (git_frame _ _ HT _ _ _ _ E1)..].
  destruct (run_status ["genhtml"; _; _; _] linux_1 f1) as [b f2] eqn:E2.
  assert (f' = f2) as -> by (destruct b; congruence).
  by rewrite (html_frame _ _ HT _ _ _ _ E2), (git_frame _ _ HT _ _ _ _ E1).
Qed.
Lemma remove_partials_frame l f n :
  Forall plain_name l → n ∉ l → remove_partials dir l f !! (dir ++ [n]) = f !! (dir ++ [n]).
Proof.
  intros Hl. revert f. induction Hl as [|d l Hd Hl IH]; intros f Hn; [done|].
  apply not_elem_of_cons in Hn as [? ?]. unfold remove_partials. cbn.
  fold (remove_partials dir l (remove_file f (path_join dir d)).1). rewrite IH by done.
  apply remove_file_lookup. rewrite path_join_plain by done.
  intros [=]%(inj (app dir)). congruence.
Qed.
Lemma remove_partials_in l f n :
  Forall plain_name l →
  remove_partials dir l f !! (dir ++ [n]) = None ∨ remove_partials dir l f !! (dir ++ [n]) = f !! (dir ++ [n]).
Proof.
  intros Hl. revert f. induction Hl as [|d l Hd Hl IH]; intros f; [by right|].
  unfold remove_partials. cbn. fold (remove_partials dir l (remove_file f (path_join dir d)).1).
  rewrite path_join_plain by done. destruct (IH (remove_file f (dir ++ [d])).1) as [H|H]; [by left|].
  rewrite H. destruct (decide (d = n)) as [->|Hne]; [apply remove_file_self|].
  right. apply remove_file_lookup. by intros [=]%(inj (app dir)).
Qed.
Lemma remove_partials_gone l f n :
  Forall plain_name l → n ∈ l → io_denied (dir ++ [n]) = false →
  (∃ d t, f !! (dir ++ [n]) = Some (NFile d t)) → remove_partials dir l f !! (dir ++ [n]) = None.
Proof.
  intros Hl Hn Hio (d & t & Hf). revert f Hf. induction Hl as [|m l Hm Hl IH]; intros f Hf.
  { by apply elem_of_nil in Hn. }
  unfold remove_partials. cbn [foldl]. fold (remove_partials dir l (remove_file f (path_join dir m)).1).
  rewrite path_join_plain by done. destruct (decide (m = n)) as [->|Hne].
  - destruct (remove_partials_in l (remove_file f (dir ++ [n])).1 n Hl) as [H|H]; [done|].
    rewrite H. unfold remove_file. rewrite Hio, Hf. apply lookup_delete_eq.
  - apply IH; [by apply elem_of_cons in Hn as [->|]|].
    rewrite remove_file_lookup; [done|]. by intros [=]%(inj (app dir)).
Qed.

(** A coverage report of the directory: a partial one, or the merged one. *)
Definition report (f : fs) (n : string) : Prop :=
  (is_partial n = true ∧ valid_utf8 n = true ∧ is_Some (f !! (dir ++ [n]))) ∨
  (n = "lcov.info" ∧ exists_ f (dir ++ [n]) = true).
(** An option and its value among a command's arguments. *)
Definition passes (args : list string) (o v : string) : Prop :=
  ∃ i, args !! i = Some o ∧ args !! S i = Some v.
(** Every report is in [lcov.info]: lcov was run on all of them, and on nothing
    else, and succeeded, and its output is there; what is gone is a partial
    report it was run on, and each of these that can be removed is gone, so
    none is counted twice. *)
Definition merged (f f' : fs) : Prop :=
  ∃ args f1 f2 d t,
    (∀ n, n ≠ "lcov-stale" → f1 !! (dir ++ [n]) = f !! (dir ++ [n])) ∧
    run_status ("lcov" :: args) dir f1 = (Some true, f2) ∧
    passes args "--output-file" "lcov.info.new" ∧
    (∀ n, passes args "--add-tracefile" n ↔ report f1 n) ∧
    f2 !! (dir ++ ["lcov.info.new"]) = Some (NFile d t) ∧
    f' !! (dir ++ ["lcov.info"]) = Some (NFile d t) ∧
    (∀ n, n ∉ ["lcov-stale"; "lcov.info"; "lcov.info.new"; "lcov"] →
      f' !! (dir ++ [n]) = f !! (dir ++ [n]) ∨
      is_partial n = true ∧ passes args "--add-tracefile" n ∧ f' !! (dir ++ [n]) = None) ∧
    ∀ n, is_partial n = true → passes args "--add-tracefile" n → io_denied (dir ++ [n]) = false →
      (∃ d t, f !! (dir ++ [n]) = Some (NFile d t)) → f' !! (dir ++ [n]) = None.
(** Why reports of the tree [f] were not merged: lcov, run on just them, did
    not succeed, or what it wrote could not take its place. *)
Definition merge_failed (f : fs) : Prop :=
  ∃ args b f2,
    run_status ("lcov" :: args) dir f = (b, f2) ∧
    passes args "--output-file" "lcov.info.new" ∧
    (∀ n, passes args "--add-tracefile" n ↔ report f n) ∧
    (b = Some true → (rename f2 (dir ++ ["lcov.info.new"]) (dir ++ ["lcov.info"])).2 = false).
Lemma tracefiles_lookup l i :
  tracefiles l !! (2 * i) = (λ _, "--add-tracefile") <$> l !! i ∧
  tracefiles l !! S (2 * i) = l !! i.
Proof.
  revert i. induction l as [|d l IH]; intros i; [done|]. unfold tracefiles. cbn [fmap list_fmap concat app].
  fold (tracefiles l). destruct i as [|i]; [done|].
  replace (2 * S i) with (S (S (2 * i))) by lia. apply IH.
Qed.
Lemma lcov_command_passes l n :
  "--add-tracefile" ∉ l →
  passes ("--quiet" :: "--output-file" :: "lcov.info.new" :: tracefiles l) "--add-tracefile" n ↔ n ∈ l.
Proof.
  intros Hl. split.
  - intros (i & Hi & Hn). destruct i as [|[|[|i]]]; [done..|].
    change (tracefiles l !! i = Some "--add-tracefile") in Hi. change (tracefiles l !! S i = Some n) in Hn.
    destruct (Nat.Even_or_Odd i) as [[k ->]|[k ->]].
    + rewrite (proj2 (tracefiles_lookup l k)) in Hn. by apply list_elem_of_lookup_2 in Hn.
    + replace (2 * k + 1) with (S (2 * k)) in Hi by lia. rewrite (proj2 (tracefiles_lookup l k)) in Hi.
      by apply list_elem_of_lookup_2 in Hi.
  - intros [k Hk]%list_elem_of_lookup_1. exists (S (S (S (2 * k)))).
    destruct (tracefiles_lookup l k) as [H1 H2]. split.
    + change (tracefiles l !! (2 * k) = Some "--add-tracefile"). by rewrite H1, Hk.
    + change (tracefiles l !! S (2 * k) = Some n). by rewrite H2.
Qed.

(** The partial reports, as [names] lists them. *)
Lemma elem_of_partials (f : fs) (names : list string) d :
  (∀ n, n ∈ names ↔ is_Some (f !! (dir ++ [n]))) →
  d ∈ filter (λ d, is_partial d = true) (omap to_text names) ↔
  is_partial d = true ∧ valid_utf8 d = true ∧ is_Some (f !! (dir ++ [d])).
Proof.
  intros Hn. rewrite list_elem_of_filter, list_elem_of_omap. unfold to_text. split.
  - intros (? & m & Hm%Hn & Ht). case_match; [|done]. by simplify_eq.
  - intros (? & Hv & Hd). split; [done|]. exists d. by rewrite Hv, Hn.
Qed.

(** The arguments [merge] builds name exactly the reports. *)
Lemma report_args f names :
  (∀ n, n ∈ names ↔ is_Some (f !! (dir ++ [n]))) →
  let l := filter (λ d, is_partial d = true) (omap to_text names) in
  let args := "--quiet" :: "--output-file" :: "lcov.info.new" ::
    tracefiles (l ++ if exists_ f (dir ++ ["lcov.info"]) then ["lcov.info"] else []) in
  passes args "--output-file" "lcov.info.new" ∧ ∀ n, passes args "--add-tracefile" n ↔ report f n.
Proof.
  intros Hn l args. pose proof (λ d, elem_of_partials f names d Hn) as Hp. fold l in Hp.
  assert (∀ n, n ∈ (l ++ if exists_ f (dir ++ ["lcov.info"]) then ["lcov.info"] else []) ↔ report f n)
    as Hreport.
  { intros n. rewrite elem_of_app, Hp. unfold report.
    destruct (exists_ f (dir ++ ["lcov.info"])) eqn:Ex; rewrite ?list_elem_of_singleton, ?elem_of_nil;
      (split; [intros [?|?]; [by left|]|intros [?|[-> ?]]; [by left|]]); try done.
    - subst. by right.
    - by right.
    - congruence. }
  split; [by exists 1|]. intros n. unfold args. rewrite lcov_command_passes; [apply Hreport|].
  intros [(H & _)|[H _]]%Hreport; discriminate H.
Qed.
Lemma partial_elsewhere n : is_partial n = true → n ∉ ["lcov-stale"; "lcov.info"; "lcov.info.new"; "lcov"].
Proof.
  intros Hp. rewrite !not_elem_of_cons. split_and!; try (intros ->; discriminate Hp). apply not_elem_of_nil.
Qed.
Lemma merge_correct names f r f' :
  (∀ n, n ∈ names ↔ is_Some (f !! (dir ++ [n]))) → Forall plain_name names →
  merge dir c names f = (r, f') →
  (∀ n, n ≠ "lcov.info.new" → n ≠ "lcov" → f' !! (dir ++ [n]) = f !! (dir ++ [n])) ∧ merge_failed f ∨
  merged f f'.
Proof.
  intros Hn Hplain Hm. unfold merge in Hm. rewrite !path_join_plain in Hm by done.
  pose proof (λ d, elem_of_partials f names d Hn) as Hp. destruct (report_args f names Hn) as [Hout Hpass].
  cbn zeta in Hm, Hout, Hpass. set (l := filter (λ d, is_partial d = true) (omap to_text names)) in *.
  assert (Forall plain_name l) as Hl.
  { rewrite Forall_forall in Hplain |- *. intros d (_ & _ & Hd)%Hp. by apply Hplain, Hn. }
  destruct (run_status _ dir f) as [b f2] eqn:Er. pose proof (λ n, lcov_frame _ _ HT _ _ _ _ n Er) as Hf2.
  destruct b as [[]|].
  2,3: simplify_eq; left; split; [by intros; apply Hf2|]; eexists _, _, _; split_and!; [exact Er|done..].
  destruct (rename f2 _ _) as [f3 []] eqn:Eren.
  2: { pose proof (rename_false _ _ _ _ Eren) as ->. simplify_eq. left.
    split; [by intros; apply Hf2|]. eexists _, _, _. split_and!; [exact Er|done..|by rewrite Eren]. }
  right. apply rename_true in Eren as (d & t & Hd & ->). set (f3 := <[_ := _]> _) in Hm.
  assert (∀ n, n ∉ ["lcov.info"; "lcov.info.new"] → f3 !! (dir ++ [n]) = f !! (dir ++ [n])) as Hf3.
  { intros n Hns. unfold f3. rewrite lookup_insert_ne by (intros [=]%(inj (app dir)); set_solver).
    rewrite lookup_delete_ne by (intros [=]%(inj (app dir)); set_solver). apply Hf2. set_solver. }
  assert (∀ n, n ≠ "lcov" → f' !! (dir ++ [n]) = remove_partials dir l f3 !! (dir ++ [n])) as Hf'
    by (intros n; by apply (render_html_frame _ _ _ _ Hm)).
  eexists _, f, f2, d, t. split_and!; [done|exact Er|done..| | |].
  - rewrite Hf' by done. rewrite remove_partials_frame; [by apply lookup_insert_eq|done|].
    intros (H & _)%Hp. discriminate H.
  - intros n Hns. rewrite Hf', <-(Hf3 n) by set_solver.
    destruct (decide (n ∈ l)) as [Hin|]; [|left; by rewrite remove_partials_frame].
    destruct (remove_partials_in l f3 n Hl) as [H|H]; [right|left; by rewrite H].
    apply Hp in Hin as Hin'. destruct Hin' as [Hpn _].
    split_and!; [done| |done]. apply Hpass. left. by apply Hp.
  - intros n Hpn Hpa Hio Hfile. pose proof (partial_elsewhere n Hpn) as Hns.
    rewrite Hf' by set_solver. apply remove_partials_gone; [done| |done|by rewrite Hf3 by set_solver].
    apply Hp. apply Hpass in Hpa as [H|[-> _]]; [done|discriminate Hpn].
Qed.
End update.

(** C31: no coverage is lost. Without the mark [lcov-stale] in the commit's
    directory, or when it cannot be removed, nothing at all happens. With it,
    lcov is run with exactly the partial reports, and the merged one if there
    was one, each as an [--add-tracefile] argument, unless the lock cannot be
    had or the directory not be listed. When it succeeds and its output can
    take its place, that is [lcov.info], the partial reports it was run on are
    removed where they can be, and nothing else is gone. Otherwise every
    partial report and the merged one are as they were. *)
Theorem update_lcov_correct rc c f r f' :
  let dir := output_dir rc ++ [c] in
  tools_ok dir c → plain_name c → (∃ t, f !! dir = Some (NDir t)) →
  (∀ n, is_Some (f !! (dir ++ [n])) → plain_name n) →
  update_lcov rc c f = (r, f') →
  ((remove_file f (dir ++ ["lcov-stale"])).2 = false → f' = f ∧ r = Ok (Some tt)) ∧
  let (unmarked, was_marked) := remove_file f (dir ++ ["lcov-stale"]) in
  let (has_lock, locked) := file_lock unmarked in
  ((∀ n, n ∉ ["lcov-stale"; "lcov.info.new"; "lcov"] → f' !! (dir ++ [n]) = f !! (dir ++ [n])) ∧
   (was_marked = false ∨ has_lock = false ∨ read_dir locked dir = None ∨ merge_failed dir locked) ∨
   merged dir f f').
Proof.
  intros dir HT Hc [t Hdir] Hplain Hu. unfold update_lcov in Hu.
  rewrite (path_join_plain _ c), path_join_plain in Hu by done. fold dir in Hu.
  pose proof (λ n, remove_file_lookup f (dir ++ ["lcov-stale"]) (dir ++ [n])) as Hrm.
  assert ((remove_file f (dir ++ ["lcov-stale"])).1 !! dir = Some (NDir t)) as Hdir0.
  { rewrite remove_file_lookup; [done|]. intros H. apply (f_equal length) in H. rewrite length_app in H. cbn in H. lia. }
  destruct (remove_file f _) as [f0 []] eqn:E0; cbn in Hrm, Hdir0 |- *.
  2: { apply remove_file_false in E0 as ->. simplify_eq. split; [done|].
    case_match. left. split; [done|by left]. }
  split; [done|].
  assert (∀ n, n ≠ "lcov-stale" → f0 !! (dir ++ [n]) = f !! (dir ++ [n])) as H0.
  { intros n Hn. apply Hrm. intros [=]%(inj (app dir)). congruence. }
  destruct (file_lock f0) as [[] f1] eqn:E1.
  2: { simplify_eq. left. split; [|by right; left]. intros n Hn.
    rewrite (lock_frame _ _ HT _ _ _ _ E1). apply H0. set_solver. }
  assert (∀ n, f1 !! (dir ++ [n]) = f0 !! (dir ++ [n])) as H1 by (intros; by apply (lock_frame _ _ HT _ _ _ _ E1)).
  assert (∀ n, n ≠ "lcov-stale" → f1 !! (dir ++ [n]) = f !! (dir ++ [n])) as H01
    by (intros; rewrite H1; by apply H0).
  assert (∀ s, f1 !! dir ≠ Some (NSymlink s)) as Hlink.
  { intros s. rewrite (lock_dir _ _ HT _ _ _ E1), Hdir0. congruence. }
  destruct (read_dir f1 dir) as [names|] eqn:Ed.
  2: { simplify_eq. left. split; [|by do 2 right; left]. intros n Hn. apply H01. set_solver. }
  apply read_dir_plain in Ed as [_ Hn]; [|done].
  assert (Forall plain_name names) as Hp.
  { apply Forall_forall. intros n [v Hv]%Hn. destruct (decide (n = "lcov-stale")) as [->|Hne]; [done|].
    apply Hplain. rewrite <-H01 by done. eauto. }
  destruct (merge_correct dir c HT names f1 r f' Hn Hp Hu) as [[H Hwhy]|H].
  - left. split; [|by do 3 right]. intros n Hns. rewrite H by set_solver. apply H01. set_solver.
  - right. destruct H as (args & g1 & f2 & d & t' & Hg & Hr & Ho & Ha & Hnew & Hinfo & Hrest & Hgone).
    exists args, g1, f2, d, t'.
    split; [intros n Hns; rewrite Hg by done; by apply H01|].
    do 5 (split; [done|]). split.
    + intros n Hns. destruct (Hrest n Hns) as [He|]; [left|by right].
      rewrite He. apply H01. set_solver.
    + intros n Hpn Ha' Hio Hf. apply Hgone; [done..|]. rewrite H01; [done|].
      intros ->. discriminate Hpn.
Qed.
End lcov.

(** ** A concrete run *)
(** Tools that merge the reports into one text and succeed. *)
Definition demo_tools : Tools := {|
  file_lock f := (true, f);
  run_status args dir f :=
    match args with
    | "lcov" :: _ => (Some true, <[dir ++ ["lcov.info.new"] := NFile "merged" 1]> f)
    | _ => (Some true, f)
    end
|}.
Definition demo_commit : path := ["out"; "c"].
Lemma demo_tools_ok : @tools_ok demo_tools demo_commit "c".
Proof.
  split; cbn.
  - by intros ???? [= _ ->].
  - by intros ??? [= _ ->].
  - intros args f b f' n [= _ <-] Hn. rewrite lookup_insert_ne; [done|]. congruence.
  - intros args f b f' [= _ <-]. by rewrite lookup_insert_ne.
  - by intros f b f' n [= _ <-] _.
  - by intros f b f' n [= _ <-] _.
Qed.
Definition demo_rc : Ktestrc :=
  mkKtestrc ["linux"] ["out"] ["ktest"] None ∅ None None None None None None None false ∅ ∅.
Definition demo_reports : fs :=
  {[ ["out"] := NDir 0; ["out"; "c"] := NDir 0; ["out"; "c"; "lcov-stale"] := NFile "" 0;
     ["out"; "c"; "lcov.partial.1"] := NFile "one" 0; ["out"; "c"; "lcov.partial.2"] := NFile "two" 0 ]}.
Section witnesses.
#[local] Existing Instance plain_os.
#[local] Existing Instance demo_tools.
Definition plain_last (q : path) : bool :=
  match q with ["out"; "c"; n] => bool_decide (n ≠ "" ∧ n ≠ ".") && negb (contains_char n "/") | _ => true end.
Lemma demo_reports_plain n : is_Some (demo_reports !! (demo_commit ++ [n])) → plain_name n.
Proof.
  intros [v Hv]. assert (plain_last (demo_commit ++ [n]) = true) as H.
  { apply (fs_forallb demo_reports (λ q _, plain_last q)) with (v := v); [by vm_compute|done]. }
  apply andb_true_iff in H as [[? ?]%bool_decide_eq_true Hs%negb_true_iff]. by split_and!.
Qed.
Definition demo_update : outcome Empty_set (option ()) * fs := update_lcov demo_rc "c" demo_reports.
Lemma update_lcov_correct_witness :
  merged demo_commit demo_reports demo_update.2 ∧
  demo_update.2 !! ["out"; "c"; "lcov.partial.1"] = None.
Proof.
  split; [|reflexivity].
  destruct (update_lcov_correct demo_rc "c" demo_reports demo_update.1 demo_update.2 demo_tools_ok)
    as [_ [[H _]|H]]; [by split_and!|by exists 0%Z| |reflexivity| |exact H].
  - apply demo_reports_plain.
  - specialize (H "lcov.partial.1" ltac:(set_solver)).
    assert (demo_update.2 !! ["out"; "c"; "lcov.partial.1"] = None) as Hg by reflexivity.
    exfalso. change (demo_commit ++ ["lcov.partial.1"]) with ["out"; "c"; "lcov.partial.1"] in H.
    cbn [app output_dir demo_rc] in H. rewrite Hg in H. discriminate H.
Defined.
End witnesses.
End Lcov.
