(* ===== verification/CgiAssets.v ===== *)
(** * The dashboard's static texts (src/src/bin/cgi.rs)

    Style sheets and scripts of the pages, as the program holds them. *)

From S2P Require Import Prelude.
From S2P Require Import RustStr.

Module CgiAssets.

(** A double quote. *)
Definition dq : string := String "034" "".
Definition STYLESHEET : string := "bootstrap.min.css".
(** Style and filter script of a commit's page. *)
Definition COMMIT_CSS_JS : string :=
"
<style>
        .toplevel-container {
                margin-left: 10px;
                height: 100%;
        }
        .header {
                position: absolute;
        }
        .horizontal-container {
                display: flex;
                flex-direction: row;
        }
        .horizontal {
                margin-right: 10px;
                overflow-y: scroll
        }
        .filtered {
                display: none;
        }
        #filters {
                margin: 1em 0;
        }
        #filters label {
                margin-left: 0.3em;
        }
        .table.no-wrap,
        .table.no-wrap td,
        .table.no-wrap th {
                white-space: nowrap;
        }
</style>
<script>
        document.getElementById('myLink').addEventListener('click', function(event) {
                event.preventDefault();
                alert('Link clicked!');
        });
        function getSelectedRadioValue(name) {                
                const radios = document.getElementsByName(name);
                                                                
                for (let i = 0; i < radios.length; i++) {       
                        if (radios[i].checked) {
                                return radios[i].value;            
                        }                                                 
                }                                                         
                                                                          
                return null;                                   
        }                                                   
                                                            
        function get_row_status(el) {
                return el.querySelector('td:nth-child(3)').textContent.trim()                                                
        }                                                                                                                    
                                                                                                                             
        function update_filter() {                                                                                           
                const v = getSelectedRadioValue('testfilter');                                                               
                const el_table = document.querySelector('table')                                                             
                                                                                                                             
                for (const el of el_table.querySelectorAll('tr')) {                                                          
                        if (!v || v == 'All' || v == get_row_status(el)) {                                                   
                                el.classList.remove('filtered')                                                              
                        } else {                                                                                             
                                el.classList.add('filtered')                                                                 
                        }                                                                                                    
                }                                                                                                            
        }
</script>
".
(** The radio buttons of the filter. *)
Definition COMMIT_FILTER : string :=
"
<div id=filters>
    Filter by:                                         
    <label><input type=radio name=testfilter onchange='update_filter()' value='Passed'>         Passed</label>
    <label><input type=radio name=testfilter onchange='update_filter()' value='Failed' checked> Failed</label>
    <label><input type=radio name=testfilter onchange='update_filter()' value='Not run'>        Not run</label>
    <label><input type=radio name=testfilter onchange='update_filter()' value='Failed to run'>    Failed to run</label>
    <label><input type=radio name=testfilter onchange='update_filter()' value='In progress'>    In progress</label>
    <label><input type=radio name=testfilter onchange='update_filter()' value='Unknown'>        Unknown</label>
    <label><input type=radio name=testfilter onchange='update_filter()' value='All'>            All</label>
</div>
".
(** Style of the status page. *)
Definition STATUS_CSS : string :=
"
body { margin: 1em; }
.exec { display: inline-block; vertical-align: top; margin: 0 1em 1em 0;
        min-width: 15em; border: 1px solid #ccc; padding: .4em .6em; }
.exec h5 { margin: 0 0 .3em; }
.job { cursor: pointer; padding: 0 3px; }
.job:hover { background: #eef; }
td.running, .running { color: #060; }
td.pending { color: #888; }
td.failed, .failed { color: #c00; }
td.cancelled { color: #c60; }
#logview { background: #111; color: #ddd; padding: .5em; height: 26em;
           overflow-y: auto; white-space: pre-wrap; font: 12px/1.3 monospace; }
".
(** Body of the status page; the script fills the divs. *)
Definition STATUS_BODY : string :=
"
<div class=container-fluid>
<h3>CI status</h3>
<div id=summary></div>
<div id=fairshare></div>
<h4>Executors</h4>
<div id=executors></div>
<details>
<summary>Jobs</summary>
<div id=jobs></div>
</details>
<h4>Log <span id=logname></span></h4>
<pre id=logview>click a job to tail its log</pre>
</div>
".
(** The status page's script. *)
Definition STATUS_JS : string :=
"
const STATUS_URL = 'c/ci-daemon-status.json';
let curLog = null, logTimer = null;

function el(tag, cls, text) {
  const e = document.createElement(tag);
  if (cls) e.className = cls;
  if (text !== undefined) e.textContent = text;
  return e;
}

// JobInfo.log_path is an absolute server path; the logs are web-served
// under the output dir at .../ci-daemon-logs/...
function logUrl(p) {
  if (!p) return null;
  const i = p.indexOf('ci-daemon-logs/');
  return i < 0 ? null : 'c/' + p.slice(i);
}

function fmtDur(s) {
  s = Math.floor(s);
  const h = Math.floor(s / 3600), m = Math.floor(s / 60) % 60;
  return h ? h + 'h' + m + 'm' : (m ? m + 'm' + (s % 60) + 's' : s + 's');
}

function tailLog() {
  if (!curLog) return;
  fetch(curLog.url, { headers: { Range: 'bytes=' + curLog.offset + '-' } })
    .then(r => r.status === 416 ? '' : r.text())
    .then(t => {
      if (!t) return;
      const v = document.getElementById('logview');
      const atBottom = v.scrollTop + v.clientHeight >= v.scrollHeight - 4;
      v.textContent += t;
      curLog.offset += new Blob([t]).size;
      if (atBottom) v.scrollTop = v.scrollHeight;
    })
    .catch(() => {});
}

function openLog(name, url) {
  curLog = { url: url, offset: 0 };
  document.getElementById('logname').textContent = '- ' + name;
  document.getElementById('logview').textContent = '';
  if (logTimer) clearInterval(logTimer);
  logTimer = setInterval(tailLog, 2000);
  tailLog();
}

function render(s) {
  const byId = {};
  for (const j of s.jobs) byId[j.id] = j;

  // running/finished are counted from s.jobs (non-pending, all
  // carried); the pending backlog is summarized per group.
  const counts = {};
  for (const j of s.jobs) counts[j.status] = (counts[j.status] || 0) + 1;
  const pend = Object.entries(s.pending_by_group || {}).sort((a, b) => b[1] - a[1]);
  const pendTotal = pend.reduce((acc, e) => acc + e[1], 0);
  const pendStr = pend.map(e => e[0] + ' ' + e[1]).join(', ');
  document.getElementById('summary').textContent =
    pendTotal + ' pending' + (pendStr ? ' (' + pendStr + ')' : '') +
    ' · ' + (counts.running || 0) + ' running' +
    ' · ' + (counts.completed || 0) + ' completed' +
    ' · ' + (counts.failed || 0) + ' failed';

  // Fair-share standing: groups (users) by decayed recent farm time,
  // lowest first — that is who the scheduler serves next.
  const groups = Object.entries(s.fairshare || {}).sort((a, b) => a[1] - b[1]);
  document.getElementById('fairshare').textContent = groups.length
    ? 'fair-share: ' + groups.map(g => g[0] + ' ' + fmtDur(g[1])).join('   ')
    : '';

  // Executors are per-slot; group them back by host. Every executor is
  // shown — idle ones included — each tailing its own log.
  const ex = document.getElementById('executors');
  ex.textContent = '';
  // Executor names are 'host:slot' by ci-daemon convention; jobkit
  // itself just carries the name. Split it back out for the host row.
  const hosts = {};
  for (const e of s.executors) {
    const host = e.name.split(':')[0];
    (hosts[host] = hosts[host] || []).push(e);
  }
  for (const host of Object.keys(hosts).sort()) {
    const execs = hosts[host].sort((a, b) => a.name.localeCompare(b.name));
    const running = execs.filter(e => e.current_jobs.length).length;
    const box = el('div', 'exec');
    box.appendChild(el('h5', null, host + ' (' + running + '/' + execs.length + ')'));
    for (const e of execs) {
      const j = e.current_jobs.length ? byId[e.current_jobs[0]] : null;
      const row = el('div', 'job' + (j ? ' running' : ''),
                     e.name + ' — ' + (j ? j.name : 'idle'));
      const u = logUrl(e.log_path);
      if (u) row.onclick = () => openLog(e.name, u);
      box.appendChild(row);
    }
    ex.appendChild(box);
  }

  const order = { running: 0, pending: 1, failed: 2, cancelled: 3, completed: 4 };
  const jobs = s.jobs.slice().sort((a, b) =>
    (order[a.status] - order[b.status]) || a.name.localeCompare(b.name));
  const tbl = el('table', 'table');
  const head = el('tr');
  for (const h of ['Status', 'User', 'Job', 'Elapsed', 'Log'])
    head.appendChild(el('th', null, h));
  tbl.appendChild(head);
  for (const j of jobs) {
    const tr = el('tr');
    tr.appendChild(el('td', j.status, j.status));
    tr.appendChild(el('td', null, j.group || '-'));
    tr.appendChild(el('td', null, j.name));
    tr.appendChild(el('td', null, fmtDur(j.elapsed_secs)));
    const td = el('td');
    const u = logUrl(j.log_path);
    if (u) {
      const a = el('span', 'job', 'log');
      a.onclick = () => openLog(j.name, u);
      td.appendChild(a);
    } else {
      td.textContent = '-';
    }
    tr.appendChild(td);
    tbl.appendChild(tr);
    if (j.error) {
      const er = el('tr'), etd = el('td', 'failed', j.error);
      etd.colSpan = 5;
      er.appendChild(etd);
      tbl.appendChild(er);
    }
  }
  const jdiv = document.getElementById('jobs');
  jdiv.textContent = '';
  jdiv.appendChild(tbl);
}

function poll() {
  fetch(STATUS_URL)
    .then(r => r.json())
    .then(render)
    .catch(() => {
      document.getElementById('summary').textContent = 'daemon status unavailable';
    });
}
poll();
".
End CgiAssets.
