(* ===== verification/Cgi.v ===== *)
(** * The dashboard (src/src/bin/cgi.rs)

    One request: the configuration is read, the repository of the requested
    branch opened, and one page, or its JSON, is answered. Pages are built as
    the program builds them, line by line; a double quote is written [`] in
    the texts below. *)

From Stdlib Require Import SpecFloat.
From S2P Require Import Prelude.
From S2P Require Import RustStr.
From S2P Require Import Fmt.
From S2P Require Import F64.
From S2P Require Import Keys.
From S2P Require Import Status.
From S2P Require Import Fs.
From S2P Require Import Config.
From S2P Require Import Store.
From S2P Require Import Results.
From S2P Require Import Git.
From S2P Require Import Stats.
From S2P Require Import Jobs.
From S2P Require Import Branch.
From S2P Require Import Api.
From S2P Require Import Lcov.
From S2P Require Import Gc.
From S2P Require Import CgiAssets.

Module Cgi.
Import Str Fmt F64 Keys Status Fs Config Store Results Git Branch Api Lcov CgiAssets.

(** ** What the dashboard relies on *)
(** The regex crate; [querystring::querify]; and the texts that come from
    elsewhere: the environment, errors and paths as they are printed. *)
Class Web : Type := {
  regex : Type;
  regex_new : string → option regex;
  as_str : regex → string;
  is_match : regex → string → bool;
  querify : string → list (string * string);
  env_vars : string;
  show_config_error : config_error → string;
  show_branch_error : branch_error → string;
  show_open_error : path → string;
  show_path : path → string
}.
(** [cgi::html_response], [cgi::text_response] and [cgi::binary_response]. *)
Inductive Response : Type :=
  | html_response (code : Z) (body : string)
  | text_response (code : Z) (body : string)
  | binary_response (code : Z) (content_type body : string).
(** The headers of a request: [Some None] is a value that is not text. *)
Abbreviation Request := (string → option (option string)).

Notation page A := (outcome Empty_set A).
Definition unwrap {A} (o : option A) : page A := match o with Some a => Ok a | None => Panic end.
Definition Q (t : string) : string := replace_char "`" dq t.
(** [writeln!] *)
Definition line (t : string) : string := t +:+ nl.
Fixpoint lines (l : list string) : string :=
  match l with [] => "" | t :: l => line t +:+ lines l end.
(** A loop that writes one text for each item. *)
Fixpoint write_each {A} (f : A → page string) (l : list A) : page string :=
  match l with
  | [] => Ok ""
  | x :: l => t ← f x; rest ← write_each f l; Ok (t +:+ rest)
  end.

Definition attr (s : string) : string :=
  replace dq "&quot;" (replace "<" "&lt;" (replace "&" "&amp;" s)).

(** ** One test's statistics *)
Record SingleTestStats : Type := mkStats {
  completed : Z; st_passed : Z; st_failed : Z; st_duration : Z
}.
Fixpoint test_stats_loop (test_name : option string) (stats : SingleTestStats)
    (l : list (string * TestResult)) : option SingleTestStats :=
  match l with
  | [] => if (completed stats =? 0)%Z then None else Some stats
  | (name, result) :: l =>
      if match test_name with Some n => bool_decide (n ≠ name) | None => false end then None
      else
        let test_name := Some name in
        let count p f := (mkStats (completed stats ⊕ 1) (st_passed stats ⊕ p)
                            (st_failed stats ⊕ f) (st_duration stats ⊕ duration result))%rust in
        match status result with
        | Passed => test_stats_loop test_name (count 1 0)%Z l
        | Failed => test_stats_loop test_name (count 0 1)%Z l
        | _ => test_stats_loop test_name stats l
        end
  end.
Definition single_test_stats (commits : list CommitResults) : option SingleTestStats :=
  test_stats_loop None (mkStats 0 0 0 0) (concat ((λ r, bt_iter (c_tests r)) <$> commits)).

(** [a as f64 * 100.0 / b as f64] *)
Definition percent (a b : Z) : spec_float :=
  SFdiv 53 1024 (SFmul 53 1024 (f64_of a) (f64_of 100)) (f64_of b).
Definition stats_line (stats : SingleTestStats) : string :=
  line ("<p><strong>" +:+ of_u64 (completed stats) +:+ " completed runs</strong>: " +:+
        of_u64 (st_passed stats) +:+ " passed (" +:+ one_decimal (percent (st_passed stats) (completed stats)) +:+
        "%), " +:+ of_u64 (st_failed stats) +:+ " failed (" +:+
        one_decimal (percent (st_failed stats) (completed stats)) +:+ "%); average duration " +:+
        format_duration (st_duration stats / completed stats) +:+ "</p>").

(** ** The request at hand *)
Section cgi.
Context {OS : OsEnv} {CD : Codec test_results} {CH : Chrono} {HT : Http} {TH : Threads}.
Context {G : Git2} {J5 : Json5} {T : Tools} {W : Web}.
Context {JL : Json (list BranchEntry)} {JC : Json CommitTests} {JU : Json UserBranches} {JUS : Json (list UserBranches)} {JE : Json ApiError}.

Record Ci : Type := mkCi {
  rc : CiConfig;
  ci_repo : repository;
  stylesheet : string;
  script_name : string;
  user : option string;
  branch : option string;
  commit : option string;
  tests_matching : regex;
  json : bool
}.
Definition json_response {A} {J : Json A} (val : A) : Response :=
  binary_response 200 "application/json" (to_json_pretty val).
Definition json_error (msg : string) : Response :=
  binary_response 500 "application/json" (to_json (mkApiError msg)).
Definition error_response (msg : string) : Response :=
  text_response 200 (line msg +:+ line ("env: " +:+ env_vars)).
Definition answer_error (ci : Ci) (msg : string) : Response :=
  if json ci then json_error msg else error_response msg.
Definition ci_branch_get_results (ci : Ci) (now : Z) (f : fs) :
    outcome branch_error (list CommitResults) * fs :=
  branch_get_results (ci_repo ci) (ktest (rc ci)) (user ci) (branch ci) (commit ci)
    (is_match (tests_matching ci)) now f.

Definition hidden_field (name : string) (val : option string) : string :=
  match val with
  | Some val => line ("<input type=hidden name=" +:+ name +:+ Q " value=`" +:+ attr val +:+ Q "`>")
  | None => ""
  end.
Definition search_form (ci : Ci) : string :=
  line ("<form method=get action=" +:+ script_name ci +:+ ">") +:+
  hidden_field "user" (user ci) +:+ hidden_field "branch" (branch ci) +:+ hidden_field "commit" (commit ci) +:+
  line (Q "<input type=text name=test value=`" +:+ attr (as_str (tests_matching ci)) +:+
        Q "` placeholder=`test name (regex)` size=40> <input type=submit value=Search>") +:+
  line "</form>".

(** ** The log of a branch *)
Definition stylesheet_link (ci : Ci) : string :=
  line (Q "<link href=`" +:+ stylesheet ci +:+ Q "` rel=`stylesheet`>").
Definition count (r : TestResultsMap) (t : TestStatus) : string :=
  of_u64 (Z.of_nat (length (filter (λ x, status x.2 = t) (bt_iter r)))).
Definition td (t : string) : string := line ("<td> " +:+ t +:+ " </td>").
Definition commit_link (ci : Ci) (branch : string) (r : CommitResults) : page string :=
  u ← unwrap (user ci);
  id14 ← slice_to (c_id r) 14;
  Ok (line (Q "<td> <a href=`" +:+ script_name ci +:+ "?user=" +:+ u +:+ "&branch=" +:+ branch +:+
            "&commit=" +:+ c_id r +:+ Q "`>" +:+ id14 +:+ "</a> </td>")).
Definition counts_row (ci : Ci) (branch : string) (r : CommitResults) : page string :=
  link ← commit_link ci branch r;
  Ok (line "<tr>" +:+ link +:+ td (subject_of (c_message r)) +:+
      td (count (c_tests r) Passed) +:+ td (count (c_tests r) Failed) +:+
      td (count (c_tests r) FailedToRun) +:+ td (count (c_tests r) Notrun) +:+
      td (count (c_tests r) Inprogress) +:+ td (count (c_tests r) Unknown) +:+
      td (of_u64 (Z.of_nat (size (c_tests r)))) +:+
      line ("<td> " +:+ of_u64 (sum64 (duration <$> bt_values (c_tests r))) +:+ "s </td>") +:+
      line "</tr>").
Definition single_row (ci : Ci) (branch : string) (r : CommitResults) (t : string * TestResult) : page string :=
  link ← commit_link ci branch r;
  Ok (line ("<tr class=" +:+ table_class (status t.2) +:+ ">") +:+ link +:+
      td (subject_of (c_message r)) +:+ td (to_str (status t.2)) +:+
      line ("<td> " +:+ of_u64 (duration t.2) +:+ "s </td>") +:+
      line ("<td> <a href=c/" +:+ c_id r +:+ "/" +:+ t.1 +:+ "/log.br>        log                 </a> </td>") +:+
      line ("<td> <a href=c/" +:+ c_id r +:+ "/" +:+ t.1 +:+ "/full_log.br>   full log            </a> </td>") +:+
      line ("<td> <a href=c/" +:+ c_id r +:+ "/" +:+ t.1 +:+ ">" +:+ String "009" (String "009" "") +:+
            "        output directory    </a> </td>") +:+
      line "</tr>").
Definition gap_row (nr_empty : nat) : string :=
  if nr_empty =? 0 then ""
  else line ("<tr> <td> (" +:+ of_u64 (Z.of_nat nr_empty) +:+ " untested commits) </td> </tr>").
(** The loop over the commits: [row] writes those that have results, and
    [nr_empty] counts the others since the last row. *)
Fixpoint log_rows (row : CommitResults → page string) (nr_empty : nat) (commits : list CommitResults) :
    page string :=
  match commits with
  | [] => Ok ""
  | r :: commits =>
      if decide (c_tests r = ∅) then log_rows row (S nr_empty) commits
      else
        t ← row r;
        rest ← log_rows row 0 commits;
        Ok (gap_row nr_empty +:+ t +:+ rest)
  end.
Definition multiple_test_view (commits : list CommitResults) : bool :=
  existsb (λ r, 1 <? size (c_tests r)) commits.
Definition counts_header : list string :=
  ["<tr>"; "<th> Commit      </th>"; "<th> Description </th>"; "<th> Passed      </th>";
   "<th> Failed      </th>"; "<th> Failed to run </th>"; "<th> Not run     </th>";
   "<th> In progress </th>"; "<th> Unknown     </th>"; "<th> Total       </th>";
   "<th> Duration    </th>"; "</tr>"].
Definition single_header : list string :=
  ["<tr>"; "<th> Commit      </th>"; "<th> Description </th>"; "<th> Status      </th>";
   "<th> Duration    </th>"; "</tr>"].
(** The row of a commit in the single test view: that of its first test. *)
Definition first_row (ci : Ci) (branch : string) (r : CommitResults) : page string :=
  match bt_iter (c_tests r) with
  | t :: _ => single_row ci branch r t
  | [] => Ok ""
  end.
Definition log_table (ci : Ci) (branch : string) (commits : list CommitResults) : page string :=
  if multiple_test_view commits then
    rows ← log_rows (counts_row ci branch) 0 commits;
    Ok (lines counts_header +:+ rows)
  else
    rows ← log_rows (first_row ci branch) 0 commits;
    Ok (lines single_header +:+ rows).
Definition stats_text (ci : Ci) (commits : list CommitResults) : string :=
  if is_empty (as_str (tests_matching ci)) then ""
  else match single_test_stats commits with Some stats => stats_line stats | None => "" end.
Definition ci_log (ci : Ci) (now : Z) (f : fs) : page Response * fs :=
  match branch ci with
  | None => (Panic, f)
  | Some br =>
      match ci_branch_get_results ci now f with
      | (Panic, f) => (Panic, f)
      | (Err e, f) => (Ok (answer_error ci (show_branch_error e)), f)
      | (Ok commits, f) =>
          if json ci then (Ok (json_response (branch_entries commits)), f)
          else
            (table ← log_table ci br commits;
             Ok (html_response 200
               (line "<!DOCTYPE HTML>" +:+
                line ("<html><head><title>" +:+ br +:+ "</title></head>") +:+
                stylesheet_link ci +:+ line "<body>" +:+ line (Q "<div class=`container`>") +:+
                search_form ci +:+ stats_text ci commits +:+
                line (Q "<table class=`table`>") +:+ table +:+
                lines ["</table>"; "</div>"; "</body>"; "</html>"])), f)
      end
  end.

(** ** The tests of a commit *)
Definition log_link (fname link : string) : string :=
  let onclick := "fetch('" +:+ fname +:+ "')" +:+ nl +:+
    "    .then(response => response.text())" +:+ nl +:+
    "    .then(text => {" +:+ nl +:+
    "        document.getElementById('testlog').textContent = text;" +:+ nl +:+
    "  });" +:+ nl +:+
    "  return false;" +:+ nl in
  line ("<td> <a href=" +:+ fname +:+ Q " onclick=`" +:+ onclick +:+ Q "`> " +:+ link +:+ " </a> </td>").
Definition test_row (ci : Ci) (commits : list CommitResults) (first : CommitResults)
    (t : string * TestResult) : page string :=
  let '(name, result) := t in
  git_log ← match branch ci with
            | Some br =>
                u ← unwrap (user ci);
                Ok (line ("<td> <a href=" +:+ script_name ci +:+ "?user=" +:+ u +:+ "&branch=" +:+ br +:+
                          "&test=^" +:+ name +:+ "$> git log        </a> </td>"))
            | None => Ok ""
            end;
  Ok (line ("<tr class=" +:+ table_class (status result) +:+ ">") +:+
      log_link ("c/" +:+ c_id first +:+ "/" +:+ name +:+ "/log.br") name +:+
      line ("<td> " +:+ of_u64 (duration result) +:+ "s </td>") +:+
      line ("<td> " +:+ to_str (status result) +:+ "  </td>") +:+
      line ("<td> " +:+ last_good_line commits name +:+ "  </td>") +:+ git_log +:+
      log_link ("c/" +:+ c_id first +:+ "/" +:+ name +:+ "/full_log.br") "full" +:+
      line "</tr>").
Definition commit_page (ci : Ci) (commits : list CommitResults) (first : CommitResults) (f : fs) :
    page Response :=
  rows ← write_each (test_row ci commits first) (bt_iter (c_tests first));
  Ok (html_response 200
    (line "<!DOCTYPE HTML>" +:+ COMMIT_CSS_JS +:+ line (Q "<div class=`header`>") +:+
     line ("<html><head><title>" +:+ subject_of (c_message first) +:+ "</title></head>") +:+
     stylesheet_link ci +:+ line "<body>" +:+ line (Q "<div class=`toplevel-container`>") +:+
     line ("<h3><th>" +:+ subject_of (c_message first) +:+ "</th></h3>") +:+ search_form ci +:+
     (if exists_ f (path_join (path_join (Config.output_dir (ktest (rc ci))) (c_id first)) "lcov")
      then line ("<p> <a href=c/" +:+ c_id first +:+ "/lcov> Code coverage </a> </p>") else "") +:+
     COMMIT_FILTER +:+ line "</div>" +:+ line (Q "<div class=`horizontal-container`>") +:+
     line (Q "<div class=`horizontal`>") +:+ line (Q "<table class=`table no-wrap`>") +:+ rows +:+
     lines ["</table>"; "</div>"] +:+ line (Q "<div class=`horizontal`>") +:+
     line (Q " <pre id=`testlog`></pre> ") +:+ line "</div>" +:+
     line "<script>update_filter()</script>" +:+ lines ["</div>"; "</body>"; "</html>"])).
Definition ci_commit (ci : Ci) (now : Z) (f : fs) : page Response * fs :=
  match ci_branch_get_results ci now f with
  | (Panic, f) => (Panic, f)
  | (Err e, f) => (Ok (answer_error ci (show_branch_error e)), f)
  | (Ok [], f) => (Panic, f)
  | (Ok ((first :: _) as commits), f) =>
      if json ci then
        (Ok (json_response (commit_tests (c_id first) (c_message first) (c_tests first))), f)
      else
        match update_lcov (ktest (rc ci)) (c_id first) f with
        | (Panic, f) => (Panic, f)
        | (_, f) => (commit_page ci commits first f, f)
        end
  end.

(** ** Users and branches *)
Definition ci_list_branches (ci : Ci) (u : Userrc) : page string :=
  rows ← write_each (λ b,
           name ← unwrap (user ci);
           Ok (line ("<tr> <th> <a href=" +:+ script_name ci +:+ "?user=" +:+ name +:+ "&branch=" +:+ b +:+
                     ">" +:+ b +:+ "</a> </th> </tr>"))) (bt_keys (branches u));
  Ok (line (Q "<div> <table class=`table`>") +:+ rows +:+ line "</table> </div>").
Definition user_branches_json (username : string) (u : Userrc) : UserBranches :=
  mkUserBranches username (bt_keys (branches u)).
Definition branch_list_head (ci : Ci) : string :=
  line "<!DOCTYPE HTML>" +:+ line "<html><head><title>CI branch list</title></head>" +:+
  stylesheet_link ci +:+ line "<body>".
Definition ci_user (ci : Ci) : page Response :=
  username ← unwrap (user ci);
  match users (rc ci) !! username with
  | None => Ok (answer_error ci ("User " +:+ username +:+ " not found"))
  | Some Panic => Panic
  | Some (Ok u) =>
      if json ci then Ok (json_response (user_branches_json username u))
      else list ← ci_list_branches ci u;
           Ok (html_response 200 (branch_list_head ci +:+ list +:+ lines ["</body>"; "</html>"]))
  | Some (Err e) =>
      let msg := "error parsing user config: " +:+ show_config_error e in
      if json ci then Ok (json_error msg)
      else Ok (html_response 200 (branch_list_head ci +:+ line msg +:+ lines ["</body>"; "</html>"]))
  end.
Definition user_row (ci : Ci) (u : string * outcome config_error Userrc) : page string :=
  let nice := default 0%Z (user_nice (ktest (rc ci)) !! u.1) in
  names ← match u.2 with
          | Ok rc => Ok (join ", " (bt_keys (branches rc)))
          | Err _ => Ok "error"
          | Panic => Panic
          end;
  Ok (line "<tr>" +:+
      line (Q "<td> <a href=`" +:+ script_name ci +:+ "?user=" +:+ u.1 +:+ Q "`>" +:+ u.1 +:+ "</a> </td>") +:+
      td (pretty nice) +:+ td names +:+ line "</tr>").
Definition ci_list_users (ci : Ci) : page string :=
  rows ← write_each (user_row ci) (bt_iter (users (rc ci)));
  Ok (line "<h4>Users</h4>" +:+ line (Q "<div> <table class=`table`>") +:+
      line "<tr> <th> User </th> <th> Nice </th> <th> Branches </th> </tr>" +:+ rows +:+
      line "</table> </div>").
Definition home_json (users : gmap string (outcome config_error Userrc)) : list UserBranches :=
  omap (λ u, user_branches_json u.1 <$> outcome_ok u.2) (bt_iter users).
Definition ci_home (ci : Ci) : page Response :=
  if json ci then Ok (json_response (home_json (users (rc ci))))
  else
    list ← ci_list_users ci;
    Ok (html_response 200
      (branch_list_head ci +:+
       line (Q "<p><a href=`" +:+ script_name ci +:+ Q "?status`>→ live CI status</a></p>") +:+
       list +:+ lines ["</body>"; "</html>"])).
Definition ci_status_page (ci : Ci) : Response :=
  html_response 200
    (line "<!DOCTYPE html>" +:+ line "<html><head><title>CI status</title>" +:+ stylesheet_link ci +:+
     line ("<style>" +:+ STATUS_CSS +:+ "</style></head>") +:+
     line ("<body>" +:+ STATUS_BODY +:+ "<script>" +:+ STATUS_JS +:+ "</script></body></html>")).

(** ** The request *)
Definition cgi_header_get (request : Request) (name : string) : string :=
  default "" (default None (request name)).
(** Of two values of one name the later counts. *)
Definition query_of (query_string : string) : gmap string string := bt_collect (querify query_string).
Definition request_repo_path (rc : CiConfig) (query : gmap string string) : path :=
  default (linux_repo (ktest rc))
    (u ← query !! "user";
     b ← query !! "branch";
     userrc ← (users rc !! u : option (outcome config_error Userrc));
     userrc ← (outcome_ok userrc : option Userrc);
     branchconfig ← (branches userrc !! b : option RcBranch);
     repo_path (ktest rc) (repo branchconfig)).
Definition asks_status (query_string : string) : bool :=
  existsb (λ p, bool_decide (p = "status") || starts_with p "status=") (split "&" query_string).
(** The pattern of the request, or the empty one when it is no regex. *)
Definition matching_of (query : gmap string string) : page regex :=
  fallback ← unwrap (regex_new "");
  Ok (default fallback (regex_new (default "" (query !! "test")))).
Definition route (query_string : string) (ci : Ci) (now : Z) (f : fs) : page Response * fs :=
  if asks_status query_string then (Ok (ci_status_page ci), f)
  else match user ci with
       | Some _ => match commit ci with
                   | Some _ => ci_commit ci now f
                   | None => match branch ci with
                             | Some _ => ci_log ci now f
                             | None => (ci_user ci, f)
                             end
                   end
       | None => (ci_home ci, f)
       end.
Definition answer (rc : CiConfig) (request : Request) (now : Z) (f : fs) : page Response * fs :=
  let query_string := cgi_header_get request "x-cgi-query-string" in
  let query := query_of query_string in
  let path := request_repo_path rc query in
  match open_repo path with
  | None => (Ok (error_response ("error opening repository " +:+ show_path path +:+ ": " +:+ show_open_error path)), f)
  | Some repo =>
      match matching_of query with
      | Ok matching =>
          route query_string
            (mkCi rc repo STYLESHEET (cgi_header_get request "x-cgi-script-name") (query !! "user")
               (query !! "branch") (query !! "commit") matching
               (match query !! "format" with Some f => bool_decide (f = "json") | None => false end))
            now f
      | _ => (Panic, f)
      end
  end.
Definition cgi_main (exe : path) (request : Request) (now : Z) (f : fs) : page Response * fs :=
  match default Panic (ciconfig_read f exe) with
  | Panic => (Panic, f)
  | Err e => (Ok (error_response ("could not read config; " +:+ show_config_error e)), f)
  | Ok rc =>
      if negb (exists_ f (Config.output_dir (ktest rc))) then
        (Ok (error_response ("required file missing: JOBSERVER_OUTPUT_DIR (got " +:+
                             show_path (Config.output_dir (ktest rc)) +:+ ")")), f)
      else answer rc request now f
  end.
End cgi.

(** ** Attributes *)
(** What a browser reads in a quoted attribute: the three entities. *)
Fixpoint unescape_go (skip : nat) (s : string) : string :=
  match s with
  | EmptyString => ""
  | String c t =>
      match skip with
      | S k => unescape_go k t
      | O => if starts_with s "&amp;" then String "&" (unescape_go 4 t)
             else if starts_with s "&lt;" then String "<" (unescape_go 3 t)
             else if starts_with s "&quot;" then dq +:+ unescape_go 5 t
             else String c (unescape_go 0 t)
      end
  end.
Definition unescape (s : string) : string := unescape_go 0 s.
Definition attr_char (c : ascii) : string :=
  if decide (c = "&"%char) then "&amp;"
  else if decide (c = "<"%char) then "&lt;"
  else if decide (c = "034"%char) then "&quot;" else String c "".
Lemma attr_cons c s : attr (String c s) = attr_char c +:+ attr s.
Proof.
  unfold attr, attr_char, dq. rewrite !replace_single. cbn [replace_char].
  rewrite !replace_char_app. f_equal.
  destruct (decide (c = "&"%char)) as [->|H1]; [reflexivity|]. cbn [replace_char]. rewrite str_app_nil_r.
  destruct (decide (c = "<"%char)) as [->|H2]; [reflexivity|]. cbn [replace_char]. by rewrite str_app_nil_r.
Qed.
Lemma unescape_attr_char c t : unescape (attr_char c +:+ t) = String c (unescape t).
Proof.
  unfold attr_char. destruct (decide (c = "&"%char)) as [->|H1]; [by destruct t|].
  destruct (decide (c = "<"%char)) as [->|H2]; [by destruct t|].
  destruct (decide (c = "034"%char)) as [->|H3]; [by destruct t|].
  unfold unescape. rewrite str_app_cons, str_app_nil_l. cbn [unescape_go]. unfold starts_with.
  cbn [String.prefix]. by destruct (ascii_dec "&" c).
Qed.
(** C33: the search form's attributes. Whatever text a request brings, it stays
    inside the quotes of its attribute: no quote and no tag can begin there.
    And the browser sends back the very text. *)
Theorem attr_correct s :
  contains_char (attr s) "034" = false ∧ contains_char (attr s) "<" = false ∧ unescape (attr s) = s.
Proof.
  induction s as [|c s (IH1 & IH2 & IH3)]; [done|]. rewrite attr_cons, !contains_char_app, IH1, IH2.
  rewrite unescape_attr_char, IH3, !orb_false_r. split_and!; [..|done].
  all: unfold attr_char; repeat (case_decide; [done|]); cbn; by rewrite bool_decide_eq_false_2.
Qed.

(** ** Statistics *)
Definition all_results (commits : list CommitResults) : list (string * TestResult) :=
  concat ((λ r, bt_iter (c_tests r)) <$> commits).
Definition number (s : TestStatus) (l : list (string * TestResult)) : Z :=
  Z.of_nat (length (filter (λ x, status x.2 = s) l)).
Definition is_complete (x : string * TestResult) : bool := bool_decide (status x.2 ∈ [Passed; Failed]).
Definition time_of (l : list (string * TestResult)) : Z :=
  Zsum ((λ x : string * TestResult, duration x.2) <$> filter (λ x, is_complete x = true) l).
Definition stats_after (a : SingleTestStats) (l : list (string * TestResult)) : SingleTestStats :=
  mkStats (wrap64 (completed a + (number Passed l + number Failed l)))
    (wrap64 (st_passed a + number Passed l)) (wrap64 (st_failed a + number Failed l))
    (wrap64 (st_duration a + time_of l)).
Definition in_width (a : SingleTestStats) : Prop :=
  is_u64 (completed a) ∧ is_u64 (st_passed a) ∧ is_u64 (st_failed a) ∧ is_u64 (st_duration a).
Lemma number_cons s x l : number s (x :: l) = ((if decide (status x.2 = s) then 1 else 0) + number s l)%Z.
Proof. unfold number. rewrite filter_cons. case_decide; cbn [length]; lia. Qed.
Lemma time_of_cons x l :
  time_of (x :: l) = ((if is_complete x then duration x.2 else 0) + time_of l)%Z.
Proof. unfold time_of. rewrite filter_cons. case_decide as H; [by rewrite H, fmap_cons|]. apply not_true_is_false in H. by rewrite H. Qed.
Lemma stats_after_id a : in_width a → stats_after a [] = a.
Proof.
  intros (?&?&?&?). unfold stats_after, number, time_of. cbn. rewrite !Z.add_0_r, !wrap64_id by done.
  by destruct a.
Qed.
Lemma test_stats_loop_spec n a l :
  in_width a →
  test_stats_loop (Some n) a l =
    if decide (Forall (λ x, x.1 = n) l) then
      if (completed (stats_after a l) =? 0)%Z then None else Some (stats_after a l)
    else None.
Proof.
  revert a. induction l as [|[k r] l IH]; intros a Ha; cbn [test_stats_loop].
  { rewrite decide_True by constructor. by rewrite stats_after_id. }
  destruct (decide (n = k)) as [<-|Hne].
  2: { rewrite bool_decide_eq_true_2 by done. rewrite decide_False; [done|]. by intros [? _]%Forall_cons. }
  rewrite bool_decide_eq_false_2 by (intros H; by apply H).
  assert (∀ a', in_width a' → stats_after a' l = stats_after a ((n, r) :: l) →
    test_stats_loop (Some n) a' l =
    if decide (Forall (λ x, x.1 = n) ((n, r) :: l)) then
      if (completed (stats_after a ((n, r) :: l)) =? 0)%Z then None
      else Some (stats_after a ((n, r) :: l))
    else None) as Hgo.
  { intros a' Ha' He. rewrite IH, He by done. destruct (decide (Forall _ l)) as [Hl|Hl].
    - by rewrite decide_True by by constructor.
    - rewrite decide_False; [done|]. by intros [_ ?]%Forall_cons. }
  destruct Ha as (?&?&?&?).
  destruct (status r) eqn:Es; apply Hgo;
    try (split_and!; first [done|apply wrap64_range]);
    unfold stats_after, add64; rewrite !number_cons, !time_of_cons; unfold is_complete;
    cbn [completed st_passed st_failed st_duration snd]; rewrite Es, ?wrap64_add_l;
    repeat first [rewrite decide_True by done|rewrite decide_False by done];
    (try rewrite bool_decide_eq_true_2 by set_solver); (try rewrite bool_decide_eq_false_2 by set_solver);
    do 2 f_equal; lia.
Qed.
(** C32: the statistics of one test. They are given exactly when all the results
    of the view are of one test and one of them is complete; then they count
    the passes and the failures among them, and add up the time those took. *)
Theorem single_test_stats_correct commits :
  let all := all_results commits in
  let one := ∀ x y, x ∈ all → y ∈ all → x.1 = y.1 in
  match single_test_stats commits with
  | Some s =>
      one ∧ completed s ≠ 0%Z ∧ completed s = wrap64 (number Passed all + number Failed all) ∧
      st_passed s = wrap64 (number Passed all) ∧ st_failed s = wrap64 (number Failed all) ∧
      st_duration s = wrap64 (time_of all)
  | None => ¬ one ∨ wrap64 (number Passed all + number Failed all) = 0%Z
  end.
Proof.
  intros all one. unfold single_test_stats. fold (all_results commits). fold all.
  assert (all = [] ∨ ∃ n r l, all = (n, r) :: l) as [E|(n & r & l & E)] by (destruct all as [|[]]; eauto).
  { subst one. rewrite E. by right. }
  assert (test_stats_loop None (mkStats 0 0 0 0) all = test_stats_loop (Some n) (mkStats 0 0 0 0) all) as ->.
  { rewrite E. cbn [test_stats_loop]. rewrite bool_decide_eq_false_2; [done|]. intros H. by apply H. }
  rewrite test_stats_loop_spec by done.
  destruct (decide (Forall (λ x, x.1 = n) all)) as [Hall|Hall].
  - rewrite Forall_forall in Hall.
    assert (one) as Hone by (intros x y Hx%Hall Hy%Hall; congruence).
    destruct (Z.eqb_spec (completed (stats_after (mkStats 0 0 0 0) all)) 0) as [Hz|Hz]; [by right|].
    done.
  - left. intros Hone. apply Hall, Forall_forall. intros x Hx. apply (Hone x (n, r)); [done|].
    rewrite E. by left.
Qed.
(** The unit tests of cgi.rs. *)
Definition one_result (name : string) (s : TestStatus) (d : Z) : CommitResults :=
  mkCR "" "" {[ name := mkResult s 0 d ]}.
Example counts_completed_results_for_one_test :
  single_test_stats [one_result "test" Passed 60; one_result "test" Failed 120; one_result "test" Inprogress 0] =
  Some (mkStats 2 1 1 180).
Proof. computed. Qed.
Example rejects_multiple_test_names :
  single_test_stats [one_result "first" Passed 60; one_result "second" Failed 120] = None.
Proof. computed. Qed.
Example requires_a_completed_result :
  single_test_stats [one_result "test" Inprogress 0] = None ∧ single_test_stats [] = None.
Proof. split; computed. Qed.
(** Two of three runs pass: 66.7% and 33.3%. *)
Example percentages : one_decimal (percent 2 3) = "66.7" ∧ one_decimal (percent 1 3) = "33.3".
Proof. split; computed. Qed.

(** ** Rows and gaps *)
Lemma log_rows_spec (row : CommitResults → page string) (gap commits : list CommitResults) :
  Forall (λ r, c_tests r = ∅) gap →
  ∃ blocks tail, gap ++ commits = concat ((λ b, b.1 ++ [b.2]) <$> blocks) ++ tail ∧
    Forall (λ b, Forall (λ r, c_tests r = ∅) b.1 ∧ c_tests b.2 ≠ ∅) blocks ∧
    Forall (λ r, c_tests r = ∅) tail ∧
    log_rows row (length gap) commits =
      write_each (λ b, t ← row b.2; Ok (gap_row (length b.1) +:+ t)) blocks.
Proof.
  revert gap. induction commits as [|r commits IH]; intros gap Hgap.
  { exists [], gap. rewrite app_nil_r. split_and!; [done|constructor|done|done]. }
  cbn [log_rows]. destruct (decide (c_tests r = ∅)) as [He|He].
  - destruct (IH (gap ++ [r])) as (blocks & tail & Hc & Hb & Ht & Hl).
    { apply Forall_app. split; [done|]. by constructor. }
    exists blocks, tail. rewrite <-app_assoc in Hc. split; [exact Hc|]. split; [done|]. split; [done|].
    rewrite <-Hl, length_app. cbn. by rewrite Nat.add_1_r.
  - destruct (IH []) as (blocks & tail & Hc & Hb & Ht & Hl); [constructor|]. cbn in Hc, Hl.
    exists ((gap, r) :: blocks), tail. split.
    { cbn. rewrite Hc, <-!app_assoc. done. }
    split; [by constructor|]. split; [done|]. cbn [write_each]. rewrite Hl. cbn [fst snd].
    destruct (row r) as [t|[]|]; [|done]. cbn [mbind outcome_bind].
    destruct (write_each _ blocks) as [rest|[]|]; [|done]. cbn [mbind outcome_bind].
    by autorewrite with str.
Qed.
(** The rows of a branch's log. The commits are cut into blocks: some without
    results, then one with. Each block gives one row, in order, preceded by the
    number of the commits without results when there are any; the commits after
    the last block give nothing. *)
Theorem log_rows_correct (row : CommitResults → page string) commits :
  ∃ blocks tail, commits = concat ((λ b, b.1 ++ [b.2]) <$> blocks) ++ tail ∧
    Forall (λ b, Forall (λ r, c_tests r = ∅) b.1 ∧ c_tests b.2 ≠ ∅) blocks ∧
    Forall (λ r, c_tests r = ∅) tail ∧
    log_rows row 0 commits =
      write_each (λ b, t ← row b.2; Ok (gap_row (length b.1) +:+ t)) blocks.
Proof. exact (log_rows_spec row [] commits (List.Forall_nil _)). Qed.

(** ** No request goes unanswered *)
Section answers.
Context {OS : OsEnv} {CD : Codec test_results} {CH : Chrono} {HT : Http} {TH : Threads}.
Context {G : Git2} {J5 : Json5} {T : Tools} {W : Web}.
Context {JL : Json (list BranchEntry)} {JC : Json CommitTests} {JU : Json UserBranches} {JUS : Json (list UserBranches)} {JE : Json ApiError}.

(** git2 prints an object id as its 40 hexadecimal digits. *)
Definition oid_text : Prop := ∀ (repo : repository) start items i,
  walk_push repo start = Some items → i ∈ omap id items → hex_id i.
(** The result file of a commit holds a start time that is no time: chrono
    has none for it. *)
Definition garbled_time (out : path) (f : fs) (c : string) : Prop :=
  ∃ buf msg e, read f (path_join out (c +:+ ".capnp")) = Some buf ∧ deserialize buf = Some msg ∧
    e ∈ m_entries msg ∧ timestamp_ok (e_starttime e) = false.
(** A tool that update_lcov needs cannot be executed. *)
Definition tool_missing : Prop :=
  ∃ tool args dir f, tool ∈ ["lcov"; "git"; "genhtml"] ∧ (run_status (tool :: args) dir f).1 = None.

Lemma write_each_ok {A} (row : A → page string) l :
  (∀ x, x ∈ l → is_ok (row x) = true) → is_ok (write_each row l) = true.
Proof.
  induction l as [|x l IH]; intros Hr; [done|]. cbn [write_each].
  pose proof (Hr x ltac:(by left)) as Hx. destruct (row x); [|done..]. cbn [mbind outcome_bind].
  pose proof (IH ltac:(intros; apply Hr; by right)) as Hl. by destruct (write_each row l).
Qed.
Lemma log_rows_ok row n commits :
  (∀ r, r ∈ commits → is_ok (row r) = true) → is_ok (log_rows row n commits) = true.
Proof.
  revert n. induction commits as [|r l IH]; intros n Hr; [done|]. cbn [log_rows].
  case_decide; [apply IH; intros; apply Hr; by right|].
  pose proof (Hr r ltac:(by left)) as Hx. destruct (row r); [|done..]. cbn [mbind outcome_bind].
  pose proof (IH 0 ltac:(intros; apply Hr; by right)) as Hl. by destruct (log_rows row 0 l).
Qed.
Lemma is_ok_no_panic {A} (r : page A) : is_ok r = true ↔ r ≠ Panic.
Proof. by destruct r as [|[]|]. Qed.
Lemma commit_link_ok ci br r : is_Some (user ci) → hex_id (c_id r) → is_ok (commit_link ci br r) = true.
Proof. intros [u Hu] Hid. unfold commit_link. rewrite Hu. cbn. by rewrite hex_slice by (done || lia). Qed.
Lemma log_table_ok ci br commits :
  is_Some (user ci) → Forall (λ r, hex_id (c_id r)) commits → is_ok (log_table ci br commits) = true.
Proof.
  intros Hu Hids. rewrite Forall_forall in Hids. unfold log_table.
  assert (∀ r, r ∈ commits → is_ok (counts_row ci br r) = true ∧ is_ok (first_row ci br r) = true) as Hrows.
  { intros r Hr%Hids. pose proof (commit_link_ok ci br r Hu Hr) as Hl.
    unfold counts_row, first_row, single_row. destruct (commit_link ci br r); [|done..].
    split; [done|]. by destruct (bt_iter (c_tests r)). }
  destruct (multiple_test_view commits).
  - pose proof (log_rows_ok (counts_row ci br) 0 commits ltac:(intros; by apply Hrows)) as H.
    by destruct (log_rows _ _ _).
  - pose proof (log_rows_ok (first_row ci br) 0 commits ltac:(intros; by apply Hrows)) as H.
    by destruct (log_rows _ _ _).
Qed.
Lemma commit_page_ok ci commits first f : is_Some (user ci) → is_ok (commit_page ci commits first f) = true.
Proof.
  intros [u Hu]. unfold commit_page.
  assert (is_ok (write_each (test_row ci commits first) (bt_iter (c_tests first))) = true) as H.
  { apply write_each_ok. intros [name result] _. unfold test_row. rewrite Hu. by destruct (branch ci). }
  by destruct (write_each _ _).
Qed.
Lemma render_html_panic dir c f : (render_html dir c f).1 = Panic → tool_missing.
Proof.
  unfold render_html. destruct (run_status _ linux_1 f) as [[[]|] f1] eqn:E; [|done|].
  2: { intros _. exists "git", ["checkout"; "-f"; c], linux_1, f. rewrite E. split; [set_solver|done]. }
  destruct (run_status ["genhtml"; _; _; _] linux_1 f1) as [[[]|] f2] eqn:E'; [done..|].
  intros _. eexists "genhtml", _, linux_1, f1. rewrite E'. split; [set_solver|done].
Qed.
Lemma update_lcov_panic kt c f : (update_lcov kt c f).1 = Panic → tool_missing.
Proof.
  unfold update_lcov. destruct (remove_file f _) as [f0 []]; [|done].
  destruct (file_lock f0) as [[] f1]; [|done]. destruct (read_dir f1 _); [|done]. unfold merge.
  destruct (run_status _ _ f1) as [[[]|] f2] eqn:E; [|done|].
  - destruct (rename f2 _ _) as [f3 []]; [|done]. apply render_html_panic.
  - intros _. eexists "lcov", _, _, f1. split; [set_solver|exact (f_equal fst E)].
Qed.
Lemma parse_entries_panic acc es :
  parse_entries acc es = Panic → ∃ e, e ∈ es ∧ timestamp_ok (e_starttime e) = false.
Proof.
  revert acc. induction es as [|e es IH]; intros acc H; [done|]. cbn [parse_entries] in H.
  unfold parse_entry in H. destruct (from_raw (e_status e)); [|done].
  destruct (timestamp_ok (e_starttime e)) eqn:Et; [|exists e; split; [by left|done]].
  destruct (to_text (e_name e)); [|done]. cbn in H. destruct (IH _ H) as (e' & ? & ?).
  exists e'. split; [by right|done].
Qed.
Lemma commitdir_panic kt f c :
  commitdir_get_results kt f c = Panic → garbled_time (Config.output_dir kt) f c.
Proof.
  unfold commitdir_get_results, commit_read_capnp. destruct (read f _) as [buf|] eqn:Er; [|done]. cbn.
  unfold parse_test_results. destruct (deserialize buf) as [msg|] eqn:Ed; [|done].
  destruct (parse_entries ∅ (m_entries msg)) as [m|e|] eqn:Ep; [done..|]. intros _.
  apply parse_entries_panic in Ep as (e & He & Ht). exists buf, msg, e. by split_and!.
Qed.
Lemma collect_results_panic kt f matching depth ne nc commits :
  collect_results kt f matching depth ne nc commits = Panic →
  ∃ c, c ∈ commits.*1 ∧ garbled_time (Config.output_dir kt) f c.
Proof.
  revert ne nc. induction commits as [|[id msg] commits IH]; intros ne nc H; [done|].
  cbn [collect_results] in H.
  assert (∀ n n', (rest ← collect_results kt f matching depth n n' commits;
     Ok (mkCR id msg (filter_results (default ∅ (outcome_ok (commitdir_get_results kt f id))) matching) :: rest)) = Panic →
     ∃ c, c ∈ (id :: commits.*1) ∧ garbled_time (Config.output_dir kt) f c) as Hgo.
  { intros n n' Hc. destruct (collect_results kt f matching depth n n' commits) as [l|e|] eqn:E; [done..|].
    destruct (IH _ _ E) as (c & ? & ?). exists c. split; [by right|done]. }
  rewrite fmap_cons. cbn [fst].
  destruct (commitdir_get_results kt f id) as [m|e|] eqn:Em.
  - case_match; [done|]. case_match; [done|]. by eapply Hgo.
  - case_match; [done|]. case_match; [done|]. by eapply Hgo.
  - exists id. split; [by left|by apply commitdir_panic].
Qed.

Lemma walk_commits_subset (repo : repository) depth ids c :
  c ∈ (walk_commits repo depth ids).*1 → c ∈ ids.
Proof.
  unfold walk_commits. intros ([i m] & -> & Hin)%list_elem_of_fmap. apply elem_of_take in Hin as (k & Hk & _).
  apply list_elem_of_lookup_2, list_elem_of_omap in Hk as (j & Hj & Hm).
  destruct (find_commit repo j); cbn in Hm; by simplify_eq.
Qed.
Lemma prefetch_no_panic url dir ids now f :
  (∀ i, i ∈ ids → hex_id i) → prefetch_capnp url dir ids now f ≠ Panic.
Proof.
  intros Hids. unfold prefetch_capnp. set (g := (create_dir_all f now dir).1).
  set (q := interleave (map fst <$> fetch_plan (to_fetch g dir ids))).
  assert (∀ x, x ∈ q → hex_id x) as Hx.
  { intros x Hx. unfold q in Hx. rewrite interleave_perm in Hx. apply Hids, (to_fetch_ids g dir).
    rewrite <-(fetch_plan_concat (to_fetch g dir ids)). change (x ∈ map fst (concat (fetch_plan (to_fetch g dir ids)))). rewrite concat_map. exact Hx. }
  assert (∀ g', foldl (fetch_one url dir now) (Ok g') q ≠ Panic) as Hq.
  { induction q as [|x q IH]; intros g'; [done|]. cbn [foldl].
    assert (∃ g2, fetch_one url dir now (Ok g') x = Ok g2) as [g2 ->]; [|apply IH; intros; apply Hx; by right].
    unfold fetch_one. cbn [mbind outcome_bind].
    destruct (fetch_capnp_cached url dir x now g') as [[b|e|] g2] eqn:E; [by eexists| |].
    - rewrite (hex_slice x) by first [lia|apply Hx; left]. by eexists.
    - exfalso. unfold fetch_capnp_cached in E. by cases. }
  destruct (to_fetch g dir ids); [done|]. apply Hq.
Qed.

(** A branch's view, or a commit's: its ids are ids, and when it panics. *)
Lemma view_outcome repo kt u b c matching now f :
  oid_text → is_Some c ∨ is_Some b → let view := branch_get_results repo kt (Some u) b c matching now f in
  match view.1 with
  | Ok l => Forall (λ r, hex_id (c_id r)) l
  | Err _ => True
  | Panic => revwalk repo = false ∨ ∃ c, garbled_time (Config.output_dir kt) view.2 c
  end.
Proof.
  intros HS Hcb. cbn zeta. unfold branch_get_results.
  destruct (match c with Some _ => _ | None => _ end) as [name|] eqn:En.
  2: { destruct Hcb as [[c' ->]|[b' ->]]; [done|]. destruct c; discriminate En. }
  destruct (revwalk repo); cbn [negb]; [|by left]. destruct (git_get_commit _ name) as [reference|]; [|done].
  unfold walk_ids. destruct (walk_push _ reference) as [items|] eqn:Ew; [|done].
  set (commits := walk_commits _ _ _).
  assert (∀ i, i ∈ commits.*1 → hex_id i) as Hids.
  { intros i Hi%walk_commits_subset. by apply (HS _ _ _ _ Ew). }
  assert (∃ g, match ci_url kt with
               | Some base_url => prefetch_capnp base_url (Config.output_dir kt) commits.*1 now f
               | None => Ok f
               end = Ok g) as [g ->].
  { destruct (ci_url _) as [url|]; [|by eexists].
    pose proof (prefetch_no_panic url (Config.output_dir kt) commits.*1 now f Hids).
    destruct (prefetch_capnp _ _ _ _ _) as [g|[]|]; [by eexists|done]. }
  destruct (collect_results kt g matching (depth_of kt) 0 0 commits) as [l|e|] eqn:Hl;
    cbn [mbind outcome_bind fst snd]; [|done|].
  - apply Forall_forall. intros r Hr. apply Hids. eapply (Gc.collect_results_ids _ _ _ _ _ _ _ _ Hl).
    destruct (pop_empty_spec l) as ([k ->] & _). apply elem_of_app. by left.
  - right. destruct (collect_results_panic _ _ _ _ _ _ _ Hl) as (c' & _ & Hc). by exists c'.
Qed.
Lemma ci_view_ids ci now f commits g u :
  oid_text → user ci = Some u → is_Some (commit ci) ∨ is_Some (branch ci) →
  ci_branch_get_results ci now f = (Ok commits, g) → Forall (λ r, hex_id (c_id r)) commits.
Proof.
  intros HS Hu Hcb Hv. unfold ci_branch_get_results in Hv. rewrite Hu in Hv.
  pose proof (view_outcome (ci_repo ci) (ktest (rc ci)) u (branch ci) (commit ci)
                (is_match (tests_matching ci)) now f HS Hcb) as H.
  cbn zeta in H. by rewrite Hv in H.
Qed.
Lemma ci_log_panics ci now f u :
  oid_text → user ci = Some u → is_Some (branch ci) →
  (ci_log ci now f).1 = Panic ↔ (ci_branch_get_results ci now f).1 = Panic.
Proof.
  intros HS Hu Hb. unfold ci_log. destruct Hb as [br Hb].
  rewrite Hb. destruct (ci_branch_get_results ci now f) as [[commits|e|] g] eqn:Ev; [|done..].
  destruct (json ci); [done|].
  pose proof (log_table_ok ci br commits ltac:(by eexists)
                (ci_view_ids _ _ _ _ _ u HS Hu ltac:(right; by eexists) Ev)) as H.
  by destruct (log_table ci br commits).
Qed.
Lemma ci_commit_panics ci now f :
  is_Some (user ci) →
  (ci_commit ci now f).1 = Panic ↔
  (ci_branch_get_results ci now f).1 = Panic ∨ (ci_branch_get_results ci now f).1 = Ok [] ∨
  json ci = false ∧ ∃ first rest, (ci_branch_get_results ci now f).1 = Ok (first :: rest) ∧
    (update_lcov (ktest (rc ci)) (c_id first) (ci_branch_get_results ci now f).2).1 = Panic.
Proof.
  intros Hu. unfold ci_commit. destruct (ci_branch_get_results ci now f) as [[commits|e|] g]; cbn [fst snd].
  2: { split; [done|]. intros [?|[?|(_ & ? & ? & ? & _)]]; done. }
  2: { split; [by left|done]. }
  destruct commits as [|first rest]; [split; [by right; left|done]|].
  destruct (json ci); [split; [done|]; intros [?|[?|[? _]]]; done|].
  destruct (update_lcov _ _ g) as [r g'] eqn:El.
  assert (is_ok (commit_page ci (first :: rest) first g') = true) as Hp%is_ok_no_panic by by apply commit_page_ok.
  split.
  - intros H. right; right. split; [done|]. exists first, rest. split; [done|]. rewrite El.
    destruct r as [?|[]|]; [by cbn [fst] in H|done].
  - intros [?|[?|(_ & first' & rest' & [= <- <-] & H)]]; [done..|]. rewrite El in H. cbn [fst] in H. by rewrite H.
Qed.
Lemma ci_user_answers ci :
  (∀ u, users (rc ci) !! u ≠ Some Panic) → is_Some (user ci) → ci_user ci ≠ Panic.
Proof.
  intros Hp [u Hu]. unfold ci_user. rewrite Hu. cbn [unwrap mbind outcome_bind]. pose proof (Hp u) as Hpu.
  destruct (users (rc ci) !! u) as [[uc|e|]|]; [|by destruct (json ci)|done|done].
  destruct (json ci); [done|]. unfold ci_list_branches. rewrite Hu.
  set (w := write_each _ _). assert (is_ok w = true) as Hw by by apply write_each_ok.
  by destruct w.
Qed.
Lemma ci_home_answers ci : (∀ u, users (rc ci) !! u ≠ Some Panic) → ci_home ci ≠ Panic.
Proof.
  intros Hp. unfold ci_home. destruct (json ci); [done|]. unfold ci_list_users.
  assert (is_ok (write_each (user_row ci) (bt_iter (users (rc ci)))) = true) as H.
  { apply write_each_ok. intros [u r] Hr%elem_of_bt_iter. unfold user_row. cbn [fst snd].
    destruct r; [done..|]. by destruct (Hp u). }
  by destruct (write_each _ _).
Qed.

(** C19: when the dashboard does not answer. A request for the view of a user's
    commit or branch panics in just these cases:
    - the view itself does: the repository's revwalk cannot be made, or the
      result file of a commit in the walk holds a start time that is no time;
    - it is for a commit, and no commit in view has a test that matches: then
      [commits[0]] panics;
    - it is for a commit's page (not its JSON), and merging the coverage of the
      newest commit in view panics, as a tool it needs cannot be executed.
    Every other request, whatever its query, is answered: with the page, its
    JSON or the text of an error. (Ids print as ids, the empty regex compiles,
    and reading the configuration did not panic.) *)
Theorem answer_panics_iff rc request now f :
  oid_text → (∀ u, users rc !! u ≠ Some Panic) → is_Some (regex_new "") →
  let query_string := cgi_header_get request "x-cgi-query-string" in
  let query := query_of query_string in
  let view repo matching :=
    branch_get_results repo (ktest rc) (query !! "user") (query !! "branch") (query !! "commit")
      (is_match matching) now f in
  ((answer rc request now f).1 = Panic ↔
   asks_status query_string = false ∧
   ∃ u repo matching, query !! "user" = Some u ∧
     open_repo (request_repo_path rc query) = Some repo ∧ matching_of query = Ok matching ∧
     ((is_Some (query !! "commit") ∨ is_Some (query !! "branch")) ∧ (view repo matching).1 = Panic ∨
      is_Some (query !! "commit") ∧ (view repo matching).1 = Ok [] ∨
      is_Some (query !! "commit") ∧ query !! "format" ≠ Some "json" ∧
      ∃ first rest, (view repo matching).1 = Ok (first :: rest) ∧
        (update_lcov (ktest rc) (c_id first) (view repo matching).2).1 = Panic)) ∧
  (∀ repo matching, is_Some (query !! "user") → is_Some (query !! "commit") ∨ is_Some (query !! "branch") →
     (view repo matching).1 = Panic →
     revwalk repo = false ∨
     ∃ c, garbled_time (Config.output_dir (ktest rc)) (view repo matching).2 c) ∧
  (∀ c g, (update_lcov (ktest rc) c g).1 = Panic →
     ∃ tool args dir g', tool ∈ ["lcov"; "git"; "genhtml"] ∧ (run_status (tool :: args) dir g').1 = None).
Proof.
  intros HS Hp [empty Hre] query_string query view. split; [|split].
  2: { intros repo m [u Hu] Hcb H. unfold view in *. rewrite Hu in *.
       pose proof (view_outcome repo (ktest rc) u (query !! "branch") (query !! "commit")
                     (is_match m) now f HS Hcb) as Hv. cbn zeta in Hv. by rewrite H in Hv. }
  2: { intros c g. apply update_lcov_panic. }
  unfold answer. fold query_string. fold query.
  destruct (open_repo _) as [repo|]; [|split; [done|naive_solver]].
  assert (∃ m, matching_of query = Ok m) as [m Hm].
  { unfold matching_of. rewrite Hre. cbn. by eexists. }
  rewrite Hm. set (ci := mkCi _ _ _ _ _ _ _ _ _).
  assert (∀ u, users (Cgi.rc ci) !! u ≠ Some Panic) as Hp' by done.
  unfold route. destruct (asks_status query_string); [split; [done|by intros []]|].
  change (user ci) with (query !! "user"). change (commit ci) with (query !! "commit").
  change (branch ci) with (query !! "branch").
  assert (ci_branch_get_results ci now f = view repo m) as Hview by done.
  assert (json ci = false ↔ query !! "format" ≠ Some "json") as Hjson.
  { cbn [json ci]. destruct (query !! "format") as [s|]; [|done]. rewrite bool_decide_eq_false. naive_solver. }
  destruct (query !! "user") as [u|] eqn:Eu.
  2: { split; [|naive_solver]. cbn [fst]. intros H. by destruct (ci_home_answers ci Hp'). }
  assert (user ci = Some u) as Hu by done.
  destruct (query !! "commit") as [c|] eqn:Ec.
  - rewrite (ci_commit_panics ci now f) by by eexists. rewrite Hview, Hjson. split.
    + intros H. split; [done|]. exists u, repo, m. split_and!; [done..|].
      destruct H as [?|[?|?]]; [left|right; left|right; right]; (split; [|done]); eauto.
    + intros (_ & u' & repo' & m' & _ & ? & ? & H). simplify_eq.
      destruct H as [[_ ?]|[[_ ?]|[_ ?]]]; auto.
  - destruct (query !! "branch") as [b|] eqn:Eb.
    + rewrite (ci_log_panics ci now f u HS Hu) by by eexists. rewrite Hview. split.
      * intros H. split; [done|]. exists u, repo, m. split_and!; [done..|]. left. split; [eauto|done].
      * intros (_ & u' & repo' & m' & _ & ? & ? & H). simplify_eq.
        destruct H as [[_ ?]|[[[? ?] _]|[[? ?] _]]]; done.
    + split.
      * intros H. exfalso. by apply (ci_user_answers ci Hp' ltac:(by eexists)).
      * intros (_ & u' & repo' & m' & _ & _ & _ & [[[[]|[]] _]|[[[] _]|[[] _]]]); done.
Qed.
End answers.

(** ** Concrete runs *)
(** Patterns that are plain text, and queries taken apart at [&] and [=]. *)
Definition demo_pair (piece : string) : option (string * string) :=
  match split "=" piece with [k; v] => Some (k, v) | _ => None end.
Definition demo_web : Web := {|
  regex := string; regex_new s := Some s; as_str s := s; is_match p t := contains t p;
  querify q := omap demo_pair (split "&" q); env_vars := ""; show_config_error _ := "config";
  show_branch_error _ := "commit not found"; show_open_error _ := "open"; show_path p := join "/" p
|}.
Section witnesses.
#[local] Existing Instance plain_os.
#[local] Existing Instance demo_codec.
#[local] Existing Instance demo_chrono.
#[local] Existing Instance demo_http.
#[local] Existing Instance demo_threads.
#[local] Existing Instance Branch.demo_repo.
#[local] Existing Instance Lcov.demo_tools.
#[local] Existing Instance demo_web.
#[local] Instance branch_entry_eq_dec : EqDecision BranchEntry.
Proof. solve_decision. Defined.
#[local] Instance branch_entry_countable : Countable BranchEntry.
Proof.
  apply (inj_countable' (λ e, (commit_id e, message e, Branch.passed e, failed e, notrun e, failed_to_run e,
                               inprogress e, unknown e, be_duration e))
           (λ '(c, m, p, f, n, r, i, u, d), mkBE c m p f n r i u d)). by intros [].
Defined.
#[local] Instance test_entry_eq_dec : EqDecision TestEntry.
Proof. solve_decision. Defined.
#[local] Instance test_entry_countable : Countable TestEntry.
Proof.
  apply (inj_countable' (λ e, (te_name e, te_status e, te_duration e)) (λ '(n, s, d), mkTestEntry n s d)).
  by intros [].
Defined.
#[local] Instance commit_tests_eq_dec : EqDecision CommitTests.
Proof. solve_decision. Defined.
#[local] Instance commit_tests_countable : Countable CommitTests.
Proof.
  apply (inj_countable' (λ e, (ct_commit e, ct_message e, ct_tests e)) (λ '(c, m, t), mkCommitTests c m t)).
  by intros [].
Defined.
#[local] Instance user_branches_eq_dec : EqDecision UserBranches.
Proof. solve_decision. Defined.
#[local] Instance user_branches_countable : Countable UserBranches.
Proof.
  apply (inj_countable' (λ e, (ub_user e, ub_branches e)) (λ '(u, b), mkUserBranches u b)). by intros [].
Defined.
#[local] Instance api_error_eq_dec : EqDecision ApiError.
Proof. solve_decision. Defined.
#[local] Instance api_error_countable : Countable ApiError.
Proof. apply (inj_countable' error mkApiError). by intros []. Defined.
Definition log_json : Json (list BranchEntry) := countable_json.
Definition tests_json : Json CommitTests := countable_json.
Definition branches_json : Json UserBranches := countable_json.
Definition users_json : Json (list UserBranches) := countable_json.
Definition error_json : Json ApiError := countable_json.
#[local] Existing Instance log_json.
#[local] Existing Instance tests_json.
#[local] Existing Instance branches_json.
#[local] Existing Instance users_json.
#[local] Existing Instance error_json.

Lemma demo_ids : hex_id c1 ∧ hex_id Jobs.c2.
Proof. unfold hex_id. split_and!; computed. Qed.
Lemma demo_oid_text : oid_text.
Proof.
  intros repo start items i [= <-] Hi. cbn in Hi.
  apply elem_of_cons in Hi as [->|[->|[]%elem_of_nil]%elem_of_cons]; apply demo_ids.
Qed.
(** The page of a commit, searched for a test it does not have. *)
Definition empty_search : Request := λ name,
  if bool_decide (name = "x-cgi-query-string")
  then Some (Some "user=kent&commit=kent/master&test=nosuch") else None.
Lemma answer_panics_iff_witness :
  (answer (mkCiConfig Stats.demo_rc ∅) empty_search 0 (w_fs demo_world)).1 = Panic.
Proof.
  apply (answer_panics_iff (mkCiConfig Stats.demo_rc ∅) empty_search 0 (w_fs demo_world) demo_oid_text).
  - done.
  - by eexists.
  - split; [reflexivity|]. exists "kent", tt, "nosuch".
    split; [reflexivity|]. split; [reflexivity|]. split; [reflexivity|].
    right. left. split; [by exists "kent/master"|]. computed.
Defined.
End witnesses.
End Cgi.
