(* ===== verification/CiStatus.v ===== *)
(** * The command line client (src/src/bin/ci-status.rs)

    What ci-status prints: branch logs, a commit's tests, the users' branches
    and test logs, from local files or from the dashboard. *)

From S2P Require Import Prelude.
From S2P Require Import RustStr.
From S2P Require Import Fmt.
From S2P Require Import Keys.
From S2P Require Import Status.
From S2P Require Import Fs.
From S2P Require Import Config.
From S2P Require Import Store.
From S2P Require Import Results.
From S2P Require Import Git.
From S2P Require Import Stats.
From S2P Require Import Jobs.
From S2P Require Import Branch.
From S2P Require Import Api.

Module CiStatus.
Import Str Fmt Keys Status Fs Config Store Results Git Branch Api.

Inductive status_error : Type :=
  | Request (url : string)
  | Server (msg : string)
  | Fetching (code : Z) (url : string)
  | NotJson (url : string)
  | BadJson
  | CannotResolve (name : string)
  | NoResults (prefix : string)
  | Ambiguous (prefix : string) (n : nat)
  | ReadDir (p : path)
  | OpenRepo (p : path)
  | BranchError (e : branch_error)
  | ReadError (e : read_error)
  | NoUserConfig
  | UserConfig (e : config_error)
  | NoLog
  | BadLog
  | NoMatch (filter commit : string)
  | NoHost
  | Scp (remote : string)
  | NeedsBranch
  | Unsupported
  | NoConfig (e : config_error).

(** ** A command: what it prints, and how it ends *)
Record screen : Type := mkScreen { s_out : string; s_err : string }.
Definition cmd (A : Type) : Type := screen → outcome status_error A * screen.
#[export] Instance cmd_ret : MRet cmd := λ A a s, (Ok a, s).
#[export] Instance cmd_bind : MBind cmd := λ A B f m s,
  match m s with
  | (Ok a, s) => f a s
  | (Err e, s) => (Err e, s)
  | (Panic, s) => (Panic, s)
  end.
Definition lift {A} (r : outcome status_error A) : cmd A := λ s, (r, s).
Definition fail {A} (e : status_error) : cmd A := lift (Err e).
(** [print!], [println!] and [eprintln!] *)
Definition print (t : string) : cmd () := λ s, (Ok tt, mkScreen (s_out s +:+ t) (s_err s)).
Definition println (t : string) : cmd () := print (t +:+ nl).
Definition eprintln (t : string) : cmd () := λ s, (Ok tt, mkScreen (s_out s) (s_err s +:+ t +:+ nl)).
Fixpoint each {A} (f : A → cmd ()) (l : list A) : cmd () :=
  match l with
  | [] => mret tt
  | x :: l => _ ← f x; each f l
  end.

(** ** Colours *)
Definition em_dash : string := String "226" (String "128" (String "148" "")).
Definition esc : string := String "027" "".
Definition color_passed (s : string) : string := esc +:+ "[32m" +:+ s +:+ esc +:+ "[0m".
Definition color_failed (s : string) : string := esc +:+ "[31m" +:+ s +:+ esc +:+ "[0m".
Definition color_inprog (s : string) : string := esc +:+ "[33m" +:+ s +:+ esc +:+ "[0m".
Definition color_dim (s : string) : string := esc +:+ "[2m" +:+ s +:+ esc +:+ "[0m".
Definition color_status (status : TestStatus) : string :=
  let s := to_str status in
  match status with
  | Passed => color_passed s
  | Failed => color_failed s
  | Inprogress => color_inprog s
  | _ => color_dim s
  end.

(** ** What the client relies on *)
(** reqwest's blocking GET (the status and the body, [None] when the request
    fails), the brotli decoder on a whole file, and scp: whether it succeeded, if
    it could be run, and what it leaves. *)
Class Client : Type := {
  web_get : string → option (Z * string);
  unbrotli : string → option string;
  scp : string → string → fs → option bool * fs
}.
(** One branch in [branches --json]. *)
Record BranchInfo : Type := mkBranchInfo {
  bi_name : string; bi_fetch : string; bi_groups : list string
}.

(** The command line. *)
Inductive Command : Type :=
  | Log (branch : string)
  | Show_ (commit : string)
  | Branches
  | Logs (commit : string) (test : option string) (full : bool)
  | PullConfig
  | PushConfig.
Record Args : Type := mkArgs {
  command : Command; remote : option string; user : option string; dashboard : string;
  a_branch : option string; json : bool
}.
Definition is_success (code : Z) : bool := ((200 <=? code) && (code <? 300))%Z.

Section client.
Context {OS : OsEnv} {CD : Codec test_results} {CH : Chrono} {HT : Http} {TH : Threads}.
Context {G : Git2} {J5 : Json5} {CL : Client}.
Context {JL : Json (list BranchEntry)} {JC : Json CommitTests} {JU : Json UserBranches} {JE : Json ApiError} {JB : Json (list BranchInfo)}.

(** ** Server mode *)
Definition server_get {T} {J : Json T} (url : string) : outcome status_error T :=
  match web_get url with
  | None => Err (Request url)
  | Some (status, body) =>
      if negb (is_success status) then
        match from_json (A := ApiError) body with
        | Some e => Err (Server (error e))
        | None => Err (Fetching status url)
        end
      else if starts_with body "<" then Err (NotJson (default url (head (split "?" url))))
      else match from_json body with Some v => Ok v | None => Err BadJson end
  end.
Definition server_log (dashboard user branch : string) : outcome status_error (list BranchEntry) :=
  server_get (dashboard +:+ "?user=" +:+ user +:+ "&branch=" +:+ branch +:+ "&format=json").
Definition server_show (dashboard user branch commit : string) : outcome status_error CommitTests :=
  server_get (dashboard +:+ "?user=" +:+ user +:+ "&branch=" +:+ branch +:+ "&commit=" +:+ commit +:+
              "&format=json").
Definition server_branches (dashboard user : string) : outcome status_error UserBranches :=
  server_get (dashboard +:+ "?user=" +:+ user +:+ "&format=json").

(** ** Finding branches and commits *)
Definition resolve_branch (repo : repository) (ktest : Ktestrc) (name : string) :
    outcome status_error string :=
  let as_is := match revparse_single repo name with
               | Some _ => Ok name
               | None => Err (CannotResolve name)
               end in
  match ci_remote ktest with
  | Some remote =>
      let with_remote := remote +:+ "/" +:+ name in
      match revparse_single repo with_remote with Some _ => Ok with_remote | None => as_is end
  | None => as_is
  end.
Definition user_config_path (ktest : Ktestrc) : path := path_join (Config.output_dir ktest) "ci-user.json5".
(** The user config, if it can be read and parsed. *)
Definition user_config (ktest : Ktestrc) (f : fs) : option (outcome config_error Userrc) :=
  config ← read_to_string f (user_config_path ktest);
  Some (default Panic (userrc_read_str config)).
Definition branch_repo_path (ktest : Ktestrc) (f : fs) (branch : string) : path :=
  default (linux_repo ktest)
    (c ← user_config ktest f;
     u ← (outcome_ok c : option Userrc);
     b ← (branches u !! branch : option RcBranch);
     repo_path ktest (repo b)).
Definition open_branch_repo (ktest : Ktestrc) (f : fs) (branch : string) : outcome status_error repository :=
  match user_config ktest f with
  | Some Panic => Panic
  | _ => match open_repo (branch_repo_path ktest f branch) with
         | Some r => Ok r
         | None => Err (OpenRepo (branch_repo_path ktest f branch))
         end
  end.

Definition is_match_of (prefix name : string) : bool :=
  (String.length name =? 40) && starts_with name prefix.
(** [dedup] drops equal neighbours. *)
Fixpoint dedup (l : list string) : list string :=
  match l with
  | [] => []
  | x :: l => match dedup l with
              | y :: l' => if decide (x = y) then y :: l' else x :: y :: l'
              | [] => [x]
              end
  end.
Definition resolve_commit_prefix (ktest : Ktestrc) (f : fs) (prefix : string) : outcome status_error string :=
  if 40 <=? String.length prefix then Ok prefix
  else
    match read_dir f (Config.output_dir ktest) with
    | None => Err (ReadDir (Config.output_dir ktest))
    | Some names =>
        let matches := dedup (sort_by String.compare
                                (filter (λ n, is_match_of prefix n = true) (omap to_text names))) in
        match matches with
        | [] => Err (NoResults prefix)
        | [c] => Ok c
        | _ => Err (Ambiguous prefix (length matches))
        end
    end.

(** ** Rendering *)
Definition log_header : string :=
  pad_end 14 "COMMIT" +:+ " " +:+ pad_start 6 "PASS" +:+ " " +:+ pad_start 6 "FAIL" +:+ " " +:+
  pad_start 6 "FTRUN" +:+ " " +:+ pad_start 6 "INPRO" +:+ " " +:+ pad_start 8 "DURATION" +:+ "  " +:+
  "MESSAGE".
Definition log_subject (e : BranchEntry) : outcome status_error string :=
  let subject := first_line (message e) in
  if 50 <? String.length subject then slice_to subject 50 else Ok subject.
Definition log_commit (e : BranchEntry) : outcome status_error string :=
  if 12 <=? String.length (commit_id e) then slice_to (commit_id e) 12 else Ok (commit_id e).
Definition log_line (e : BranchEntry) (subject commit : string) : string :=
  let pass_s := of_u64 (passed e) in
  let fail_s := of_u64 (failed e) in
  pad_end 14 commit +:+ " " +:+
  pad_start 6 (if (0 <? passed e)%Z then color_passed pass_s else pass_s) +:+ " " +:+
  pad_start 6 (if (0 <? failed e)%Z then color_failed fail_s else fail_s) +:+ " " +:+
  pad_start 6 (of_u64 (failed_to_run e)) +:+ " " +:+ pad_start 6 (of_u64 (inprogress e)) +:+ " " +:+
  pad_start 8 (format_duration (be_duration e)) +:+ "  " +:+ subject.
Definition log_entry_line (e : BranchEntry) : cmd () :=
  subject ← lift (log_subject e);
  commit ← lift (log_commit e);
  println (log_line e subject commit).
Definition render_log (entries : list BranchEntry) (branch : string) (json : bool) : cmd () :=
  if json then println (to_json_pretty entries)
  else
    match entries with
    | [] => println ("No results for " +:+ branch)
    | _ =>
        _ ← println log_header;
        _ ← println (repeat "-" 80);
        each log_entry_line entries
    end.

Definition status_rank (s : TestStatus) : Z :=
  match s with
  | Failed => 0 | Inprogress => 1 | Notrun => 2 | Unknown => 3 | FailedToRun => 4 | Passed => 5
  end%Z.
Definition show_sorted (tests : list TestEntry) : list TestEntry :=
  sort_by (cmp_on (λ t, status_rank (from_str (te_status t))) Z.compare) tests.
Definition show_line (t : TestEntry) : string :=
  pad_end 60 (te_name t) +:+ " " +:+ pad_start 12 (color_status (from_str (te_status t))) +:+ " " +:+
  pad_start 8 (format_duration (te_duration t)).
Definition show_count (tests : list TestEntry) (s : TestStatus) : nat :=
  length (filter (λ t, from_str (te_status t) = s) tests).
Definition show_total (tests : list TestEntry) : string :=
  of_u64 (Z.of_nat (length tests)) +:+ " total: " +:+
  color_passed (of_u64 (Z.of_nat (show_count tests Passed))) +:+ " passed, " +:+
  color_failed (of_u64 (Z.of_nat (show_count tests Failed))) +:+ " failed, " +:+
  of_u64 (Z.of_nat (show_count tests Inprogress)) +:+ " in progress, " +:+
  format_duration (sum64 (te_duration <$> tests)).
Definition render_show (detail : CommitTests) (json : bool) : cmd () :=
  if json then println (to_json_pretty detail)
  else
    _ ← (if is_empty (ct_message detail) then mret tt
         else _ ← println (ct_commit detail +:+ " " +:+ first_line (ct_message detail)); println "");
    match ct_tests detail with
    | [] => println ("No test results for " +:+ ct_commit detail)
    | _ =>
        _ ← println (pad_end 60 "TEST" +:+ " " +:+ pad_start 12 "STATUS" +:+ " " +:+ pad_start 8 "DURATION");
        _ ← println (repeat "-" 82);
        _ ← each (λ t, println (show_line t)) (show_sorted (ct_tests detail));
        _ ← println "";
        println (show_total (ct_tests detail))
    end.

(** ** The commands *)
(** [now] and the tree [f] are those of the start of the command; the tree a
    command leaves holds the files it has fetched. *)
Definition cmd_log (branch : string) (ktest : Ktestrc) (json : bool) (now : Z) (f : fs) : cmd fs :=
  repo ← lift (open_branch_repo ktest f branch);
  gitref ← lift (resolve_branch repo ktest branch);
  let '(results, f) := branch_get_results repo ktest None None (Some gitref) (λ _, true) now f in
  results ← lift (map_err BranchError results);
  _ ← render_log (branch_entries results) branch json;
  mret f.
Definition cmd_show (commit : string) (ktest : Ktestrc) (json : bool) (now : Z) (f : fs) : cmd fs :=
  commit ← lift (resolve_commit_prefix ktest f commit);
  let '(full, f) := commitdir_get_results_full ktest commit now f in
  full ← lift (map_err ReadError full);
  _ ← render_show (commit_tests commit (cr_message full) (cr_tests full)) json;
  mret f.

Definition fetch_log (ktest : Ktestrc) (f : fs) (commit test : string) (full : bool) :
    outcome status_error string :=
  let filename := if full then "full_log.br" else "log.br" in
  let local_path := path_join (path_join (path_join (Config.output_dir ktest) commit) test) filename in
  let decompress (data : string) : outcome status_error string :=
    match unbrotli data ≫= to_text with Some t => Ok t | None => Err BadLog end in
  if exists_ f local_path then
    match read f local_path with
    | None => Err (ReadError (ReadFailed local_path))
    | Some data => decompress data
    end
  else
    match ci_url ktest with
    | None => Err NoLog
    | Some ci_url =>
        let url := ci_url +:+ "/" +:+ commit +:+ "/" +:+ test +:+ "/" +:+ filename in
        match web_get url with
        | None => Err (Request url)
        | Some (status, data) =>
            if is_success status then decompress data else Err (Fetching status url)
        end
    end.
Definition short (commit : string) : outcome status_error string := slice_to commit 12.
(** Of several matching tests: the one of that very name, or else the first
    that failed, or else the first. *)
Definition choose (filter : string) (matches : list (string * TestResult)) (first : string * TestResult) :
    string * TestResult :=
  let exact := List.find (λ m, bool_decide (m.1 = filter)) matches in
  let first_failed := List.find (λ m, bool_decide (status m.2 = Failed)) matches in
  default first (match exact with Some m => Some m | None => first_failed end).
Definition failed_line (i : nat) (m : string * TestResult) : cmd () :=
  println ("  " +:+ pad_start 3 (of_u64 (Z.of_nat (i + 1))) +:+ ". " +:+ m.1 +:+ " (" +:+
           of_u64 (duration m.2) +:+ "s)").
Definition logs_of_filter (ktest : Ktestrc) (f : fs) (commit filter : string) (full : bool)
    (tests : TestResultsMap) : cmd () :=
  let matches := base.filter (λ kv, contains kv.1 filter = true) (bt_iter tests) in
  match matches with
  | [] => s ← lift (short commit); fail (NoMatch filter s)
  | [m] => log ← lift (fetch_log ktest f commit m.1 full); print log
  | m :: _ =>
      _ ← eprintln ("Multiple tests match '" +:+ filter +:+ "' " +:+ em_dash +:+ " showing all:" +:+ nl);
      _ ← each (λ m, eprintln ("  " +:+ color_status (status m.2) +:+ " " +:+ m.1)) matches;
      _ ← eprintln "";
      let chosen := choose filter matches m in
      _ ← eprintln ("Showing log for: " +:+ chosen.1 +:+ nl);
      log ← lift (fetch_log ktest f commit chosen.1 full);
      print log
  end.
Definition failed_tests (tests : TestResultsMap) : list (string * TestResult) :=
  sort_by (cmp_on fst String.compare) (base.filter (λ kv, status kv.2 = Failed) (bt_iter tests)).
Definition list_failed (commit : string) (tests : TestResultsMap) : cmd () :=
  match failed_tests tests with
  | [] => s ← lift (short commit); println ("No failed tests for " +:+ s)
  | failed =>
      s ← lift (short commit);
      _ ← println (of_u64 (Z.of_nat (length failed)) +:+ " failed tests for " +:+ s +:+ ":" +:+ nl);
      _ ← each (λ im, failed_line im.1 im.2) (imap pair failed);
      println (nl +:+ "Use: ci-status logs " +:+ s +:+ " <test-name-or-substring>")
  end.
Definition cmd_logs (commit : string) (test : option string) (full : bool) (ktest : Ktestrc)
    (now : Z) (f : fs) : cmd fs :=
  commit ← lift (resolve_commit_prefix ktest f commit);
  let '(results, f) := commitdir_get_results_full ktest commit now f in
  results ← lift (map_err ReadError results);
  _ ← match test with
      | Some filter => logs_of_filter ktest f commit filter full (cr_tests results)
      | None => list_failed commit (cr_tests results)
      end;
  mret f.

Definition branch_line (b : string * RcBranch) : string :=
  pad_end 40 b.1 +:+ " " +:+ color_dim (join ", " (test_groups b.2)).
Definition cmd_branches (ktest : Ktestrc) (json : bool) (f : fs) : cmd () :=
  match read_to_string f (user_config_path ktest) with
  | None => fail NoUserConfig
  | Some config =>
      userrc ← lift (map_err UserConfig (default Panic (userrc_read_str config)));
      if json then
        println (to_json_pretty ((λ b, mkBranchInfo b.1 (Config.fetch b.2) (test_groups b.2)) <$>
                                 bt_iter (branches userrc)))
      else each (λ b, println (branch_line b)) (bt_iter (branches userrc))
  end.

Definition file_arg (p : path) : string := "/" +:+ join "/" p.
Definition ci_scp_path (ktest : Ktestrc) : outcome status_error string :=
  match ci_host ktest with Some host => Ok (host +:+ ":ci.json5") | None => Err NoHost end.
Definition cmd_pull_config (ktest : Ktestrc) (now : Z) (f : fs) : cmd fs :=
  remote ← lift (ci_scp_path ktest);
  let dest := user_config_path ktest in
  let f := (create_dir_all f now (Config.output_dir ktest)).1 in
  match scp remote (file_arg dest) f with
  | (Some true, f) => _ ← println ("Config saved to " +:+ lossy (file_arg dest)); mret f
  | (_, f) => fail (Scp remote)
  end.
Definition cmd_push_config (ktest : Ktestrc) (f : fs) : cmd fs :=
  remote ← lift (ci_scp_path ktest);
  let src := user_config_path ktest in
  if negb (exists_ f src) then fail NoUserConfig
  else match scp (file_arg src) remote f with
       | (Some true, f) => _ ← println ("Config pushed to " +:+ remote); mret f
       | (_, f) => fail (Scp remote)
       end.

(** [--user]: everything from the dashboard. *)
Definition run_server (args : Args) (user : string) : cmd () :=
  match command args with
  | Log branch =>
      entries ← lift (server_log (dashboard args) user branch);
      render_log entries branch (json args)
  | Show_ commit =>
      match a_branch args with
      | None => fail NeedsBranch
      | Some branch =>
          detail ← lift (server_show (dashboard args) user branch commit);
          render_show detail (json args)
      end
  | Branches =>
      b ← lift (server_branches (dashboard args) user);
      if json args then println (to_json_pretty b) else each println (ub_branches b)
  | _ => fail Unsupported
  end.
Definition with_url (ktest : Ktestrc) (url : option string) : Ktestrc :=
  match url with
  | Some url =>
      mkKtestrc (linux_repo ktest) (Config.output_dir ktest) (ktest_dir ktest) (ktest_url ktest)
        (repos ktest) (Some url) (ci_remote ktest) (ci_host ktest) (users_dir ktest)
        (subtest_duration_max ktest) (subtest_duration_def ktest) (keep_results_commits ktest)
        (verbose ktest) (user_nice ktest) (executors ktest)
  | None => ktest
  end.
Definition run (args : Args) (exe : path) (now : Z) (f : fs) : cmd fs :=
  match user args with
  | Some user => _ ← run_server args user; mret f
  | None =>
      ktest ← lift (map_err NoConfig (ktestrc_read f exe));
      let ktest := with_url ktest (remote args) in
      match command args with
      | Log branch => cmd_log branch ktest (json args) now f
      | Show_ commit => cmd_show commit ktest (json args) now f
      | Logs commit test full => cmd_logs commit test full ktest now f
      | Branches => _ ← cmd_branches ktest (json args) f; mret f
      | PullConfig => cmd_pull_config ktest now f
      | PushConfig => cmd_push_config ktest f
      end
  end.

(** ** Commit prefixes *)
Lemma dedup_NoDup l : NoDup l → dedup l = l.
Proof.
  induction 1 as [|x l Hx Hl IH]; [done|]. cbn [dedup]. rewrite IH. destruct l as [|y l]; [done|].
  rewrite decide_False; [done|]. intros ->. apply Hx. by left.
Qed.
Lemma omap_text_NoDup names : NoDup names → NoDup (omap to_text names).
Proof.
  induction 1 as [|n l Hn Hl IH]; cbn; [constructor|]. unfold to_text at 1.
  destruct (valid_utf8 n); [|done]. constructor; [|done].
  intros (m & Hm & Ht)%list_elem_of_omap. unfold to_text in Ht. case_match; [|done]. by simplify_eq.
Qed.
(** The names a prefix may stand for. *)
Definition candidate_name (f : fs) (out : path) (prefix c : string) : Prop :=
  is_Some (f !! (out ++ [c])) ∧ valid_utf8 c = true ∧ String.length c = 40 ∧ starts_with c prefix = true.
Lemma candidates_spec f out prefix names :
  read_dir f out = Some names → resolve f out = out →
  let l := dedup (sort_by String.compare (filter (λ n, is_match_of prefix n = true) (omap to_text names))) in
  NoDup l ∧ ∀ c, c ∈ l ↔ candidate_name f out prefix c.
Proof.
  intros Hd Hout. cbn zeta. apply read_dir_Some in Hd as [Hnd Hin].
  assert (NoDup (sort_by String.compare
            (filter (λ n, is_match_of prefix n = true) (omap to_text names)))) as Hl.
  { rewrite sort_by_perm. by apply NoDup_filter, omap_text_NoDup. }
  rewrite dedup_NoDup by done. split; [done|]. intros c.
  rewrite elem_of_sort_by, list_elem_of_filter, list_elem_of_omap. unfold candidate_name, is_match_of, to_text.
  rewrite andb_true_iff, Nat.eqb_eq. setoid_rewrite Hin. rewrite Hout. split.
  - intros ([? ?] & n & Hn & Ht). case_match; [|done]. by simplify_eq.
  - intros (? & Hv & ? & ?). split; [done|]. exists c. by rewrite Hv.
Qed.
(** C29: abbreviated commits. A full id stands for itself. A shorter text stands
    for the one entry of the output directory whose 40-byte name it begins; when
    there is none the error says so, and when there are several it says how
    many. *)
Theorem resolve_commit_prefix_correct ktest f prefix names :
  let out := Config.output_dir ktest in
  read_dir f out = Some names → resolve f out = out →
  if 40 <=? String.length prefix then resolve_commit_prefix ktest f prefix = Ok prefix
  else ∃ l, NoDup l ∧ (∀ c, c ∈ l ↔ candidate_name f out prefix c) ∧
    resolve_commit_prefix ktest f prefix =
      match l with
      | [] => Err (NoResults prefix)
      | [c] => Ok c
      | _ => Err (Ambiguous prefix (length l))
      end.
Proof.
  intros out Hd Hout. unfold resolve_commit_prefix. destruct (40 <=? String.length prefix); [done|].
  fold out. rewrite Hd. pose proof (candidates_spec f out prefix names Hd Hout) as [Hnd Hl].
  eexists. split; [exact Hnd|]. split; [exact Hl|]. done.
Qed.
(** In a directory that holds result files only, as the client's cache does, no
    abbreviation is understood: the names are six bytes too long. *)
Theorem prefix_needs_result_dirs ktest f prefix names :
  let out := Config.output_dir ktest in
  read_dir f out = Some names → resolve f out = out →
  (∀ n, n ∈ names → ∃ c, hex_id c ∧ n = c +:+ ".capnp") → String.length prefix < 40 →
  resolve_commit_prefix ktest f prefix = Err (NoResults prefix).
Proof.
  intros out Hd Hout Hfiles Hlen. unfold resolve_commit_prefix.
  rewrite (proj2 (Nat.leb_gt _ _)) by done. fold out. rewrite Hd.
  pose proof (candidates_spec f out prefix names Hd Hout) as [_ Hl]. cbn zeta in Hl.
  destruct (dedup _) as [|c l]; [done|]. exfalso.
  destruct (proj1 (Hl c) ltac:(by left)) as (Hc & _ & H40 & _).
  apply read_dir_Some in Hd as [_ Hin]. rewrite Hout in Hin.
  destruct (Hfiles c) as (c' & (Hc' & _) & ->); [by apply Hin|].
  rewrite str_length_app, Hc' in H40. done.
Qed.

(** ** What is printed *)
Definition shows (s : screen) (t : string) : screen := mkScreen (s_out s +:+ t) (s_err s).
Fixpoint lines_of {A} (g : A → string) (l : list A) : string :=
  match l with [] => "" | x :: l => g x +:+ nl +:+ lines_of g l end.
Lemma shows_shows s t u : shows (shows s t) u = shows s (t +:+ u).
Proof. unfold shows. cbn. by rewrite str_app_assoc. Qed.
Lemma println_spec t s : println t s = (Ok tt, shows s (t +:+ nl)).
Proof. done. Qed.
Lemma cmd_bind_Ok {A B} (m : cmd A) (k : A → cmd B) s a s' :
  m s = (Ok a, s') → (m ≫= k) s = k a s'.
Proof. intros H. unfold mbind, cmd_bind. by rewrite H. Qed.
(** What a run of [println!]s shows. *)
Ltac prints := repeat rewrite (cmd_bind_Ok _ _ _ _ _ (println_spec _ _)).
Lemma each_println {A} (g : A → string) l s :
  each (λ x, println (g x)) l s = (Ok tt, shows s (lines_of g l)).
Proof.
  revert s. induction l as [|x l IH]; intros s; cbn [each].
  - unfold shows. cbn. rewrite str_app_nil_r. by destruct s.
  - erewrite cmd_bind_Ok by done. rewrite IH. f_equal. unfold shows. cbn.
    by autorewrite with str.
Qed.

(** The rows of a commit: first those of the failed tests, last those of the
    passed. *)
Definition by_status (l : list (string * TestResult)) : list (string * TestResult) :=
  filter (λ kv, status kv.2 = Failed) l ++ filter (λ kv, status kv.2 = Inprogress) l ++
  filter (λ kv, status kv.2 = Notrun) l ++ filter (λ kv, status kv.2 = Unknown) l ++
  filter (λ kv, status kv.2 = FailedToRun) l ++ filter (λ kv, status kv.2 = Passed) l.
Definition rank_cmp : string * TestResult → string * TestResult → comparison :=
  cmp_on (λ kv, status_rank (status kv.2)) Z.compare.
Lemma filter_none {A} (P : A → Prop) `{!∀ x, Decision (P x)} (l : list A) :
  (∀ x, x ∈ l → ¬ P x) → filter P l = [].
Proof.
  induction l as [|x l IH]; intros Hn; [done|]. rewrite filter_cons, decide_False by (apply Hn; by left).
  apply IH. intros y Hy. apply Hn. by right.
Qed.
Lemma by_status_sorted l : StronglySorted (cmp_le rank_cmp) l → by_status l = l.
Proof.
  induction 1 as [|[n r] l Hl IH Hx]; [done|]. rewrite <-IH at 2. clear IH. rewrite Forall_forall in Hx.
  assert (∀ st, (status_rank st < status_rank (status r))%Z → filter (λ kv, status kv.2 = st) l = []) as Hnone.
  { intros st Hst. apply filter_none. intros kv Hkv Hs. specialize (Hx kv Hkv).
    unfold cmp_le, rank_cmp, cmp_on in Hx. cbn [snd] in Hx. rewrite Hs in Hx. by rewrite Z.compare_ngt_iff in Hx; lia. }
  unfold by_status. rewrite !filter_cons. cbn [snd].
  destruct (status r) eqn:Es;
    repeat first [rewrite decide_True by done|rewrite decide_False by done];
    rewrite ?(Hnone Failed), ?(Hnone Inprogress), ?(Hnone Notrun), ?(Hnone Unknown), ?(Hnone FailedToRun) by reflexivity;
    done.
Qed.
Lemma sort_by_rank l : sort_by rank_cmp l = by_status l.
Proof.
  rewrite <-(by_status_sorted (sort_by rank_cmp l)) by apply sort_by_sorted, _.
  assert (∀ st, filter (λ kv : string * TestResult, status kv.2 = st) (sort_by rank_cmp l) =
                filter (λ kv, status kv.2 = st) l) as Hf.
  { intros st. pose proof (sort_by_stable rank_cmp ("", mkResult st 0 0) l) as H.
    assert (∀ k : list (string * TestResult), filter (λ y, rank_cmp ("", mkResult st 0 0) y = Eq) k =
              filter (λ kv, status kv.2 = st) k) as He.
    { intros k. apply list_filter_iff. intros [n r]. unfold rank_cmp, cmp_on. cbn [snd status].
      rewrite Z.compare_eq_iff. destruct st, (status r); done. }
    by rewrite !He in H. }
  unfold by_status. by rewrite !Hf.
Qed.
Definition row_line (kv : string * TestResult) : string :=
  pad_end 60 kv.1 +:+ " " +:+ pad_start 12 (color_status (status kv.2)) +:+ " " +:+
  pad_start 8 (format_duration (duration kv.2)).
Lemma show_line_entry kv : show_line (test_entry kv) = row_line kv.
Proof. unfold show_line, row_line. by rewrite test_entry_status. Qed.
Lemma sort_by_ext {A} (c1 c2 : A → A → comparison) l :
  (∀ x y, c1 x y = c2 x y) → sort_by c1 l = sort_by c2 l.
Proof.
  intros H. induction l as [|x l IH]; [done|]. cbn. fold (sort_by c1 l) (sort_by c2 l). rewrite IH. clear IH.
  induction (sort_by c2 l) as [|y k IHk]; [done|]. cbn. by rewrite H, IHk.
Qed.
Lemma bt_iter_in_order {V} (m : gmap string V) :
  StronglySorted (cmp_le (cmp_on fst String.compare)) (bt_iter m).
Proof. apply sort_by_sorted, _. Qed.
Lemma show_sorted_rows (m : TestResultsMap) :
  show_sorted (test_entry <$> bt_iter m) = test_entry <$> by_status (bt_iter m).
Proof.
  unfold show_sorted. rewrite sort_by_fmap. f_equal. rewrite <-sort_by_rank.
  apply sort_by_ext. intros x y. unfold rank_cmp, cmp_on. by rewrite !test_entry_status.
Qed.
Lemma lines_of_fmap {A B} (g : B → string) (h : A → B) l : lines_of g (h <$> l) = lines_of (g ∘ h) l.
Proof. induction l as [|x l IH]; [done|]. rewrite fmap_cons. cbn [lines_of]. by rewrite IH. Qed.
Lemma lines_of_ext {A} (g h : A → string) l : (∀ x, g x = h x) → lines_of g l = lines_of h l.
Proof. intros H. induction l as [|x l IH]; [done|]. cbn [lines_of]. by rewrite H, IH. Qed.
Lemma show_count_entries l s :
  show_count (test_entry <$> l) s = length (filter (λ kv, status kv.2 = s) l).
Proof.
  unfold show_count. induction l as [|kv l IH]; [done|]. rewrite fmap_cons, !filter_cons, test_entry_status.
  case_decide; cbn; by rewrite IH.
Qed.

Definition status_number (m : TestResultsMap) (s : TestStatus) : nat :=
  length (filter (λ kv, status kv.2 = s) (bt_iter m)).
(** C28: a commit's table. Whatever the results, [show] prints the heading, one
    line for every test with its status, coloured, and its duration, and the
    totals. The lines come in six groups: the failed tests, those in progress,
    not run, unknown, failed to run, and last the passed ones; by name within
    each. The totals count the statuses of the results themselves, although
    they are taken from the text the statuses were sent as. *)
Theorem render_show_correct commit msg (m : TestResultsMap) s :
  let of_status st := filter (λ kv : string * TestResult, status kv.2 = st) (bt_iter m) in
  let rows := of_status Failed ++ of_status Inprogress ++ of_status Notrun ++ of_status Unknown ++
              of_status FailedToRun ++ of_status Passed in
  let heading := if is_empty msg then "" else commit +:+ " " +:+ first_line msg +:+ nl +:+ nl in
  rows ≡ₚ bt_iter m ∧
  render_show (commit_tests commit msg m) false s =
    (Ok tt, shows s (heading +:+
       if decide (m = ∅) then "No test results for " +:+ commit +:+ nl
       else pad_end 60 "TEST" +:+ " " +:+ pad_start 12 "STATUS" +:+ " " +:+ pad_start 8 "DURATION" +:+ nl +:+
            repeat "-" 82 +:+ nl +:+ lines_of row_line rows +:+ nl +:+
            of_u64 (Z.of_nat (size m)) +:+ " total: " +:+
            color_passed (of_u64 (Z.of_nat (status_number m Passed))) +:+ " passed, " +:+
            color_failed (of_u64 (Z.of_nat (status_number m Failed))) +:+ " failed, " +:+
            of_u64 (Z.of_nat (status_number m Inprogress)) +:+ " in progress, " +:+
            format_duration (sum64 (duration <$> bt_values m)) +:+ nl)).
Proof.
  intros of_status rows heading. change rows with (by_status (bt_iter m)).
  split; [rewrite <-sort_by_rank; apply sort_by_perm|].
  unfold render_show. cbn [commit_tests ct_message ct_commit ct_tests].
  assert ((if is_empty msg then mret tt
           else _ ← println (commit +:+ " " +:+ first_line msg); println "") s = (Ok tt, shows s heading)) as Hh.
  { unfold heading. destruct (is_empty msg).
    - unfold shows. cbn. rewrite str_app_nil_r. by destruct s.
    - prints. rewrite println_spec. f_equal. rewrite shows_shows.
      by autorewrite with str. }
  rewrite (cmd_bind_Ok _ _ _ _ _ Hh).
  destruct (decide (m = ∅)) as [->|Hm].
  { rewrite bt_iter_empty. cbn [fmap list_fmap]. rewrite println_spec. by rewrite shows_shows, !str_app_assoc. }
  destruct (test_entry <$> bt_iter m) as [|e l] eqn:E.
  { exfalso. apply Hm. apply fmap_nil_inv in E. apply (f_equal length) in E.
    rewrite bt_iter_length in E. by apply map_size_empty_inv in E. }
  rewrite <-E. clear E e l.
  prints.
  rewrite show_sorted_rows. rewrite (cmd_bind_Ok _ _ _ _ _ (each_println _ _ _)).
  prints. rewrite println_spec.
  rewrite !shows_shows. do 2 f_equal. rewrite !str_app_assoc. do 2 f_equal.
  rewrite lines_of_fmap, (lines_of_ext _ row_line) by apply show_line_entry.
  unfold show_total. rewrite length_fmap, bt_iter_length, !show_count_entries, str_app_nil_l.
  unfold bt_values. rewrite <-!list_fmap_compose. by autorewrite with str.
Qed.

(** ** The branch log *)
(** Neither the subject nor the id is cut inside a character. *)
Definition cut_ok (e : BranchEntry) : bool := is_ok (log_subject e) && is_ok (log_commit e).
Definition entry_text (e : BranchEntry) : string :=
  log_line e (default "" (outcome_ok (log_subject e))) (default "" (outcome_ok (log_commit e))).
(** The entries before the first that cannot be cut. *)
Fixpoint printed (l : list BranchEntry) : list BranchEntry :=
  match l with [] => [] | e :: l => if cut_ok e then e :: printed l else [] end.
Lemma cut_ok_spec e :
  cut_ok e = true ↔
  (50 < String.length (first_line (message e)) → is_char_boundary (first_line (message e)) 50 = true) ∧
  (12 ≤ String.length (commit_id e) → is_char_boundary (commit_id e) 12 = true).
Proof.
  unfold cut_ok, log_subject, log_commit, slice_to. rewrite andb_true_iff. f_equiv.
  - destruct (50 <? _) eqn:E; [apply Nat.ltb_lt in E|apply Nat.ltb_ge in E; split; [lia|done]].
    destruct (is_char_boundary _ _); naive_solver.
  - destruct (12 <=? _) eqn:E; [apply Nat.leb_le in E|apply Nat.leb_gt in E; split; [lia|done]].
    destruct (is_char_boundary _ _); naive_solver.
Qed.
Lemma log_entry_line_spec e s :
  log_entry_line e s = if cut_ok e then (Ok tt, shows s (entry_text e +:+ nl)) else (Panic, s).
Proof.
  unfold log_entry_line, cut_ok, entry_text, log_subject, log_commit, slice_to.
  destruct (50 <? _), (12 <=? _); repeat (case_match; try done).
Qed.
Lemma each_log_entry l s :
  each log_entry_line l s =
    (if forallb cut_ok l then Ok tt else Panic, shows s (lines_of entry_text (printed l))).
Proof.
  revert s. induction l as [|e l IH]; intros s; cbn [each forallb printed].
  - unfold shows. cbn. rewrite str_app_nil_r. by destruct s.
  - pose proof (log_entry_line_spec e s) as He. destruct (cut_ok e).
    + rewrite (cmd_bind_Ok _ _ _ _ _ He), IH, shows_shows. cbn [andb lines_of].
      by rewrite str_app_assoc.
    + unfold mbind, cmd_bind. rewrite He. unfold shows. cbn. rewrite str_app_nil_r. by destruct s.
Qed.
(** A branch's log prints the heading and one line per entry, in order,
    unless the 50th byte of a subject or the 12th of an id is inside a character:
    then it prints the lines before that entry and panics. *)
Theorem render_log_correct entries branch s :
  render_log entries branch false s =
    match entries with
    | [] => (Ok tt, shows s ("No results for " +:+ branch +:+ nl))
    | _ => (if forallb cut_ok entries then Ok tt else Panic,
            shows s (log_header +:+ nl +:+ repeat "-" 80 +:+ nl +:+ lines_of entry_text (printed entries)))
    end ∧
  (forallb cut_ok entries = true → printed entries = entries) ∧
  ∀ e, cut_ok e = true ↔
    (50 < String.length (first_line (message e)) → is_char_boundary (first_line (message e)) 50 = true) ∧
    (12 ≤ String.length (commit_id e) → is_char_boundary (commit_id e) 12 = true).
Proof.
  split_and!; [| |intros; apply cut_ok_spec].
  - destruct entries as [|e l]; [unfold render_log; by rewrite println_spec, str_app_assoc|]. cbn [render_log].
    prints.
    by rewrite each_log_entry, !shows_shows, !str_app_assoc.
  - clear. induction entries as [|e l IH]; [done|]. cbn. destruct (cut_ok e); [|done].
    intros Hl. by rewrite IH.
Qed.

(** ** Which log is shown *)
Lemma find_first {A} (P : A → bool) l :
  match List.find P l with
  | Some x => ∃ l1 l2, l = l1 ++ x :: l2 ∧ P x = true ∧ ∀ y, y ∈ l1 → P y = false
  | None => ∀ y, y ∈ l → P y = false
  end.
Proof.
  induction l as [|x l IH]; cbn; [by intros y []%elem_of_nil|]. destruct (P x) eqn:E.
  - exists [], l. split; [done|]. split; [done|]. by intros y []%elem_of_nil.
  - destruct (List.find P l) as [z|].
    + destruct IH as (l1 & l2 & -> & Hz & Hl). exists (x :: l1), l2. split; [done|]. split; [done|].
      intros y [->|Hy]%elem_of_cons; auto.
    + intros y [->|Hy]%elem_of_cons; auto.
Qed.
Lemma contains_self t : contains t t = true.
Proof.
  assert (String.prefix t t = true) as H.
  { induction t as [|c t IH]; [done|]. cbn. by destruct (ascii_dec c c). }
  destruct t; cbn -[String.prefix]; unfold starts_with; by rewrite H.
Qed.
(** What a filter means: the test of that very name; or else the first failing
    test whose name contains it; or else the first whose name contains it. *)
Definition meant (tests : TestResultsMap) (filter t : string) : Prop :=
  (∃ r, tests !! t = Some r ∧ contains t filter = true) ∧
  (is_Some (tests !! filter) → t = filter) ∧
  (tests !! filter = None →
   (∀ k r, tests !! k = Some r → contains k filter = true → status r = Failed →
      (∃ r', tests !! t = Some r' ∧ status r' = Failed) ∧ String.compare t k ≠ Gt) ∧
   ((∀ k r, tests !! k = Some r → contains k filter = true → status r ≠ Failed) →
    ∀ k r, tests !! k = Some r → contains k filter = true → String.compare t k ≠ Gt)).
Lemma sorted_le_app {V} (l1 l2 : list (string * V)) x y :
  StronglySorted (cmp_le (cmp_on fst String.compare)) (l1 ++ x :: l2) → y ∈ x :: l2 →
  String.compare x.1 y.1 ≠ Gt.
Proof.
  intros (_ & _ & Hs)%StronglySorted_app. inv Hs as [|? ? _ Hf]. intros [->|Hy]%elem_of_cons.
  - by rewrite (cmp_refl String.compare).
  - rewrite Forall_forall in Hf. by apply Hf.
Qed.
Lemma choose_meant (tests : TestResultsMap) flt m l :
  base.filter (λ kv, contains kv.1 flt = true) (bt_iter tests) = m :: l →
  meant tests flt (choose flt (m :: l) m).1.
Proof.
  intros Hl. assert (∀ k r, (k, r) ∈ m :: l ↔ tests !! k = Some r ∧ contains k flt = true) as Hin.
  { intros k r. rewrite <-Hl, list_elem_of_filter, elem_of_bt_iter. cbn. tauto. }
  assert (StronglySorted (cmp_le (cmp_on fst String.compare)) (m :: l)) as Hs.
  { rewrite <-Hl. eapply sublist_StronglySorted; [apply sublist_filter|apply bt_iter_in_order]. }
  unfold choose.
  pose proof (find_first (λ m, bool_decide (m.1 = flt)) (m :: l)) as He.
  pose proof (find_first (λ m, bool_decide (status m.2 = Failed)) (m :: l)) as Hf.
  destruct (List.find (λ m, bool_decide (m.1 = flt)) (m :: l)) as [[k r]|].
  { destruct He as (l1 & l2 & Hk & Heq%bool_decide_eq_true & _). cbn in *. subst k.
    assert ((flt, r) ∈ m :: l) as [Hr Hc]%Hin by (rewrite Hk; set_solver).
    split; [eauto|]. split; [done|]. by rewrite Hr. }
  assert (tests !! flt = None) as Hnone.
  { destruct (tests !! flt) as [r|] eqn:E; [|done].
    assert ((flt, r) ∈ m :: l) as H%He by (apply Hin; split; [done|apply contains_self]).
    by apply bool_decide_eq_false in H. }
  destruct (List.find (λ m, bool_decide (status m.2 = Failed)) (m :: l)) as [[k r]|].
  - destruct Hf as (l1 & l2 & Hk & Hfail%bool_decide_eq_true & Hbefore). cbn in *.
    assert ((k, r) ∈ m :: l) as [Hr Hc]%Hin by (rewrite Hk; set_solver).
    split; [eauto|]. split; [by intros [? ?]; congruence|]. intros _. split.
    + intros k' r' Hk' Hc' Hf'. split; [eauto|].
      assert ((k', r') ∈ l1 ++ (k, r) :: l2) as [Hin1|Hin2]%elem_of_app by (rewrite <-Hk; by apply Hin).
      * apply Hbefore, bool_decide_eq_false in Hin1. done.
      * rewrite Hk in Hs. by apply (sorted_le_app _ _ _ _ Hs Hin2).
    + intros Hno. exfalso. by eapply Hno.
  - destruct m as [k r]. cbn in *. assert ((k, r) ∈ (k, r) :: l) as [Hr Hc]%Hin by by left.
    split; [eauto|]. split; [by intros [? ?]; congruence|]. intros _. split.
    + intros k' r' Hk' Hc' Hf'. assert ((k', r') ∈ (k, r) :: l) as H%Hf by by apply Hin.
      by apply bool_decide_eq_false in H.
    + intros _ k' r' Hk' Hc'.
      apply (sorted_le_app [] l (k, r) (k', r') Hs). by apply Hin.
Qed.
Lemma eprintln_out t s : ∃ s', eprintln t s = (Ok tt, s') ∧ s_out s' = s_out s.
Proof. by eexists. Qed.
Lemma each_eprintln_out {A} (g : A → string) l s :
  ∃ s', each (λ x, eprintln (g x)) l s = (Ok tt, s') ∧ s_out s' = s_out s.
Proof.
  revert s. induction l as [|x l IH]; intros s; cbn [each]; [by eexists|].
  destruct (eprintln_out (g x) s) as (s1 & E & Ho). rewrite (cmd_bind_Ok _ _ _ _ _ E).
  destruct (IH s1) as (s2 & E2 & Ho2). exists s2. split; [done|congruence].
Qed.
(** C30: the log that [logs] shows. When some test of the commit contains the
    filter, exactly one log is printed, that of the test which the filter means:
    an exact name wins, then the first failure, then the first match. *)
Theorem logs_of_filter_correct ktest f commit filter full tests s :
  (∃ k r, tests !! k = Some r ∧ contains k filter = true) →
  ∃ t s1, meant tests filter t ∧ s_out s1 = s_out s ∧
    logs_of_filter ktest f commit filter full tests s =
      match fetch_log ktest f commit t full with
      | Ok log => (Ok tt, shows s1 log)
      | Err e => (Err e, s1)
      | Panic => (Panic, s1)
      end.
Proof.
  intros (k & r & Hk & Hc). unfold logs_of_filter.
  destruct (base.filter _ (bt_iter tests)) as [|m l] eqn:Hl.
  { exfalso. assert ((k, r) ∈ base.filter (λ kv, contains kv.1 filter = true) (bt_iter tests)) as H
      by (rewrite list_elem_of_filter, elem_of_bt_iter; done).
    rewrite Hl in H. by apply elem_of_nil in H. }
  pose proof (choose_meant _ _ _ _ Hl) as Hm. exists (choose filter (m :: l) m).1.
  assert (∀ t s, (log ← lift (fetch_log ktest f commit t full); print log) s =
            match fetch_log ktest f commit t full with
            | Ok log => (Ok tt, shows s log) | Err e => (Err e, s) | Panic => (Panic, s)
            end) as Hprint.
  { intros t s0. unfold mbind, cmd_bind, lift. by destruct (fetch_log _ _ _ _ _). }
  destruct l as [|m' l].
  { exists s. split; [done|]. split; [done|]. rewrite Hprint.
    assert ((choose filter [m] m).1 = m.1) as ->; [|done].
    unfold choose. cbn. by repeat case_match; simplify_eq. }
  destruct (eprintln_out ("Multiple tests match '" +:+ filter +:+ "' " +:+ em_dash +:+ " showing all:" +:+ nl) s)
    as (s1 & E1 & O1). rewrite (cmd_bind_Ok _ _ _ _ _ E1).
  destruct (each_eprintln_out (λ m, "  " +:+ color_status (status m.2) +:+ " " +:+ m.1) (m :: m' :: l) s1)
    as (s2 & E2 & O2). rewrite (cmd_bind_Ok _ _ _ _ _ E2).
  destruct (eprintln_out "" s2) as (s3 & E3 & O3). rewrite (cmd_bind_Ok _ _ _ _ _ E3).
  destruct (eprintln_out ("Showing log for: " +:+ (choose filter (m :: m' :: l) m).1 +:+ nl) s3)
    as (s4 & E4 & O4). rewrite (cmd_bind_Ok _ _ _ _ _ E4).
  exists s4. split; [done|]. split; [congruence|]. apply Hprint.
Qed.
End client.

(** ** Concrete runs *)
(** The client whose requests all fail, and whose logs are not compressed. *)
Definition demo_client : Client := {|
  web_get _ := None; unbrotli d := Some d; scp _ _ f := (Some true, f)
|}.
Section witnesses.
#[local] Existing Instance plain_os.
#[local] Existing Instance demo_client.

Definition log_tree : fs :=
  {[ ["out"] := NDir 0; ["out"; c1] := NDir 0; ["out"; c1; "boot.b"] := NDir 0;
     ["out"; c1; "boot.b"; "log.br"] := NFile "the log" 0 ]}.
Lemma log_tree_names : read_dir log_tree ["out"] = Some [c1].
Proof. decided. Qed.
Definition prefix_result : outcome status_error string := resolve_commit_prefix Stats.demo_rc log_tree "aaaa".
Lemma resolve_commit_prefix_correct_witness :
  ∃ l, (∀ c, c ∈ l ↔ candidate_name log_tree ["out"] "aaaa" c) ∧ l = [c1] ∧ prefix_result = Ok c1.
Proof.
  destruct (resolve_commit_prefix_correct Stats.demo_rc log_tree "aaaa" [c1]) as (l & _ & Hl & H);
    [exact log_tree_names|reflexivity|].
  exists l. split; [exact Hl|]. assert (prefix_result = Ok c1) as Hr by computed.
  split; [|exact Hr]. unfold prefix_result in Hr. rewrite H in Hr.
  destruct l as [|c [|c' l]]; [discriminate Hr| |discriminate Hr]. by injection Hr as ->.
Defined.
Definition cache_tree : fs := {[ ["out"] := NDir 0; ["out"; c1 +:+ ".capnp"] := NFile "" 0 ]}.
Lemma cache_tree_names : read_dir cache_tree ["out"] = Some [c1 +:+ ".capnp"].
Proof. decided. Qed.
Lemma prefix_needs_result_dirs_witness :
  resolve_commit_prefix Stats.demo_rc cache_tree "aaaa" = Err (NoResults "aaaa").
Proof.
  apply (prefix_needs_result_dirs Stats.demo_rc cache_tree "aaaa" [c1 +:+ ".capnp"]);
    [exact cache_tree_names|reflexivity| |cbn; lia].
  intros n ->%list_elem_of_singleton. exists c1. unfold hex_id. split_and!; [computed..|reflexivity].
Defined.

Definition no_output : screen := mkScreen "" "".
Definition two_failures : TestResultsMap :=
  {[ "boot.a" := Store.passed; "boot.b" := mkResult Failed 0 9 ]}.
Lemma logs_of_filter_correct_witness :
  ∃ t s1, meant two_failures "boot" t ∧ s_out s1 = "" ∧
    logs_of_filter Stats.demo_rc log_tree c1 "boot" false two_failures no_output = (Ok tt, shows s1 "the log").
Proof.
  destruct (logs_of_filter_correct Stats.demo_rc log_tree c1 "boot" false two_failures no_output)
    as (t & s1 & Hm & Ho & H).
  { exists "boot.a", Store.passed. split; computed. }
  exists t, s1. split; [exact Hm|]. split; [exact Ho|]. rewrite H.
  assert (t = "boot.b") as ->; [|reflexivity].
  destruct Hm as ((r & Hr & _) & _ & Hno). destruct Hno as [Hfail _]; [computed|].
  destruct (Hfail "boot.b" (mkResult Failed 0 9)) as [(r' & Hr' & Hs) _]; [reflexivity..|].
  clear Hr Hfail H. unfold two_failures in Hr'.
  apply lookup_insert_Some in Hr' as [[<- <-]|[_ Hr']]; [discriminate Hs|].
  by apply lookup_singleton_Some in Hr' as [-> _].
Defined.

(** A subject of fifty-one bytes whose fiftieth byte is inside a character. *)
Definition long_subject : string := repeat "x" 49 +:+ String "195" (String "169" "").
Context {JL : Json (list BranchEntry)}.
Example render_log_cuts_a_character :
  (render_log [mkBE c1 long_subject 1 0 0 0 0 0 7] "master" false no_output).1 = Panic.
Proof. reflexivity. Qed.
End witnesses.
End CiStatus.
