(* ===== verification/Dashboard.v ===== *)
(** * The client and the dashboard together (src/src/bin/ci-status.rs, cgi.rs)

    [ci-status --user] prints what the dashboard answers: through the query
    string, the JSON and back, the branch log and the commit page come out as
    they are rendered from the results themselves. *)

From S2P Require Import Prelude.
From S2P Require Import RustStr.
From S2P Require Import Keys.
From S2P Require Import Status.
From S2P Require Import Fs.
From S2P Require Import Config.
From S2P Require Import Store.
From S2P Require Import Results.
From S2P Require Import Git.
From S2P Require Import Branch.
From S2P Require Import Api.
From S2P Require Import Lcov.
From S2P Require Import CgiAssets.
From S2P Require Import Cgi.
From S2P Require Import CiStatus.

Module Dashboard.
Import Str Status Fs Config Store Results Git Branch Api Lcov CgiAssets CiStatus Cgi.

(** A name or value that a URL's query carries as it is: letters, digits and a
    few signs. The client does not escape what it puts into the query, and the
    dashboard does not undo an escape; reqwest would cut the query at a [#] and
    escape a space, a quote or what is not ASCII, and an [&] or [=] would read
    as a separator. *)
Definition query_char (c : ascii) : bool :=
  let n := N_of_ascii c in
  ((48 <=? n) && (n <=? 57) || (65 <=? n) && (n <=? 90) || (97 <=? n) && (n <=? 122))%N ||
  contains_char "-._~/:@" c.
Definition query_text (s : string) : Prop := s ≠ "" ∧ all_bytes query_char s = true.
(** A query of such names and values. *)
Definition plain_query (q : string) : Prop :=
  all_bytes (λ c, query_char c || contains_char "&=" c) q = true.
Definition pair_text (p : string * string) : string := p.1 +:+ "=" +:+ p.2.
Definition query_string (l : list (string * string)) : string := join "&" (pair_text <$> l).
Definition log_query (user branch : string) : list (string * string) :=
  [("user", user); ("branch", branch); ("format", "json")].
Definition show_query (user branch commit : string) : list (string * string) :=
  [("user", user); ("branch", branch); ("commit", commit); ("format", "json")].

Section dashboard.
Context {OS : OsEnv} {CD : Codec test_results} {CH : Chrono} {HT : Http} {TH : Threads}.
Context {G : Git2} {J5 : Json5} {T : Tools} {W : Web} {CL : Client}.
Context {JL : Json (list BranchEntry)} {JC : Json CommitTests} {JU : Json UserBranches}.
Context {JUS : Json (list UserBranches)} {JE : Json ApiError} {JB : Json (list BranchInfo)}.

(** The web server hands a query to the program and sends its answer on. *)
Definition request_of (script q : string) : Request := λ name,
  if bool_decide (name = "x-cgi-query-string") then Some (Some q)
  else if bool_decide (name = "x-cgi-script-name") then Some (Some script) else None.
Definition reply (r : Response) : Z * string :=
  match r with
  | html_response code body | text_response code body | binary_response code _ body => (code, body)
  end.
Record serves (url script : string) (exe : path) (now : Z) (f : fs) : Prop := {
  sv_get q r : plain_query q → (cgi_main exe (request_of script q) now f).1 = Ok r → web_get (url +:+ "?" +:+ q) = Some (reply r);
  sv_querify l : Forall (λ p, query_text p.1 ∧ query_text p.2) l → querify (query_string l) = l
}.

Lemma header_query script q : cgi_header_get (request_of script q) "x-cgi-query-string" = q.
Proof. done. Qed.
Lemma all_bytes_app p s t : all_bytes p (s +:+ t) = all_bytes p s && all_bytes p t.
Proof. induction s as [|c s IH]; [done|]. rewrite str_app_cons. cbn. by rewrite IH, andb_assoc. Qed.
Lemma all_bytes_impl (p p' : ascii → bool) s :
  (∀ c, p c = true → p' c = true) → all_bytes p s = true → all_bytes p' s = true.
Proof.
  intros Hp. induction s as [|c s IH]; [done|]. cbn. intros [Hc Hs]%andb_true_iff.
  by rewrite (Hp c Hc), IH.
Qed.
Lemma query_text_sep s : query_text s → contains_char s "&" = false ∧ contains_char s "=" = false.
Proof. intros [_ H]. split; by apply (all_bytes_no_char query_char). Qed.
Lemma query_text_plain s : query_text s → plain_query s.
Proof. intros [_ H]. eapply all_bytes_impl; [|exact H]. intros c Hc. cbn. by rewrite Hc. Qed.
Lemma plain_query_pairs l :
  Forall (λ p, query_text p.1 ∧ query_text p.2) l → plain_query (query_string l).
Proof.
  unfold query_string, plain_query. set (pl := λ c, query_char c || contains_char "&=" c).
  assert (∀ p, query_text p.1 ∧ query_text p.2 → all_bytes pl (pair_text p) = true) as Hpair.
  { intros p [Hk%query_text_plain Hv%query_text_plain]. unfold pair_text, plain_query in *. fold pl in Hk, Hv.
    by rewrite !all_bytes_app, Hk, Hv. }
  intros Hl. induction Hl as [|p l Hp Hl IH]; [done|]. rewrite fmap_cons.
  destruct l as [|p' l]; [by apply Hpair|]. rewrite fmap_cons in IH |- *.
  change (join "&" (pair_text p :: pair_text p' :: (pair_text <$> l)))
    with (pair_text p +:+ "&" +:+ join "&" (pair_text p' :: (pair_text <$> l))).
  by rewrite !all_bytes_app, IH, (Hpair p Hp).
Qed.
Lemma log_query_status u b :
  query_text u → query_text b → asks_status (query_string (log_query u b)) = false.
Proof.
  intros [Hu _]%query_text_sep [Hb _]%query_text_sep. unfold asks_status, query_string. rewrite split_join; [done|done|].
  repeat constructor; unfold pair_text; cbn [fst snd]; by rewrite ?contains_char_app, ?Hu, ?Hb.
Qed.
Lemma show_query_status u b c :
  query_text u → query_text b → query_text c → asks_status (query_string (show_query u b c)) = false.
Proof.
  intros [Hu _]%query_text_sep [Hb _]%query_text_sep [Hc _]%query_text_sep. unfold asks_status, query_string. rewrite split_join; [done|done|].
  repeat constructor; unfold pair_text; cbn [fst snd]; by rewrite ?contains_char_app, ?Hu, ?Hb, ?Hc.
Qed.
Lemma query_of_pairs url script exe now f l :
  serves url script exe now f → Forall (λ p, query_text p.1 ∧ query_text p.2) l →
  query_of (query_string l) = bt_collect l.
Proof. intros HS Hl. unfold query_of. by rewrite (sv_querify _ _ _ _ _ HS). Qed.
Lemma log_query_text u b :
  query_text u → query_text b → Forall (λ p, query_text p.1 ∧ query_text p.2) (log_query u b).
Proof. intros [??] [??]. repeat constructor; done. Qed.
Lemma show_query_text u b c :
  query_text u → query_text b → query_text c →
  Forall (λ p, query_text p.1 ∧ query_text p.2) (show_query u b c).
Proof. intros [??] [??] [??]. repeat constructor; done. Qed.
Lemma log_query_values u b :
  let m := bt_collect (log_query u b) in
  m !! "user" = Some u ∧ m !! "branch" = Some b ∧ m !! "commit" = None ∧ m !! "format" = Some "json" ∧
  m !! "test" = None.
Proof. unfold bt_collect, bt_extend, log_query. cbn [foldl fst snd]. by split_and!; simplify_map_eq. Qed.
Lemma show_query_values u b c :
  let m := bt_collect (show_query u b c) in
  m !! "user" = Some u ∧ m !! "branch" = Some b ∧ m !! "commit" = Some c ∧ m !! "format" = Some "json" ∧
  m !! "test" = None.
Proof. unfold bt_collect, bt_extend, show_query. cbn [foldl fst snd]. by split_and!; simplify_map_eq. Qed.

(** What the client makes of the three answers. *)
Lemma server_get_value {A} {J : Json A} url (v : A) :
  jsonable v → web_get url = Some (reply (json_response v)) → server_get url = Ok v.
Proof. intros Hv Hg. unfold server_get. rewrite Hg. cbn. by rewrite to_json_pretty_text, from_to_json_pretty. Qed.
Lemma server_get_error {A} {J : Json A} url msg :
  jsonable (mkApiError msg) → web_get url = Some (reply (json_error msg)) →
  server_get (T := A) url = Err (Server msg).
Proof. intros Hv Hg. unfold server_get. rewrite Hg. cbn. by rewrite from_to_json. Qed.

(** The dashboard, ready to answer: its configuration, the repository of the
    branch, and the pattern that matches every test. *)
Record ready (exe : path) (f : fs) (rc : CiConfig) (u b : string) (repo : repository) (all : regex) : Prop := {
  rd_config : ciconfig_read f exe = Some (Ok rc);
  rd_output : exists_ f (Config.output_dir (ktest rc)) = true;
  rd_repo m : m !! "user" = Some u → m !! "branch" = Some b → open_repo (request_repo_path rc m) = Some repo;
  rd_regex : regex_new "" = Some all
}.
Lemma matching_empty (m : gmap string string) all :
  regex_new "" = Some all → m !! "test" = None → matching_of m = Ok all.
Proof. intros Ha Ht. unfold matching_of. rewrite Ht, Ha. cbn. by rewrite Ha. Qed.
(** The requests of [ci-status --user log] and [show] reach [ci_log] and
    [ci_commit]. *)
Lemma log_request url script exe now f rc u b repo all :
  serves url script exe now f → ready exe f rc u b repo all → query_text u → query_text b →
  cgi_main exe (request_of script (query_string (log_query u b))) now f =
  ci_log (mkCi rc repo STYLESHEET script (Some u) (Some b) None all true) now f.
Proof.
  intros HS HR Hu Hb. unfold cgi_main. rewrite (rd_config _ _ _ _ _ _ _ HR). cbn [default from_option id].
  rewrite (rd_output _ _ _ _ _ _ _ HR). cbn [negb]. unfold answer. rewrite header_query.
  rewrite (query_of_pairs _ _ _ _ _ _ HS) by by apply log_query_text.
  destruct (log_query_values u b) as (Eu & Eb & Ec & Ef & Et).
  rewrite (rd_repo _ _ _ _ _ _ _ HR _ Eu Eb), (matching_empty _ _ (rd_regex _ _ _ _ _ _ _ HR) Et).
  rewrite Eu, Eb, Ec, Ef. unfold route. by rewrite log_query_status.
Qed.
Lemma show_request url script exe now f rc u b c repo all :
  serves url script exe now f → ready exe f rc u b repo all → query_text u → query_text b → query_text c →
  cgi_main exe (request_of script (query_string (show_query u b c))) now f =
  ci_commit (mkCi rc repo STYLESHEET script (Some u) (Some b) (Some c) all true) now f.
Proof.
  intros HS HR Hu Hb Hc. unfold cgi_main. rewrite (rd_config _ _ _ _ _ _ _ HR). cbn [default from_option id].
  rewrite (rd_output _ _ _ _ _ _ _ HR). cbn [negb]. unfold answer. rewrite header_query.
  rewrite (query_of_pairs _ _ _ _ _ _ HS) by by apply show_query_text.
  destruct (show_query_values u b c) as (Eu & Eb & Ec & Ef & Et).
  rewrite (rd_repo _ _ _ _ _ _ _ HR _ Eu Eb), (matching_empty _ _ (rd_regex _ _ _ _ _ _ _ HR) Et).
  rewrite Eu, Eb, Ec, Ef. unfold route. by rewrite show_query_status.
Qed.
Lemma log_url url u b :
  url +:+ "?user=" +:+ u +:+ "&branch=" +:+ b +:+ "&format=json" = url +:+ "?" +:+ query_string (log_query u b).
Proof. reflexivity. Qed.
Lemma show_url url u b c :
  url +:+ "?user=" +:+ u +:+ "&branch=" +:+ b +:+ "&commit=" +:+ c +:+ "&format=json" =
  url +:+ "?" +:+ query_string (show_query u b c).
Proof. reflexivity. Qed.

(** C21: [ci-status --user u log b] prints the log of the very results that the
    dashboard's branch view finds, exactly as it would from the results
    themselves; when the view fails, it fails with that error's text. This is
    for names of letters, digits and the signs [-._~/:@]: the client puts them
    into the URL as they are, so a branch [fix#2] is not found this way. *)
Theorem dashboard_log url script exe now f rc u b repo all args s :
  serves url script exe now f → ready exe f rc u b repo all → query_text u → query_text b →
  command args = Log b → dashboard args = url →
  match (branch_get_results repo (ktest rc) (Some u) (Some b) None (is_match all) now f).1 with
  | Ok commits =>
      jsonable (branch_entries commits) →
      run_server args u s = render_log (branch_entries commits) b (CiStatus.json args) s
  | Err e => jsonable (mkApiError (show_branch_error e)) →
      run_server args u s = (Err (Server (show_branch_error e)), s)
  | Panic => True
  end.
Proof.
  intros HS HR Hu Hb Hcmd Hurl. pose proof (log_request url script exe now f rc u b repo all HS HR Hu Hb) as Hreq.
  unfold ci_log, ci_branch_get_results in Hreq.
  cbn [Cgi.rc ci_repo user branch commit tests_matching json] in Hreq.
  destruct (branch_get_results _ _ _ _ _ _ _ _) as [[commits|e|] g]; [| |done].
  all: cbn [fst]; intros Hj; unfold run_server; rewrite Hcmd, Hurl; unfold server_log; rewrite log_url.
  - erewrite server_get_value; [done|exact Hj|]. apply (sv_get _ _ _ _ _ HS); [apply plain_query_pairs; by apply log_query_text|]. by rewrite Hreq.
  - erewrite server_get_error; [done|exact Hj|]. apply (sv_get _ _ _ _ _ HS); [apply plain_query_pairs; by apply log_query_text|]. by rewrite Hreq.
Qed.
(** C20: [ci-status --user u show --branch b c] prints the table of the tests of
    the first commit in the dashboard's view, rendered from the statuses and
    durations themselves: nothing is lost on the way through the JSON. (For
    names and commits of letters, digits and the signs [-._~/:@], as for the
    log.) *)
Theorem dashboard_show url script exe now f rc u b c repo all args s :
  serves url script exe now f → ready exe f rc u b repo all → query_text u → query_text b → query_text c →
  command args = Show_ c → a_branch args = Some b → dashboard args = url →
  match (branch_get_results repo (ktest rc) (Some u) (Some b) (Some c) (is_match all) now f).1 with
  | Ok (r :: _) =>
      let detail := commit_tests (c_id r) (c_message r) (c_tests r) in
      jsonable detail → run_server args u s = render_show detail (CiStatus.json args) s
  | Err e => jsonable (mkApiError (show_branch_error e)) →
      run_server args u s = (Err (Server (show_branch_error e)), s)
  | _ => True
  end.
Proof.
  intros HS HR Hu Hb Hc Hcmd Hbr Hurl.
  pose proof (show_request url script exe now f rc u b c repo all HS HR Hu Hb Hc) as Hreq.
  unfold ci_commit, ci_branch_get_results in Hreq.
  cbn [Cgi.rc ci_repo user branch commit tests_matching json] in Hreq.
  destruct (branch_get_results _ _ _ _ _ _ _ _) as [[[|r rest]|e|] g]; [done| | |done].
  all: cbn [fst]; intros Hj; unfold run_server; rewrite Hcmd, Hbr, Hurl; unfold server_show; rewrite show_url.
  - erewrite server_get_value; [done|exact Hj|]. apply (sv_get _ _ _ _ _ HS); [apply plain_query_pairs; by apply show_query_text|]. by rewrite Hreq.
  - erewrite server_get_error; [done|exact Hj|]. apply (sv_get _ _ _ _ _ HS); [apply plain_query_pairs; by apply show_query_text|]. by rewrite Hreq.
Qed.
End dashboard.

(** ** A site for concrete runs *)
Section witnesses.
#[local] Existing Instance plain_os.
#[local] Existing Instance demo_codec.
#[local] Existing Instance demo_chrono.
#[local] Existing Instance demo_http.
#[local] Existing Instance demo_threads.
#[local] Existing Instance Branch.demo_repo.
#[local] Existing Instance Config.demo_json.
#[local] Existing Instance Lcov.demo_tools.
#[local] Existing Instance demo_web.
#[local] Existing Instance log_json.
#[local] Existing Instance tests_json.
#[local] Existing Instance branches_json.
#[local] Existing Instance users_json.
#[local] Existing Instance error_json.

Definition site_exe : path := ["bin"; "cgi"].
Definition site_fs : fs := demo_fs ∪ w_fs demo_world.
(** The address of the site is [ci]; what follows the question mark is handed
    to the program. *)
#[local] Instance site_client : Client := {|
  web_get u := match u with
               | String _ (String _ (String _ q)) =>
                   match (cgi_main site_exe (request_of "/cgi" q) 0 site_fs).1 with
                   | Ok r => Some (reply r) | _ => None
                   end
               | _ => None
               end;
  unbrotli d := Some d; scp _ _ f := (Some true, f)
|}.
Lemma demo_pair_text p : query_text p.1 ∧ query_text p.2 → demo_pair (pair_text p) = Some p.
Proof.
  destruct p as [k v]. intros [[_ Hk]%query_text_sep [_ Hv]%query_text_sep]. unfold demo_pair, pair_text. cbn [fst snd] in *.
  change (k +:+ "=" +:+ v) with (k +:+ String "=" v). by rewrite split_app, split_no_char.
Qed.
Lemma site_serves : serves "ci" "/cgi" site_exe 0 site_fs.
Proof.
  split.
  - intros q r _ Hr. change (web_get ("ci" +:+ "?" +:+ q)) with
      (match (cgi_main site_exe (request_of "/cgi" q) 0 site_fs).1 with
       | Ok r => Some (reply r) | _ => None end). by rewrite Hr.
  - intros l Hl. cbn [querify demo_web]. unfold query_string. destruct l as [|p l]; [done|].
    rewrite split_join; [|done|].
    + induction Hl as [|q l' Hq Hl' IH]; [done|]. rewrite fmap_cons. cbn. rewrite demo_pair_text by done.
      by f_equal.
    + apply Forall_fmap. eapply Forall_impl; [exact Hl|]. intros q [[Hk _]%query_text_sep [Hv _]%query_text_sep].
      cbn. unfold pair_text. by rewrite !contains_char_app, Hk, Hv.
Qed.
Definition site_rc : CiConfig :=
  mkCiConfig (mkKtestrc ["linux"] ["out"] ["ktest"] None ∅ None None None (Some ["users"])
                None None None false ∅ ∅)
    {[ "kent" := Ok (mkUserrc ∅ ∅) ]}.
Lemma site_ready : ready site_exe site_fs site_rc "kent" "master" tt "".
Proof. split; [computed|computed|done|done]. Qed.
Lemma site_query_text : query_text "kent" ∧ query_text "master" ∧ query_text "kent/master".
Proof. by unfold query_text. Qed.
Definition client_args (c : Command) : Args := mkArgs c None (Some "kent") "ci" (Some "master") false.
Definition site_view (commit : option string) : outcome branch_error (list CommitResults) :=
  (branch_get_results (G := Branch.demo_repo) tt (ktest site_rc) (Some "kent") (Some "master") commit
     (is_match (Web := demo_web) "") 0 site_fs).1.
Lemma site_views :
  match site_view None with Ok l => bool_decide (c_id <$> l = [c1]) | _ => false end &&
  match site_view (Some "kent/master") with Ok l => bool_decide (c_id <$> l = [c1]) | _ => false end = true.
Proof. computed. Qed.
Lemma dashboard_log_witness :
  ∃ commits, site_view None = Ok commits ∧ c_id <$> commits = [c1] ∧
    run_server (client_args (Log "master")) "kent" no_output =
    render_log (branch_entries commits) "master" false no_output.
Proof.
  destruct site_query_text as (Hu & Hb & _). pose proof site_views as [H _]%andb_true_iff.
  pose proof (dashboard_log "ci" "/cgi" site_exe 0 site_fs site_rc "kent" "master" tt ""
                (client_args (Log "master")) no_output site_serves site_ready Hu Hb eq_refl eq_refl) as Hd.
  unfold site_view in *. destruct (fst (branch_get_results _ _ _ _ _ _ _ _)) as [commits| |]; [|discriminate H..].
  exists commits. apply bool_decide_eq_true in H. split; [reflexivity|]. split; [exact H|]. exact (Hd I).
Defined.
Lemma dashboard_show_witness :
  ∃ r, head <$> outcome_ok (site_view (Some "kent/master")) = Some (Some r) ∧ c_id r = c1 ∧
    run_server (client_args (Show_ "kent/master")) "kent" no_output =
    render_show (commit_tests (c_id r) (c_message r) (c_tests r)) false no_output.
Proof.
  destruct site_query_text as (Hu & Hb & Hc). pose proof site_views as [_ H]%andb_true_iff.
  pose proof (dashboard_show "ci" "/cgi" site_exe 0 site_fs site_rc "kent" "master" "kent/master" tt ""
                (client_args (Show_ "kent/master")) no_output site_serves site_ready Hu Hb Hc
                eq_refl eq_refl eq_refl) as Hd.
  unfold site_view in *. destruct (fst (branch_get_results _ _ _ _ _ _ _ _)) as [commits| |]; [|discriminate H..].
  apply bool_decide_eq_true in H. destruct commits as [|r l]; [discriminate H|].
  exists r. split; [reflexivity|]. split; [by injection H|]. exact (Hd I).
Defined.
End witnesses.
End Dashboard.
