(* ===== verification/Syzbot.v ===== *)
(** * Fetching syzbot's reproducers (src/src/bin/syzbot-get.rs)

    The kernel configurations and C reproducers of a bug's crashes, fetched
    unless they are there. *)

From S2P Require Import Prelude.
From S2P Require Import RustStr.
From S2P Require Import Fs.

Module Syzbot.
Import Str Fs.

Record Args : Type := mkArgs { id : string; idx : option nat; output : path; verbose : bool }.
Record SyzCrash : Type := mkCrash {
  title : string; syz_reproducer : option string; c_reproducer : option string;
  kernel_config : string; kernel_source_git : string; kernel_source_commit : string;
  syzkaller_git : string; syzkaller_commit : string; crash_report_link : string
}.
Record SyzBug : Type := mkBug {
  version : nat; b_title : string; b_id : string; discussions : list string; crashes : list SyzCrash
}.
(** reqwest's GET of a text, and serde's reading of the bug. *)
Class Syz : Type := { get_text : string → option string; parse_bug : string → option SyzBug }.

Section syzbot.
Context {OS : OsEnv} {SY : Syz}.
Notation run A := (outcome Empty_set A).
Definition unwrap {A} (o : option A) : run A := match o with Some a => Ok a | None => Panic end.

Definition get_syz_url (url : string) : run string :=
  unwrap (get_text ("https://syzkaller.appspot.com" +:+ url)).
(** A write that fails is not noticed. *)
Definition fetch_syz_url (args : Args) (url fname : string) (now : Z) (f : fs) : run fs :=
  let fname := path_join (output args) fname in
  if exists_ f fname then Ok f
  else text ← get_syz_url url; Ok (write f now fname text).1.
Definition kconfig_name (args : Args) (idx : nat) : string :=
  id args +:+ "." +:+ of_u64 (Z.of_nat idx) +:+ ".kconfig".
Definition repro_name (args : Args) (idx : nat) : string :=
  id args +:+ "." +:+ of_u64 (Z.of_nat idx) +:+ ".repro.c".
Definition fetch_syz_crash (args : Args) (crash : SyzCrash) (idx : nat) (now : Z) (f : fs) : run fs :=
  f ← fetch_syz_url args (kernel_config crash) (kconfig_name args idx) now f;
  match c_reproducer crash with
  | Some r => fetch_syz_url args r (repro_name args idx) now f
  | None => Ok f
  end.
Fixpoint fetch_all (args : Args) (l : list SyzCrash) (idx : nat) (now : Z) (f : fs) : run fs :=
  match l with
  | [] => Ok f
  | crash :: l => f ← fetch_syz_crash args crash idx now f; fetch_all args l (S idx) now f
  end.
Definition main (args : Args) (now : Z) (f : fs) : run fs :=
  bug_json ← get_syz_url ("/bug?json=1&extid=" +:+ id args);
  bug ← unwrap (parse_bug bug_json);
  let f := (create_dir_all f now (output args)).1 in
  match idx args with
  | Some idx => crash ← unwrap (crashes bug !! idx); fetch_syz_crash args crash idx now f
  | None => fetch_all args (crashes bug) 0 now f
  end.

(** ** Nothing that is there changes *)
Lemma resolve_mono n f f' p v :
  f ⊆ f' → f !! resolve_fuel n f p = Some v → resolve_fuel n f' p = resolve_fuel n f p.
Proof.
  intros Hf. revert p. induction n as [|n IH]; intros p Hp; [done|]. cbn [resolve_fuel] in *.
  destruct (f !! p) as [w|] eqn:E; [|congruence].
  rewrite (lookup_weaken _ _ _ _ E Hf). destruct w; [done..|]. by apply IH.
Qed.
Lemma exists_mono f f' p : f ⊆ f' → exists_ f p = true → exists_ f' p = true.
Proof.
  unfold exists_, resolve. intros Hf Hp. destruct (f !! resolve_fuel 40 f p) as [v|] eqn:E; [|done].
  rewrite (resolve_mono _ _ _ _ _ Hf E), (lookup_weaken _ _ _ _ E Hf). done.
Qed.
Lemma dir_node_mono f f' p : f ⊆ f' → dir_node f p = true → dir_node f' p = true.
Proof.
  intros Hf. unfold dir_node. destruct p as [|c p]; [done|]. destruct (f !! (c :: p)) as [v|] eqn:E; [|done].
  by rewrite (lookup_weaken _ _ _ _ E Hf).
Qed.
Lemma write_mono f now p d : exists_ f p = false → f ⊆ (write f now p d).1.
Proof.
  intros He. unfold write. destruct (create f now p) as [f1 []] eqn:Ec; cbn [fst].
  2: by apply create_false in Ec as ->.
  pose proof Ec as Ec'. apply create_true in Ec as [-> Hr].
  assert (f !! resolve f p = None) as Hn.
  { unfold exists_ in He. unfold create in Ec'. destruct (f !! resolve f p) as [[]|]; try done.
    by destruct (_ || _). }
  unfold write_all. rewrite Hr. destruct (io_short _); cbn [fst];
    rewrite insert_insert_eq; by apply insert_subseteq.
Qed.
Lemma create_dirs_mono f now base rest : f ⊆ (create_dirs f now base rest).1.
Proof.
  revert f base. induction rest as [|c rest IH]; intros f base; [done|]. cbn [create_dirs].
  destruct (f !! (base ++ [c])) as [[]|] eqn:E; [done|apply IH|destruct (is_dir _ _); [apply IH|done]|].
  destruct (io_denied _); [done|]. etrans; [|apply IH]. by apply insert_subseteq.
Qed.
Lemma fetch_url_mono args url n now f f' : fetch_syz_url args url n now f = Ok f' → f ⊆ f'.
Proof.
  unfold fetch_syz_url. destruct (exists_ f _) eqn:E; [by intros [= ->]|].
  intros (text & _ & [= <-])%outcome_bind_Ok. by apply write_mono.
Qed.
Lemma fetch_crash_mono args crash i now f f' : fetch_syz_crash args crash i now f = Ok f' → f ⊆ f'.
Proof.
  unfold fetch_syz_crash. intros (f1 & H1%fetch_url_mono & H2)%outcome_bind_Ok.
  destruct (c_reproducer crash); [|by simplify_eq]. apply fetch_url_mono in H2. by etrans.
Qed.
Lemma fetch_all_mono args l i now f f' : fetch_all args l i now f = Ok f' → f ⊆ f'.
Proof.
  revert i f. induction l as [|crash l IH]; intros i f H; cbn [fetch_all] in H; [by simplify_eq|].
  apply outcome_bind_Ok in H as (f1 & H1%fetch_crash_mono & H2%IH). by etrans.
Qed.

(** ** What was asked for is there *)
(** The output directory can be written to. *)
Record writable (out : path) (f : fs) : Prop := {
  wr_dir : dir_node f out = true;
  wr_link n t : f !! (out ++ [n]) ≠ Some (NSymlink t);
  wr_io n : io_denied (out ++ [n]) = false ∧ io_short (out ++ [n]) = None
}.
(** A file of the run: it is there, and if there was nothing by its name, it
    holds the text at its address. *)
Definition fetched (args : Args) (now : Z) (f f' : fs) (n url : string) : Prop :=
  exists_ f' (output args ++ [n]) = true ∧
  (f !! (output args ++ [n]) = None →
   ∃ text, get_text ("https://syzkaller.appspot.com" +:+ url) = Some text ∧
     f' !! (output args ++ [n]) = Some (NFile text now)).
Lemma fetch_url_spec args url n now f f' :
  writable (output args) f → plain_name n → fetch_syz_url args url n now f = Ok f' →
  writable (output args) f' ∧ fetched args now f f' n url ∧
  ∀ q, q ≠ output args ++ [n] → f' !! q = f !! q.
Proof.
  intros [W1 W2 W3] Hn. unfold fetch_syz_url, fetched. rewrite path_join_plain by done. set (p := output args ++ [n]).
  assert (resolve f p = p) as Hr by (apply resolve_not_link; intros; apply W2).
  destruct (exists_ f p) eqn:E.
  { intros [= <-]. split; [done|]. split; [|done]. split; [done|]. intros Hp. exfalso.
    unfold exists_ in E. by rewrite Hr, Hp in E. }
  intros (text & Ht & [= <-])%outcome_bind_Ok. destruct (W3 n) as [Hd Hs].
  assert (f !! p = None) as Hnone.
  { unfold exists_ in E. rewrite Hr in E. destruct (f !! p) as [[d s|s|s]|] eqn:Ep; try done. by destruct (W2 n s). }
  assert (write f now p text = (<[p := NFile text now]> f, true)) as ->.
  { unfold write, create. rewrite Hr. unfold p at 1 2. rewrite Hd, parent_snoc, W1, Hnone. cbn [orb negb].
    unfold write_all. rewrite (resolve_not_link _ p) by (intros; rewrite lookup_insert_eq; done).
    unfold p at 1. rewrite Hs. by rewrite insert_insert_eq. }
  cbn [fst]. split_and!; [split| | |].
  - eapply dir_node_mono; [|exact W1]. by apply insert_subseteq.
  - intros m t. destruct (decide (output args ++ [m] = p)) as [->|Hne].
    + by rewrite lookup_insert_eq.
    + by rewrite lookup_insert_ne.
  - done.
  - unfold exists_. rewrite (resolve_not_link _ p) by (intros; rewrite lookup_insert_eq; done).
    by rewrite lookup_insert_eq.
  - intros _. exists text. rewrite lookup_insert_eq. split; [|done].
    unfold get_syz_url, unwrap in Ht. by destruct (get_text _); simplify_eq.
  - intros q Hq. by rewrite lookup_insert_ne.
Qed.

(** The names of the files. *)
Lemma name_plain args i s :
  plain_name (id args) → s ≠ "" → contains_char s "/" = false →
  plain_name (id args +:+ "." +:+ of_u64 (Z.of_nat i) +:+ s).
Proof.
  intros (Hne & Hdot & Hc) Hs Hsc. destruct (id args) as [|a t] eqn:E; [done|].
  split; [done|]. split.
  - rewrite str_app_cons. intros [= -> Heq]. apply (f_equal String.length) in Heq.
    rewrite !str_length_app in Heq. cbn in Heq. lia.
  - by rewrite !contains_char_app, Hc, of_u64_no_slash, Hsc.
Qed.
Lemma str_app_inv_head p s t : p +:+ s = p +:+ t → s = t.
Proof. induction p as [|c p IH]; [done|]. rewrite !str_app_cons. intros [= H]. auto. Qed.
Lemma name_inj args i j s :
  id args +:+ "." +:+ of_u64 (Z.of_nat i) +:+ s = id args +:+ "." +:+ of_u64 (Z.of_nat j) +:+ s → i = j.
Proof.
  intros H%str_app_inv_head%str_app_inv_head%str_app_inv_tail. unfold of_u64 in H.
  apply (inj pretty) in H. lia.
Qed.
Lemma kconfig_ne_repro args i j : kconfig_name args i ≠ repro_name args j.
Proof.
  unfold kconfig_name, repro_name. intros H%(f_equal last_char). rewrite <-!str_app_assoc in H.
  by rewrite !last_char_app in H.
Qed.
Definition crash_name (args : Args) (i : nat) (n : string) : Prop := n = kconfig_name args i ∨ n = repro_name args i.
Lemma crash_name_inj args i j n : crash_name args i n → crash_name args j n → i = j.
Proof.
  intros [-> | ->] [H|H].
  - by apply name_inj in H.
  - by apply kconfig_ne_repro in H.
  - symmetry in H. by apply kconfig_ne_repro in H.
  - by apply name_inj in H.
Qed.

(** The files of a crash. *)
Definition crash_fetched (args : Args) (now : Z) (f f' : fs) (crash : SyzCrash) (i : nat) : Prop :=
  fetched args now f f' (kconfig_name args i) (kernel_config crash) ∧
  ∀ r, c_reproducer crash = Some r → fetched args now f f' (repro_name args i) r.
Lemma fetched_later args now f f1 f' n url :
  f1 ⊆ f' → fetched args now f f1 n url → fetched args now f f' n url.
Proof.
  intros Hs [He Ht]. split; [by eapply exists_mono|]. intros Hn. destruct (Ht Hn) as (text & ? & Hf).
  exists text. split; [done|]. by eapply lookup_weaken.
Qed.
Lemma fetched_earlier args now f f1 f' n url :
  f1 !! (output args ++ [n]) = f !! (output args ++ [n]) →
  fetched args now f1 f' n url → fetched args now f f' n url.
Proof. intros Hs [He Ht]. split; [done|]. rewrite <-Hs. exact Ht. Qed.
Lemma fetch_crash_spec args crash i now f f' :
  writable (output args) f → plain_name (id args) → fetch_syz_crash args crash i now f = Ok f' →
  writable (output args) f' ∧ crash_fetched args now f f' crash i ∧
  ∀ n, ¬ crash_name args i n → f' !! (output args ++ [n]) = f !! (output args ++ [n]).
Proof.
  intros Hw Hid H. apply outcome_bind_Ok in H as (f1 & H1 & H2).
  destruct (fetch_url_spec args _ _ now f f1 Hw (name_plain args i ".kconfig" Hid ltac:(done) ltac:(done)) H1)
    as (Hw1 & He1 & Hf1). unfold crash_fetched, crash_name.
  assert (∀ n m, n ≠ m → output args ++ [n] ≠ output args ++ [m]) as Hp by (intros n m Hne [=]%(inj (app _)); congruence).
  destruct (c_reproducer crash) as [r|].
  - pose proof (fetch_url_mono _ _ _ _ _ _ H2) as Hmono.
    destruct (fetch_url_spec args _ _ now f1 f' Hw1 (name_plain args i ".repro.c" Hid ltac:(done) ltac:(done)) H2)
      as (Hw2 & He2 & Hf2).
    split; [done|]. split; [split; [by eapply fetched_later|]|].
    + intros r' [= <-]. eapply fetched_earlier; [|exact He2]. apply Hf1, Hp.
      intros H. symmetry in H. by apply kconfig_ne_repro in H.
    + intros n Hn. rewrite Hf2, Hf1; [done|apply Hp; tauto..].
  - injection H2 as <-. split; [done|]. split; [done|]. intros n Hn. apply Hf1, Hp. tauto.
Qed.
Lemma fetch_all_spec args l i now f f' :
  writable (output args) f → plain_name (id args) → fetch_all args l i now f = Ok f' →
  (∀ j crash, l !! j = Some crash → crash_fetched args now f f' crash (i + j)) ∧
  ∀ n, (∀ j, i ≤ j → ¬ crash_name args j n) → f' !! (output args ++ [n]) = f !! (output args ++ [n]).
Proof.
  intros Hw Hid. revert i f Hw. induction l as [|c l IH]; intros i f Hw H.
  { cbn [fetch_all] in H. injection H as <-. done. }
  cbn [fetch_all] in H. apply outcome_bind_Ok in H as (f1 & H1 & H2).
  destruct (fetch_crash_spec _ _ _ _ _ _ Hw Hid H1) as (Hw1 & [Hk Hr] & Hf1).
  destruct (IH (S i) f1 Hw1 H2) as [Hall Hf2]. pose proof (fetch_all_mono _ _ _ _ _ _ H2) as Hmono. split.
  - intros [|j] crash Hj; cbn in Hj.
    + injection Hj as ->. rewrite Nat.add_0_r. split; [by eapply fetched_later|].
      intros r Hr'. eapply fetched_later; [done|]. by apply Hr.
    + specialize (Hall j crash Hj). rewrite <-plus_n_Sm. cbn [Nat.add] in Hall. destruct Hall as [Ha Hb].
      assert (∀ n, crash_name args (S (i + j)) n → ¬ crash_name args i n) as Hne.
      { intros n Hn Hn'. pose proof (crash_name_inj _ _ _ _ Hn Hn'). lia. }
      split; [|intros r Hr'; specialize (Hb r Hr')].
      * eapply fetched_earlier; [|exact Ha]. apply Hf1, Hne. by left.
      * eapply fetched_earlier; [|exact Hb]. apply Hf1, Hne. by right.
  - intros n Hn. rewrite Hf2, Hf1; [done| |]; [apply Hn; lia|]. intros j Hj. apply Hn. lia.
Qed.

(** C40: a run that ends has changed nothing that was there, whatever the disk
    and the network do; and when the output directory can be written to, then
    for every crash asked for, [<id>.<i>.kconfig] is there, and
    [<id>.<i>.repro.c] if it has a C reproducer. One that was not there before
    the run holds the text of that crash's own kernel configuration, or
    reproducer, as the site gives it. *)
Theorem main_correct args now f f' :
  main args now f = Ok f' →
  let g := (create_dir_all f now (output args)).1 in
  f ⊆ f' ∧
  (writable (output args) g → plain_name (id args) →
   ∃ bug_json bug, get_text ("https://syzkaller.appspot.com/bug?json=1&extid=" +:+ id args) = Some bug_json ∧
     parse_bug bug_json = Some bug ∧
     ∀ i crash, crashes bug !! i = Some crash → (idx args = None ∨ idx args = Some i) →
     ∀ suffix url, (suffix = ".kconfig" ∧ url = kernel_config crash) ∨
                   (suffix = ".repro.c" ∧ c_reproducer crash = Some url) →
       let p := output args ++ [id args +:+ "." +:+ of_u64 (Z.of_nat i) +:+ suffix] in
       exists_ f' p = true ∧
       (g !! p = None → ∃ text, get_text ("https://syzkaller.appspot.com" +:+ url) = Some text ∧
                                f' !! p = Some (NFile text now))).
Proof.
  intros H g. unfold main in H. apply outcome_bind_Ok in H as (bug_json & Hg & H).
  apply outcome_bind_Ok in H as (bug & Hb & H).
  pose proof (create_dirs_mono f now [] (output args)) as Hdir. fold (create_dir_all f now (output args)) in Hdir.
  fold g in Hdir, H.
  assert (g ⊆ f') as Hf.
  { destruct (idx args); [|by eapply fetch_all_mono].
    apply outcome_bind_Ok in H as (crash & _ & H). by eapply fetch_crash_mono. }
  split; [by etrans|]. intros Hw Hid. exists bug_json, bug.
  unfold get_syz_url, unwrap in Hg, Hb.
  split; [by destruct (get_text _); simplify_eq|]. split; [by destruct (parse_bug _); simplify_eq|].
  intros i crash Hi Hidx. assert (crash_fetched args now g f' crash i) as [Hk Hr].
  { destruct (idx args) as [j|].
    - destruct Hidx as [|[= ->]]; [done|]. rewrite Hi in H. cbn in H.
      by apply (fetch_crash_spec _ _ _ _ _ _ Hw Hid H).
    - by apply (fetch_all_spec _ _ _ _ _ _ Hw Hid H). }
  intros suffix url [[-> ->]|[-> Hrep]]; [exact Hk|exact (Hr url Hrep)].
Qed.
End syzbot.

(** ** A concrete run *)
Definition demo_crash : SyzCrash := mkCrash "BUG" None (Some "/repro") "/config" "" "" "" "" "".
Definition demo_syz : Syz := {|
  get_text u := Some u; parse_bug _ := Some (mkBug 1 "BUG" "abc" [] [demo_crash])
|}.
Section witnesses.
#[local] Existing Instance plain_os.
#[local] Existing Instance demo_syz.
Definition demo_args : Args := mkArgs "abc" None ["out"] false.
Definition demo_run : outcome Empty_set fs := main demo_args 1 {[ ["out"] := NDir 0 ]}.
Lemma demo_writable : writable ["out"] (create_dir_all {[ ["out"] := NDir 0 ]} 1 ["out"]).1.
Proof.
  change (writable ["out"] {[ ["out"] := NDir 0 ]}). split; [reflexivity| |done].
  intros n t Hn. by apply lookup_singleton_Some in Hn as [? _].
Qed.
Lemma main_correct_witness :
  ∃ f', demo_run = Ok f' ∧ {[ ["out"] := NDir 0 ]} ⊆ f' ∧
    f' !! ["out"; "abc.0.repro.c"] = Some (NFile "https://syzkaller.appspot.com/repro" 1).
Proof.
  assert (is_ok demo_run = true) as Hok by computed.
  destruct demo_run as [f'|[]|] eqn:E; [|discriminate Hok].
  destruct (main_correct demo_args 1 {[ ["out"] := NDir 0 ]} f' E) as [Hsub Hall].
  exists f'. split; [reflexivity|]. split; [exact Hsub|].
  destruct (Hall demo_writable) as (json & bug & _ & Hb & Hf); [by split_and!|].
  injection Hb as <-.
  destruct (Hf 0 demo_crash eq_refl (or_introl eq_refl) ".repro.c" "/repro") as [_ Ht]; [by right|].
  destruct Ht as (text & Ht & Hp); [computed|]. injection Ht as <-. exact Hp.
Defined.
End witnesses.
End Syzbot.
